(** * The generic disk layer of GRUB: grub-core/kern/disk.c

    A shallow embedding of the sector cache, the partition walker, the
    name splitter, [grub_disk_open], [grub_disk_read] and
    [grub_disk_write], followed by the properties proved about them.

    Integers of the C program are values of [Z]; every place where the C
    arithmetic wraps or truncates is written out with [wrap].  The cache
    table is a list indexed by [grub_disk_cache_get_index].  Globals
    ([grub_errno], the cache table, [grub_last_time], the driver list) are
    fields of an explicit [state] that every function threads. *)

From Stdlib Require Import ZArith Lia List Bool String Ascii.
From Stdlib Require Import Strings.Byte.
From stdpp Require Import base tactics option list.

Local Open Scope Z_scope.

(** ** Platform constants

    [include/grub/disk.h] and [include/grub/types.h] are not part of the
    sources at hand, so what they fix is taken as a parameter: the log2 of
    the cluster size [GRUB_DISK_CACHE_BITS], the number of cache slots
    [GRUB_DISK_CACHE_NUM], and the widths of [unsigned long] and of
    [grub_size_t].  [grub_disk_addr_t], [grub_off_t] and [grub_uint64_t]
    are 64 bits wide and [unsigned] is 32 bits wide on every platform. *)

Class Platform := {
  GRUB_DISK_CACHE_BITS : Z;
  GRUB_DISK_CACHE_NUM : Z;
  LONG_BITS : Z;
  SIZE_BITS : Z
}.

(** The constraints the C code relies on: the shifts of [int] constants do
    not overflow, the table is not empty and its size fits [unsigned]. *)
Definition platform_ok (P : Platform) : bool :=
  (0 <=? GRUB_DISK_CACHE_BITS) && (GRUB_DISK_CACHE_BITS <=? 21)
  && (0 <? GRUB_DISK_CACHE_NUM) && (GRUB_DISK_CACHE_NUM <? 2 ^ 32)
  && ((LONG_BITS =? 32) || (LONG_BITS =? 64))
  && ((SIZE_BITS =? 32) || (SIZE_BITS =? 64)).

(** The values GRUB uses on a 64-bit target (disk.h: cache of 1021
    clusters of 64 sectors). *)
Definition grub_x86_64 : Platform :=
  {| GRUB_DISK_CACHE_BITS := 6; GRUB_DISK_CACHE_NUM := 1021;
     LONG_BITS := 64; SIZE_BITS := 64 |}.

(** The same cache on a 32-bit target. *)
Definition grub_i386 : Platform :=
  {| GRUB_DISK_CACHE_BITS := 6; GRUB_DISK_CACHE_NUM := 1021;
     LONG_BITS := 32; SIZE_BITS := 32 |}.

(** A small cache for examples: clusters of 8 sectors (4096 bytes). *)
Definition grub_small : Platform :=
  {| GRUB_DISK_CACHE_BITS := 3; GRUB_DISK_CACHE_NUM := 1021;
     LONG_BITS := 64; SIZE_BITS := 64 |}.

(** ** Machine integers *)

(** The value an unsigned [bits]-wide C integer holds after an operation
    whose exact result is [x]. *)
Definition wrap (bits x : Z) : Z := x mod 2 ^ bits.

Definition u64 (x : Z) : Z := wrap 64 x.
Definition u32 (x : Z) : Z := wrap 32 x.

Definition GRUB_DISK_SECTOR_BITS : Z := 9.
Definition GRUB_DISK_SECTOR_SIZE : Z := 512.
Definition GRUB_DISK_SIZE_UNKNOWN : Z := 2 ^ 64 - 1.
Definition GRUB_CACHE_TIMEOUT : Z := 2.

(** ** Error codes ([grub_err_t]) *)

Inductive grub_err_t :=
| GRUB_ERR_NONE
| GRUB_ERR_OUT_OF_MEMORY
| GRUB_ERR_UNKNOWN_DEVICE
| GRUB_ERR_OUT_OF_RANGE
| GRUB_ERR_NOT_IMPLEMENTED_YET
| GRUB_ERR_READ_ERROR
| GRUB_ERR_WRITE_ERROR
| GRUB_ERR_CODE (n : Z).

Definition is_err (e : grub_err_t) : bool :=
  match e with GRUB_ERR_NONE => false | _ => true end.

Definition is_unknown_device (e : grub_err_t) : bool :=
  match e with GRUB_ERR_UNKNOWN_DEVICE => true | _ => false end.

(** ** The sector cache *)

(** [struct grub_disk_cache].  The field [dev_id] is an
    [enum grub_disk_dev_id], the class of a driver; the model keeps the
    class it is given, which is the C value for every class in the range
    of the enum (the theorems about keys that are not taken from a driver
    say so). *)
Record grub_disk_cache := {
  c_dev_id : Z;
  c_disk_id : Z;
  c_sector : Z;
  c_data : option (list byte);
  c_lock : bool
}.

(** A slot of the zero-initialised static table. *)
Definition zero_cache : grub_disk_cache :=
  {| c_dev_id := 0; c_disk_id := 0; c_sector := 0;
     c_data := None; c_lock := false |}.

Definition set_data (c : grub_disk_cache) (d : option (list byte)) :=
  {| c_dev_id := c_dev_id c; c_disk_id := c_disk_id c;
     c_sector := c_sector c; c_data := d; c_lock := c_lock c |}.

Definition set_lock (c : grub_disk_cache) (l : bool) :=
  {| c_dev_id := c_dev_id c; c_disk_id := c_disk_id c;
     c_sector := c_sector c; c_data := c_data c; c_lock := l |}.

Definition has_data (c : grub_disk_cache) : bool :=
  match c_data c with Some _ => true | None => false end.

(** [cache->dev_id == dev_id && cache->disk_id == disk_id
     && cache->sector == sector] *)
Definition key_match (c : grub_disk_cache) (dev_id disk_id sector : Z) : bool :=
  (c_dev_id c =? dev_id) && (c_disk_id c =? disk_id) && (c_sector c =? sector).

(** [grub_disk_cache_table + index] *)
Definition slot (tbl : list grub_disk_cache) (index : Z) : grub_disk_cache :=
  default zero_cache (tbl !! Z.to_nat index).

Definition set_slot (tbl : list grub_disk_cache) (index : Z)
    (c : grub_disk_cache) : list grub_disk_cache :=
  <[Z.to_nat index := c]> tbl.

Section Cache.
Context {P : Platform}.

Definition GRUB_DISK_CACHE_SIZE : Z := Z.shiftl 1 GRUB_DISK_CACHE_BITS.

(** Bytes of one cluster:
    [GRUB_DISK_SECTOR_SIZE << GRUB_DISK_CACHE_BITS]. *)
Definition cluster_bytes : Z := Z.shiftl GRUB_DISK_SECTOR_SIZE GRUB_DISK_CACHE_BITS.

Definition ulong (x : Z) : Z := wrap LONG_BITS x.
Definition usize (x : Z) : Z := wrap SIZE_BITS x.

(** The table at program start. *)
Definition empty_table : list grub_disk_cache :=
  replicate (Z.to_nat GRUB_DISK_CACHE_NUM) zero_cache.

(** [grub_disk_cache_get_index]: the products and sums are [unsigned long],
    the shifted sector is cast to [unsigned], the result is [unsigned]. *)
Definition grub_disk_cache_get_index (dev_id disk_id sector : Z) : Z :=
  u32 (ulong (ulong (ulong (dev_id * 524287) + ulong (disk_id * 2606459))
              + u32 (Z.shiftr sector GRUB_DISK_CACHE_BITS))
       mod GRUB_DISK_CACHE_NUM).

(** [sector &= ~(GRUB_DISK_CACHE_SIZE - 1)] *)
Definition cluster_start (sector : Z) : Z :=
  Z.land sector (Z.lnot (GRUB_DISK_CACHE_SIZE - 1)).

(** [grub_disk_cache_invalidate] *)
Definition grub_disk_cache_invalidate (tbl : list grub_disk_cache)
    (dev_id disk_id sector : Z) : list grub_disk_cache :=
  let sector := cluster_start sector in
  let index := grub_disk_cache_get_index dev_id disk_id sector in
  let cache := slot tbl index in
  if key_match cache dev_id disk_id sector && has_data cache then
    (* cache->lock = 1; grub_free (cache->data); cache->data = 0;
       cache->lock = 0; *)
    set_slot tbl index (set_lock (set_data (set_lock cache true) None) false)
  else tbl.

(** The loop of [grub_disk_cache_invalidate_all], [n] slots from [i] on. *)
Fixpoint invalidate_all_from (n : nat) (i : Z) (tbl : list grub_disk_cache)
    : list grub_disk_cache :=
  match n with
  | O => tbl
  | S n' =>
      let cache := slot tbl i in
      let tbl' :=
        if has_data cache && negb (c_lock cache)
        then set_slot tbl i (set_data cache None)
        else tbl in
      invalidate_all_from n' (i + 1) tbl'
  end.

(** [grub_disk_cache_invalidate_all] *)
Definition grub_disk_cache_invalidate_all (tbl : list grub_disk_cache)
    : list grub_disk_cache :=
  invalidate_all_from (Z.to_nat GRUB_DISK_CACHE_NUM) 0 tbl.

(** [grub_disk_cache_fetch]: the borrowed buffer (or NULL) and the table. *)
Definition grub_disk_cache_fetch (tbl : list grub_disk_cache)
    (dev_id disk_id sector : Z) : option (list byte) * list grub_disk_cache :=
  let index := grub_disk_cache_get_index dev_id disk_id sector in
  let cache := slot tbl index in
  if key_match cache dev_id disk_id sector then
    (c_data cache, set_slot tbl index (set_lock cache true))
  else (None, tbl).

(** [grub_disk_cache_unlock] *)
Definition grub_disk_cache_unlock (tbl : list grub_disk_cache)
    (dev_id disk_id sector : Z) : list grub_disk_cache :=
  let index := grub_disk_cache_get_index dev_id disk_id sector in
  let cache := slot tbl index in
  if key_match cache dev_id disk_id sector then
    set_slot tbl index (set_lock cache false)
  else tbl.

(** The static table has [GRUB_DISK_CACHE_NUM] slots. *)
Definition table_ok (tbl : list grub_disk_cache) : Prop :=
  length tbl = Z.to_nat GRUB_DISK_CACHE_NUM.

(** The cache holds the cluster that starts at [sector] of the disk
    [(dev_id, disk_id)]: the slot the key hashes to matches the key and is
    occupied, so that a fetch of the key hits. *)
Definition cached (tbl : list grub_disk_cache) (dev_id disk_id sector : Z)
    : bool :=
  let cache := slot tbl (grub_disk_cache_get_index dev_id disk_id sector) in
  key_match cache dev_id disk_id sector && has_data cache.

End Cache.

(** ** Buffers *)

(** Uninitialised memory of [n] bytes (what [grub_malloc] or a local array
    hands out); the model fills it with zero bytes. *)
Definition fresh_buf (n : Z) : list byte := replicate (Z.to_nat n) x00.

(** [grub_memcpy (dst + pos, src, n)], kept inside [dst]. *)
Definition memcpy (dst : list byte) (pos : Z) (src : list byte) (n : Z)
    : list byte :=
  let src := take (Z.to_nat n) src in
  if (0 <=? pos) && (pos + Z.of_nat (length src) <=? Z.of_nat (length dst))
  then take (Z.to_nat pos) dst ++ src
       ++ drop (Z.to_nat pos + length src) dst
  else dst.

(** The bytes at [p + off] on, for a pointer [p] into [l]. *)
Definition from (off : Z) (l : list byte) : list byte := drop (Z.to_nat off) l.

(** ** Partitions, drivers, disk handles *)

(** A node of the partition chain; the chain itself is the list from the
    innermost partition to the outermost ([part->parent]). *)
Record grub_partition := { p_start : Z; p_len : Z }.

(** The fields of [struct grub_disk] a driver's [open] fills in and its
    other entry points read. *)
Record disk_geom := {
  g_id : Z;
  g_total_sectors : Z;
  g_log_sector_size : Z
}.

(** What is observable of a run: the calls into the drivers, into the
    partition prober and into the read hook, and the cache invalidations
    of the write path, oldest first. *)
Inductive event :=
| EvOpen (dev_id : Z) (raw : string) (err : grub_err_t)
| EvClose (dev_id : Z)
| EvProbe (spec : string)
| EvRead (sector n : Z) (err : grub_err_t)
| EvWrite (sector n : Z) (data : list byte) (err : grub_err_t)
| EvHook (s o cl : Z)
| EvInvalidate (dev_id disk_id sector : Z).

Section Disk.
Context {P : Platform}.
(** The devices behind the drivers. *)
Context {world : Type}.

(** [struct grub_disk_dev]: the class id and the entry points.  A driver
    is a function of the devices; it yields its return code, what it wrote
    through its pointer arguments, and the devices afterwards. *)
Record grub_disk_dev := {
  dev_id : Z;
  dev_open : string -> disk_geom -> world -> grub_err_t * disk_geom * world;
  dev_close : disk_geom -> world -> world;
  dev_read : disk_geom -> Z -> Z -> world -> grub_err_t * list byte * world;
  dev_write : disk_geom -> Z -> Z -> list byte -> world -> grub_err_t * world
}.

(** [struct grub_disk] of an open disk. *)
Record grub_disk := {
  name : string;
  dev : grub_disk_dev;
  total_sectors : Z;
  log_sector_size : Z;
  id : Z;
  partition : list grub_partition;
  read_hook : bool
}.

Definition geom_of (disk : grub_disk) : disk_geom :=
  {| g_id := id disk; g_total_sectors := total_sectors disk;
     g_log_sector_size := log_sector_size disk |}.

(** [disk->partition = part] *)
Definition set_partition (disk : grub_disk) (part : list grub_partition) :=
  {| name := name disk; dev := dev disk; total_sectors := total_sectors disk;
     log_sector_size := log_sector_size disk; id := id disk;
     partition := part; read_hook := read_hook disk |}.

(** The globals of disk.c and of the modules it calls. *)
Record state := {
  grub_errno : grub_err_t;
  grub_errmsg : string;
  grub_disk_cache_table : list grub_disk_cache;
  grub_last_time : Z;
  grub_disk_dev_list : list grub_disk_dev;
  (** the allocator: [true] at the head makes the next allocation fail *)
  mm_fail : list bool;
  (** what [grub_get_time_ms] returns *)
  time_ms : Z;
  devices : world;
  trace : list event
}.

Definition set_errno (st : state) (e : grub_err_t) : state :=
  {| grub_errno := e; grub_errmsg := grub_errmsg st;
     grub_disk_cache_table := grub_disk_cache_table st;
     grub_last_time := grub_last_time st;
     grub_disk_dev_list := grub_disk_dev_list st; mm_fail := mm_fail st;
     time_ms := time_ms st; devices := devices st; trace := trace st |}.

Definition set_errmsg (st : state) (m : string) : state :=
  {| grub_errno := grub_errno st; grub_errmsg := m;
     grub_disk_cache_table := grub_disk_cache_table st;
     grub_last_time := grub_last_time st;
     grub_disk_dev_list := grub_disk_dev_list st; mm_fail := mm_fail st;
     time_ms := time_ms st; devices := devices st; trace := trace st |}.

Definition set_table (st : state) (tbl : list grub_disk_cache) : state :=
  {| grub_errno := grub_errno st; grub_errmsg := grub_errmsg st;
     grub_disk_cache_table := tbl;
     grub_last_time := grub_last_time st;
     grub_disk_dev_list := grub_disk_dev_list st; mm_fail := mm_fail st;
     time_ms := time_ms st; devices := devices st; trace := trace st |}.

Definition set_last_time (st : state) (t : Z) : state :=
  {| grub_errno := grub_errno st; grub_errmsg := grub_errmsg st;
     grub_disk_cache_table := grub_disk_cache_table st;
     grub_last_time := t;
     grub_disk_dev_list := grub_disk_dev_list st; mm_fail := mm_fail st;
     time_ms := time_ms st; devices := devices st; trace := trace st |}.

Definition set_mm_fail (st : state) (m : list bool) : state :=
  {| grub_errno := grub_errno st; grub_errmsg := grub_errmsg st;
     grub_disk_cache_table := grub_disk_cache_table st;
     grub_last_time := grub_last_time st;
     grub_disk_dev_list := grub_disk_dev_list st; mm_fail := m;
     time_ms := time_ms st; devices := devices st; trace := trace st |}.

Definition set_devices (st : state) (w : world) : state :=
  {| grub_errno := grub_errno st; grub_errmsg := grub_errmsg st;
     grub_disk_cache_table := grub_disk_cache_table st;
     grub_last_time := grub_last_time st;
     grub_disk_dev_list := grub_disk_dev_list st; mm_fail := mm_fail st;
     time_ms := time_ms st; devices := w; trace := trace st |}.

(** Append an event to the trace. *)
Definition log (st : state) (e : event) : state :=
  {| grub_errno := grub_errno st; grub_errmsg := grub_errmsg st;
     grub_disk_cache_table := grub_disk_cache_table st;
     grub_last_time := grub_last_time st;
     grub_disk_dev_list := grub_disk_dev_list st; mm_fail := mm_fail st;
     time_ms := time_ms st; devices := devices st;
     trace := trace st ++ [e] |}.

(** Modelled from the spec: [grub_error] (kern/err.c is not among the
    sources).  It records the code in [grub_errno] and the formatted
    message, and returns the code. *)
Definition grub_error (st : state) (e : grub_err_t) (msg : string)
    : grub_err_t * state :=
  (e, set_errmsg (set_errno st e) msg).

(** Modelled from the spec: [grub_malloc], [grub_zalloc] and [grub_strdup]
    (kern/mm.c is not among the sources).  An allocation either succeeds
    or returns NULL with [GRUB_ERR_OUT_OF_MEMORY] left in [grub_errno],
    which is what the callers in disk.c return through
    [return grub_errno]. *)
Definition grub_malloc (st : state) : bool * state :=
  match mm_fail st with
  | true :: rest =>
      (false, snd (grub_error (set_mm_fail st rest) GRUB_ERR_OUT_OF_MEMORY
                     "out of memory"))
  | false :: rest => (true, set_mm_fail st rest)
  | [] => (true, st)
  end.

(** Modelled from the spec: a driver entry point that fails reports its
    error with [grub_error], so the code it returns is also the value of
    [grub_errno]; one that succeeds leaves [grub_errno] alone. *)
Definition driver_result (st : state) (err : grub_err_t) : state :=
  if is_err err then set_errno st err else st.

(** [(disk->dev->read) (disk, sector, n, buf)]: the return code, the bytes
    the driver put into the buffer, the state. *)
Definition disk_dev_read (st : state) (disk : grub_disk) (sector n : Z)
    : grub_err_t * list byte * state :=
  let '(err, data, w) :=
    dev_read (dev disk) (geom_of disk) sector n (devices st) in
  (err, data, driver_result (log (set_devices st w) (EvRead sector n err)) err).

(** [(disk->dev->write) (disk, sector, n, buf)] *)
Definition disk_dev_write (st : state) (disk : grub_disk) (sector n : Z)
    (data : list byte) : grub_err_t * state :=
  let '(err, w) :=
    dev_write (dev disk) (geom_of disk) sector n data (devices st) in
  (err, driver_result (log (set_devices st w) (EvWrite sector n data err)) err).

(** [grub_disk_cache_store].  [cache->dev_id = dev_id] converts the
    [unsigned long] argument to the enum of the slot; the model stores
    the argument, which is the same value for a class in the range of
    the enum. *)
Definition grub_disk_cache_store (st : state) (dev_id disk_id sector : Z)
    (data : list byte) : grub_err_t * state :=
  let tbl := grub_disk_cache_table st in
  let index := grub_disk_cache_get_index dev_id disk_id sector in
  let cache := slot tbl index in
  (* cache->lock = 1; grub_free (cache->data); cache->data = 0;
     cache->lock = 0; *)
  let cache := set_lock (set_data (set_lock cache true) None) false in
  let '(ok, st) := grub_malloc st in
  if negb ok then (grub_errno st, set_table st (set_slot tbl index cache))
  else
    let cache :=
      {| c_dev_id := dev_id; c_disk_id := disk_id; c_sector := sector;
         c_data := Some (memcpy (fresh_buf cluster_bytes) 0 data cluster_bytes);
         c_lock := c_lock cache |} in
    (GRUB_ERR_NONE, set_table st (set_slot tbl index cache)).

(** ** The name of a disk *)

Definition backslash : ascii := ascii_of_nat 92.
Definition comma : ascii := ascii_of_nat 44.

(** [find_part_sep], [i] being the index of the head of [name] in the
    whole string: the index of the separator, or NULL. *)
Fixpoint find_part_sep_from (i : nat) (name : string) : option nat :=
  match name with
  | EmptyString => None
  | String c rest =>
      if Ascii.eqb c backslash then
        match rest with
        | String c' rest' =>
            if Ascii.eqb c' comma then find_part_sep_from (S (S i)) rest'
            else find_part_sep_from (S i) rest
        | EmptyString => find_part_sep_from (S i) rest
        end
      else if Ascii.eqb c comma then Some i
      else find_part_sep_from (S i) rest
  end.

Definition find_part_sep (name : string) : option nat :=
  find_part_sep_from 0 name.

(** *** The separator in the words of the specification *)

(** The character before index [j] of [s]; [prev] stands before the
    string. *)
Definition char_before (prev : option ascii) (s : string) (j : nat)
    : option ascii :=
  match j with
  | O => prev
  | S j' => String.get j' s
  end.

(** Index [j] of [s] holds a comma that no backslash precedes. *)
Definition unescaped_comma (prev : option ascii) (s : string) (j : nat) : Prop :=
  String.get j s = Some comma /\ char_before prev s j <> Some backslash.

(** The first [n] characters of [s]:
    [grub_memcpy (raw, name, len); raw[len] = 0]. *)
Fixpoint prefix (n : nat) (s : string) : string :=
  match n, s with
  | S n', String c rest => String c (prefix n' rest)
  | _, _ => EmptyString
  end.

(** The characters of [s] from index [n] on: the C string at [s + n]. *)
Fixpoint suffix (n : nat) (s : string) : string :=
  match n, s with
  | S n', String _ rest => suffix n' rest
  | _, _ => s
  end.

(** ** The partition walker *)

(** The sectors a request needs, as the code counts them: offset plus
    size plus [GRUB_DISK_SECTOR_SIZE - 1], shifted right by
    [GRUB_DISK_SECTOR_BITS], the sum being 64-bit unsigned. *)
Definition sectors_needed (offset size : Z) : Z :=
  Z.shiftr (u64 (offset + size + GRUB_DISK_SECTOR_SIZE - 1))
           GRUB_DISK_SECTOR_BITS.

(** The [for (part = disk->partition; part; part = part->parent)] loop of
    [grub_disk_adjust_range]: whether the range is inside every partition
    (false: the loop left through the error return), and the sector. *)
Fixpoint adjust_partitions (parts : list grub_partition)
    (sector offset size : Z) : bool * Z :=
  match parts with
  | [] => (true, sector)
  | part :: parent =>
      let start := p_start part in
      let len := p_len part in
      if (len <=? sector)
         || (u64 (len - sector) <? sectors_needed offset size)
      then (false, sector)
      else adjust_partitions parent (u64 (sector + start)) offset size
  end.

(** [disk->total_sectors << (disk->log_sector_size - GRUB_DISK_SECTOR_BITS)] *)
Definition total_logical_sectors (disk : grub_disk) : Z :=
  u64 (Z.shiftl (total_sectors disk)
                (log_sector_size disk - GRUB_DISK_SECTOR_BITS)).

(** [grub_disk_adjust_range]: the return code, the sector and the offset it
    leaves behind its pointer arguments, and the state. *)
Definition grub_disk_adjust_range (st : state) (disk : grub_disk)
    (sector offset size : Z) : grub_err_t * Z * Z * state :=
  let sector := u64 (sector + Z.shiftr offset GRUB_DISK_SECTOR_BITS) in
  let offset := Z.land offset (GRUB_DISK_SECTOR_SIZE - 1) in
  let '(inside, sector) := adjust_partitions (partition disk) sector offset size in
  if negb inside then
    let '(e, st) :=
      grub_error st GRUB_ERR_OUT_OF_RANGE
        "attempt to read or write outside of partition" in
    (e, sector, offset, st)
  else if negb (total_sectors disk =? GRUB_DISK_SIZE_UNKNOWN)
          && ((total_logical_sectors disk <=? sector)
              || (u64 (total_logical_sectors disk - sector)
                  <? sectors_needed offset size))
  then
    let '(e, st) :=
      grub_error st GRUB_ERR_OUT_OF_RANGE
        ("attempt to read or write outside of disk `" ++ name disk ++ "'") in
    (e, sector, offset, st)
  else (GRUB_ERR_NONE, sector, offset, st).

(** *** The range check in the words of the specification

    The three definitions below follow the description of
    [adjust_range], not the code: they are what
    [grub_disk_adjust_range] is compared with. *)

(** Walking the chain from the innermost partition outwards, some
    partition has [sector >= part.len] or [part.len - sector < need]; the
    sector grows by each partition's start on the way. *)
Fixpoint partition_check_fails (parts : list grub_partition)
    (sector need : Z) : Prop :=
  match parts with
  | [] => False
  | part :: parent =>
      sector >= p_len part \/ p_len part - sector < need
      \/ partition_check_fails parent (u64 (sector + p_start part)) need
  end.

(** The device-absolute sector: each partition's start added in turn. *)
Fixpoint absolute_sector (parts : list grub_partition) (sector : Z) : Z :=
  match parts with
  | [] => sector
  | part :: parent => absolute_sector parent (u64 (sector + p_start part))
  end.

(** The same containment check against the whole disk, when its size is
    known: [total_sectors << (L - 9)] logical sectors. *)
Definition disk_check_fails (disk : grub_disk) (sector need : Z) : Prop :=
  total_sectors disk <> GRUB_DISK_SIZE_UNKNOWN
  /\ (sector >= total_logical_sectors disk
      \/ total_logical_sectors disk - sector < need).

(** Every length of the chain is a 64-bit unsigned value. *)
Definition partitions_ok (parts : list grub_partition) : Prop :=
  Forall (fun part => 0 <= p_len part < 2 ^ 64) parts.

(** [transform_sector] *)
Definition transform_sector (disk : grub_disk) (sector : Z) : Z :=
  Z.shiftr sector (log_sector_size disk - GRUB_DISK_SECTOR_BITS).

(** No allocation is scheduled to fail. *)
Definition allocs_succeed (st : state) : Prop :=
  Forall (fun b => b = false) (mm_fail st).

(** The calls of [open] that the drivers [tried] answer with
    [GRUB_ERR_UNKNOWN_DEVICE]. *)
Definition declined (raw : string) (tried : list grub_disk_dev) : list event :=
  map (fun d => EvOpen (dev_id d) raw GRUB_ERR_UNKNOWN_DEVICE) tried.

(** The device name [raw] and the partition name [spec] are what an
    event of [open] hands to a driver and to the partition prober. *)
Definition names_passed (raw : string) (spec : option string) (e : event)
    : Prop :=
  match e with
  | EvOpen _ r _ => r = raw
  | EvProbe s => spec = Some s
  | EvClose _ => True
  | _ => False
  end.

(** ** Opening and closing a disk *)

(** How the walk over [grub_disk_dev_list] ends: a driver opened the disk
    ([break]), the list ran out, or a driver failed with an error other
    than [GRUB_ERR_UNKNOWN_DEVICE] ([goto fail]). *)
Inductive walk_result :=
| WalkFound (d : grub_disk_dev)
| WalkNone
| WalkFail.

(** The [for (dev = grub_disk_dev_list; dev; dev = dev->next)] loop of
    [grub_disk_open]. *)
Fixpoint open_walk (devs : list grub_disk_dev) (raw : string) (g : disk_geom)
    (st : state) : walk_result * disk_geom * state :=
  match devs with
  | [] => (WalkNone, g, st)
  | d :: next =>
      let '(err, g, w) := dev_open d raw g (devices st) in
      let st :=
        driver_result (log (set_devices st w) (EvOpen (dev_id d) raw err)) err in
      if negb (is_err err) then (WalkFound d, g, st)
      else if is_unknown_device (grub_errno st)
      then open_walk next raw g (set_errno st GRUB_ERR_NONE)
      else (WalkFail, g, st)
  end.

(** [grub_disk_close] on a handle whose [dev] field may still be NULL: the
    driver's [close], then the timer.  Freeing the partition chain, the
    name and the handle leaves no trace in the state. *)
Definition disk_close (st : state) (d : option grub_disk_dev) (g : disk_geom)
    : state :=
  let st :=
    match d with
    | Some d =>
        log (set_devices st (dev_close d g (devices st))) (EvClose (dev_id d))
    | None => st
    end in
  set_last_time st (time_ms st).

(** [grub_disk_close] *)
Definition grub_disk_close (st : state) (disk : grub_disk) : state :=
  disk_close st (Some (dev disk)) (geom_of disk).

(** The code of [grub_disk_open] from the label [fail] on.  Every jump to
    the label with [disk->dev] still NULL comes with an error in
    [grub_errno], so the handle is closed and NULL returned. *)
Definition open_exit (st : state) (nm : string) (d : option grub_disk_dev)
    (g : disk_geom) (part : list grub_partition) : option grub_disk * state :=
  if is_err (grub_errno st) then (None, disk_close st d g)
  else
    match d with
    | Some d =>
        (Some {| name := nm; dev := d;
                 total_sectors := g_total_sectors g;
                 log_sector_size := g_log_sector_size g;
                 id := g_id g; partition := part; read_hook := false |}, st)
    | None => (None, st)
    end.

Section Open.
(** [grub_partition_probe] (kern/partition.c is not among the sources):
    the chain it finds for a partition name, the empty list standing for
    NULL. *)
Variable grub_partition_probe :
  disk_geom -> string -> world -> list grub_partition.

(** [grub_disk_open]: the handle or NULL, and the state. *)
Definition grub_disk_open (st : state) (nm : string)
    : option grub_disk * state :=
  (* disk = grub_zalloc (sizeof ( *disk)) *)
  let '(ok, st) := grub_malloc st in
  if negb ok then (None, st) else
  let g := {| g_id := 0; g_total_sectors := 0;
              g_log_sector_size := GRUB_DISK_SECTOR_BITS |} in
  let p := find_part_sep nm in
  let raw := match p with Some len => prefix len nm | None => nm end in
  (* raw = grub_malloc (len + 1) *)
  let '(ok, st) :=
    match p with Some _ => grub_malloc st | None => (true, st) end in
  if negb ok then open_exit st raw None g [] else
  (* disk->name = grub_strdup (...) *)
  let '(ok, st) := grub_malloc st in
  if negb ok then open_exit st raw None g [] else
  let '(r, g, st) := open_walk (grub_disk_dev_list st) raw g st in
  match r with
  | WalkFail => open_exit st raw None g []
  | WalkNone =>
      let '(_, st) :=
        grub_error st GRUB_ERR_UNKNOWN_DEVICE
          ("disk `" ++ nm ++ "' not found") in
      open_exit st raw None g []
  | WalkFound d =>
      if (GRUB_DISK_CACHE_BITS + GRUB_DISK_SECTOR_BITS <? g_log_sector_size g)
         || (g_log_sector_size g <? GRUB_DISK_SECTOR_BITS)
      then
        let '(_, st) :=
          grub_error st GRUB_ERR_NOT_IMPLEMENTED_YET
            "sector sizes of %d bytes aren't supported yet" in
        open_exit st raw None g []
      else
        match p with
        | Some len =>
            (* disk->partition = grub_partition_probe (disk, p + 1) *)
            let spec := suffix (S len) nm in
            let part := grub_partition_probe g spec (devices st) in
            let st := log st (EvProbe spec) in
            match part with
            | [] =>
                let '(_, st) :=
                  grub_error st GRUB_ERR_UNKNOWN_DEVICE "no such partition" in
                open_exit st raw (Some d) g []
            | _ :: _ =>
                let current_time := time_ms st in
                let st :=
                  if u64 (grub_last_time st + GRUB_CACHE_TIMEOUT * 1000)
                     <? current_time
                  then set_table st (grub_disk_cache_invalidate_all
                                       (grub_disk_cache_table st))
                  else st in
                open_exit (set_last_time st current_time) raw (Some d) g part
            end
        | None =>
            let current_time := time_ms st in
            let st :=
              if u64 (grub_last_time st + GRUB_CACHE_TIMEOUT * 1000)
                 <? current_time
              then set_table st (grub_disk_cache_invalidate_all
                                   (grub_disk_cache_table st))
              else st in
            open_exit (set_last_time st current_time) raw (Some d) g []
        end
  end.

End Open.

(** ** Reading *)

(** The last block of [grub_disk_read_small] ("Uggh... Failed.  Instead,
    just read necessary data."): the minimal read of the native sectors
    that hold the requested bytes, without the cache. *)
Definition read_small_fallback (st : state) (disk : grub_disk)
    (sector offset size : Z) (buf : list byte) (bpos : Z)
    : grub_err_t * list byte * state :=
  let L := log_sector_size disk in
  let sector := u64 (sector + Z.shiftr offset GRUB_DISK_SECTOR_BITS) in
  let offset := Z.land offset (Z.shiftl 1 GRUB_DISK_SECTOR_BITS - 1) in
  let aligned_sector :=
    Z.land sector (Z.lnot (Z.shiftl 1 (L - GRUB_DISK_SECTOR_BITS) - 1)) in
  let offset :=
    u64 (offset + u64 (Z.shiftl (sector - aligned_sector) GRUB_DISK_SECTOR_BITS)) in
  let num := u32 (Z.shiftr (u64 (size + offset + Z.shiftl 1 L - 1)) L) in
  (* tmp_buf = grub_malloc (num << disk->log_sector_size) *)
  let '(ok, st) := grub_malloc st in
  if negb ok then (grub_errno st, buf, st) else
  let '(err, bytes, st) :=
    disk_dev_read st disk (transform_sector disk aligned_sector) num in
  if is_err err then (grub_errno st, buf, st)
  else
    let len := u32 (Z.shiftl num L) in
    let tmp_buf := memcpy (fresh_buf len) 0 bytes len in
    (GRUB_ERR_NONE, memcpy buf bpos (from offset tmp_buf) size, st).

(** [grub_disk_read_small]: the return code, the caller's buffer (written
    at [bpos]) and the state. *)
Definition grub_disk_read_small (st : state) (disk : grub_disk)
    (sector offset size : Z) (buf : list byte) (bpos : Z)
    : grub_err_t * list byte * state :=
  let L := log_sector_size disk in
  let '(data, tbl) :=
    grub_disk_cache_fetch (grub_disk_cache_table st)
      (dev_id (dev disk)) (id disk) sector in
  let st := set_table st tbl in
  match data with
  | Some data =>
      let buf := memcpy buf bpos (from offset data) size in
      let st :=
        set_table st (grub_disk_cache_unlock (grub_disk_cache_table st)
                        (dev_id (dev disk)) (id disk) sector) in
      (GRUB_ERR_NONE, buf, st)
  | None =>
      (* tmp_buf = grub_malloc (GRUB_DISK_SECTOR_SIZE << GRUB_DISK_CACHE_BITS) *)
      let '(ok, st) := grub_malloc st in
      if negb ok then (grub_errno st, buf, st) else
      if (total_sectors disk =? GRUB_DISK_SIZE_UNKNOWN)
         || (u64 (sector + GRUB_DISK_CACHE_SIZE) <? total_logical_sectors disk)
      then
        let '(err, bytes, st) :=
          disk_dev_read st disk (transform_sector disk sector)
            (Z.shiftl 1 (GRUB_DISK_CACHE_BITS + GRUB_DISK_SECTOR_BITS - L)) in
        if negb (is_err err) then
          let tmp_buf := memcpy (fresh_buf cluster_bytes) 0 bytes cluster_bytes in
          let buf := memcpy buf bpos (from offset tmp_buf) size in
          let '(_, st) :=
            grub_disk_cache_store st (dev_id (dev disk)) (id disk) sector tmp_buf in
          (GRUB_ERR_NONE, buf, st)
        else
          read_small_fallback (set_errno st GRUB_ERR_NONE) disk
            sector offset size buf bpos
      else
        read_small_fallback (set_errno st GRUB_ERR_NONE) disk
          sector offset size buf bpos
  end.

(** The scan of [grub_disk_read] for the first cached cluster,
    [for (agglomerate = 0; agglomerate < bound; agglomerate++)], with [n]
    iterations left: the last value of [data], [agglomerate], the table. *)
Fixpoint agglomerate_scan (n : nat) (agglomerate : Z)
    (tbl : list grub_disk_cache) (dev_id disk_id sector : Z)
    : option (list byte) * Z * list grub_disk_cache :=
  match n with
  | O => (None, agglomerate, tbl)
  | S n' =>
      let '(data, tbl) :=
        grub_disk_cache_fetch tbl dev_id disk_id
          (u64 (sector + Z.shiftl agglomerate GRUB_DISK_CACHE_BITS)) in
      match data with
      | Some d => (Some d, agglomerate, tbl)
      | None => agglomerate_scan n' (agglomerate + 1) tbl dev_id disk_id sector
      end
  end.

(** [for (i = 0; i < agglomerate; i ++) grub_disk_cache_store (...)], with
    [n] iterations left. *)
Fixpoint store_clusters (n : nat) (i : Z) (st : state)
    (dev_id disk_id sector : Z) (buf : list byte) (bpos : Z) : state :=
  match n with
  | O => st
  | S n' =>
      let '(_, st) :=
        grub_disk_cache_store st dev_id disk_id
          (u64 (sector + Z.shiftl i GRUB_DISK_CACHE_BITS))
          (from (bpos + Z.shiftl i (GRUB_DISK_CACHE_BITS + GRUB_DISK_SECTOR_BITS))
                buf) in
      store_clusters n' (i + 1) st dev_id disk_id sector buf bpos
  end.

(** How the body loop of [grub_disk_read] ends: through [return err], or
    with [size] below one cluster. *)
Inductive body_result :=
| BodyReturn (err : grub_err_t) (buf : list byte) (st : state)
| BodyDone (sector size : Z) (buf : list byte) (bpos : Z) (st : state).

(** [while (size >= (GRUB_DISK_CACHE_SIZE << GRUB_DISK_SECTOR_BITS))] of
    [grub_disk_read]; [None] when [fuel] iterations did not end it. *)
Fixpoint read_body (fuel : nat) (st : state) (disk : grub_disk)
    (sector size : Z) (buf : list byte) (bpos : Z) : option body_result :=
  if size <? Z.shiftl GRUB_DISK_CACHE_SIZE GRUB_DISK_SECTOR_BITS
  then Some (BodyDone sector size buf bpos st)
  else
    match fuel with
    | O => None
    | S fuel' =>
        let L := log_sector_size disk in
        let dv := dev_id (dev disk) in
        let cbits := GRUB_DISK_CACHE_BITS + GRUB_DISK_SECTOR_BITS in
        let '(data, agglomerate, tbl) :=
          agglomerate_scan (Z.to_nat (Z.shiftr size cbits)) 0
            (grub_disk_cache_table st) dv (id disk) sector in
        let st := set_table st tbl in
        let '(buf, st) :=
          match data with
          | Some d =>
              (memcpy buf (bpos + Z.shiftl agglomerate cbits) d
                 (Z.shiftl GRUB_DISK_CACHE_SIZE GRUB_DISK_SECTOR_BITS),
               set_table st
                 (grub_disk_cache_unlock (grub_disk_cache_table st) dv (id disk)
                    (u64 (sector + Z.shiftl agglomerate GRUB_DISK_CACHE_BITS))))
          | None => (buf, st)
          end in
        let after_hit sector size bpos :=
          match data with
          | Some _ =>
              (u64 (sector + GRUB_DISK_CACHE_SIZE),
               usize (size - Z.shiftl GRUB_DISK_CACHE_SIZE GRUB_DISK_SECTOR_BITS),
               bpos + Z.shiftl GRUB_DISK_CACHE_SIZE GRUB_DISK_SECTOR_BITS)
          | None => (sector, size, bpos)
          end in
        if negb (agglomerate =? 0) then
          let n := u64 (Z.shiftl agglomerate (cbits - L)) in
          let '(err, bytes, st) :=
            disk_dev_read st disk (transform_sector disk sector) (usize n) in
          let buf := memcpy buf bpos bytes (Z.shiftl (usize n) L) in
          if is_err err then Some (BodyReturn err buf st)
          else
            let st :=
              store_clusters (Z.to_nat agglomerate) 0 st dv (id disk)
                sector buf bpos in
            let sector := u64 (sector + u64 (Z.shiftl agglomerate GRUB_DISK_CACHE_BITS)) in
            let size := usize (size - u64 (Z.shiftl agglomerate cbits)) in
            let bpos := bpos + u64 (Z.shiftl agglomerate cbits) in
            let '(sector, size, bpos) := after_hit sector size bpos in
            read_body fuel' st disk sector size buf bpos
        else
          let '(sector, size, bpos) := after_hit sector size bpos in
          read_body fuel' st disk sector size buf bpos
    end.

(** The read-hook loop of [grub_disk_read], [while (l)]; [None] when
    [fuel] iterations did not end it. *)
Fixpoint read_hook_loop (fuel : nat) (s o l : Z) (st : state) : option state :=
  if l =? 0 then Some st
  else
    match fuel with
    | O => None
    | S fuel' =>
        let cl := usize (u64 (GRUB_DISK_SECTOR_SIZE - o)) in
        let cl := if l <? cl then l else cl in
        read_hook_loop fuel' (u64 (s + 1)) 0 (usize (l - cl))
          (log st (EvHook s o cl))
    end.

(** The first block of the data path of [grub_disk_read] ("First read
    until first cache boundary"): its [return err], or the sector, the
    size, the buffer with the position in it, and the state it goes on
    with. *)
Definition read_head (st : state) (disk : grub_disk)
    (sector offset size : Z) (buf : list byte)
    : (grub_err_t * list byte * state) + (Z * Z * list byte * Z * state) :=
  if negb (offset =? 0)
     || negb (Z.land sector (GRUB_DISK_CACHE_SIZE - 1) =? 0)
  then
    let start_sector := cluster_start sector in
    let pos := usize (Z.shiftl (sector - start_sector) GRUB_DISK_SECTOR_BITS) in
    let len := usize (u64 (cluster_bytes - pos - offset)) in
    let len := if size <? len then size else len in
    let '(err, buf, st) :=
      grub_disk_read_small st disk start_sector (u64 (offset + pos)) len
        buf 0 in
    if is_err err then inl (err, buf, st)
    else
      let offset := u64 (offset + len) in
      inr (u64 (sector + Z.shiftr offset GRUB_DISK_SECTOR_BITS),
           usize (size - len), buf, len, st)
  else inr (sector, size, buf, 0, st).

(** [grub_disk_read]: the return code, the caller's buffer and the state;
    [None] when a loop needed more than [fuel] iterations. *)
Definition grub_disk_read (fuel : nat) (st : state) (disk : grub_disk)
    (sector offset size : Z) (buf : list byte)
    : option (grub_err_t * list byte * state) :=
  let '(err, sector, offset, st) :=
    grub_disk_adjust_range st disk sector offset size in
  if is_err err then Some (grub_errno st, buf, st) else
  let real_sector := sector in
  let real_offset := offset in
  let real_size := size in
  match read_head st disk sector offset size buf with
  | inl r => Some r
  | inr (sector, size, buf, bpos, st) =>
      match read_body fuel st disk sector size buf bpos with
      | None => None
      | Some (BodyReturn err buf st) => Some (err, buf, st)
      | Some (BodyDone sector size buf bpos st) =>
          (* And now read the last part. *)
          let '(err, buf, st) :=
            if negb (size =? 0)
            then grub_disk_read_small st disk sector 0 size buf bpos
            else (GRUB_ERR_NONE, buf, st) in
          if is_err err then Some (err, buf, st)
          else
            (* Call the read hook, if any. *)
            let hooked :=
              if read_hook disk
              then read_hook_loop fuel real_sector real_offset real_size st
              else Some st in
            match hooked with
            | None => None
            | Some st => Some (grub_errno st, buf, st)
            end
      end
  end.

(** *** The read hook in the words of the specification *)

(** The logical sectors a request of [size] bytes touches when it starts
    [offset] bytes into a sector. *)
Definition sectors_touched (offset size : Z) : Z :=
  if size =? 0 then 0 else (offset + size - 1) / GRUB_DISK_SECTOR_SIZE + 1.

(** One call per sector, [n] sectors from [s] on: the first call starts at
    offset [o], the later ones at 0; each covers what is left of its
    sector or of the request, whichever is less. *)
Fixpoint hook_calls (n : nat) (s o remaining : Z) : list event :=
  match n with
  | O => []
  | S n' =>
      let cl := Z.min (GRUB_DISK_SECTOR_SIZE - o) remaining in
      EvHook s o cl :: hook_calls n' (u64 (s + 1)) 0 (remaining - cl)
  end.

(** The length argument of a hook call. *)
Definition hook_length (e : event) : Z :=
  match e with EvHook _ _ cl => cl | _ => 0 end.

Definition is_read_event (e : event) : Prop :=
  match e with EvRead _ _ _ => True | _ => False end.

(** From [st] to [st'] only driver reads were logged. *)
Definition reads_only (st st' : state) : Prop :=
  exists evs, trace st' = trace st ++ evs /\ Forall is_read_event evs.

(** The state a result of the body loop carries. *)
Definition body_state (r : body_result) : state :=
  match r with
  | BodyReturn _ _ st => st
  | BodyDone _ _ _ _ st => st
  end.

(** Log the events [evs] in turn. *)
Definition log_all (st : state) (evs : list event) : state :=
  fold_left log evs st.

(** ** Writing *)

(** [while (n--) { grub_disk_cache_invalidate (...); sector += ...; }] of
    the aligned branch of [grub_disk_write], with [n] iterations left: the
    sector it ends on and the state. *)
Fixpoint invalidate_sectors (n : nat) (st : state) (disk : grub_disk)
    (sector : Z) : Z * state :=
  match n with
  | O => (sector, st)
  | S n' =>
      let st :=
        log (set_table st
               (grub_disk_cache_invalidate (grub_disk_cache_table st)
                  (dev_id (dev disk)) (id disk) sector))
            (EvInvalidate (dev_id (dev disk)) (id disk) sector) in
      invalidate_sectors n' st disk
        (u64 (sector + Z.shiftl 1 (log_sector_size disk - GRUB_DISK_SECTOR_BITS)))
  end.

(** [while (size)] of [grub_disk_write] up to the label [finish]; [None]
    when a loop needed more than [fuel] iterations. *)
Fixpoint write_loop (fuel : nat) (st : state) (disk : grub_disk)
    (sector real_offset size : Z) (buf : list byte) (bpos : Z)
    : option state :=
  if size =? 0 then Some st
  else
    match fuel with
    | O => None
    | S fuel' =>
        let L := log_sector_size disk in
        if negb (real_offset =? 0)
           || ((size <? u32 (Z.shiftl 1 L)) && negb (size =? 0))
        then
          (* char tmp_buf[1 << disk->log_sector_size]; the partition chain
             is detached around the read and put back *)
          match grub_disk_read (S fuel') st (set_partition disk []) sector 0
                  (Z.shiftl 1 L) (fresh_buf (Z.shiftl 1 L)) with
          | None => None
          | Some (err, tmp_buf, st) =>
              if is_err err then Some st
              else
                let len := usize (u32 (Z.shiftl 1 L - real_offset)) in
                let len := if size <? len then size else len in
                let tmp_buf := memcpy tmp_buf real_offset (from bpos buf) len in
                let st :=
                  log (set_table st
                         (grub_disk_cache_invalidate (grub_disk_cache_table st)
                            (dev_id (dev disk)) (id disk) sector))
                      (EvInvalidate (dev_id (dev disk)) (id disk) sector) in
                let '(err, st) :=
                  disk_dev_write st disk (transform_sector disk sector) 1
                    tmp_buf in
                if is_err err then Some st
                else
                  write_loop fuel' st disk
                    (u64 (sector + Z.shiftl 1 (L - GRUB_DISK_SECTOR_BITS)))
                    0 (usize (size - len)) buf (bpos + len)
          end
        else
          let len := Z.land size (Z.lnot (Z.shiftl 1 L - 1)) in
          let n := Z.shiftr size L in
          let '(err, st) :=
            disk_dev_write st disk (transform_sector disk sector) n
              (take (Z.to_nat (Z.shiftl n L)) (from bpos buf)) in
          if is_err err then Some st
          else
            let '(sector, st) := invalidate_sectors (Z.to_nat n) st disk sector in
            write_loop fuel' st disk sector real_offset (usize (size - len))
              buf (bpos + len)
    end.

(** [grub_disk_write]: the return code and the state. *)
Definition grub_disk_write (fuel : nat) (st : state) (disk : grub_disk)
    (sector offset size : Z) (buf : list byte) : option (grub_err_t * state) :=
  let '(err, sector, offset, st) :=
    grub_disk_adjust_range st disk sector offset size in
  if is_err err then Some (GRUB_ERR_CODE (-1), st) else
  let L := log_sector_size disk in
  let aligned_sector :=
    Z.land sector (Z.lnot (Z.shiftl 1 (L - GRUB_DISK_SECTOR_BITS) - 1)) in
  let real_offset :=
    u32 (offset + u64 (Z.shiftl (sector - aligned_sector) GRUB_DISK_SECTOR_BITS)) in
  match write_loop fuel st disk aligned_sector real_offset size buf 0 with
  | None => None
  | Some st => Some (grub_errno st, st)
  end.

End Disk.

Arguments grub_disk_dev : clear implicits.
Arguments grub_disk : clear implicits.
Arguments state : clear implicits.

(** *** The order of writes and invalidations *)

Section WriteOrder.
Context {P : Platform} {world : Type}.

Definition is_read_or_hook (e : event) : Prop :=
  match e with
  | EvRead _ _ _ => True
  | EvHook _ _ _ => True
  | _ => False
  end.

(** From [st] to [st'] only driver reads and hook calls were logged. *)
Definition reads_and_hooks_only (st st' : state world) : Prop :=
  exists evs, trace st' = trace st ++ evs /\ Forall is_read_or_hook evs.

(** From [st] to [st'] the cache gained the cluster [key] at most, and
    if it did, [grub_errno] is as it was. *)
Definition caches_at_most (key : Z * Z * Z) (st st' : state world) : Prop :=
  table_ok (grub_disk_cache_table st')
  /\ forall dv di s,
       cached (grub_disk_cache_table st') dv di s = true ->
       cached (grub_disk_cache_table st) dv di s = true
       \/ ((dv, di, s) = key /\ grub_errno st' = grub_errno st).

(** The invalidations of [n] native sectors from the logical sector
    [sector] on, as the aligned branch of [grub_disk_write] makes them. *)
Fixpoint invalidations (n : nat) (disk : grub_disk world) (sector : Z)
    : list event :=
  match n with
  | O => []
  | S n' =>
      EvInvalidate (dev_id (dev disk)) (id disk) sector
      :: invalidations n' disk
           (u64 (sector + Z.shiftl 1 (log_sector_size disk - GRUB_DISK_SECTOR_BITS)))
  end.



End WriteOrder.

(** ** A test device

    One driver over a disk whose byte at position [p] is [p mod 256].  The
    device carries a schedule of failures for its reads and for its writes
    ([true]: the next call fails), and remembers what was written. *)

Record testdev := {
  td_read_fail : list bool;
  td_write_fail : list bool;
  td_sectors : Z;          (* total_sectors reported by open *)
  td_log_sector_size : Z;  (* log_sector_size reported by open *)
  td_written : list (Z * list byte)
}.

Definition byte_of_Z (x : Z) : byte :=
  default x00 (Byte.of_N (Z.to_N (x mod 256))).

(** The bytes [start], [start + 1], ... of the pattern disk. *)
Definition pattern (start len : Z) : list byte :=
  map (fun i => byte_of_Z (start + Z.of_nat i)) (seq 0 (Z.to_nat len)).

Definition test_open (known : string) (nm : string) (g : disk_geom)
    (w : testdev) : grub_err_t * disk_geom * testdev :=
  if String.eqb nm known then
    (GRUB_ERR_NONE,
     {| g_id := 0; g_total_sectors := td_sectors w;
        g_log_sector_size := td_log_sector_size w |}, w)
  else (GRUB_ERR_UNKNOWN_DEVICE, g, w).

Definition test_read (g : disk_geom) (sector n : Z) (w : testdev)
    : grub_err_t * list byte * testdev :=
  let w' := {| td_read_fail := tail (td_read_fail w);
               td_write_fail := td_write_fail w;
               td_sectors := td_sectors w;
               td_log_sector_size := td_log_sector_size w;
               td_written := td_written w |} in
  match td_read_fail w with
  | true :: _ => (GRUB_ERR_READ_ERROR, [], w')
  | _ =>
      (GRUB_ERR_NONE,
       pattern (Z.shiftl sector (g_log_sector_size g))
               (Z.shiftl n (g_log_sector_size g)), w')
  end.

Definition test_write (g : disk_geom) (sector n : Z) (data : list byte)
    (w : testdev) : grub_err_t * testdev :=
  match td_write_fail w with
  | true :: rest =>
      (GRUB_ERR_WRITE_ERROR,
       {| td_read_fail := td_read_fail w; td_write_fail := rest;
          td_sectors := td_sectors w;
          td_log_sector_size := td_log_sector_size w;
          td_written := td_written w |})
  | _ =>
      (GRUB_ERR_NONE,
       {| td_read_fail := td_read_fail w;
          td_write_fail := tail (td_write_fail w);
          td_sectors := td_sectors w;
          td_log_sector_size := td_log_sector_size w;
          td_written := td_written w ++ [(sector, data)] |})
  end.

(** The driver of class [cls] that answers to the name [known]. *)
Definition test_dev (cls : Z) (known : string) : grub_disk_dev testdev :=
  {| dev_id := cls; dev_open := test_open known;
     dev_close := fun _ w => w;
     dev_read := test_read; dev_write := test_write |}.

(** A driver that fails every [open] with the error [e]. *)
Definition failing_dev (cls : Z) (e : grub_err_t) : grub_disk_dev testdev :=
  {| dev_id := cls; dev_open := fun _ g w => (e, g, w);
     dev_close := fun _ w => w;
     dev_read := test_read; dev_write := test_write |}.

Definition test_world (sectors L : Z) (rf wf : list bool) : testdev :=
  {| td_read_fail := rf; td_write_fail := wf; td_sectors := sectors;
     td_log_sector_size := L; td_written := [] |}.

(** The state at program start over the devices [w], with the drivers
    [devs] registered and the allocator schedule [mm]. *)
Definition initial_state {P : Platform} {world : Type}
    (devs : list (grub_disk_dev world)) (mm : list bool) (w : world)
    : state world :=
  {| grub_errno := GRUB_ERR_NONE; grub_errmsg := "";
     grub_disk_cache_table := empty_table;
     grub_last_time := 0; grub_disk_dev_list := devs; mm_fail := mm;
     time_ms := 0; devices := w; trace := [] |}.

(** An open handle on the test device: no partition, no hook. *)
Definition test_disk (sectors L : Z) : grub_disk testdev :=
  {| name := "hd0"; dev := test_dev 0 "hd0"; total_sectors := sectors;
     log_sector_size := L; id := 0; partition := []; read_hook := false |}.

(** [disk->read_hook = hook] *)
Definition set_read_hook {world : Type} (disk : grub_disk world) (h : bool)
    : grub_disk world :=
  {| name := name disk; dev := dev disk; total_sectors := total_sectors disk;
     log_sector_size := log_sector_size disk; id := id disk;
     partition := partition disk; read_hook := h |}.

(** ** Test data *)

(** A table whose slot 0 holds the cluster at sector 0 of disk (0, 0) and
    is locked, as a fetch that hit leaves it. *)
Definition locked_table : list grub_disk_cache :=
  set_slot (@empty_table grub_x86_64) 0
    {| c_dev_id := 0; c_disk_id := 0; c_sector := 0;
       c_data := Some [x2a]; c_lock := true |}.

(** A disk of 1000 sectors with the partition [start = 100, len = 50],
    opened with a read hook. *)
Definition part_disk : grub_disk testdev :=
  {| name := "hd0"; dev := test_dev 0 "hd0"; total_sectors := 1000;
     log_sector_size := 9; id := 0;
     partition := [ {| p_start := 100; p_len := 50 |} ];
     read_hook := true |}.

(** The state at program start over a disk of [sectors] native sectors of
    [2 ^ L] bytes, with the allocator schedule [mm]. *)
Definition test_state {P : Platform} (sectors L : Z) (mm : list bool)
    : state testdev :=
  initial_state [] mm (test_world sectors L [] []).

(** Two registered drivers; the second one knows the disk named
    [my\,disk] (with the backslash). *)
Definition open_state {P : Platform} : state testdev :=
  initial_state [test_dev 3 "zz"; test_dev 0 "my\,disk"] []
    (test_world 64 9 [] []).

(** A prober that finds one partition whatever the name. *)
Definition test_probe (g : disk_geom) (spec : string) (w : testdev)
    : list grub_partition :=
  [ {| p_start := 1; p_len := 2 |} ].

(** A read of two sectors through the partition of [part_disk]. *)
Definition hook_run : option (grub_err_t * list byte * state testdev) :=
  @grub_disk_read grub_small testdev 10 (@test_state grub_small 1000 9 [])
    part_disk 48 0 1024 (fresh_buf 1024).

Definition hook_run_buf : list byte :=
  match hook_run with Some (_, b, _) => b | None => [] end.

Definition hook_run_state : state testdev :=
  match hook_run with
  | Some (_, _, s) => s
  | None => @test_state grub_small 1000 9 []
  end.





(** * The rest of disk.c *)

(** ** The driver list *)

Definition set_dev_list {world : Type} (st : state world)
    (devs : list (grub_disk_dev world)) : state world :=
  {| grub_errno := grub_errno st; grub_errmsg := grub_errmsg st;
     grub_disk_cache_table := grub_disk_cache_table st;
     grub_last_time := grub_last_time st;
     grub_disk_dev_list := devs; mm_fail := mm_fail st;
     time_ms := time_ms st; devices := devices st; trace := trace st |}.

Section Registry.
Context {world : Type}.
(** A driver object is told from another by its address: [q == dev] of
    [grub_disk_dev_unregister] compares pointers. *)
Variable addr_of : grub_disk_dev world -> Z.

(** [grub_disk_dev_register]: [dev->next = grub_disk_dev_list;
    grub_disk_dev_list = dev], for a driver object that is not in the
    list yet (the list of the C program is linked through the objects
    themselves). *)
Definition grub_disk_dev_register (st : state world)
    (d : grub_disk_dev world) : state world :=
  set_dev_list st (d :: grub_disk_dev_list st).

(** The loop of [grub_disk_dev_unregister]: the first node that is [dev]
    is unlinked, and the loop ends. *)
Fixpoint unregister_from (devs : list (grub_disk_dev world))
    (d : grub_disk_dev world) : list (grub_disk_dev world) :=
  match devs with
  | [] => []
  | q :: next =>
      if addr_of q =? addr_of d then next else q :: unregister_from next d
  end.

(** [grub_disk_dev_unregister] *)
Definition grub_disk_dev_unregister (st : state world)
    (d : grub_disk_dev world) : state world :=
  set_dev_list st (unregister_from (grub_disk_dev_list st) d).

End Registry.

(** ** The size of a disk *)

(** Modelled from the spec: [grub_partition_get_len]
    (include/grub/partition.h is not among the sources), the length of
    the partition in sectors. *)
Definition grub_partition_get_len (part : grub_partition) : Z := p_len part.

(** [grub_disk_get_size] *)
Definition grub_disk_get_size {world : Type} (disk : grub_disk world) : Z :=
  match partition disk with
  | part :: _ => grub_partition_get_len part
  | [] =>
      if negb (total_sectors disk =? GRUB_DISK_SIZE_UNKNOWN)
      then u64 (Z.shiftl (total_sectors disk)
                         (log_sector_size disk - GRUB_DISK_SECTOR_BITS))
      else GRUB_DISK_SIZE_UNKNOWN
  end.

(** ** What a device holds *)

(** [len] bytes from byte [pos] on of a device whose byte at position [p]
    is [content p]. *)
Definition bytes_at (content : Z -> byte) (pos len : Z) : list byte :=
  map (fun i => content (pos + Z.of_nat i)) (seq 0 (Z.to_nat len)).

Section Coherence.
Context {P : Platform} {world : Type}.
(** The byte at each byte position of the device behind a disk. *)
Variable content : world -> Z -> byte.

(** The driver of [disk] reads what the device holds: a read of [n]
    native sectors from native sector [s] on that succeeds delivers the
    bytes of these sectors, and no read changes what the device holds. *)
Definition driver_reads_content (disk : grub_disk world) : Prop :=
  forall s n w,
    content (snd (dev_read (dev disk) (geom_of disk) s n w)) = content w
    /\ (fst (fst (dev_read (dev disk) (geom_of disk) s n w)) = GRUB_ERR_NONE ->
        snd (fst (dev_read (dev disk) (geom_of disk) s n w))
        = bytes_at (content w) (Z.shiftl s (log_sector_size disk))
            (Z.shiftl n (log_sector_size disk))).

(** Every cluster of [disk] that a fetch finds in the cache at a
    cluster boundary is an image of the device: the cluster of key [s]
    holds the [cluster_bytes] bytes from logical sector [s] on.  (The
    code fetches, stores and invalidates at cluster boundaries only.) *)
Definition cache_coherent (st : state world) (disk : grub_disk world) : Prop :=
  forall s data,
    (GRUB_DISK_CACHE_SIZE | s) ->
    fst (grub_disk_cache_fetch (grub_disk_cache_table st)
           (dev_id (dev disk)) (id disk) s) = Some data ->
    data = bytes_at (content (devices st))
             (Z.shiftl s GRUB_DISK_SECTOR_BITS) cluster_bytes.

End Coherence.

(** ** What a write leaves on a device *)

(** What a device holds after [data] was written at byte position
    [pos]. *)
Definition overlay (content : Z -> byte) (pos : Z) (data : list byte)
    (p : Z) : byte :=
  if (pos <=? p) && (p <? pos + Z.of_nat (length data))
  then nth (Z.to_nat (p - pos)) data x00
  else content p.

Section WriteCoherence.
Context {world : Type}.
Variable content : world -> Z -> byte.

(** The driver of [disk] writes to the device: a write of [n] native
    sectors from native sector [s] on that succeeds puts the bytes of
    its buffer there and changes no other byte. *)
Definition driver_writes_content (disk : grub_disk world) : Prop :=
  forall s n data w,
    fst (dev_write (dev disk) (geom_of disk) s n data w) = GRUB_ERR_NONE ->
    Z.of_nat (length data) = Z.shiftl n (log_sector_size disk) ->
    forall p,
      content (snd (dev_write (dev disk) (geom_of disk) s n data w)) p
      = overlay (content w) (Z.shiftl s (log_sector_size disk)) data p.

End WriteCoherence.

(** ** Test data for the rest of disk.c *)

(** What the pattern disk holds: byte [p] is [p mod 256], whatever was
    written. *)
Definition pattern_content (w : testdev) (p : Z) : byte := byte_of_Z p.

(** A read of 9000 bytes from byte 100 of sector 3 on: the end of the
    first cluster, one whole cluster and the start of a third. *)
Definition content_run : option (grub_err_t * list byte * state testdev) :=
  @grub_disk_read grub_small testdev 10 (@test_state grub_small 1000 9 [])
    (test_disk 1000 9) 3 100 9000 (fresh_buf 9000).

Definition content_run_buf : list byte :=
  match content_run with Some (_, b, _) => b | None => [] end.

Definition content_run_state : state testdev :=
  match content_run with
  | Some (_, _, s) => s
  | None => @test_state grub_small 1000 9 []
  end.

(** A prober that finds no partition. *)
Definition no_probe (g : disk_geom) (spec : string) (w : testdev)
    : list grub_partition := [].

(** A disk in memory: the device is what it holds, a read returns the
    bytes of the sectors asked for and a write puts the bytes of the
    buffer there. *)
Definition ram_read (g : disk_geom) (sector n : Z) (w : Z -> byte)
    : grub_err_t * list byte * (Z -> byte) :=
  (GRUB_ERR_NONE,
   bytes_at w (Z.shiftl sector (g_log_sector_size g))
     (Z.shiftl n (g_log_sector_size g)), w).

Definition ram_write (g : disk_geom) (sector n : Z) (data : list byte)
    (w : Z -> byte) : grub_err_t * (Z -> byte) :=
  (GRUB_ERR_NONE,
   overlay w (Z.shiftl sector (g_log_sector_size g))
     (take (Z.to_nat (Z.shiftl n (g_log_sector_size g))) data)).

Definition ram_dev : grub_disk_dev (Z -> byte) :=
  {| dev_id := 0;
     dev_open := fun nm g w =>
       (GRUB_ERR_NONE,
        {| g_id := 0; g_total_sectors := 1000; g_log_sector_size := 9 |}, w);
     dev_close := fun _ w => w;
     dev_read := ram_read; dev_write := ram_write |}.

(** An open handle on the disk in memory. *)
Definition ram_disk (sectors L : Z) : grub_disk (Z -> byte) :=
  {| name := "ram0"; dev := ram_dev; total_sectors := sectors;
     log_sector_size := L; id := 0; partition := []; read_hook := false |}.

(** What the disk in memory holds. *)
Definition ram_content (w : Z -> byte) : Z -> byte := w.

(** The state at program start over a disk in memory that holds the
    pattern [p mod 256]. *)
Definition ram_state {P : Platform} : state (Z -> byte) :=
  initial_state [] [] byte_of_Z.

(** A write of 1024 bytes from byte 100 of sector 2 of the disk in memory
    on: the end of one sector, a whole sector and the start of a third. *)
Definition ram_write_run : option (grub_err_t * state (Z -> byte)) :=
  @grub_disk_write grub_small (Z -> byte) 10 (@ram_state grub_small)
    (ram_disk 1000 9) 2 100 1024 (pattern 7 1024).

Definition ram_write_state : state (Z -> byte) :=
  match ram_write_run with
  | Some (_, s) => s
  | None => @ram_state grub_small
  end.

(** The read of the same bytes after that write. *)
Definition ram_read_back
    : option (grub_err_t * list byte * state (Z -> byte)) :=
  @grub_disk_read grub_small (Z -> byte) 10 ram_write_state
    (ram_disk 1000 9) 2 100 1024 (fresh_buf 1024).

Definition ram_read_back_buf : list byte :=
  match ram_read_back with Some (_, b, _) => b | None => [] end.

Definition ram_read_back_state : state (Z -> byte) :=
  match ram_read_back with
  | Some (_, _, s) => s
  | None => ram_write_state
  end.

(** A disk of unknown size with a read hook, and a read of two sectors
    from its sector [2 ^ 64 - 1] on: the last sector a 64-bit sector
    number can name. *)
Definition wrap_disk : grub_disk testdev :=
  {| name := "hd0"; dev := test_dev 0 "hd0";
     total_sectors := GRUB_DISK_SIZE_UNKNOWN;
     log_sector_size := 9; id := 0; partition := []; read_hook := true |}.

Definition wrap_run : option (grub_err_t * list byte * state testdev) :=
  @grub_disk_read grub_small testdev 10 (@test_state grub_small 1000 9 [])
    wrap_disk (2 ^ 64 - 1) 0 1024 (fresh_buf 1024).

(** * Properties *)

(** Decide the integer comparisons of a goal and finish by arithmetic. *)
Ltac zbool :=
  repeat match goal with
  | |- context [?a <=? ?b] => destruct (Z.leb_spec a b)
  | |- context [?a <? ?b] => destruct (Z.ltb_spec a b)
  | |- context [?a =? ?b] => destruct (Z.eqb_spec a b)
  end;
  cbn [andb orb negb]; try reflexivity; try lia.

(** ** Machine integers *)

Lemma wrap_range bits x : 0 <= bits -> 0 <= wrap bits x < 2 ^ bits.
Proof.
  intros. unfold wrap. apply Z.mod_pos_bound. apply Z.pow_pos_nonneg; lia.
Qed.

Lemma wrap_small bits x : 0 <= x < 2 ^ bits -> wrap bits x = x.
Proof. intros. unfold wrap. apply Z.mod_small. lia. Qed.

Lemma wrap_add_l bits x y : wrap bits (wrap bits x + y) = wrap bits (x + y).
Proof. unfold wrap. apply Zplus_mod_idemp_l. Qed.

Lemma wrap_add_r bits x y : wrap bits (x + wrap bits y) = wrap bits (x + y).
Proof. unfold wrap. apply Zplus_mod_idemp_r. Qed.

Lemma u64_range x : 0 <= u64 x < 2 ^ 64.
Proof. apply wrap_range. lia. Qed.

Lemma u64_small x : 0 <= x < 2 ^ 64 -> u64 x = x.
Proof. apply wrap_small. Qed.

Lemma u32_small x : 0 <= x < 2 ^ 32 -> u32 x = x.
Proof. apply wrap_small. Qed.

(** Clearing the low [k] bits rounds down to a multiple of [2 ^ k]. *)
Lemma align_down a k :
  0 <= k -> Z.land a (Z.lnot (Z.shiftl 1 k - 1)) = 2 ^ k * (a / 2 ^ k).
Proof.
  intros Hk. rewrite Z.shiftl_1_l.
  replace (2 ^ k - 1) with (Z.ones k) by (rewrite Z.ones_equiv; lia).
  rewrite <- Z.ldiff_land, Z.ldiff_ones_r by lia.
  rewrite Z.shiftr_div_pow2, Z.shiftl_mul_pow2 by lia. lia.
Qed.

Lemma align_down_mod a k :
  0 <= k -> Z.land a (Z.lnot (Z.shiftl 1 k - 1)) = a - a mod 2 ^ k.
Proof.
  intros Hk. rewrite align_down by lia.
  pose proof (Z.div_mod a (2 ^ k)) as D.
  assert (2 ^ k <> 0) by (apply Z.pow_nonzero; lia). specialize (D H). lia.
Qed.


(** ** Slots of the table *)

Lemma length_set_slot tbl i c : length (set_slot tbl i c) = length tbl.
Proof. unfold set_slot. apply length_insert. Qed.

Lemma slot_set_slot_eq tbl i c :
  0 <= i < Z.of_nat (length tbl) -> slot (set_slot tbl i c) i = c.
Proof.
  intros Hi. unfold slot, set_slot.
  rewrite list_lookup_insert_eq by lia. reflexivity.
Qed.

Lemma slot_set_slot_ne tbl i j c :
  0 <= i -> 0 <= j -> i <> j -> slot (set_slot tbl i c) j = slot tbl j.
Proof.
  intros Hi Hj Hne. unfold slot, set_slot.
  rewrite list_lookup_insert_ne by lia. reflexivity.
Qed.

Lemma set_slot_same tbl i :
  0 <= i < Z.of_nat (length tbl) -> set_slot tbl i (slot tbl i) = tbl.
Proof.
  intros Hi. unfold slot, set_slot.
  destruct (lookup_lt_is_Some_2 tbl (Z.to_nat i)) as [c Hc]; [lia|].
  rewrite Hc. simpl. apply list_insert_id. exact Hc.
Qed.

Lemma key_match_true c dev disk sector :
  key_match c dev disk sector = true
  <-> c_dev_id c = dev /\ c_disk_id c = disk /\ c_sector c = sector.
Proof.
  unfold key_match. rewrite !andb_true_iff, !Z.eqb_eq. tauto.
Qed.

Section CacheFacts.
Context {P : Platform}.
Hypothesis P_ok : platform_ok P = true.

Lemma platform_ok_inv :
  0 <= GRUB_DISK_CACHE_BITS <= 21 /\ 0 < GRUB_DISK_CACHE_NUM < 2 ^ 32
  /\ (LONG_BITS = 32 \/ LONG_BITS = 64) /\ (SIZE_BITS = 32 \/ SIZE_BITS = 64).
Proof.
  unfold platform_ok in P_ok.
  repeat (apply andb_prop in P_ok; destruct P_ok as [P_ok ?]).
  repeat match goal with H : orb _ _ = true |- _ => apply orb_prop in H end.
  lia.
Qed.

Lemma cache_size_pow : GRUB_DISK_CACHE_SIZE = 2 ^ GRUB_DISK_CACHE_BITS.
Proof. unfold GRUB_DISK_CACHE_SIZE. apply Z.shiftl_1_l. Qed.

Lemma cache_size_pos : 0 < GRUB_DISK_CACHE_SIZE.
Proof.
  destruct platform_ok_inv as (? & _). rewrite cache_size_pow.
  apply Z.pow_pos_nonneg; lia.
Qed.

(** [cluster_start] rounds a sector down to the start of its cluster. *)
Lemma cluster_start_eq sector :
  cluster_start sector = sector - sector mod GRUB_DISK_CACHE_SIZE.
Proof.
  destruct platform_ok_inv as (? & _). unfold cluster_start.
  unfold GRUB_DISK_CACHE_SIZE at 1. rewrite align_down_mod by lia.
  rewrite cache_size_pow. reflexivity.
Qed.

Lemma get_index_range dev disk sector :
  0 <= grub_disk_cache_get_index dev disk sector < GRUB_DISK_CACHE_NUM.
Proof.
  destruct platform_ok_inv as (? & ? & ? & ?).
  unfold grub_disk_cache_get_index.
  set (x := ulong _).
  assert (0 <= x mod GRUB_DISK_CACHE_NUM < GRUB_DISK_CACHE_NUM)
    by (apply Z.mod_pos_bound; lia).
  rewrite u32_small; lia.
Qed.

Lemma get_index_formula dev disk sector :
  grub_disk_cache_get_index dev disk sector
  = ((dev * 524287 + disk * 2606459
      + Z.shiftr sector GRUB_DISK_CACHE_BITS mod 2 ^ 32) mod 2 ^ LONG_BITS)
    mod GRUB_DISK_CACHE_NUM.
Proof.
  destruct platform_ok_inv as (? & ? & ? & ?).
  unfold grub_disk_cache_get_index.
  set (c := u32 (Z.shiftr _ _)).
  unfold ulong. rewrite wrap_add_l, <- Z.add_assoc, wrap_add_l.
  rewrite Z.add_assoc, (Z.add_comm (dev * _)), <- Z.add_assoc, wrap_add_l.
  replace (disk * 2606459 + (dev * 524287 + c))
    with (dev * 524287 + disk * 2606459 + c) by lia.
  set (x := wrap LONG_BITS _).
  assert (0 <= x mod GRUB_DISK_CACHE_NUM < GRUB_DISK_CACHE_NUM)
    by (apply Z.mod_pos_bound; lia).
  rewrite u32_small by lia. reflexivity.
Qed.

(** C8 (as amended).  The slot index is the claimed mixing of class id,
    disk id and cluster number, taken modulo the number of slots, with
    two truncations the C types impose: the cluster number
    [sector >> GRUB_DISK_CACHE_BITS] is cut to 32 bits by the cast to
    [unsigned], and the sum wraps at the width of [unsigned long].  When
    the cluster number is below [2 ^ 32] and the sum fits [unsigned long],
    the index is the exact value of the claim. *)
Theorem cache_index_truncated_formula (dev_id disk_id sector : Z) :
  grub_disk_cache_get_index dev_id disk_id sector
  = ((dev_id * 524287 + disk_id * 2606459
      + Z.shiftr sector GRUB_DISK_CACHE_BITS mod 2 ^ 32) mod 2 ^ LONG_BITS)
    mod GRUB_DISK_CACHE_NUM
  /\ (0 <= dev_id -> 0 <= disk_id -> 0 <= sector ->
      Z.shiftr sector GRUB_DISK_CACHE_BITS < 2 ^ 32 ->
      dev_id * 524287 + disk_id * 2606459
        + Z.shiftr sector GRUB_DISK_CACHE_BITS < 2 ^ LONG_BITS ->
      grub_disk_cache_get_index dev_id disk_id sector
      = (dev_id * 524287 + disk_id * 2606459
         + Z.shiftr sector GRUB_DISK_CACHE_BITS) mod GRUB_DISK_CACHE_NUM).
Proof.
  split; [apply get_index_formula|].
  intros Hd Hk Hs Hc Hsum. rewrite get_index_formula.
  assert (0 <= Z.shiftr sector GRUB_DISK_CACHE_BITS)
    by (apply Z.shiftr_nonneg; lia).
  rewrite (Z.mod_small (Z.shiftr _ _)) by lia.
  rewrite (Z.mod_small _ (2 ^ LONG_BITS)) by lia. reflexivity.
Qed.

(** *** The table keeps its size *)

Lemma invalidate_table_ok tbl dev disk sector :
  table_ok tbl -> table_ok (grub_disk_cache_invalidate tbl dev disk sector).
Proof.
  unfold table_ok, grub_disk_cache_invalidate. intros H.
  destruct (_ && _); [rewrite length_set_slot|]; exact H.
Qed.

Lemma fetch_table_ok tbl dev disk sector :
  table_ok tbl -> table_ok (snd (grub_disk_cache_fetch tbl dev disk sector)).
Proof.
  unfold table_ok, grub_disk_cache_fetch. intros H.
  destruct (key_match _ _ _ _); simpl; [rewrite length_set_slot|]; exact H.
Qed.

Lemma unlock_table_ok tbl dev disk sector :
  table_ok tbl -> table_ok (grub_disk_cache_unlock tbl dev disk sector).
Proof.
  unfold table_ok, grub_disk_cache_unlock. intros H.
  destruct (key_match _ _ _ _); [rewrite length_set_slot|]; exact H.
Qed.

Lemma invalidate_all_from_length n i tbl :
  length (invalidate_all_from n i tbl) = length tbl.
Proof.
  revert i tbl. induction n as [|n IH]; intros i tbl; simpl; [reflexivity|].
  rewrite IH. destruct (_ && _); [apply length_set_slot|reflexivity].
Qed.

Lemma invalidate_all_table_ok tbl :
  table_ok tbl -> table_ok (grub_disk_cache_invalidate_all tbl).
Proof.
  unfold table_ok, grub_disk_cache_invalidate_all.
  rewrite invalidate_all_from_length. trivial.
Qed.

Lemma index_in_table tbl dev disk sector :
  table_ok tbl ->
  0 <= grub_disk_cache_get_index dev disk sector < Z.of_nat (length tbl).
Proof.
  intros H. pose proof (get_index_range dev disk sector).
  unfold table_ok in H. lia.
Qed.

(** *** What each operation does to a slot *)

(** [grub_disk_cache_invalidate_all] frees exactly the occupied, unlocked
    slots; a slot that is empty or locked is left as it is. *)
Lemma invalidate_all_from_slot n i tbl j :
  0 <= i -> 0 <= j ->
  slot (invalidate_all_from n i tbl) j
  = if (i <=? j) && (j <? i + Z.of_nat n)
       && has_data (slot tbl j) && negb (c_lock (slot tbl j))
    then set_data (slot tbl j) None else slot tbl j.
Proof.
  revert i tbl. induction n as [|n IH]; intros i tbl Hi Hj.
  - cbn [invalidate_all_from].
    replace ((i <=? j) && (j <? i + Z.of_nat 0)) with false by zbool.
    reflexivity.
  - cbn [invalidate_all_from]. rewrite IH by lia.
    destruct (Z.eq_dec i j) as [->|Hne].
    + replace (j + 1 <=? j) with false by zbool. cbn [andb].
      replace (j <=? j) with true by zbool.
      replace (j <? j + Z.of_nat (S n)) with true by zbool. cbn [andb].
      destruct (has_data (slot tbl j) && negb (c_lock (slot tbl j))) eqn:E.
      * assert (Z.to_nat j < length tbl)%nat as Hlt.
        { unfold slot in E. destruct (tbl !! Z.to_nat j) eqn:El.
          - eapply lookup_lt_Some; eauto.
          - simpl in E. discriminate. }
        rewrite slot_set_slot_eq by lia. reflexivity.
      * reflexivity.
    + assert (slot (if has_data (slot tbl i) && negb (c_lock (slot tbl i))
                    then set_slot tbl i (set_data (slot tbl i) None)
                    else tbl) j = slot tbl j) as ->.
      { destruct (_ && _); [apply slot_set_slot_ne; lia|reflexivity]. }
      replace ((i + 1 <=? j) && (j <? i + 1 + Z.of_nat n))
        with ((i <=? j) && (j <? i + Z.of_nat (S n))) by zbool.
      reflexivity.
Qed.

Lemma invalidate_all_slot tbl j :
  table_ok tbl -> 0 <= j ->
  slot (grub_disk_cache_invalidate_all tbl) j
  = if has_data (slot tbl j) && negb (c_lock (slot tbl j))
    then set_data (slot tbl j) None else slot tbl j.
Proof.
  intros Hok Hj. unfold grub_disk_cache_invalidate_all.
  rewrite invalidate_all_from_slot by lia.
  destruct (Z.lt_ge_cases j (Z.of_nat (length tbl))) as [Hlt|Hge].
  - unfold table_ok in Hok.
    replace ((0 <=? j) && (j <? 0 + Z.of_nat (Z.to_nat GRUB_DISK_CACHE_NUM)))
      with true by zbool.
    reflexivity.
  - assert (slot tbl j = zero_cache) as ->.
    { unfold slot. rewrite lookup_ge_None_2 by lia. reflexivity. }
    cbn. rewrite andb_false_r. reflexivity.
Qed.

Lemma invalidate_slot_other tbl dev disk sector j :
  0 <= j ->
  j <> grub_disk_cache_get_index dev disk (cluster_start sector) ->
  slot (grub_disk_cache_invalidate tbl dev disk sector) j = slot tbl j.
Proof.
  intros Hj Hne. unfold grub_disk_cache_invalidate.
  pose proof (get_index_range dev disk (cluster_start sector)).
  destruct (_ && _); [apply slot_set_slot_ne; lia|reflexivity].
Qed.

(** C6 (as amended).  [grub_disk_cache_invalidate] rounds the sector down
    to the start of its cluster and looks at the slot the key hashes to.
    It frees that slot's buffer if and only if the slot matches the class
    id, the disk id and the rounded sector and is occupied; the lock bit
    is not consulted: a matching occupied slot is emptied whether it is
    locked or not, and its lock bit is clear afterwards.  No other slot
    changes, and without a matching occupied slot the table is left as it
    is. *)
Theorem invalidate_frees_iff_match_and_occupied
    (tbl : list grub_disk_cache) (dev_id disk_id sector : Z) :
  table_ok tbl ->
  let cs := cluster_start sector in
  let index := grub_disk_cache_get_index dev_id disk_id cs in
  let tbl' := grub_disk_cache_invalidate tbl dev_id disk_id sector in
  cs = sector - sector mod GRUB_DISK_CACHE_SIZE
  /\ ((has_data (slot tbl index) = true /\ has_data (slot tbl' index) = false)
      <-> (key_match (slot tbl index) dev_id disk_id cs = true
           /\ has_data (slot tbl index) = true))
  /\ (key_match (slot tbl index) dev_id disk_id cs = true ->
      has_data (slot tbl index) = true ->
      slot tbl' index = set_lock (set_data (slot tbl index) None) false)
  /\ (forall j, 0 <= j -> j <> index -> slot tbl' j = slot tbl j)
  /\ (key_match (slot tbl index) dev_id disk_id cs
      && has_data (slot tbl index) = false -> tbl' = tbl).
Proof.
  intros Hok cs index tbl'.
  pose proof (index_in_table tbl dev_id disk_id cs Hok) as Hi.
  fold index in Hi.
  assert (Hcase :
    (key_match (slot tbl index) dev_id disk_id cs && has_data (slot tbl index)
       = true
     /\ tbl' = set_slot tbl index
                 (set_lock (set_data (set_lock (slot tbl index) true) None) false))
    \/ (key_match (slot tbl index) dev_id disk_id cs
        && has_data (slot tbl index) = false /\ tbl' = tbl)).
  { subst tbl'. unfold grub_disk_cache_invalidate. fold cs. fold index.
    destruct (_ && _); [left|right]; split; reflexivity. }
  split; [apply cluster_start_eq|].
  split; [|split; [|split]].
  - destruct Hcase as [[E ->]|[E ->]].
    + apply andb_prop in E. destruct E as [E1 E2].
      rewrite slot_set_slot_eq by lia. cbn. tauto.
    + split.
      * intros [H1 H2]. congruence.
      * intros [H1 H2]. rewrite H1, H2 in E. discriminate.
  - intros H1 H2. destruct Hcase as [[E ->]|[E _]].
    + rewrite slot_set_slot_eq by lia. reflexivity.
    + rewrite H1, H2 in E. discriminate.
  - intros j Hj Hne. subst tbl'. apply invalidate_slot_other; assumption.
  - intros E. destruct Hcase as [[E' _]|[_ ->]]; [congruence|reflexivity].
Qed.

End CacheFacts.

(** ** The cache under the read path *)

Section ReadSmallFacts.
Context {P : Platform} {world : Type}.
Hypothesis P_ok : platform_ok P = true.
Implicit Types (st : state world) (disk : grub_disk world).

Lemma malloc_table st :
  grub_disk_cache_table (snd (grub_malloc st)) = grub_disk_cache_table st.
Proof. unfold grub_malloc. destruct (mm_fail st) as [|[] ?]; reflexivity. Qed.

Lemma malloc_trace st : trace (snd (grub_malloc st)) = trace st.
Proof. unfold grub_malloc. destruct (mm_fail st) as [|[] ?]; reflexivity. Qed.

Lemma driver_result_table st e :
  grub_disk_cache_table (driver_result st e) = grub_disk_cache_table st.
Proof. unfold driver_result. destruct (is_err e); reflexivity. Qed.

Lemma driver_result_trace st e : trace (driver_result st e) = trace st.
Proof. unfold driver_result. destruct (is_err e); reflexivity. Qed.

Lemma dev_read_table st disk sector n :
  grub_disk_cache_table (snd (disk_dev_read st disk sector n))
  = grub_disk_cache_table st.
Proof.
  unfold disk_dev_read. destruct (dev_read _ _ _ _ _) as [[err data] w].
  cbn. rewrite driver_result_table. reflexivity.
Qed.

Lemma dev_read_trace st disk sector n :
  trace (snd (disk_dev_read st disk sector n))
  = trace st ++ [EvRead sector n (fst (fst (disk_dev_read st disk sector n)))].
Proof.
  unfold disk_dev_read. destruct (dev_read _ _ _ _ _) as [[err data] w].
  cbn. rewrite driver_result_trace. reflexivity.
Qed.

Lemma fallback_table st disk sector offset size buf bpos :
  grub_disk_cache_table
    (snd (read_small_fallback st disk sector offset size buf bpos))
  = grub_disk_cache_table st.
Proof.
  unfold read_small_fallback.
  pose proof (malloc_table st) as Hm.
  destruct (grub_malloc st) as [ok st1]. cbn in Hm.
  destruct ok; cbn [negb]; [|exact Hm].
  match goal with |- context [disk_dev_read ?a ?b ?c ?d] =>
    pose proof (dev_read_table a b c d) as Hr;
    destruct (disk_dev_read a b c d) as [[err bytes] st2] end.
  cbn in Hr. destruct (is_err err); cbn; congruence.
Qed.

(** After [grub_disk_cache_store] the slot is unlocked, whether the
    allocation of the new buffer succeeded or not. *)
Lemma store_unlocks st dev_id disk_id sector data :
  table_ok (grub_disk_cache_table st) ->
  c_lock (slot (grub_disk_cache_table
                  (snd (grub_disk_cache_store st dev_id disk_id sector data)))
               (grub_disk_cache_get_index dev_id disk_id sector)) = false.
Proof.
  intros Hok. unfold grub_disk_cache_store.
  pose proof (index_in_table P_ok _ dev_id disk_id sector Hok) as Hi.
  destruct (grub_malloc st) as [ok st1].
  destruct ok; cbn; rewrite slot_set_slot_eq by lia; reflexivity.
Qed.

Lemma store_table_ok st dev_id disk_id sector data :
  table_ok (grub_disk_cache_table st) ->
  table_ok (grub_disk_cache_table
              (snd (grub_disk_cache_store st dev_id disk_id sector data))).
Proof.
  intros Hok. unfold grub_disk_cache_store.
  destruct (grub_malloc st) as [ok st1].
  destruct ok; cbn; unfold table_ok; rewrite length_set_slot; exact Hok.
Qed.

(** A fetch whose key matches an empty slot misses and leaves the lock
    bit of the slot set. *)
Lemma fetch_emptied tbl dev_id disk_id sector :
  table_ok tbl ->
  let index := grub_disk_cache_get_index dev_id disk_id sector in
  key_match (slot tbl index) dev_id disk_id sector = true ->
  has_data (slot tbl index) = false ->
  grub_disk_cache_fetch tbl dev_id disk_id sector
  = (None, set_slot tbl index (set_lock (slot tbl index) true)).
Proof.
  intros Hok index Hm Hd. unfold grub_disk_cache_fetch. fold index.
  rewrite Hm. unfold has_data in Hd.
  destruct (c_data (slot tbl index)); [discriminate|reflexivity].
Qed.

Lemma store_trace st dev_id disk_id sector data :
  trace (snd (grub_disk_cache_store st dev_id disk_id sector data)) = trace st.
Proof.
  unfold grub_disk_cache_store. pose proof (malloc_trace st) as Hm.
  destruct (grub_malloc st) as [ok st1]. destruct ok; cbn in *; exact Hm.
Qed.

(** C10.  When the key of a fetch matches the slot it hashes to but the
    slot holds no data, [grub_disk_cache_fetch] returns NULL (a miss) and
    leaves the lock bit of the slot set.  [grub_disk_cache_invalidate_all]
    then leaves the slot as it is.  The caller does not unlock after a
    miss: when [grub_disk_read_small] returns, the slot is still as the
    fetch left it, unless the full-cluster read succeeded and the cluster
    was stored.  A store to the same index clears the lock. *)
Theorem fetch_miss_on_emptied_slot_keeps_it_locked
    (st : state world) (disk : grub_disk world)
    (sector offset size : Z) (buf : list byte) (bpos : Z) :
  table_ok (grub_disk_cache_table st) ->
  let dv := dev_id (dev disk) in
  let index := grub_disk_cache_get_index dv (id disk) sector in
  let fetched := grub_disk_cache_fetch (grub_disk_cache_table st) dv (id disk) sector in
  key_match (slot (grub_disk_cache_table st) index) dv (id disk) sector = true ->
  has_data (slot (grub_disk_cache_table st) index) = false ->
  fst fetched = None
  /\ c_lock (slot (snd fetched) index) = true
  /\ slot (grub_disk_cache_invalidate_all (snd fetched)) index
     = slot (snd fetched) index
  /\ (let st' := snd (grub_disk_read_small st disk sector offset size buf bpos) in
      slot (grub_disk_cache_table st') index = slot (snd fetched) index
      \/ (c_lock (slot (grub_disk_cache_table st') index) = false
          /\ trace st'
             = trace st
               ++ [EvRead (transform_sector disk sector)
                     (Z.shiftl 1 (GRUB_DISK_CACHE_BITS + GRUB_DISK_SECTOR_BITS
                                  - log_sector_size disk))
                     GRUB_ERR_NONE]))
  /\ (forall (st1 : state world) (dev_id' disk_id' sector' : Z) (data : list byte),
        grub_disk_cache_table st1 = snd fetched ->
        grub_disk_cache_get_index dev_id' disk_id' sector' = index ->
        c_lock (slot (grub_disk_cache_table
                        (snd (grub_disk_cache_store st1 dev_id' disk_id' sector' data)))
                     index) = false).
Proof.
  intros Hok dv index fetched Hm Hd.
  pose proof (index_in_table P_ok _ dv (id disk) sector Hok) as Hi.
  fold index in Hi.
  assert (Hf : fetched
               = (None, set_slot (grub_disk_cache_table st) index
                          (set_lock (slot (grub_disk_cache_table st) index) true)))
    by (apply fetch_emptied; assumption).
  assert (Hok1 : table_ok (snd fetched))
    by (apply (fetch_table_ok _ dv (id disk) sector Hok)).
  assert (Hlock : c_lock (slot (snd fetched) index) = true).
  { rewrite Hf. cbn [snd]. rewrite slot_set_slot_eq by lia. reflexivity. }
  split; [rewrite Hf; reflexivity|].
  split; [exact Hlock|].
  split.
  { rewrite invalidate_all_slot by (assumption || lia).
    rewrite Hlock. cbn [negb]. rewrite andb_false_r. reflexivity. }
  split.
  - cbn zeta. unfold grub_disk_read_small. fold dv. fold fetched.
    rewrite Hf. cbn [snd].
    set (tbl1 := set_slot _ _ _).
    pose proof (malloc_table (set_table st tbl1)) as Hmt.
    pose proof (malloc_trace (set_table st tbl1)) as Hmr.
    destruct (grub_malloc (set_table st tbl1)) as [ok st2].
    cbn [snd] in Hmt, Hmr. cbn in Hmt, Hmr.
    destruct ok; cbn [negb]; [|left; cbn [snd]; rewrite Hmt; reflexivity].
    destruct (_ || _).
    + match goal with |- context [disk_dev_read ?a ?b ?c ?d] =>
        pose proof (dev_read_table a b c d) as Hr;
        pose proof (dev_read_trace a b c d) as Ht;
        destruct (disk_dev_read a b c d) as [[err bytes] st3] end.
      cbn [fst snd] in Hr, Ht.
      destruct (is_err err) eqn:Eerr; cbn [negb].
      * left. rewrite fallback_table. cbn. congruence.
      * right.
        match goal with |- context [grub_disk_cache_store ?a ?b ?c ?d ?e] =>
          pose proof (store_unlocks a b c d e) as Hs;
          pose proof (store_trace a b c d e) as Hst;
          destruct (grub_disk_cache_store a b c d e) as [e' st4] end.
        cbn [snd] in *. split.
        -- apply Hs. rewrite Hr, Hmt. subst tbl1. rewrite Hf in Hok1. exact Hok1.
        -- rewrite Hst, Ht, Hmr. destruct err; try discriminate. reflexivity.
    + left. rewrite fallback_table. cbn. congruence.
  - intros st1 dev_id' disk_id' sector' data Ht Hidx. rewrite <- Hidx.
    apply store_unlocks. rewrite Ht. exact Hok1.
Qed.

End ReadSmallFacts.

(** ** The partition walker *)

Section AdjustRange.
Context {P : Platform} {world : Type}.
Implicit Types (st : state world) (disk : grub_disk world).

Lemma offset_mask offset :
  Z.land offset (GRUB_DISK_SECTOR_SIZE - 1) = offset mod 512.
Proof. change (GRUB_DISK_SECTOR_SIZE - 1) with (Z.ones 9). apply Z.land_ones. lia. Qed.

(** Without overflow of the 64-bit sum, the count of the code is the
    ceiling of [(offset + size) / 512]. *)
Lemma sectors_needed_exact offset size :
  0 <= offset + size -> offset + size + 511 < 2 ^ 64 ->
  sectors_needed offset size = (offset + size + 511) / 512
  /\ 512 * (sectors_needed offset size - 1) < offset + size
     <= 512 * sectors_needed offset size.
Proof.
  intros H0 H1. unfold sectors_needed.
  replace (offset + size + GRUB_DISK_SECTOR_SIZE - 1) with (offset + size + 511)
    by (unfold GRUB_DISK_SECTOR_SIZE; lia).
  rewrite u64_small by lia.
  rewrite Z.shiftr_div_pow2 by (unfold GRUB_DISK_SECTOR_BITS; lia).
  change (2 ^ GRUB_DISK_SECTOR_BITS) with 512.
  split; [reflexivity|].
  pose proof (Z.div_mod (offset + size + 511) 512 ltac:(lia)).
  pose proof (Z.mod_pos_bound (offset + size + 511) 512 ltac:(lia)). lia.
Qed.

Lemma adjust_partitions_spec parts sector offset size :
  partitions_ok parts -> 0 <= sector < 2 ^ 64 ->
  (fst (adjust_partitions parts sector offset size) = false
   <-> partition_check_fails parts sector (sectors_needed offset size))
  /\ (fst (adjust_partitions parts sector offset size) = true ->
      snd (adjust_partitions parts sector offset size)
      = absolute_sector parts sector).
Proof.
  intros Hok. revert sector.
  induction Hok as [|part parent Hlen Hok IH]; intros sector Hs.
  - cbn. split; [split; [discriminate|tauto]|reflexivity].
  - cbn [adjust_partitions partition_check_fails absolute_sector].
    destruct (Z.leb_spec (p_len part) sector) as [Hle|Hgt]; cbn [orb].
    + cbn. split; [split; [lia|reflexivity]|discriminate].
    + rewrite (u64_small (p_len part - sector)) by lia.
      destruct (Z.ltb_spec (p_len part - sector) (sectors_needed offset size))
        as [Hlt|Hge].
      * cbn. split; [split; [lia|reflexivity]|discriminate].
      * specialize (IH (u64 (sector + p_start part)) (u64_range _)).
        destruct IH as [IH1 IH2]. split; [|exact IH2].
        rewrite IH1. split; [tauto|]. intros [?|[?|?]]; [lia|lia|assumption].
Qed.

Lemma absolute_sector_range (parts : list grub_partition) sector :
  0 <= sector < 2 ^ 64 -> 0 <= absolute_sector parts sector < 2 ^ 64.
Proof.
  revert sector. induction parts as [|p ps IH]; intros x Hx; cbn; [exact Hx|].
  apply IH. apply u64_range.
Qed.

(** What [grub_disk_adjust_range] does, with the count of sectors as the
    code computes it.  It first carries the bytes into the sector
    ([sector += offset >> 9], 64-bit) and masks the offset
    ([offset &= 511]), so the offset it leaves is [offset mod 512].  With
    [need = ((offset + size + 511) mod 2 ^ 64) >> 9] (the ceiling of
    [(offset + size) / 512] as long as the 64-bit sum does not overflow),
    it fails with [GRUB_ERR_OUT_OF_RANGE] if and only if, walking the
    chain from the innermost partition outwards, some partition has
    [sector >= part.len] or [part.len - sector < need], or the size of the
    disk is known and the same check fails against
    [total_sectors << (L - 9)].  Otherwise it succeeds, changes nothing in
    the state, and leaves the device-absolute sector: each partition's
    start added in turn. *)
Lemma adjust_range_checks_with_wrapped_need
    (st : state world) (disk : grub_disk world) (sector offset size : Z) :
  partitions_ok (partition disk) ->
  let sector1 := u64 (sector + Z.shiftr offset 9) in
  let offset1 := Z.land offset 511 in
  let need := sectors_needed offset1 size in
  let r := grub_disk_adjust_range st disk sector offset size in
  let err := fst (fst (fst r)) in
  offset1 = offset mod 512
  /\ 0 <= offset1 < 512
  /\ need = Z.shiftr ((offset1 + size + 511) mod 2 ^ 64) 9
  /\ (0 <= size -> offset1 + size + 511 < 2 ^ 64 ->
      need = (offset1 + size + 511) / 512
      /\ 512 * (need - 1) < offset1 + size <= 512 * need)
  /\ snd (fst r) = offset1
  /\ (err = GRUB_ERR_OUT_OF_RANGE \/ err = GRUB_ERR_NONE)
  /\ (err = GRUB_ERR_OUT_OF_RANGE
      <-> partition_check_fails (partition disk) sector1 need
          \/ disk_check_fails disk (absolute_sector (partition disk) sector1) need)
  /\ (err = GRUB_ERR_NONE ->
      snd (fst (fst r)) = absolute_sector (partition disk) sector1
      /\ snd r = st).
Proof.
  intros Hok sector1 offset1 need r err.
  assert (Hoff : offset1 = offset mod 512) by (apply offset_mask).
  assert (Hrange : 0 <= offset1 < 512)
    by (rewrite Hoff; apply Z.mod_pos_bound; lia).
  split; [exact Hoff|]. split; [exact Hrange|].
  split.
  { subst need. unfold sectors_needed, u64, wrap.
    replace (offset1 + size + GRUB_DISK_SECTOR_SIZE - 1)
      with (offset1 + size + 511) by (unfold GRUB_DISK_SECTOR_SIZE; lia).
    reflexivity. }
  split; [intros; apply sectors_needed_exact; lia|].
  destruct (adjust_partitions_spec (partition disk) sector1 offset1 size Hok
              (u64_range _)) as [Hfail Hin].
  fold need in Hfail.
  subst r err. unfold grub_disk_adjust_range.
  change (Z.shiftr offset GRUB_DISK_SECTOR_BITS) with (Z.shiftr offset 9).
  change (GRUB_DISK_SECTOR_SIZE - 1) with 511.
  fold sector1. fold offset1. fold need.
  destruct (adjust_partitions (partition disk) sector1 offset1 size)
    as [inside s'] eqn:E.
  cbn [fst snd] in Hfail, Hin.
  destruct inside; cbn [negb].
  - (* inside every partition *)
    specialize (Hin eq_refl). subst s'.
    assert (Hnf : ~ partition_check_fails (partition disk) sector1 need)
      by (intros H; apply Hfail in H; discriminate).
    set (s := absolute_sector (partition disk) sector1) in *.
    unfold disk_check_fails.
    assert (Hs : 0 <= s < 2 ^ 64)
      by (apply absolute_sector_range, u64_range).
    pose proof (u64_range (Z.shiftl (total_sectors disk)
                  (log_sector_size disk - GRUB_DISK_SECTOR_BITS))) as HT.
    fold (total_logical_sectors disk) in HT.
    destruct (Z.eqb_spec (total_sectors disk) GRUB_DISK_SIZE_UNKNOWN) as [Hu|Hk];
      cbn [negb andb].
    + cbn. split; [reflexivity|]. split; [right; reflexivity|].
      split; [|intros _; split; reflexivity].
      split; [discriminate|]. intros [H|[H _]]; [tauto|congruence].
    + destruct (Z.leb_spec (total_logical_sectors disk) s) as [Hle|Hgt];
        cbn [orb].
      * cbn. split; [reflexivity|]. split; [left; reflexivity|].
        split; [|discriminate].
        split; [|reflexivity]. intros _. right. split; [exact Hk|lia].
      * rewrite (u64_small (total_logical_sectors disk - s)) by lia.
        destruct (Z.ltb_spec (total_logical_sectors disk - s) need) as [Hlt|Hge].
        -- cbn. split; [reflexivity|]. split; [left; reflexivity|].
           split; [|discriminate].
           split; [|reflexivity]. intros _. right. split; [exact Hk|lia].
        -- cbn. split; [reflexivity|]. split; [right; reflexivity|].
           split; [|intros _; split; reflexivity].
           split; [discriminate|]. intros [H|[_ H]]; [tauto|lia].
  - (* some partition fails *)
    cbn. split; [reflexivity|]. split; [left; reflexivity|].
    split; [|discriminate].
    split; [|reflexivity]. intros _. left. apply Hfail. reflexivity.
Qed.

End AdjustRange.

(** ** The name of a disk *)

(** [find_part_sep_from] finds the first comma that no backslash
    precedes, provided a comma at the head of the string is not itself
    preceded by a backslash. *)
Lemma find_part_sep_from_spec (n : nat) :
  forall (s : string) (prev : option ascii) (i : nat),
    (String.length s <= n)%nat ->
    (String.get 0 s = Some comma -> prev <> Some backslash) ->
    match find_part_sep_from i s with
    | Some k =>
        exists j, k = (i + j)%nat /\ unescaped_comma prev s j
                  /\ forall j', (j' < j)%nat -> ~ unescaped_comma prev s j'
    | None => forall j, ~ unescaped_comma prev s j
    end.
Proof.
  induction n as [|n IH]; intros s prev i Hlen Hhead.
  - destruct s; [|cbn in Hlen; lia].
    cbn. intros j [Hj _]. destruct j; discriminate.
  - destruct s as [|c rest]; [cbn; intros j [Hj _]; destruct j; discriminate|].
    cbn [String.length] in Hlen.
    cbn [find_part_sep_from].
    destruct (Ascii.eqb_spec c backslash) as [->|Hcb].
    + (* a backslash *)
      assert (Hskip :
        (String.get 0 rest = Some comma -> False) ->
          match find_part_sep_from (S i) rest with
          | Some k =>
              exists j, k = (i + j)%nat
                /\ unescaped_comma prev (String backslash rest) j
                /\ forall j', (j' < j)%nat ->
                     ~ unescaped_comma prev (String backslash rest) j'
          | None => forall j, ~ unescaped_comma prev (String backslash rest) j
          end).
      { intros Hnc.
        specialize (IH rest (Some backslash) (S i) ltac:(lia)
                      ltac:(intros H; destruct (Hnc H))).
        destruct (find_part_sep_from (S i) rest) as [k|].
        - destruct IH as (j & -> & Hu & Hmin).
          exists (S j). split; [lia|]. split.
          + destruct Hu as [Hg Hb]. split; [exact Hg|].
            destruct j; [exact Hb|exact Hb].
          + intros j' Hj'. destruct j' as [|j'].
            * intros [Hg _]. cbn in Hg. inversion Hg.
            * intros [Hg Hb]. apply (Hmin j' ltac:(lia)).
              split; [exact Hg|]. destruct j'; exact Hb.
        - intros j. destruct j as [|j].
          + intros [Hg _]. cbn in Hg. inversion Hg.
          + intros [Hg Hb]. apply (IH j).
            split; [exact Hg|]. destruct j; exact Hb. }
      destruct rest as [|c' rest'].
      * apply Hskip. cbn. discriminate.
      * destruct (Ascii.eqb_spec c' comma) as [->|Hcc].
        -- (* an escaped comma: both characters are skipped *)
           cbn [String.length] in Hlen.
           specialize (IH rest' (Some comma) (S (S i)) ltac:(lia)
                         ltac:(intros _ H; inversion H)).
           destruct (find_part_sep_from (S (S i)) rest') as [k|].
           ++ destruct IH as (j & -> & Hu & Hmin).
              exists (S (S j)). split; [lia|]. split.
              ** destruct Hu as [Hg Hb]. split; [exact Hg|].
                 destruct j; exact Hb.
              ** intros j' Hj'. destruct j' as [|[|j']].
                 --- intros [Hg _]. cbn in Hg. inversion Hg.
                 --- intros [_ Hb]. apply Hb. reflexivity.
                 --- intros [Hg Hb]. apply (Hmin j' ltac:(lia)).
                     split; [exact Hg|]. destruct j'; exact Hb.
           ++ intros j. destruct j as [|[|j]].
              ** intros [Hg _]. cbn in Hg. inversion Hg.
              ** intros [_ Hb]. apply Hb. reflexivity.
              ** intros [Hg Hb]. apply (IH j).
                 split; [exact Hg|]. destruct j; exact Hb.
        -- apply Hskip. cbn. intros H. inversion H. contradiction.
    + destruct (Ascii.eqb_spec c comma) as [->|Hcc].
      * (* the separator *)
        exists 0%nat. split; [lia|]. split.
        -- split; [reflexivity|]. apply Hhead. reflexivity.
        -- intros j' Hj'. lia.
      * (* any other character *)
        specialize (IH rest (Some c) (S i) ltac:(lia)
                      ltac:(intros _ H; inversion H; contradiction)).
        destruct (find_part_sep_from (S i) rest) as [k|].
        -- destruct IH as (j & -> & Hu & Hmin).
           exists (S j). split; [lia|]. split.
           ++ destruct Hu as [Hg Hb]. split; [exact Hg|]. destruct j; exact Hb.
           ++ intros j' Hj'. destruct j' as [|j'].
              ** intros [Hg _]. cbn in Hg. inversion Hg. contradiction.
              ** intros [Hg Hb]. apply (Hmin j' ltac:(lia)).
                 split; [exact Hg|]. destruct j'; exact Hb.
        -- intros j. destruct j as [|j].
           ++ intros [Hg _]. cbn in Hg. inversion Hg. contradiction.
           ++ intros [Hg Hb]. apply (IH j).
              split; [exact Hg|]. destruct j; exact Hb.
Qed.

(** [find_part_sep] returns the first comma that no backslash precedes,
    and NULL when the name has none. *)
Lemma find_part_sep_spec (name : string) :
  match find_part_sep name with
  | Some k =>
      unescaped_comma None name k
      /\ forall j, (j < k)%nat -> ~ unescaped_comma None name j
  | None => forall j, ~ unescaped_comma None name j
  end.
Proof.
  unfold find_part_sep.
  pose proof (find_part_sep_from_spec (String.length name) name None 0
                ltac:(lia) ltac:(discriminate)) as H.
  destruct (find_part_sep_from 0 name) as [k|]; [|exact H].
  destruct H as (j & -> & Hu & Hmin). exact (conj Hu Hmin).
Qed.

(** ** Opening a disk *)

Section OpenFacts.
Context {P : Platform} {world : Type}.
Variable grub_partition_probe :
  disk_geom -> string -> world -> list grub_partition.
Implicit Types (st : state world) (disk : grub_disk world).

Lemma is_unknown_device_true e :
  is_unknown_device e = true <-> e = GRUB_ERR_UNKNOWN_DEVICE.
Proof. destruct e; cbn; split; congruence. Qed.

Lemma is_err_false e : is_err e = false <-> e = GRUB_ERR_NONE.
Proof. destruct e; cbn; split; congruence. Qed.

(** The walk over the drivers: the drivers it [tried] in vain all
    answered [GRUB_ERR_UNKNOWN_DEVICE]; it then ran out of drivers, or the
    next driver opened the disk, or the next driver failed with another
    error, which is then the value of [grub_errno]. *)
Lemma open_walk_spec (devs : list (grub_disk_dev world)) raw :
  forall g st r g' st',
    open_walk devs raw g st = (r, g', st') ->
    exists tried rest,
      devs = tried ++ rest
      /\ match r with
         | WalkNone =>
             rest = []
             /\ trace st' = trace st ++ declined raw tried
         | WalkFound d =>
             exists rest',
               rest = d :: rest'
               /\ trace st'
                  = trace st ++ declined raw tried
                    ++ [EvOpen (dev_id d) raw GRUB_ERR_NONE]
               /\ grub_errno st'
                  = match tried with [] => grub_errno st | _ => GRUB_ERR_NONE end
         | WalkFail =>
             exists d rest' e,
               rest = d :: rest'
               /\ is_err e = true /\ e <> GRUB_ERR_UNKNOWN_DEVICE
               /\ trace st'
                  = trace st ++ declined raw tried ++ [EvOpen (dev_id d) raw e]
               /\ grub_errno st' = e
         end.
Proof.
  induction devs as [|d devs' IH]; intros g st r g1 st1 H.
  - cbn in H. inversion H; subst. exists [], []. cbn.
    rewrite app_nil_r. auto.
  - cbn [open_walk] in H.
    destruct (dev_open d raw g (devices st)) as [[err g'] w'] eqn:Eo.
    unfold driver_result in H.
    destruct (is_err err) eqn:Eerr; cbn [negb] in H.
    + cbn [grub_errno set_errno] in H.
      destruct (is_unknown_device err) eqn:Eun.
      * apply is_unknown_device_true in Eun. subst err.
        apply IH in H. destruct H as (tried & rest & -> & H).
        exists (d :: tried), rest. split; [reflexivity|].
        destruct r.
        -- destruct H as (rest' & -> & Ht & He). exists rest'.
           split; [reflexivity|]. split.
           ++ rewrite Ht. cbn. rewrite <- !app_assoc. reflexivity.
           ++ rewrite He. destruct tried; reflexivity.
        -- destruct H as (-> & Ht). split; [reflexivity|].
           rewrite Ht. cbn. rewrite <- !app_assoc. reflexivity.
        -- destruct H as (d' & rest' & e & -> & He1 & He2 & Ht & He).
           exists d', rest', e. repeat split; try assumption.
           rewrite Ht. cbn. rewrite <- !app_assoc. reflexivity.
      * inversion H; subst.
        exists [], (d :: devs'). split; [reflexivity|].
        exists d, devs', err. repeat split; try assumption.
        intros ->. discriminate.
    + inversion H; subst.
      exists [], (d :: devs'). split; [reflexivity|].
      exists devs'. apply is_err_false in Eerr. subst err.
      repeat split.
Qed.

(** An allocation that is not scheduled to fail returns memory and leaves
    everything but the schedule as it was. *)
Lemma malloc_succeeds st :
  allocs_succeed st ->
  exists m, grub_malloc st = (true, set_mm_fail st m)
            /\ allocs_succeed (set_mm_fail st m).
Proof.
  unfold allocs_succeed, grub_malloc. intros H.
  destruct (mm_fail st) as [|b rest] eqn:E.
  - exists []. split; [|constructor].
    destruct st; cbn in *; subst; reflexivity.
  - inversion H as [|? ? Hb Hrest]; subst. exists rest. split; [reflexivity|exact Hrest].
Qed.

(** The state a successful allocation leaves differs from the one before
    in the allocator's schedule only. *)
Lemma open_exit_fail st nm d g part :
  is_err (grub_errno st) = true ->
  open_exit st nm d g part = (None, disk_close st d g).
Proof. unfold open_exit. intros ->. reflexivity. Qed.

(** The shape of a run of [grub_disk_open] when no allocation fails. *)
Lemma open_shape (st : state world) (nm : string) :
  allocs_succeed st ->
  let raw :=
    match find_part_sep nm with Some len => prefix len nm | None => nm end in
  let r := grub_disk_open grub_partition_probe st nm in
  exists tried rest new,
    grub_disk_dev_list st = tried ++ rest
    /\ trace (snd r) = trace st ++ declined raw tried ++ new
    /\ match rest with
       | [] =>
           new = [] /\ fst r = None
           /\ grub_errno (snd r) = GRUB_ERR_UNKNOWN_DEVICE
           /\ grub_errmsg (snd r) = ("disk `" ++ nm ++ "' not found")%string
       | d :: _ =>
           exists e more,
             e <> GRUB_ERR_UNKNOWN_DEVICE
             /\ new = EvOpen (dev_id d) raw e :: more
             /\ (e <> GRUB_ERR_NONE ->
                 more = [] /\ fst r = None /\ grub_errno (snd r) = e)
             /\ (e = GRUB_ERR_NONE ->
                 tried <> [] \/ grub_errno st = GRUB_ERR_NONE ->
                 (exists disk, fst r = Some disk /\ dev disk = d
                               /\ grub_errno (snd r) = GRUB_ERR_NONE)
                 \/ (fst r = None
                     /\ grub_errno (snd r) = GRUB_ERR_NOT_IMPLEMENTED_YET)
                 \/ (fst r = None
                     /\ find_part_sep nm <> None
                     /\ grub_errno (snd r) = GRUB_ERR_UNKNOWN_DEVICE
                     /\ grub_errmsg (snd r) = "no such partition"%string))
       end.
Proof.
  intros Hal raw r. subst r. unfold grub_disk_open.
  destruct (malloc_succeeds st Hal) as (m1 & -> & Hal1). cbn [negb].
  fold raw.
  set (st1 := set_mm_fail st m1) in *.
  assert (Hraw : exists m2,
    (match find_part_sep nm with
     | Some _ => grub_malloc st1
     | None => (true, st1)
     end) = (true, set_mm_fail st m2) /\ allocs_succeed (set_mm_fail st m2)).
  { destruct (find_part_sep nm).
    - destruct (malloc_succeeds st1 Hal1) as (m2 & -> & H2).
      exists m2. split; [reflexivity|exact H2].
    - exists m1. split; [reflexivity|exact Hal1]. }
  destruct Hraw as (m2 & -> & Hal2). cbn [negb].
  destruct (malloc_succeeds _ Hal2) as (m3 & -> & Hal3). cbn [negb].
  change (set_mm_fail (set_mm_fail st m2) m3) with (set_mm_fail st m3).
  set (st3 := set_mm_fail st m3) in *.
  change (grub_disk_dev_list st3) with (grub_disk_dev_list st).
  destruct (open_walk (grub_disk_dev_list st) raw _ st3) as [[w g] st4] eqn:Ew.
  apply open_walk_spec in Ew. destruct Ew as (tried & rest & Hdevs & Hw).
  change (trace st3) with (trace st) in Hw.
  change (grub_errno st3) with (grub_errno st) in Hw.
  exists tried, rest. destruct w.
  - (* a driver opened the disk *)
    destruct Hw as (rest' & -> & Ht & He).
    destruct (_ || _) eqn:EL.
    + exists [EvOpen (dev_id d) raw GRUB_ERR_NONE].
      split; [exact Hdevs|]. split; [cbn; exact Ht|].
      exists GRUB_ERR_NONE, []. split; [discriminate|]. split; [reflexivity|].
      split; [intros H; congruence|]. intros _ _. right. left.
      split; reflexivity.
    + destruct (find_part_sep nm) as [len|] eqn:Ep.
      * match goal with |- context [grub_partition_probe ?a ?b ?c] =>
          destruct (grub_partition_probe a b c) as [|p ps] end.
        -- exists [EvOpen (dev_id d) raw GRUB_ERR_NONE;
                   EvProbe (suffix (S len) nm); EvClose (dev_id d)].
           split; [exact Hdevs|]. split.
           { cbn. rewrite Ht. rewrite <- !app_assoc. reflexivity. }
           exists GRUB_ERR_NONE. eexists. split; [discriminate|].
           split; [reflexivity|]. split; [congruence|].
           intros _ _. right. right. split; [reflexivity|].
           split; [discriminate|]. split; reflexivity.
        -- match goal with |- context [open_exit ?s _ _ _ _] =>
             set (st5 := s) end.
           assert (Ht5 : trace st5
                         = trace st ++ declined raw tried
                           ++ [EvOpen (dev_id d) raw GRUB_ERR_NONE;
                               EvProbe (suffix (S len) nm)]).
           { subst st5. cbn. destruct (u64 _ <? _); cbn; rewrite Ht;
               rewrite <- !app_assoc; reflexivity. }
           assert (He5 : grub_errno st5
                         = match tried with
                           | [] => grub_errno st
                           | _ => GRUB_ERR_NONE
                           end).
           { subst st5. cbn. destruct (u64 _ <? _); cbn; exact He. }
           unfold open_exit. destruct (is_err (grub_errno st5)) eqn:Eerr.
           ++ exists [EvOpen (dev_id d) raw GRUB_ERR_NONE;
                      EvProbe (suffix (S len) nm); EvClose (dev_id d)].
              split; [exact Hdevs|]. split.
              { cbn [snd disk_close trace log set_last_time set_devices].
                rewrite Ht5. rewrite <- !app_assoc. reflexivity. }
              exists GRUB_ERR_NONE. eexists. split; [discriminate|].
              split; [reflexivity|]. split; [congruence|].
              intros _ Hst. exfalso. rewrite He5 in Eerr.
              destruct tried; [destruct Hst as [Hst|Hst];
                               [congruence|rewrite Hst in Eerr]|];
                discriminate.
           ++ exists [EvOpen (dev_id d) raw GRUB_ERR_NONE;
                      EvProbe (suffix (S len) nm)].
              split; [exact Hdevs|]. split.
              { cbn [snd]. rewrite Ht5. reflexivity. }
              exists GRUB_ERR_NONE. eexists. split; [discriminate|].
              split; [reflexivity|]. split; [congruence|].
              intros _ _. left. eexists. split; [reflexivity|].
              split; [reflexivity|]. cbn [snd].
              apply is_err_false. exact Eerr.
      * match goal with |- context [open_exit ?s _ _ _ _] =>
          set (st5 := s) end.
        assert (Ht5 : trace st5
                      = trace st ++ declined raw tried
                        ++ [EvOpen (dev_id d) raw GRUB_ERR_NONE]).
        { subst st5. cbn. destruct (u64 _ <? _); cbn; exact Ht. }
        assert (He5 : grub_errno st5
                      = match tried with
                        | [] => grub_errno st
                        | _ => GRUB_ERR_NONE
                        end).
        { subst st5. cbn. destruct (u64 _ <? _); cbn; exact He. }
        unfold open_exit. destruct (is_err (grub_errno st5)) eqn:Eerr.
        -- exists [EvOpen (dev_id d) raw GRUB_ERR_NONE; EvClose (dev_id d)].
           split; [exact Hdevs|]. split.
           { cbn [snd disk_close trace log set_last_time set_devices].
             rewrite Ht5. rewrite <- !app_assoc. reflexivity. }
           exists GRUB_ERR_NONE. eexists. split; [discriminate|].
           split; [reflexivity|]. split; [congruence|].
           intros _ Hst. exfalso. rewrite He5 in Eerr.
           destruct tried; [destruct Hst as [Hst|Hst];
                            [congruence|rewrite Hst in Eerr]|];
             discriminate.
        -- exists [EvOpen (dev_id d) raw GRUB_ERR_NONE].
           split; [exact Hdevs|]. split; [cbn [snd]; exact Ht5|].
           exists GRUB_ERR_NONE, []. split; [discriminate|].
           split; [reflexivity|]. split; [congruence|].
           intros _ _. left. eexists. split; [reflexivity|].
           split; [reflexivity|]. cbn [snd].
           apply is_err_false. exact Eerr.
  - (* every driver declined *)
    destruct Hw as (-> & Ht). exists [].
    split; [exact Hdevs|]. cbn.
    split; [rewrite Ht, app_nil_r; reflexivity|]. auto.
  - (* a driver failed with another error *)
    destruct Hw as (d & rest' & e & -> & He1 & He2 & Ht & He).
    rewrite open_exit_fail by (rewrite He; exact He1).
    exists [EvOpen (dev_id d) raw e].
    split; [exact Hdevs|]. split; [cbn; exact Ht|].
    exists e, []. split; [exact He2|]. split; [reflexivity|].
    split; [intros _; cbn; auto|].
    intros ->. discriminate.
Qed.

(** C9 (as amended).  In [grub_disk_open], when no allocation fails, the
    drivers are tried in the order of the list with the device name
    [raw].  A driver that fails with [GRUB_ERR_UNKNOWN_DEVICE] is passed
    over: its error is cleared and the next call is the [open] of the
    next driver, so that once a later driver opens the disk nothing is
    left of the errors before it, not even an error that was pending when
    open was called: open then returns the handle with no error, or
    fails for a reason of its own (the sector size, or a partition that
    is not found).  A driver that fails with any other error ends the
    walk at once: no further driver is called, open returns NULL and
    [grub_errno] is that error.  When every driver of the list declines,
    open returns NULL with [GRUB_ERR_UNKNOWN_DEVICE] and the message
    "disk `NAME' not found", NAME being the name given to open and the
    opening quote a backquote.  The last part is the step of the walk
    itself: after a driver that declines, the walk goes on with the rest
    of the list from a state whose [grub_errno] is [GRUB_ERR_NONE]. *)
Theorem open_driver_walk_errors (st : state world) (nm : string) :
  allocs_succeed st ->
  let raw :=
    match find_part_sep nm with Some len => prefix len nm | None => nm end in
  let r := grub_disk_open grub_partition_probe st nm in
  (exists tried rest new,
    grub_disk_dev_list st = tried ++ rest
    /\ trace (snd r) = trace st ++ declined raw tried ++ new
    /\ match rest with
       | [] =>
           new = [] /\ fst r = None
           /\ grub_errno (snd r) = GRUB_ERR_UNKNOWN_DEVICE
           /\ grub_errmsg (snd r) = ("disk `" ++ nm ++ "' not found")%string
       | d :: _ =>
           exists e more,
             e <> GRUB_ERR_UNKNOWN_DEVICE
             /\ new = EvOpen (dev_id d) raw e :: more
             /\ (e <> GRUB_ERR_NONE ->
                 more = [] /\ fst r = None /\ grub_errno (snd r) = e)
             /\ (e = GRUB_ERR_NONE ->
                 tried <> [] \/ grub_errno st = GRUB_ERR_NONE ->
                 (exists disk, fst r = Some disk /\ dev disk = d
                               /\ grub_errno (snd r) = GRUB_ERR_NONE)
                 \/ (fst r = None
                     /\ grub_errno (snd r) = GRUB_ERR_NOT_IMPLEMENTED_YET)
                 \/ (fst r = None
                     /\ find_part_sep nm <> None
                     /\ grub_errno (snd r) = GRUB_ERR_UNKNOWN_DEVICE
                     /\ grub_errmsg (snd r) = "no such partition"%string))
       end)
  /\ (forall (d : grub_disk_dev world) next g (st0 : state world),
        fst (fst (dev_open d raw g (devices st0))) = GRUB_ERR_UNKNOWN_DEVICE ->
        exists g1 st1,
          open_walk (d :: next) raw g st0 = open_walk next raw g1 st1
          /\ grub_errno st1 = GRUB_ERR_NONE
          /\ trace st1
             = trace st0 ++ [EvOpen (dev_id d) raw GRUB_ERR_UNKNOWN_DEVICE]).
Proof.
  intros Hal raw r. split; [apply open_shape; exact Hal|].
  intros d next g st0 Hd. cbn [open_walk].
  destruct (dev_open d raw g (devices st0)) as [[err g1] w1] eqn:Eo.
  cbn in Hd. subst err. cbn.
  eexists _, _. split; [reflexivity|]. split; reflexivity.
Qed.

Lemma prefix_suffix (n : nat) (s : string) :
  (prefix n s ++ suffix n s)%string = s.
Proof.
  revert s. induction n as [|n IH]; intros s; [reflexivity|].
  destruct s as [|c rest]; [reflexivity|]. cbn. rewrite IH. reflexivity.
Qed.

Lemma suffix_get (n : nat) (s : string) (c : ascii) :
  String.get n s = Some c -> suffix n s = String c (suffix (S n) s).
Proof.
  revert s. induction n as [|n IH]; intros s H.
  - destruct s; [discriminate|]. cbn in H. inversion H. reflexivity.
  - destruct s as [|c' rest]; [discriminate|]. cbn in H. cbn [suffix].
    rewrite (IH rest H). reflexivity.
Qed.

Lemma open_walk_names (devs : list (grub_disk_dev world)) raw spec g st r g' st' :
  open_walk devs raw g st = (r, g', st') ->
  exists new, trace st' = trace st ++ new /\ Forall (names_passed raw spec) new.
Proof.
  intros H. apply open_walk_spec in H. destruct H as (tried & rest & _ & H).
  assert (Hd : Forall (names_passed raw spec) (declined raw tried)).
  { unfold declined. apply Forall_map. apply Forall_true. intros d. reflexivity. }
  destruct r.
  - destruct H as (rest' & _ & Ht & _). eexists. split; [exact Ht|].
    apply Forall_app. split; [exact Hd|]. repeat constructor.
  - destruct H as (_ & Ht). eexists. split; [exact Ht|exact Hd].
  - destruct H as (d & rest' & e & _ & _ & _ & Ht & _).
    eexists. split; [exact Ht|].
    apply Forall_app. split; [exact Hd|]. repeat constructor.
Qed.

(** Whatever the allocator does, [grub_disk_open] hands [raw] to the
    drivers and [spec] to the prober, and a handle it returns bears the
    name [raw]. *)
Lemma open_names (st : state world) (nm : string) :
  let p := find_part_sep nm in
  let raw := match p with Some len => prefix len nm | None => nm end in
  let spec :=
    match p with Some len => Some (suffix (S len) nm) | None => None end in
  let r := grub_disk_open grub_partition_probe st nm in
  exists new,
    trace (snd r) = trace st ++ new
    /\ Forall (names_passed raw spec) new
    /\ forall disk, fst r = Some disk ->
         name disk = raw
         /\ forall s, spec = Some s -> In (EvProbe s) new.
Proof.
  intros p raw spec r. subst r. unfold grub_disk_open. fold p. fold raw.
  pose proof (malloc_trace st) as Ht1.
  destruct (grub_malloc st) as [ok1 st1]. cbn [snd] in Ht1.
  destruct ok1; cbn [negb];
    [|exists []; cbn; rewrite Ht1, app_nil_r; repeat split; try constructor;
      discriminate].
  assert (Hnone : forall s g new0,
    trace s = trace st ++ new0 -> Forall (names_passed raw spec) new0 ->
    exists new,
      trace (snd (open_exit s raw None g [])) = trace st ++ new
      /\ Forall (names_passed raw spec) new
      /\ forall disk, fst (open_exit s raw None g []) = Some disk ->
           name disk = raw /\ forall s0, spec = Some s0 -> In (EvProbe s0) new).
  { intros s g new0 Hs Hf. exists new0. unfold open_exit.
    destruct (is_err (grub_errno s)); cbn; rewrite Hs;
      repeat split; try assumption; discriminate. }
  assert (Hraw : exists ok2 st2,
    (match p with Some _ => grub_malloc st1 | None => (true, st1) end)
    = (ok2, st2) /\ trace st2 = trace st
    /\ grub_disk_dev_list st2 = grub_disk_dev_list st1).
  { destruct p.
    - pose proof (malloc_trace st1) as H.
      assert (grub_disk_dev_list (snd (grub_malloc st1)) = grub_disk_dev_list st1)
        by (unfold grub_malloc; destruct (mm_fail st1) as [|[] ?]; reflexivity).
      destruct (grub_malloc st1) as [ok2 st2]. exists ok2, st2.
      cbn [snd] in *. repeat split; congruence.
    - exists true, st1. repeat split; congruence. }
  destruct Hraw as (ok2 & st2 & -> & Ht2 & Hd2).
  destruct ok2; cbn [negb];
    [|apply (Hnone _ _ []); [rewrite app_nil_r; exact Ht2|constructor]].
  pose proof (malloc_trace st2) as Ht3.
  destruct (grub_malloc st2) as [ok3 st3]. cbn [snd] in Ht3.
  destruct ok3; cbn [negb];
    [|apply (Hnone _ _ []); [rewrite app_nil_r; congruence|constructor]].
  destruct (open_walk (grub_disk_dev_list st3) raw _ st3) as [[w g] st4] eqn:Ew.
  apply (open_walk_names _ _ spec) in Ew. destruct Ew as (new4 & Ht4 & Hf4).
  rewrite Ht3, Ht2 in Ht4.
  destruct w.
  - destruct (_ || _).
    + exists new4. cbn. repeat split; try assumption; discriminate.
    + subst spec. destruct p as [len|].
      * match goal with |- context [grub_partition_probe ?a ?b ?c] =>
          destruct (grub_partition_probe a b c) as [|pt pts] end.
        -- exists (new4 ++ [EvProbe (suffix (S len) nm); EvClose (dev_id d)]).
           cbn. rewrite Ht4, <- !app_assoc. split; [reflexivity|].
           split; [|discriminate].
           apply Forall_app. split; [exact Hf4|]. repeat constructor.
        -- match goal with |- context [open_exit ?s _ _ _ _] =>
             set (st5 := s) end.
           assert (Ht5 : trace st5
                         = trace st ++ new4 ++ [EvProbe (suffix (S len) nm)]).
           { subst st5. cbn. destruct (u64 _ <? _); cbn; rewrite Ht4;
               rewrite <- !app_assoc; reflexivity. }
           unfold open_exit. destruct (is_err (grub_errno st5)).
           ++ exists (new4 ++ [EvProbe (suffix (S len) nm); EvClose (dev_id d)]).
              cbn [snd fst disk_close trace log set_last_time set_devices].
              rewrite Ht5, <- !app_assoc. split; [reflexivity|].
              split; [|discriminate].
              apply Forall_app. split; [exact Hf4|]. repeat constructor.
           ++ exists (new4 ++ [EvProbe (suffix (S len) nm)]).
              cbn [snd fst]. split; [exact Ht5|].
              split; [apply Forall_app; split; [exact Hf4|]; repeat constructor|].
              intros disk Hdisk. inversion Hdisk; subst disk. cbn [name].
              split; [reflexivity|]. intros s Hs. inversion Hs; subst s.
              apply in_or_app. right. left. reflexivity.
      * match goal with |- context [open_exit ?s _ _ _ _] =>
          set (st5 := s) end.
        assert (Ht5 : trace st5 = trace st ++ new4).
        { subst st5. cbn. destruct (u64 _ <? _); cbn; exact Ht4. }
        unfold open_exit. destruct (is_err (grub_errno st5)).
        -- exists (new4 ++ [EvClose (dev_id d)]).
           cbn [snd fst disk_close trace log set_last_time set_devices].
           rewrite Ht5, <- !app_assoc. split; [reflexivity|].
           split; [|discriminate].
           apply Forall_app. split; [exact Hf4|]. repeat constructor.
        -- exists new4. cbn [snd fst]. split; [exact Ht5|].
           split; [exact Hf4|].
           intros disk Hdisk. inversion Hdisk; subst disk. cbn [name].
           split; [reflexivity|]. intros s Hs. discriminate.
  - exists new4. cbn. repeat split; try assumption; discriminate.
  - apply (Hnone _ _ new4); assumption.
Qed.

(** C4 (as amended).  [grub_disk_open] splits its name at the first comma
    that no backslash precedes; a backslash followed by a comma is skipped
    over in the search.  The device name passed to each driver's [open],
    and kept as the name of the handle, is the text before that comma
    exactly as it was written, backslashes included (nothing removes the
    escape); the partition prober gets the text after the comma.  A name
    without such a comma is passed whole and no partition is probed. *)
Theorem open_splits_name_keeping_escapes (st : state world) (nm : string) :
  let p := find_part_sep nm in
  let raw := match p with Some len => prefix len nm | None => nm end in
  let spec :=
    match p with Some len => Some (suffix (S len) nm) | None => None end in
  let r := grub_disk_open grub_partition_probe st nm in
  match p with
  | Some k =>
      unescaped_comma None nm k
      /\ (forall j, (j < k)%nat -> ~ unescaped_comma None nm j)
      /\ nm = (raw ++ String comma (suffix (S k) nm))%string
  | None => forall j, ~ unescaped_comma None nm j
  end
  /\ exists new,
       trace (snd r) = trace st ++ new
       /\ Forall (names_passed raw spec) new
       /\ (forall disk, fst r = Some disk ->
             name disk = raw
             /\ forall s, spec = Some s -> In (EvProbe s) new)
       /\ (allocs_succeed st ->
           forall d rest, grub_disk_dev_list st = d :: rest ->
             exists e more, new = EvOpen (dev_id d) raw e :: more).
Proof.
  intros p raw spec r. split.
  - pose proof (find_part_sep_spec nm) as H. fold p in H.
    subst raw. destruct p as [k|]; [|exact H].
    destruct H as [Hu Hmin]. split; [exact Hu|]. split; [exact Hmin|].
    destruct Hu as [Hg _]. rewrite <- (suffix_get _ _ _ Hg).
    symmetry. apply prefix_suffix.
  - destruct (open_names st nm) as (new & Ht & Hf & Hd).
    fold p raw spec r in Ht, Hf, Hd.
    exists new. split; [exact Ht|]. split; [exact Hf|]. split; [exact Hd|].
    intros Hal d rest Hdevs.
    destruct (open_shape st nm Hal) as (tried & rest' & new' & Hl & Ht' & Hr).
    fold p raw r in Ht', Hr.
    rewrite Ht in Ht'. apply app_inv_head in Ht'. subst new.
    rewrite Hdevs in Hl. destruct tried as [|d' tried].
    + cbn in Hl. subst rest'. destruct Hr as (e & more & _ & -> & _).
      exists e, more. reflexivity.
    + cbn in Hl. inversion Hl; subst d'. eexists. eexists. reflexivity.
Qed.

End OpenFacts.

(** ** The driver calls of the read path *)

Section ReadTrace.
Context {P : Platform} {world : Type}.
Implicit Types (st : state world) (disk : grub_disk world).

Lemma reads_only_refl st : reads_only st st.
Proof. exists []. rewrite app_nil_r. split; [reflexivity|constructor]. Qed.

Lemma reads_only_trans st1 st2 st3 :
  reads_only st1 st2 -> reads_only st2 st3 -> reads_only st1 st3.
Proof.
  intros (e1 & H1 & F1) (e2 & H2 & F2). exists (e1 ++ e2).
  rewrite H2, H1, app_assoc. split; [reflexivity|].
  apply Forall_app. split; assumption.
Qed.

Lemma reads_only_same st st' : trace st' = trace st -> reads_only st st'.
Proof. intros H. exists []. rewrite app_nil_r. split; [exact H|constructor]. Qed.

Lemma reads_only_malloc st : reads_only st (snd (grub_malloc st)).
Proof. apply reads_only_same, malloc_trace. Qed.

Lemma reads_only_dev_read st disk sector n :
  reads_only st (snd (disk_dev_read st disk sector n)).
Proof.
  eexists. split; [apply dev_read_trace|]. repeat constructor.
Qed.

Lemma reads_only_store st dev_id disk_id sector data :
  reads_only st (snd (grub_disk_cache_store st dev_id disk_id sector data)).
Proof. apply reads_only_same, store_trace. Qed.

Lemma reads_only_fallback st disk sector offset size buf bpos :
  reads_only st (snd (read_small_fallback st disk sector offset size buf bpos)).
Proof.
  unfold read_small_fallback.
  pose proof (reads_only_malloc st) as Hm.
  destruct (grub_malloc st) as [ok st1]. cbn [snd] in Hm.
  destruct ok; cbn [negb]; [|exact Hm].
  match goal with |- context [disk_dev_read ?a ?b ?c ?d] =>
    pose proof (reads_only_dev_read a b c d) as Hr;
    destruct (disk_dev_read a b c d) as [[err bytes] st2] end.
  cbn [snd] in Hr.
  destruct (is_err err); cbn [snd]; eapply reads_only_trans; eassumption.
Qed.

Lemma reads_only_read_small st disk sector offset size buf bpos :
  reads_only st (snd (grub_disk_read_small st disk sector offset size buf bpos)).
Proof.
  unfold grub_disk_read_small.
  destruct (grub_disk_cache_fetch _ _ _ _) as [data tbl].
  destruct data as [data|]; [apply reads_only_same; reflexivity|].
  pose proof (reads_only_malloc (set_table st tbl)) as Hm.
  destruct (grub_malloc (set_table st tbl)) as [ok st1]. cbn [snd] in Hm.
  assert (H0 : reads_only st st1) by exact Hm.
  destruct ok; cbn [negb]; [|exact H0].
  assert (Hfb : forall st2, reads_only st st2 ->
    reads_only st
      (snd (read_small_fallback (set_errno st2 GRUB_ERR_NONE) disk sector
              offset size buf bpos))).
  { intros st2 H2. eapply reads_only_trans; [exact H2|].
    apply (reads_only_fallback (set_errno st2 GRUB_ERR_NONE)). }
  destruct (_ || _); [|apply Hfb; exact H0].
  match goal with |- context [disk_dev_read ?a ?b ?c ?d] =>
    pose proof (reads_only_dev_read a b c d) as Hr;
    destruct (disk_dev_read a b c d) as [[err bytes] st2] end.
  cbn [snd] in Hr.
  assert (H2 : reads_only st st2) by (eapply reads_only_trans; eassumption).
  destruct (is_err err); cbn [negb]; [apply Hfb; exact H2|].
  match goal with |- context [grub_disk_cache_store ?a ?b ?c ?d ?e] =>
    pose proof (reads_only_store a b c d e) as Hs;
    destruct (grub_disk_cache_store a b c d e) as [e' st3] end.
  cbn [snd] in *. eapply reads_only_trans; eassumption.
Qed.

Lemma store_clusters_trace n : forall i st dev_id disk_id sector buf bpos,
  trace (store_clusters n i st dev_id disk_id sector buf bpos) = trace st.
Proof.
  induction n as [|n IH]; intros; cbn [store_clusters]; [reflexivity|].
  match goal with |- context [grub_disk_cache_store ?a ?b ?c ?d ?e] =>
    pose proof (store_trace a b c d e) as Hs;
    destruct (grub_disk_cache_store a b c d e) as [e' st3] end.
  cbn [snd] in Hs. rewrite IH. exact Hs.
Qed.

Lemma reads_only_read_body fuel : forall st disk sector size buf bpos r,
  read_body fuel st disk sector size buf bpos = Some r ->
  reads_only st (body_state r).
Proof.
  induction fuel as [|fuel IH]; intros st disk sector size buf bpos r H.
  - cbn in H. destruct (_ <? _); [|discriminate].
    inversion H; subst. apply reads_only_refl.
  - cbn [read_body] in H. destruct (_ <? _).
    { inversion H; subst. apply reads_only_refl. }
    destruct (agglomerate_scan _ _ _ _ _ _) as [[data agg] tbl].
    set (st1 := set_table st tbl) in *.
    set (bs := match data with
               | Some d => _
               | None => (buf, st1)
               end) in *.
    assert (Hbs : trace (snd bs) = trace st).
    { subst bs. destruct data; reflexivity. }
    destruct bs as [buf1 st2]. cbn [snd] in Hbs.
    destruct (agg =? 0); cbn [negb] in H.
    + destruct data; apply IH in H;
        (eapply reads_only_trans; [apply reads_only_same; exact Hbs|exact H]).
    + match type of H with context [disk_dev_read ?a ?b ?c ?d] =>
        pose proof (reads_only_dev_read a b c d) as Hr;
        destruct (disk_dev_read a b c d) as [[err bytes] st3] end.
      cbn [snd] in Hr.
      assert (H3 : reads_only st st3).
      { eapply reads_only_trans; [apply reads_only_same; exact Hbs|exact Hr]. }
      destruct (is_err err).
      * inversion H; subst. exact H3.
      * destruct data; apply IH in H;
          (eapply reads_only_trans; [exact H3|];
           eapply reads_only_trans; [|exact H];
           apply reads_only_same, store_clusters_trace).
Qed.

(** *** The hook loop *)

Lemma log_all_trace st evs : trace (log_all st evs) = trace st ++ evs.
Proof.
  unfold log_all. revert st. induction evs as [|e evs IH]; intros st; cbn.
  - rewrite app_nil_r. reflexivity.
  - rewrite IH. cbn. rewrite <- app_assoc. reflexivity.
Qed.

Lemma log_all_errno st evs : grub_errno (log_all st evs) = grub_errno st.
Proof.
  unfold log_all. revert st. induction evs as [|e evs IH]; intros st; cbn;
    [reflexivity|]. rewrite IH. reflexivity.
Qed.

Lemma log_all_table st evs :
  grub_disk_cache_table (log_all st evs) = grub_disk_cache_table st.
Proof.
  unfold log_all. revert st. induction evs as [|e evs IH]; intros st; cbn;
    [reflexivity|]. rewrite IH. reflexivity.
Qed.

Lemma sectors_touched_nonneg o l : 0 <= o -> 0 <= l -> 0 <= sectors_touched o l.
Proof.
  intros Ho Hl. unfold sectors_touched, GRUB_DISK_SECTOR_SIZE.
  destruct (Z.eqb_spec l 0); [lia|].
  assert (0 <= (o + l - 1) / 512) by (apply Z.div_pos; lia). lia.
Qed.

(** One sector is touched per hook call: after the first call the rest of
    the request starts on a sector boundary. *)
Lemma sectors_touched_step o l :
  0 <= o < 512 -> 0 < l ->
  sectors_touched o l
  = 1 + sectors_touched 0 (l - Z.min (GRUB_DISK_SECTOR_SIZE - o) l).
Proof.
  intros Ho Hl. unfold sectors_touched, GRUB_DISK_SECTOR_SIZE.
  destruct (Z.eqb_spec l 0); [lia|].
  destruct (Z.le_gt_cases l (512 - o)) as [Hle|Hgt].
  - rewrite Z.min_r by lia. replace (l - l) with 0 by lia. cbn [Z.eqb].
    rewrite Z.div_small by lia. reflexivity.
  - rewrite Z.min_l by lia.
    destruct (Z.eqb_spec (l - (512 - o)) 0); [lia|].
    replace (o + l - 1) with (0 + (l - (512 - o)) - 1 + 1 * 512) by lia.
    rewrite Z.div_add by lia. lia.
Qed.

End ReadTrace.

Section HookLoop.
Context {P : Platform} {world : Type}.
Hypothesis P_ok : platform_ok P = true.
Implicit Types (st : state world) (disk : grub_disk world).

Lemma usize_small x : 0 <= x < 2 ^ 32 -> usize x = x.
Proof.
  intros H. apply wrap_small.
  destruct (platform_ok_inv P_ok) as (_ & _ & _ & [-> | ->]); lia.
Qed.

Lemma usize_small' x : 0 <= x < 2 ^ SIZE_BITS -> usize x = x.
Proof. apply wrap_small. Qed.

Lemma size_bits_le : 2 ^ SIZE_BITS <= 2 ^ 64.
Proof.
  destruct (platform_ok_inv P_ok) as (_ & _ & _ & [-> | ->]); lia.
Qed.

(** The hook loop makes the calls of [hook_calls], one per sector
    touched, whenever it ends. *)
Lemma read_hook_loop_calls fuel : forall s o l st st',
  0 <= o < 512 -> 0 <= l < 2 ^ SIZE_BITS ->
  read_hook_loop fuel s o l st = Some st' ->
  st' = log_all st (hook_calls (Z.to_nat (sectors_touched o l)) s o l).
Proof.
  induction fuel as [|fuel IH]; intros s o l st st' Ho Hl H.
  - cbn in H. destruct (Z.eqb_spec l 0); [|discriminate].
    inversion H; subst. reflexivity.
  - cbn [read_hook_loop] in H. destruct (Z.eqb_spec l 0) as [->|Hne].
    { inversion H; subst. reflexivity. }
    rewrite (u64_small (GRUB_DISK_SECTOR_SIZE - o)) in H
      by (unfold GRUB_DISK_SECTOR_SIZE; lia).
    rewrite (usize_small (GRUB_DISK_SECTOR_SIZE - o)) in H
      by (unfold GRUB_DISK_SECTOR_SIZE; lia).
    assert (Hcl : (if l <? GRUB_DISK_SECTOR_SIZE - o then l
                   else GRUB_DISK_SECTOR_SIZE - o)
                  = Z.min (GRUB_DISK_SECTOR_SIZE - o) l).
    { destruct (Z.ltb_spec l (GRUB_DISK_SECTOR_SIZE - o)); lia. }
    rewrite Hcl in H. clear Hcl.
    set (cl := Z.min (GRUB_DISK_SECTOR_SIZE - o) l) in *.
    assert (0 < cl <= l) by (unfold cl, GRUB_DISK_SECTOR_SIZE; lia).
    rewrite usize_small' in H by lia.
    apply IH in H; [|lia|lia].
    rewrite (sectors_touched_step o l) by lia. fold cl.
    pose proof (sectors_touched_nonneg 0 (l - cl) ltac:(lia) ltac:(lia)).
    rewrite Z2Nat.inj_add by lia.
    change (Z.to_nat 1) with 1%nat. cbn [Nat.add hook_calls]. fold cl.
    exact H.
Qed.

(** With one unit of fuel per sector touched the hook loop ends. *)
Lemma read_hook_loop_total fuel : forall s o l st,
  0 <= o < 512 -> 0 <= l < 2 ^ SIZE_BITS ->
  (Z.to_nat (sectors_touched o l) <= fuel)%nat ->
  exists st', read_hook_loop fuel s o l st = Some st'.
Proof.
  induction fuel as [|fuel IH]; intros s o l st Ho Hl Hf.
  - cbn. destruct (Z.eqb_spec l 0) as [->|Hne]; [eauto|].
    rewrite (sectors_touched_step o l) in Hf by lia.
    pose proof (sectors_touched_nonneg 0
                  (l - Z.min (GRUB_DISK_SECTOR_SIZE - o) l) ltac:(lia)
                  ltac:(unfold GRUB_DISK_SECTOR_SIZE; lia)). lia.
  - cbn [read_hook_loop]. destruct (Z.eqb_spec l 0) as [->|Hne]; [eauto|].
    rewrite (u64_small (GRUB_DISK_SECTOR_SIZE - o))
      by (unfold GRUB_DISK_SECTOR_SIZE; lia).
    rewrite (usize_small (GRUB_DISK_SECTOR_SIZE - o))
      by (unfold GRUB_DISK_SECTOR_SIZE; lia).
    assert (Hcl : (if l <? GRUB_DISK_SECTOR_SIZE - o then l
                   else GRUB_DISK_SECTOR_SIZE - o)
                  = Z.min (GRUB_DISK_SECTOR_SIZE - o) l).
    { destruct (Z.ltb_spec l (GRUB_DISK_SECTOR_SIZE - o)); lia. }
    rewrite Hcl. clear Hcl.
    set (cl := Z.min (GRUB_DISK_SECTOR_SIZE - o) l) in *.
    assert (0 < cl <= l) by (unfold cl, GRUB_DISK_SECTOR_SIZE; lia).
    rewrite usize_small' by lia.
    apply IH; [lia|lia|].
    rewrite (sectors_touched_step o l) in Hf by lia. fold cl in Hf.
    pose proof (sectors_touched_nonneg 0 (l - cl) ltac:(lia) ltac:(lia)).
    lia.
Qed.

(** The lengths of the calls add up to the size of the request. *)
Lemma hook_calls_sum (n : nat) : forall s o l,
  0 <= o < 512 -> 0 <= l -> n = Z.to_nat (sectors_touched o l) ->
  fold_right Z.add 0 (map hook_length (hook_calls n s o l)) = l.
Proof.
  induction n as [|n IH]; intros s o l Ho Hl Hn.
  - cbn. destruct (Z.eqb_spec l 0) as [->|Hne]; [reflexivity|].
    rewrite (sectors_touched_step o l) in Hn by lia.
    pose proof (sectors_touched_nonneg 0
                  (l - Z.min (GRUB_DISK_SECTOR_SIZE - o) l) ltac:(lia)
                  ltac:(unfold GRUB_DISK_SECTOR_SIZE; lia)). lia.
  - destruct (Z.eqb_spec l 0) as [->|Hne].
    { unfold sectors_touched in Hn. cbn in Hn. lia. }
    cbn [hook_calls map fold_right hook_length].
    set (cl := Z.min (GRUB_DISK_SECTOR_SIZE - o) l) in *.
    assert (0 < cl <= l) by (unfold cl, GRUB_DISK_SECTOR_SIZE; lia).
    rewrite IH; [lia|lia|lia|].
    rewrite (sectors_touched_step o l) in Hn by lia. fold cl in Hn.
    pose proof (sectors_touched_nonneg 0 (l - cl) ltac:(lia) ltac:(lia)).
    lia.
Qed.

(** The [k]-th call is for sector [s + k] (64-bit); the first call starts
    at [o] and covers [min (512 - o) l] bytes, a later one starts at 0 and
    covers [min 512] of what the calls before it left. *)
Lemma hook_calls_nth (n : nat) : forall s o l k,
  0 <= o < 512 -> 0 <= l -> 0 <= s < 2 ^ 64 -> (k < n)%nat ->
  n = Z.to_nat (sectors_touched o l) ->
  nth_error (hook_calls n s o l) k
  = Some (match k with
          | O => EvHook s o (Z.min (GRUB_DISK_SECTOR_SIZE - o) l)
          | S _ =>
              EvHook (u64 (s + Z.of_nat k)) 0
                (Z.min GRUB_DISK_SECTOR_SIZE
                   (l - (GRUB_DISK_SECTOR_SIZE * Z.of_nat k - o)))
          end).
Proof.
  induction n as [|n IH]; intros s o l k Ho Hl Hs Hk Hn; [lia|].
  destruct k as [|k]; [reflexivity|].
  cbn [hook_calls nth_error].
  assert (0 < l).
  { destruct (Z.eqb_spec l 0) as [->|]; [|lia].
    unfold sectors_touched in Hn. cbn in Hn. lia. }
  set (cl := Z.min (GRUB_DISK_SECTOR_SIZE - o) l) in *.
  assert (0 < cl <= l) by (unfold cl, GRUB_DISK_SECTOR_SIZE; lia).
  assert (Hn' : n = Z.to_nat (sectors_touched 0 (l - cl))).
  { rewrite (sectors_touched_step o l) in Hn by lia. fold cl in Hn.
    pose proof (sectors_touched_nonneg 0 (l - cl) ltac:(lia) ltac:(lia)).
    lia. }
  rewrite (IH (u64 (s + 1)) 0 (l - cl) k) by (try apply u64_range; lia).
  f_equal.
  assert (Hmany : cl = GRUB_DISK_SECTOR_SIZE - o).
  { destruct (Z.le_gt_cases l (GRUB_DISK_SECTOR_SIZE - o)).
    - exfalso. assert (cl = l) by (unfold cl; lia).
      replace (l - cl) with 0 in Hn' by lia.
      unfold sectors_touched in Hn'. cbn in Hn'. lia.
    - unfold cl. lia. }
  assert (Es : u64 (u64 (s + 1) + Z.of_nat k) = u64 (s + Z.of_nat (S k))).
  { unfold u64, wrap. rewrite Zplus_mod_idemp_l. f_equal. lia. }
  assert (El : l - cl - (GRUB_DISK_SECTOR_SIZE * Z.of_nat k - 0)
               = l - (GRUB_DISK_SECTOR_SIZE * Z.of_nat (S k) - o))
    by (rewrite Hmany; unfold GRUB_DISK_SECTOR_SIZE; lia).
  destruct k as [|k].
  - change (Z.of_nat 1) with 1 in *.
    replace (GRUB_DISK_SECTOR_SIZE - 0) with GRUB_DISK_SECTOR_SIZE by lia.
    replace (l - cl) with (l - (GRUB_DISK_SECTOR_SIZE * 1 - o))
      by (rewrite Hmany; unfold GRUB_DISK_SECTOR_SIZE; lia).
    reflexivity.
  - rewrite Es, El. reflexivity.
Qed.

End HookLoop.

(** ** Reading with a hook *)

Section ReadHook.
Context {P : Platform} {world : Type}.
Hypothesis P_ok : platform_ok P = true.
Implicit Types (st : state world) (disk : grub_disk world).

Lemma adjust_partitions_range parts : forall sector offset size,
  0 <= sector < 2 ^ 64 ->
  0 <= snd (adjust_partitions parts sector offset size) < 2 ^ 64.
Proof.
  induction parts as [|p ps IH]; intros sector offset size Hs; cbn; [exact Hs|].
  destruct (_ || _); [exact Hs|]. apply IH, u64_range.
Qed.

(** What [grub_disk_adjust_range] returns: the offset is reduced modulo
    512 and the sector is a 64-bit value; it either succeeds and leaves
    the state alone, or fails with [GRUB_ERR_OUT_OF_RANGE] in
    [grub_errno]. *)
Lemma adjust_range_result st disk sector offset size :
  let r := grub_disk_adjust_range st disk sector offset size in
  snd (fst r) = offset mod 512
  /\ 0 <= snd (fst (fst r)) < 2 ^ 64
  /\ ((fst (fst (fst r)) = GRUB_ERR_NONE /\ snd r = st)
      \/ (fst (fst (fst r)) = GRUB_ERR_OUT_OF_RANGE
          /\ grub_errno (snd r) = GRUB_ERR_OUT_OF_RANGE
          /\ trace (snd r) = trace st
          /\ grub_disk_cache_table (snd r) = grub_disk_cache_table st)).
Proof.
  intros r. subst r. unfold grub_disk_adjust_range.
  pose proof (adjust_partitions_range (partition disk)
                (u64 (sector + Z.shiftr offset GRUB_DISK_SECTOR_BITS))
                (Z.land offset (GRUB_DISK_SECTOR_SIZE - 1)) size
                (u64_range _)) as Hr.
  destruct (adjust_partitions _ _ _ _) as [inside s']. cbn [snd] in Hr.
  rewrite <- offset_mask.
  destruct inside; cbn [negb].
  - destruct (_ && _); cbn; (split; [reflexivity|]); (split; [exact Hr|]);
      [right|left]; repeat split.
  - cbn. split; [reflexivity|]. split; [exact Hr|]. right. repeat split.
Qed.

Lemma read_body_return_is_err fuel : forall st disk sector size buf bpos err buf' st',
  read_body fuel st disk sector size buf bpos = Some (BodyReturn err buf' st') ->
  is_err err = true.
Proof.
  induction fuel as [|fuel IH]; intros st disk sector size buf bpos err buf' st' H.
  - cbn in H. destruct (_ <? _); discriminate.
  - cbn [read_body] in H. destruct (_ <? _); [discriminate|].
    destruct (agglomerate_scan _ _ _ _ _ _) as [[data agg] tbl].
    set (st1 := set_table st tbl) in *.
    set (bs := match data with
               | Some d => _
               | None => (buf, st1)
               end) in *.
    destruct bs as [buf1 st2].
    destruct (agg =? 0); cbn [negb] in H.
    + destruct data; eapply IH; exact H.
    + destruct (disk_dev_read _ _ _ _) as [[e bytes] st3].
      destruct (is_err e) eqn:Ee.
      * inversion H; subst. exact Ee.
      * destruct data; eapply IH; exact H.
Qed.

(** C5 (as amended).  When [grub_disk_read] returns without error on a
    disk whose read hook is set, the data path has logged driver reads
    only, and then the hook was called once per logical sector touched,
    starting at the sector and offset [grub_disk_adjust_range] left: the
    first call has [o = real_offset] and length
    [min (512 - real_offset) size]; call number [k >= 1] is for the
    sector after the one of the call before, which is
    [(real_sector + k) mod 2 ^ 64] (sector numbers are 64 bits wide), has
    [o = 0] and length [min 512] of the bytes the calls before it left;
    the lengths add up to [size].  As long as the sectors touched end by
    sector [2 ^ 64], call [k] is for sector [real_sector + k]: the calls
    come in increasing sector order, each for the sector after the one
    before. *)
Theorem read_hook_once_per_sector
    (fuel : nat) (st : state world) (disk : grub_disk world)
    (sector offset size : Z) (buf buf' : list byte) (st' : state world) :
  0 <= size < 2 ^ SIZE_BITS ->
  read_hook disk = true ->
  grub_disk_read fuel st disk sector offset size buf
  = Some (GRUB_ERR_NONE, buf', st') ->
  let r := grub_disk_adjust_range st disk sector offset size in
  let real_sector := snd (fst (fst r)) in
  let real_offset := snd (fst r) in
  let n := Z.to_nat (sectors_touched real_offset size) in
  let calls := hook_calls n real_sector real_offset size in
  real_offset = offset mod 512
  /\ (exists reads,
        trace st' = trace st ++ reads ++ calls /\ Forall is_read_event reads)
  /\ length calls = n
  /\ fold_right Z.add 0 (map hook_length calls) = size
  /\ (forall k, (k < n)%nat ->
       nth_error calls k
       = Some (match k with
               | O => EvHook real_sector real_offset
                        (Z.min (512 - real_offset) size)
               | S _ =>
                   EvHook (u64 (real_sector + Z.of_nat k)) 0
                     (Z.min 512 (size - (512 * Z.of_nat k - real_offset)))
               end))
  /\ (real_sector + Z.of_nat n <= 2 ^ 64 ->
      forall k, (k < n)%nat ->
        exists o len,
          nth_error calls k = Some (EvHook (real_sector + Z.of_nat k) o len)).
Proof.
  intros Hsize Hhook H r real_sector real_offset n calls.
  destruct (adjust_range_result st disk sector offset size)
    as (Hoff & Hsec & Hres).
  fold r in Hoff, Hsec, Hres. fold real_offset in Hoff. fold real_sector in Hsec.
  assert (Ho : 0 <= real_offset < 512)
    by (rewrite Hoff; apply Z.mod_pos_bound; lia).
  split; [exact Hoff|].
  split.
  2:{ split.
      { subst calls. clear. generalize real_sector real_offset size.
        induction n as [|n IH]; intros; cbn; [reflexivity|]. rewrite IH.
        reflexivity. }
      split; [apply hook_calls_sum; [exact Ho|lia|reflexivity]|].
      assert (Hnth : forall k, (k < n)%nat ->
                nth_error calls k
                = Some (match k with
                        | O => EvHook real_sector real_offset
                                 (Z.min (512 - real_offset) size)
                        | S _ =>
                            EvHook (u64 (real_sector + Z.of_nat k)) 0
                              (Z.min 512
                                 (size - (512 * Z.of_nat k - real_offset)))
                        end)).
      { intros k Hk. subst calls.
        rewrite (hook_calls_nth n real_sector real_offset size k)
          by (assumption || lia || reflexivity).
        reflexivity. }
      split; [exact Hnth|].
      intros Hnw k Hk. rewrite (Hnth k Hk). destruct k as [|k].
      - exists real_offset, (Z.min (512 - real_offset) size).
        rewrite Z.add_0_r. reflexivity.
      - eexists _, _. rewrite u64_small by lia. reflexivity. }
  unfold grub_disk_read in H. fold r in H.
  destruct r as [[[err s1] o1] st1] eqn:Er.
  cbn [fst snd] in *. subst real_sector real_offset.
  destruct Hres as [[-> ->]|[-> [He _]]]; cbn [is_err] in H;
    [|inversion H; congruence].
  (* the head *)
  assert (Hhd : match read_head st disk s1 o1 size buf with
                | inl (e, _, _) => is_err e = true
                | inr (_, _, _, _, s) => reads_only st s
                end).
  { unfold read_head. destruct (_ || _); [|apply reads_only_refl].
    match goal with |- context [grub_disk_read_small ?a1 ?a2 ?a3 ?a4 ?a5 ?a6 ?a7] =>
      pose proof (reads_only_read_small a1 a2 a3 a4 a5 a6 a7) as Hs;
      destruct (grub_disk_read_small a1 a2 a3 a4 a5 a6 a7) as [[e b] s] end.
    cbn [snd] in Hs. destruct (is_err e) eqn:Ee; [exact Ee|exact Hs]. }
  destruct (read_head st disk s1 o1 size buf)
    as [[[e b] s]|[[[[sec2 size2] buf2] bpos2] st2]].
  { inversion H; subst. discriminate. }
  (* the body *)
  destruct (read_body fuel st2 disk sec2 size2 buf2 bpos2) as [br|] eqn:Eb;
    [|discriminate].
  pose proof (reads_only_read_body _ _ _ _ _ _ _ _ Eb) as Hb.
  destruct br as [e b s|sec3 size3 buf3 bpos3 st3].
  { apply read_body_return_is_err in Eb. inversion H; subst. discriminate. }
  cbn [body_state] in Hb.
  (* the tail *)
  match type of H with context [if negb (size3 =? 0) then ?a1 else ?a2] =>
    assert (Htl : reads_only st3 (snd (if negb (size3 =? 0) then a1 else a2)));
    [|destruct (if negb (size3 =? 0) then a1 else a2) as [[e b'] st4]]
  end.
  { destruct (negb _); [apply reads_only_read_small|apply reads_only_refl]. }
  cbn [snd] in Htl.
  destruct (is_err e) eqn:Ee; [inversion H; subst; discriminate Ee|].
  rewrite Hhook in H.
  destruct (read_hook_loop fuel s1 o1 size st4) as [st5|] eqn:Eh; [|discriminate].
  apply (read_hook_loop_calls P_ok) in Eh; [|exact Ho|exact Hsize].
  inversion H; subst. 
  destruct (reads_only_trans _ _ _ Hhd (reads_only_trans _ _ _ Hb Htl))
    as (reads & Ht & Hf).
  exists reads. split; [|exact Hf].
  rewrite log_all_trace, Ht, <- app_assoc. reflexivity.
Qed.

End ReadHook.

(** ** What the cache holds *)

Section CacheFrame.
Context {P : Platform}.
Hypothesis P_ok : platform_ok P = true.

Lemma key_match_set_lock c b dv di s :
  key_match (set_lock c b) dv di s = key_match c dv di s.
Proof. reflexivity. Qed.

(** Overwriting slot [i] changes what is cached only for the keys that
    hash to [i]. *)
Lemma cached_set_slot tbl i c dv di s :
  table_ok tbl -> 0 <= i < GRUB_DISK_CACHE_NUM ->
  cached (set_slot tbl i c) dv di s
  = if grub_disk_cache_get_index dv di s =? i
    then key_match c dv di s && has_data c
    else cached tbl dv di s.
Proof.
  intros Hok Hi. unfold cached.
  pose proof (get_index_range P_ok dv di s) as Hr.
  destruct (Z.eqb_spec (grub_disk_cache_get_index dv di s) i) as [->|Hne].
  - rewrite slot_set_slot_eq by (unfold table_ok in Hok; lia). reflexivity.
  - rewrite slot_set_slot_ne by lia. reflexivity.
Qed.

Lemma cached_fetch tbl dv di s dv' di' s' :
  table_ok tbl ->
  cached (snd (grub_disk_cache_fetch tbl dv di s)) dv' di' s'
  = cached tbl dv' di' s'.
Proof.
  intros Hok. unfold grub_disk_cache_fetch.
  destruct (key_match _ dv di s); [|reflexivity]. cbn [snd].
  rewrite cached_set_slot by (try apply get_index_range; assumption).
  destruct (Z.eqb_spec (grub_disk_cache_get_index dv' di' s')
              (grub_disk_cache_get_index dv di s)) as [E|]; [|reflexivity].
  unfold cached. rewrite E. reflexivity.
Qed.

Lemma cached_unlock tbl dv di s dv' di' s' :
  table_ok tbl ->
  cached (grub_disk_cache_unlock tbl dv di s) dv' di' s'
  = cached tbl dv' di' s'.
Proof.
  intros Hok. unfold grub_disk_cache_unlock.
  destruct (key_match _ dv di s); [|reflexivity].
  rewrite cached_set_slot by (try apply get_index_range; assumption).
  destruct (Z.eqb_spec (grub_disk_cache_get_index dv' di' s')
              (grub_disk_cache_get_index dv di s)) as [E|]; [|reflexivity].
  unfold cached. rewrite E. reflexivity.
Qed.

(** After [grub_disk_cache_invalidate] the cluster of the sector is not
    cached. *)
Lemma cached_invalidate_self tbl dv di s :
  table_ok tbl ->
  cached (grub_disk_cache_invalidate tbl dv di s) dv di (cluster_start s)
  = false.
Proof.
  intros Hok. unfold grub_disk_cache_invalidate.
  destruct (_ && _) eqn:E.
  - rewrite cached_set_slot by (try apply get_index_range; assumption).
    rewrite Z.eqb_refl. cbn. apply andb_false_r.
  - exact E.
Qed.

(** [grub_disk_cache_invalidate] adds nothing to the cache. *)
Lemma cached_invalidate_mono tbl dv di s dv' di' s' :
  table_ok tbl ->
  cached (grub_disk_cache_invalidate tbl dv di s) dv' di' s' = true ->
  cached tbl dv' di' s' = true.
Proof.
  intros Hok. unfold grub_disk_cache_invalidate.
  destruct (_ && _) eqn:E; [|trivial].
  rewrite cached_set_slot by (try apply get_index_range; assumption).
  destruct (_ =? _); [|trivial]. cbn. rewrite andb_false_r. discriminate.
Qed.

End CacheFrame.

Section StoreFrame.
Context {P : Platform} {world : Type}.
Hypothesis P_ok : platform_ok P = true.
Implicit Types (st : state world) (disk : grub_disk world).

Lemma malloc_errno_ok st :
  fst (grub_malloc st) = true ->
  grub_errno (snd (grub_malloc st)) = grub_errno st.
Proof.
  unfold grub_malloc. destruct (mm_fail st) as [|[] ?]; cbn;
    congruence.
Qed.

(** A store caches its own key at most, and then leaves [grub_errno] as
    it was. *)
Lemma store_frame st dv di s data :
  table_ok (grub_disk_cache_table st) ->
  let st' := snd (grub_disk_cache_store st dv di s data) in
  table_ok (grub_disk_cache_table st')
  /\ forall dv' di' s',
       cached (grub_disk_cache_table st') dv' di' s' = true ->
       cached (grub_disk_cache_table st) dv' di' s' = true
       \/ ((dv', di', s') = (dv, di, s) /\ grub_errno st' = grub_errno st).
Proof.
  intros Hok st'. split; [apply store_table_ok; exact Hok|].
  subst st'. unfold grub_disk_cache_store.
  pose proof (malloc_table st) as Hmt.
  pose proof (malloc_errno_ok st) as Hme.
  destruct (grub_malloc st) as [ok st1]. cbn [fst snd] in Hmt, Hme.
  intros dv' di' s'.
  destruct ok; cbn [negb snd grub_disk_cache_table set_table]; 
    rewrite (cached_set_slot P_ok)
      by (try apply (get_index_range P_ok); assumption).
  - destruct (_ =? _); [|left; assumption].
    cbn [has_data c_data]. rewrite andb_true_r. intros Hk.
    apply key_match_true in Hk. cbn in Hk. destruct Hk as (-> & -> & ->).
    right. split; [reflexivity|]. cbn. apply Hme. reflexivity.
  - destruct (_ =? _); [|left; assumption].
    cbn. rewrite andb_false_r. discriminate.
Qed.

Lemma dev_read_errno st disk sector n :
  let r := disk_dev_read st disk sector n in
  (is_err (fst (fst r)) = false -> grub_errno (snd r) = grub_errno st)
  /\ (is_err (fst (fst r)) = true -> grub_errno (snd r) = fst (fst r)).
Proof.
  unfold disk_dev_read. destruct (dev_read _ _ _ _ _) as [[err data] w].
  cbn. unfold driver_result. destruct (is_err err); cbn; split; congruence.
Qed.

Lemma fallback_err_errno st disk sector offset size buf bpos :
  let r := read_small_fallback st disk sector offset size buf bpos in
  is_err (fst (fst r)) = true -> grub_errno (snd r) = fst (fst r).
Proof.
  unfold read_small_fallback.
  destruct (grub_malloc st) as [ok st1].
  destruct ok; cbn [negb]; [|reflexivity].
  destruct (disk_dev_read _ _ _ _) as [[err bytes] st2].
  destruct (is_err err); cbn; [reflexivity|discriminate].
Qed.

(** [grub_disk_read_small] keeps the table's size, returns the value of
    [grub_errno] when it fails, and caches the cluster it was asked for at
    most; when it does, it succeeds and leaves [grub_errno] as it was. *)
Lemma read_small_frame st disk sector offset size buf bpos :
  table_ok (grub_disk_cache_table st) ->
  let r := grub_disk_read_small st disk sector offset size buf bpos in
  table_ok (grub_disk_cache_table (snd r))
  /\ (is_err (fst (fst r)) = true -> grub_errno (snd r) = fst (fst r))
  /\ forall dv di s,
       cached (grub_disk_cache_table (snd r)) dv di s = true ->
       cached (grub_disk_cache_table st) dv di s = true
       \/ ((dv, di, s) = (dev_id (dev disk), id disk, sector)
           /\ grub_errno (snd r) = grub_errno st).
Proof.
  intros Hok r. subst r. unfold grub_disk_read_small.
  pose proof (fetch_table_ok _ (dev_id (dev disk)) (id disk) sector Hok) as Hok1.
  pose proof (fun a b c =>
    cached_fetch P_ok _ (dev_id (dev disk)) (id disk) sector a b c Hok) as Hc1.
  destruct (grub_disk_cache_fetch _ _ _ _) as [data tbl]. cbn [snd] in Hok1, Hc1.
  destruct data as [data|].
  { cbn [fst snd grub_disk_cache_table set_table].
    split; [apply unlock_table_ok; exact Hok1|].
    split; [discriminate|]. intros dv di s.
    rewrite (cached_unlock P_ok) by exact Hok1. rewrite Hc1. auto. }
  pose proof (malloc_table (set_table st tbl)) as Hmt.
  pose proof (malloc_errno_ok (set_table st tbl)) as Hme.
  destruct (grub_malloc (set_table st tbl)) as [ok st1].
  cbn [fst snd] in Hmt, Hme. cbn in Hmt, Hme.
  destruct ok; cbn [negb].
  2:{ cbn [fst snd]. rewrite Hmt. split; [exact Hok1|].
      split; [reflexivity|]. intros dv di s. rewrite Hc1. auto. }
  specialize (Hme eq_refl).
  assert (Hfb : forall st2,
    grub_disk_cache_table st2 = tbl ->
    let r := read_small_fallback (set_errno st2 GRUB_ERR_NONE) disk sector
               offset size buf bpos in
    table_ok (grub_disk_cache_table (snd r))
    /\ (is_err (fst (fst r)) = true -> grub_errno (snd r) = fst (fst r))
    /\ forall dv di s,
         cached (grub_disk_cache_table (snd r)) dv di s = true ->
         cached (grub_disk_cache_table st) dv di s = true
         \/ ((dv, di, s) = (dev_id (dev disk), id disk, sector)
             /\ grub_errno (snd r) = grub_errno st)).
  { intros st2 H2 r. subst r. rewrite fallback_table.
    cbn [grub_disk_cache_table set_errno]. rewrite H2.
    split; [exact Hok1|]. split; [apply fallback_err_errno|].
    intros dv di s. rewrite Hc1. auto. }
  destruct (_ || _); [|apply Hfb; exact Hmt].
  match goal with |- context [disk_dev_read ?a1 ?a2 ?a3 ?a4] =>
    pose proof (dev_read_table a1 a2 a3 a4) as Hrt;
    pose proof (dev_read_errno a1 a2 a3 a4) as Hre;
    destruct (disk_dev_read a1 a2 a3 a4) as [[err bytes] st2] end.
  cbn [fst snd] in Hrt, Hre. destruct Hre as [Hre _].
  destruct (is_err err); cbn [negb]; [apply Hfb; congruence|].
  match goal with |- context [grub_disk_cache_store ?a1 ?a2 ?a3 ?a4 ?a5] =>
    pose proof (store_frame a1 a2 a3 a4 a5) as Hs;
    destruct (grub_disk_cache_store a1 a2 a3 a4 a5) as [e' st3] end.
  cbn [fst snd] in *.
  destruct Hs as [Hok3 Hc3]; [rewrite Hrt, Hmt; exact Hok1|].
  split; [exact Hok3|]. split; [discriminate|].
  intros dv di s Hc. apply Hc3 in Hc. destruct Hc as [Hc|[Hk He]].
  - left. rewrite Hrt, Hmt, Hc1 in Hc. exact Hc.
  - right. split; [exact Hk|]. rewrite He, Hre, Hme by reflexivity. reflexivity.
Qed.

(** The hook loop only logs hook calls. *)
Lemma read_hook_loop_frame fuel : forall s o l st st',
  read_hook_loop fuel s o l st = Some st' ->
  grub_disk_cache_table st' = grub_disk_cache_table st
  /\ grub_errno st' = grub_errno st
  /\ reads_and_hooks_only st st'.
Proof.
  induction fuel as [|fuel IH]; intros s o l st st' H.
  - cbn in H. destruct (l =? 0); [|discriminate]. inversion H; subst.
    repeat split. exists []. rewrite app_nil_r. split; [reflexivity|constructor].
  - cbn [read_hook_loop] in H. destruct (l =? 0).
    { inversion H; subst. repeat split. exists [].
      rewrite app_nil_r. split; [reflexivity|constructor]. }
    apply IH in H. destruct H as (Ht & He & (evs & Htr & Hf)).
    cbn in Ht, He, Htr. repeat split; try assumption.
    eexists. split; [rewrite Htr, <- app_assoc; reflexivity|].
    constructor; [exact I|exact Hf].
Qed.

Lemma reads_only_and_hooks st st' :
  reads_only st st' -> reads_and_hooks_only st st'.
Proof.
  intros (evs & Ht & Hf). exists evs. split; [exact Ht|].
  eapply Forall_impl; [exact Hf|]. intros [] H; cbn in *; tauto.
Qed.

Lemma reads_and_hooks_trans st1 st2 st3 :
  reads_and_hooks_only st1 st2 -> reads_and_hooks_only st2 st3 ->
  reads_and_hooks_only st1 st3.
Proof.
  intros (e1 & H1 & F1) (e2 & H2 & F2). exists (e1 ++ e2).
  rewrite H2, H1, app_assoc. split; [reflexivity|].
  apply Forall_app. split; assumption.
Qed.

End StoreFrame.

(** ** The read of a native sector by the write path *)

Lemma pow2_pos k : 0 <= k -> 0 < 2 ^ k.
Proof. intros. apply Z.pow_pos_nonneg; lia. Qed.

(** A multiple of [d] that is reduced modulo a multiple [C] of [d] leaves
    room for [d] more below [C]. *)
Lemma aligned_room s d C :
  0 < d -> 0 < C -> (d | C) -> (d | s) -> s mod C + d <= C /\ (d | s mod C).
Proof.
  intros Hd HC [m ->] [a ->].
  assert (0 < m) by nia.
  rewrite Z.mul_mod_distr_r by lia.
  pose proof (Z.mod_pos_bound a m ltac:(lia)).
  split; [nia|]. exists (a mod m). reflexivity.
Qed.

Lemma pow2_divide j k : 0 <= j <= k -> (2 ^ j | 2 ^ k).
Proof.
  intros H. exists (2 ^ (k - j)). rewrite <- Z.pow_add_r by lia.
  f_equal. lia.
Qed.

Lemma land_low_mod x k : 0 <= k -> Z.land x (Z.shiftl 1 k - 1) = x mod 2 ^ k.
Proof.
  intros Hk. rewrite Z.shiftl_1_l.
  replace (2 ^ k - 1) with (Z.ones k) by (rewrite Z.ones_equiv; lia).
  apply Z.land_ones. lia.
Qed.

(** Adding [2 ^ k] to a multiple of [2 ^ k] in 64 bits gives a multiple of
    [2 ^ k]. *)
Lemma u64_keeps_alignment s k :
  0 <= k <= 64 -> (2 ^ k | s) -> (2 ^ k | u64 (s + 2 ^ k)).
Proof.
  intros Hk [a ->]. unfold u64, wrap.
  destruct (pow2_divide k 64 ltac:(lia)) as [m Hm]. rewrite Hm.
  replace (a * 2 ^ k + 2 ^ k) with ((a + 1) * 2 ^ k) by lia.
  assert (0 < 2 ^ k) by (apply pow2_pos; lia).
  assert (0 < m) by (pose proof (pow2_pos 64 ltac:(lia)); nia).
  rewrite Z.mul_mod_distr_r by lia. exists ((a + 1) mod m). reflexivity.
Qed.

Section RmwRead.
Context {P : Platform} {world : Type}.
Hypothesis P_ok : platform_ok P = true.
Implicit Types (st : state world) (disk : grub_disk world).

Lemma caches_at_most_refl key st :
  table_ok (grub_disk_cache_table st) -> caches_at_most key st st.
Proof. intros H. split; [exact H|]. auto. Qed.

Lemma caches_at_most_then key st st1 st2 :
  caches_at_most key st st1 ->
  grub_disk_cache_table st2 = grub_disk_cache_table st1 ->
  grub_errno st2 = grub_errno st1 ->
  caches_at_most key st st2.
Proof.
  intros [Hok Hc] Ht He. split; [rewrite Ht; exact Hok|].
  intros dv di s. rewrite Ht, He. apply Hc.
Qed.

Lemma cluster_bytes_eq : cluster_bytes = 512 * 2 ^ GRUB_DISK_CACHE_BITS.
Proof.
  destruct (platform_ok_inv P_ok) as (? & _).
  unfold cluster_bytes, GRUB_DISK_SECTOR_SIZE.
  apply Z.shiftl_mul_pow2. lia.
Qed.

Lemma cache_bytes_eq :
  Z.shiftl GRUB_DISK_CACHE_SIZE GRUB_DISK_SECTOR_BITS
  = 512 * 2 ^ GRUB_DISK_CACHE_BITS.
Proof.
  destruct (platform_ok_inv P_ok) as (? & _).
  unfold GRUB_DISK_CACHE_SIZE, GRUB_DISK_SECTOR_BITS.
  rewrite Z.shiftl_1_l, Z.shiftl_mul_pow2 by lia. lia.
Qed.

Lemma cluster_bytes_bound : 512 <= 512 * 2 ^ GRUB_DISK_CACHE_BITS <= 2 ^ 30.
Proof.
  destruct (platform_ok_inv P_ok) as (? & _).
  assert (2 ^ GRUB_DISK_CACHE_BITS <= 2 ^ 21)
    by (apply Z.pow_le_mono_r; lia).
  assert (0 <= GRUB_DISK_CACHE_BITS) as Hnn by lia.
  pose proof (pow2_pos GRUB_DISK_CACHE_BITS Hnn).
  change (2 ^ 21) with 2097152 in *. change (2 ^ 30) with 1073741824. lia.
Qed.

(** The size of a native sector, [1 << L], for [9 <= L <= 9 + CACHE_BITS]. *)
Lemma sector_bytes_eq L :
  9 <= L <= 9 + GRUB_DISK_CACHE_BITS ->
  Z.shiftl 1 L = 512 * 2 ^ (L - 9)
  /\ 0 < 2 ^ (L - 9) <= 2 ^ GRUB_DISK_CACHE_BITS
  /\ (2 ^ (L - 9) | 2 ^ GRUB_DISK_CACHE_BITS).
Proof.
  intros HL. rewrite Z.shiftl_1_l.
  replace L with (9 + (L - 9)) at 1 by lia. rewrite Z.pow_add_r by lia.
  split; [reflexivity|]. split.
  - split; [apply pow2_pos; lia|apply Z.pow_le_mono_r; lia].
  - apply pow2_divide. lia.
Qed.

(** The head block of the read of one aligned native sector: it either
    does nothing (the sector starts a cluster), or reads the whole native
    sector through the cluster that holds it. *)
Lemma rmw_read_head st disk s buf :
  table_ok (grub_disk_cache_table st) ->
  9 <= log_sector_size disk <= 9 + GRUB_DISK_CACHE_BITS ->
  0 <= s < 2 ^ 64 -> (2 ^ (log_sector_size disk - 9) | s) ->
  let key := (dev_id (dev disk), id disk, cluster_start s) in
  match read_head st disk s 0 (Z.shiftl 1 (log_sector_size disk)) buf with
  | inl (err, _, st') =>
      is_err err = true /\ grub_errno st' = err
      /\ caches_at_most key st st' /\ reads_only st st'
  | inr (s', size', _, _, st') =>
      caches_at_most key st st' /\ reads_only st st'
      /\ (size' = 0
          \/ (st' = st /\ s' = s
              /\ size' = Z.shiftl 1 (log_sector_size disk)
              /\ cluster_start s = s))
  end.
Proof.
  intros Hok HL Hs Hal key.
  destruct (platform_ok_inv P_ok) as (HCB & _).
  destruct (sector_bytes_eq _ HL) as (HLe & Hd & Hdiv).
  set (d := 2 ^ (log_sector_size disk - 9)) in *.
  set (C := 2 ^ GRUB_DISK_CACHE_BITS) in *.
  pose proof cluster_bytes_bound as HCb. fold C in HCb.
  assert (HC : 0 < C) by (apply pow2_pos; lia).
  destruct (aligned_room s d C ltac:(lia) HC Hdiv Hal) as [Hroom _].
  unfold read_head. cbn [Z.eqb negb orb].
  unfold GRUB_DISK_CACHE_SIZE at 1.
  rewrite land_low_mod by lia. fold C.
  assert (Hcs : cluster_start s = s - s mod C).
  { rewrite (cluster_start_eq P_ok), (cache_size_pow). reflexivity. }
  destruct (Z.eqb_spec (s mod C) 0) as [Hz|Hnz]; cbn [negb].
  { split; [apply caches_at_most_refl; exact Hok|].
    split; [apply reads_only_refl|]. right. repeat split. lia. }
  pose proof (Z.mod_pos_bound s C HC) as Hr.
  assert (Hpos : usize (Z.shiftl (s - cluster_start s) GRUB_DISK_SECTOR_BITS)
                 = 512 * (s mod C)).
  { rewrite Hcs. replace (s - (s - s mod C)) with (s mod C) by lia.
    unfold GRUB_DISK_SECTOR_BITS. rewrite Z.shiftl_mul_pow2 by lia.
    rewrite (usize_small P_ok) by lia. lia. }
  rewrite Hpos. rewrite cluster_bytes_eq. fold C.
  rewrite (u64_small (512 * C - 512 * (s mod C) - 0)) by lia.
  rewrite (usize_small P_ok) by lia.
  assert (Hlen : (if Z.shiftl 1 (log_sector_size disk)
                       <? 512 * C - 512 * (s mod C) - 0
                  then Z.shiftl 1 (log_sector_size disk)
                  else 512 * C - 512 * (s mod C) - 0)
                 = Z.shiftl 1 (log_sector_size disk)).
  { rewrite HLe. destruct (Z.ltb_spec (512 * d) (512 * C - 512 * (s mod C) - 0));
      lia. }
  rewrite Hlen.
  match goal with |- context [grub_disk_read_small ?a1 ?a2 ?a3 ?a4 ?a5 ?a6 ?a7] =>
    pose proof (read_small_frame P_ok a1 a2 a3 a4 a5 a6 a7 Hok) as Hf;
    pose proof (reads_only_read_small a1 a2 a3 a4 a5 a6 a7) as Hro;
    destruct (grub_disk_read_small a1 a2 a3 a4 a5 a6 a7) as [[err b] st1] end.
  cbn [fst snd] in Hf, Hro. destruct Hf as (Hok1 & Herr & Hc).
  assert (Hcam : caches_at_most key st st1) by (split; assumption).
  destruct (is_err err) eqn:Ee.
  - repeat split; try assumption. apply Herr. reflexivity.
  - split; [exact Hcam|]. split; [exact Hro|]. left.
    replace (Z.shiftl 1 (log_sector_size disk)
             - Z.shiftl 1 (log_sector_size disk)) with 0 by lia.
    apply wrap_small. pose proof (pow2_pos SIZE_BITS).
    destruct (platform_ok_inv P_ok) as (_ & _ & _ & [E | E]); rewrite E; lia.
Qed.

Lemma usize_0 : usize 0 = 0.
Proof. reflexivity. Qed.

(** Below one cluster the body loop ends at once. *)
Lemma read_body_small fuel st disk s size buf bpos :
  size < 512 * 2 ^ GRUB_DISK_CACHE_BITS ->
  read_body fuel st disk s size buf bpos = Some (BodyDone s size buf bpos st).
Proof.
  intros Hlt.
  assert (E : (size <? Z.shiftl GRUB_DISK_CACHE_SIZE GRUB_DISK_SECTOR_BITS)
              = true) by (rewrite cache_bytes_eq; lia).
  destruct fuel; cbn [read_body]; rewrite E; reflexivity.
Qed.

(** The body loop of the read of one aligned native sector: nothing when
    the sector is smaller than a cluster, one turn when it is a whole
    cluster. *)
Lemma rmw_read_body fuel st disk s size buf bpos r :
  table_ok (grub_disk_cache_table st) ->
  9 <= log_sector_size disk <= 9 + GRUB_DISK_CACHE_BITS ->
  0 <= s < 2 ^ 64 ->
  size = 0 \/ size = Z.shiftl 1 (log_sector_size disk) ->
  read_body fuel st disk s size buf bpos = Some r ->
  let key := (dev_id (dev disk), id disk, s) in
  match r with
  | BodyReturn err _ st' =>
      is_err err = true /\ grub_errno st' = err /\ caches_at_most key st st'
  | BodyDone s' size' _ _ st' =>
      caches_at_most key st st'
      /\ (size' = 0
          \/ (st' = st /\ s' = s /\ size' = size
              /\ size < 512 * 2 ^ GRUB_DISK_CACHE_BITS))
  end.
Proof.
  intros Hok HL Hs Hsize H key.
  destruct (platform_ok_inv P_ok) as (HCB & _).
  destruct (sector_bytes_eq _ HL) as (HLe & Hd & Hdiv).
  set (C := 2 ^ GRUB_DISK_CACHE_BITS) in *.
  pose proof cluster_bytes_bound as HCb. fold C in HCb.
  destruct (Z.lt_ge_cases size (512 * C)) as [Hlt|Hge].
  { rewrite read_body_small in H by exact Hlt. injection H as <-.
    split; [apply caches_at_most_refl; exact Hok|]. right. repeat split.
    exact Hlt. }
  (* the native sector is a whole cluster *)
  assert (Hsz : size = 512 * C) by lia.
  assert (HLC : log_sector_size disk = GRUB_DISK_CACHE_BITS + 9).
  { assert (2 ^ (log_sector_size disk - 9) = C) as E by lia.
    apply Z.pow_inj_r in E; lia. }
  destruct fuel as [|fuel]; cbn [read_body] in H;
    rewrite cache_bytes_eq in H; fold C in H;
    replace (size <? 512 * C) with false in H by lia; [discriminate|].
  assert (Hcnt : Z.to_nat (Z.shiftr size (GRUB_DISK_CACHE_BITS + GRUB_DISK_SECTOR_BITS))
                 = 1%nat).
  { unfold GRUB_DISK_SECTOR_BITS. rewrite Z.shiftr_div_pow2 by lia.
    rewrite Hsz. unfold C. rewrite Z.pow_add_r by lia.
    replace (512 * 2 ^ GRUB_DISK_CACHE_BITS)
      with (1 * (2 ^ GRUB_DISK_CACHE_BITS * 2 ^ 9)) by lia.
    rewrite Z.div_mul by (pose proof (pow2_pos GRUB_DISK_CACHE_BITS); lia).
    reflexivity. }
  rewrite Hcnt in H. cbn [agglomerate_scan] in H.
  rewrite Z.shiftl_0_l, Z.add_0_r, (u64_small s) in H by exact Hs.
  pose proof (fetch_table_ok _ (dev_id (dev disk)) (id disk) s Hok) as Hok1.
  pose proof (fun a b c =>
    cached_fetch P_ok _ (dev_id (dev disk)) (id disk) s a b c Hok) as Hc1.
  destruct (grub_disk_cache_fetch _ _ _ _) as [data tbl].
  cbn [snd] in Hok1, Hc1.
  assert (Hz : usize (size - 512 * C) = 0)
    by (rewrite Hsz, Z.sub_diag; reflexivity).
  destruct data as [data|].
  - (* a hit *)
    cbn [Z.eqb negb] in H.
    rewrite Hz in H. rewrite read_body_small in H by (fold C; lia).
    injection H as <-. split; [|left; reflexivity].
    split.
    + cbn [grub_disk_cache_table set_table]. apply unlock_table_ok. exact Hok1.
    + intros dv di s'. cbn [grub_disk_cache_table set_table grub_errno].
      rewrite (cached_unlock P_ok) by exact Hok1.
      rewrite Hc1. auto.
  - (* a miss: one cluster is read and stored *)
    change (0 + 1 =? 0) with false in H. cbn [negb] in H.
    match type of H with context [disk_dev_read ?a1 ?a2 ?a3 ?a4] =>
      pose proof (dev_read_table a1 a2 a3 a4) as Hrt;
      pose proof (dev_read_errno a1 a2 a3 a4) as Hre;
      destruct (disk_dev_read a1 a2 a3 a4) as [[err bytes] st2] end.
    cbn [fst snd] in Hrt, Hre. cbn in Hrt. destruct Hre as [Hre0 Hre1].
    destruct (is_err err) eqn:Ee.
    + injection H as <-. split; [exact Ee|].
      split; [apply Hre1; reflexivity|].
      split; [rewrite Hrt; exact Hok1|].
      intros dv di s'. rewrite Hrt, Hc1. auto.
    + change (Z.to_nat (0 + 1)) with 1%nat in H. cbn [store_clusters] in H.
      rewrite Z.shiftl_0_l, Z.add_0_r, (u64_small s) in H by exact Hs.
      match type of H with context [grub_disk_cache_store ?a1 ?a2 ?a3 ?a4 ?a5] =>
        pose proof (store_frame P_ok a1 a2 a3 a4 a5) as Hsf;
        destruct (grub_disk_cache_store a1 a2 a3 a4 a5) as [e' st3] end.
      cbn [snd] in Hsf. destruct Hsf as [Hok3 Hc3]; [rewrite Hrt; exact Hok1|].
      assert (Hsz' : usize (size - u64 (Z.shiftl (0 + 1)
                        (GRUB_DISK_CACHE_BITS + GRUB_DISK_SECTOR_BITS))) = 0).
      { unfold GRUB_DISK_SECTOR_BITS. rewrite Z.shiftl_mul_pow2 by lia.
        rewrite Z.pow_add_r by lia. fold C.
        rewrite u64_small by (change (2 ^ 9) with 512; 
                              change (2 ^ 64) with 18446744073709551616;
                              change (2 ^ 30) with 1073741824 in HCb; lia).
        replace (size - (0 + 1) * (C * 2 ^ 9)) with 0
          by (change (2 ^ 9) with 512; lia).
        reflexivity. }
      rewrite Hsz' in H. rewrite read_body_small in H by (fold C; lia).
      injection H as <-. split; [|left; reflexivity].
      split; [exact Hok3|]. intros dv di s' Hc. apply Hc3 in Hc.
      destruct Hc as [Hc|[Hk He]].
      * left. rewrite Hrt, Hc1 in Hc. exact Hc.
      * right. split; [exact Hk|]. rewrite He, Hre0 by reflexivity.
        reflexivity.
Qed.

End RmwRead.

Section RmwFrame.
Context {P : Platform} {world : Type}.
Hypothesis P_ok : platform_ok P = true.
Implicit Types (st : state world) (disk : grub_disk world).

(** The end of [grub_disk_read]: the hook loop and [return grub_errno]. *)
Lemma read_hooks_finish fuel disk s o l st0 st2 key err (buf1 buf' : list byte) st' :
  caches_at_most key st0 st2 -> reads_and_hooks_only st0 st2 ->
  match (if read_hook disk then read_hook_loop fuel s o l st2 else Some st2) with
  | Some st3 => Some (grub_errno st3, buf1, st3)
  | None => None
  end = Some (err, buf', st') ->
  err = grub_errno st' /\ caches_at_most key st0 st'
  /\ reads_and_hooks_only st0 st'.
Proof.
  intros Hc Hr H. destruct (read_hook disk).
  - destruct (read_hook_loop fuel s o l st2) as [st3|] eqn:E; [|discriminate].
    injection H as <- _ <-. apply read_hook_loop_frame in E.
    destruct E as (Ht & He & Hh). split; [reflexivity|]. split.
    + eapply caches_at_most_then; eassumption.
    + eapply reads_and_hooks_trans; eassumption.
  - injection H as <- _ <-. auto.
Qed.

(** The read of one aligned native sector that the read-modify-write
    branch makes, with the partition chain detached: it returns the value
    of [grub_errno], logs driver reads and hook calls only, and caches the
    cluster of the sector at most. *)
Lemma rmw_read_frame fuel st disk s buf err buf' st' :
  table_ok (grub_disk_cache_table st) ->
  9 <= log_sector_size disk <= 9 + GRUB_DISK_CACHE_BITS ->
  0 <= s < 2 ^ 64 -> (2 ^ (log_sector_size disk - 9) | s) ->
  grub_disk_read fuel st (set_partition disk []) s 0
    (Z.shiftl 1 (log_sector_size disk)) buf = Some (err, buf', st') ->
  err = grub_errno st'
  /\ caches_at_most (dev_id (dev disk), id disk, cluster_start s) st st'
  /\ reads_and_hooks_only st st'.
Proof.
  intros Hok HL Hs Hal H.
  set (disk' := set_partition disk []) in *.
  unfold grub_disk_read in H.
  unfold grub_disk_adjust_range in H.
  change (partition disk') with (@nil grub_partition) in H.
  cbn [adjust_partitions negb] in H.
  change (Z.shiftr 0 GRUB_DISK_SECTOR_BITS) with 0 in H.
  rewrite Z.add_0_r, (u64_small s) in H by exact Hs.
  change (Z.land 0 (GRUB_DISK_SECTOR_SIZE - 1)) with 0 in H.
  destruct (negb _ && _).
  { cbn in H. injection H as <- _ <-. split; [reflexivity|]. split.
    - split; [exact Hok|]. cbn. auto.
    - exists []. cbn. rewrite app_nil_r. split; [reflexivity|constructor]. }
  cbn [is_err] in H.
  pose proof (rmw_read_head P_ok st disk' s buf Hok HL Hs Hal) as Hh.
  cbn zeta in Hh.
  change (log_sector_size disk') with (log_sector_size disk) in Hh.
  change (dev disk') with (dev disk) in Hh.
  change (id disk') with (id disk) in Hh.
  destruct (read_head st disk' s 0 (Z.shiftl 1 (log_sector_size disk)) buf)
    as [[[e b] s1] | [[[[s1 sz] b] bp] st1]].
  { injection H as <- _ <-. destruct Hh as (_ & He & Hc & Hr).
    split; [symmetry; exact He|]. split; [exact Hc|].
    apply reads_only_and_hooks. exact Hr. }
  destruct Hh as (Hc & Hr & Hcase).
  apply reads_only_and_hooks in Hr.
  destruct Hcase as [-> | (-> & -> & -> & Hcs)].
  - (* the head block read the whole sector *)
    rewrite (read_body_small P_ok) in H
      by (pose proof (cluster_bytes_bound P_ok); lia).
    change (negb (0 =? 0)) with false in H. cbv beta iota zeta in H.
    cbn [is_err] in H. cbv iota in H.
    eapply read_hooks_finish; eassumption.
  - (* the sector starts a cluster *)
    rewrite Hcs in *.
    destruct (read_body fuel st disk' s (Z.shiftl 1 (log_sector_size disk)) b bp)
      as [r|] eqn:Eb; [|discriminate].
    pose proof (reads_only_read_body _ _ _ _ _ _ _ _ Eb) as Hrb.
    apply reads_only_and_hooks in Hrb.
    apply (rmw_read_body P_ok) in Eb; try assumption; [|right; reflexivity].
    cbn zeta in Eb.
    change (dev disk') with (dev disk) in Eb.
    change (id disk') with (id disk) in Eb.
    destruct r as [e b' st2 | s2 sz2 b' bp' st2]; cbn [body_state] in Hrb.
    + injection H as <- _ <-. destruct Eb as (_ & He & Hc2).
      split; [symmetry; exact He|]. split; assumption.
    + destruct Eb as (Hc2 & [-> | (-> & -> & -> & Hlt)]).
      * change (negb (0 =? 0)) with false in H. cbv beta iota zeta in H.
    cbn [is_err] in H. cbv iota in H.
        eapply read_hooks_finish; eassumption.
      * assert (Hnz : negb (Z.shiftl 1 (log_sector_size disk) =? 0) = true).
        { destruct (sector_bytes_eq _ HL) as (HLe & Hd & _).
          apply negb_true_iff, Z.eqb_neq. lia. }
        rewrite Hnz in H.
        match type of H with context [grub_disk_read_small ?a1 ?a2 ?a3 ?a4 ?a5 ?a6 ?a7] =>
          pose proof (read_small_frame P_ok a1 a2 a3 a4 a5 a6 a7 Hok) as Hf;
          pose proof (reads_only_read_small a1 a2 a3 a4 a5 a6 a7) as Hro;
          destruct (grub_disk_read_small a1 a2 a3 a4 a5 a6 a7) as [[e b2] st3] end.
        cbn [fst snd] in Hf, Hro. destruct Hf as (Hok3 & Herr & Hc3).
        change (dev disk') with (dev disk) in Hc3.
        change (id disk') with (id disk) in Hc3.
        apply reads_only_and_hooks in Hro.
        assert (Hcam : caches_at_most (dev_id (dev disk), id disk, s) st st3)
          by (split; assumption).
        destruct (is_err e) eqn:Ee.
        -- injection H as <- _ <-. split; [symmetry; apply Herr; reflexivity|].
           split; assumption.
        -- eapply read_hooks_finish; eassumption.
Qed.

(** ** The loop of [grub_disk_write] *)

Lemma dev_write_frame st disk sector n data :
  let r := disk_dev_write st disk sector n data in
  grub_disk_cache_table (snd r) = grub_disk_cache_table st
  /\ trace (snd r) = trace st ++ [EvWrite sector n data (fst r)]
  /\ (is_err (fst r) = true -> grub_errno (snd r) = fst r)
  /\ (is_err (fst r) = false -> grub_errno (snd r) = grub_errno st).
Proof.
  unfold disk_dev_write. destruct (dev_write _ _ _ _ _ _) as [err w].
  cbn [fst snd]. unfold driver_result.
  destruct (is_err err); cbn; repeat split; congruence.
Qed.

Lemma u64_add_step sector d j :
  u64 (u64 (sector + d) + j * d) = u64 (sector + (1 + j) * d).
Proof. unfold u64. rewrite wrap_add_l. f_equal. lia. Qed.

(** The invalidation loop of the aligned branch: it logs the
    invalidations and nothing else, adds nothing to the cache, and leaves
    none of the clusters of its [n] sectors there. *)
Lemma invalidate_sectors_spec n : forall st disk sector,
  table_ok (grub_disk_cache_table st) ->
  9 <= log_sector_size disk <= 9 + GRUB_DISK_CACHE_BITS ->
  0 <= sector < 2 ^ 64 ->
  (2 ^ (log_sector_size disk - 9) | sector) ->
  let r := invalidate_sectors n st disk sector in
  let d := 2 ^ (log_sector_size disk - 9) in
  trace (snd r) = trace st ++ invalidations n disk sector
  /\ table_ok (grub_disk_cache_table (snd r))
  /\ grub_errno (snd r) = grub_errno st
  /\ (forall dv di s,
        cached (grub_disk_cache_table (snd r)) dv di s = true ->
        cached (grub_disk_cache_table st) dv di s = true)
  /\ 0 <= fst r < 2 ^ 64 /\ (d | fst r)
  /\ forall j, (j < n)%nat ->
       cached (grub_disk_cache_table (snd r)) (dev_id (dev disk)) (id disk)
         (cluster_start (u64 (sector + Z.of_nat j * d))) = false.
Proof.
  induction n as [|n IH]; intros st disk sector Hok HL Hs Hal r d.
  - subst r. cbn. rewrite app_nil_r. repeat split; try assumption; try lia.
    auto.
  - subst r. cbn [invalidate_sectors invalidations].
    set (st1 := log _ _).
    set (sector1 := u64 _).
    assert (Hok1 : table_ok (grub_disk_cache_table st1))
      by (apply invalidate_table_ok; exact Hok).
    assert (Hd : Z.shiftl 1 (log_sector_size disk - GRUB_DISK_SECTOR_BITS) = d).
    { unfold GRUB_DISK_SECTOR_BITS. apply Z.shiftl_1_l. }
    destruct (platform_ok_inv P_ok) as (HCB & _).
    assert (Hal1 : (d | sector1)).
    { subst sector1. rewrite Hd. apply u64_keeps_alignment; [lia|exact Hal]. }
    specialize (IH st1 disk sector1 Hok1 HL (u64_range _) Hal1).
    cbn zeta in IH. fold d in IH.
    destruct IH as (Ht & Hok' & He & Hm & Hr & Ha & Hcl).
    split; [rewrite Ht; cbn; rewrite <- app_assoc; reflexivity|].
    split; [exact Hok'|]. split; [rewrite He; reflexivity|].
    split; [|split; [exact Hr|split; [exact Ha|]]].
    + intros dv di s H. apply Hm in H. cbn in H.
      apply (cached_invalidate_mono P_ok) in H; assumption.
    + intros [|j] Hj.
      * cbn. rewrite Z.add_0_r, u64_small by exact Hs.
        destruct (cached _ _ _ _) eqn:E; [|reflexivity].
        apply Hm in E. cbn in E.
        rewrite (cached_invalidate_self P_ok) in E by exact Hok. discriminate.
      * specialize (Hcl j ltac:(lia)). subst sector1. rewrite Hd in Hcl.
        rewrite u64_add_step in Hcl.
        replace (Z.of_nat (S j)) with (1 + Z.of_nat j) by lia. rewrite Hd.
        exact Hcl.
Qed.




End RmwFrame.

Section WriteLoop.
Context {P : Platform} {world : Type}.
Hypothesis P_ok : platform_ok P = true.
Implicit Types (st : state world) (disk : grub_disk world).



End WriteLoop.

Section WriteOrderFacts.
Context {P : Platform} {world : Type}.
Hypothesis P_ok : platform_ok P = true.
Implicit Types (st : state world) (disk : grub_disk world).


End WriteOrderFacts.

(** ** Termination

    The loops of [grub_disk_read] and [grub_disk_write] carry fuel, and
    the properties above are about the runs that return.  With the fuel
    stated here every call returns. *)

Section Termination.
Context {P : Platform} {world : Type}.
Hypothesis P_ok : platform_ok P = true.
Implicit Types (st : state world) (disk : grub_disk world).

(** The scan stops at a cluster below its bound when it finds one in the
    cache, and at the bound when it finds none. *)
Lemma agglomerate_scan_bounds n : forall a tbl dv di sector,
  let r := agglomerate_scan n a tbl dv di sector in
  match fst (fst r) with
  | Some _ => a <= snd (fst r) < a + Z.of_nat n
  | None => snd (fst r) = a + Z.of_nat n
  end.
Proof.
  induction n as [|n IH]; intros a tbl dv di sector; cbn [agglomerate_scan].
  - cbn. lia.
  - destruct (grub_disk_cache_fetch _ _ _ _) as [[d|] tbl'].
    + cbn. lia.
    + specialize (IH (a + 1) tbl' dv di sector). cbn zeta in IH.
      destruct (fst (fst (agglomerate_scan n (a + 1) tbl' dv di sector)));
        lia.
Qed.

(** One unit of fuel per cluster of the request ends the body loop. *)
Lemma read_body_total fuel : forall st disk sector size buf bpos,
  0 <= size < 2 ^ SIZE_BITS ->
  size < (Z.of_nat fuel + 1) * (512 * 2 ^ GRUB_DISK_CACHE_BITS) ->
  exists r, read_body fuel st disk sector size buf bpos = Some r.
Proof.
  destruct (platform_ok_inv P_ok) as (HCB & _).
  pose proof (cluster_bytes_bound P_ok) as HCb.
  pose proof (size_bits_le P_ok) as Hsb.
  set (cb := 512 * 2 ^ GRUB_DISK_CACHE_BITS) in *.
  induction fuel as [|fuel IH]; intros st disk sector size buf bpos Hs Hf;
    cbn [read_body]; rewrite (cache_bytes_eq P_ok); fold cb.
  - replace (size <? cb) with true by lia. eauto.
  - destruct (Z.ltb_spec size cb) as [Hlt|Hge]; [eauto|].
    assert (Hcbits : forall a, 0 <= a ->
              Z.shiftl a (GRUB_DISK_CACHE_BITS + GRUB_DISK_SECTOR_BITS)
              = a * cb).
    { intros a Ha. unfold GRUB_DISK_SECTOR_BITS.
      rewrite Z.shiftl_mul_pow2, Z.pow_add_r by lia. subst cb.
      change (2 ^ 9) with 512. lia. }
    assert (Hbound : Z.shiftr size (GRUB_DISK_CACHE_BITS + GRUB_DISK_SECTOR_BITS)
                     = size / cb).
    { unfold GRUB_DISK_SECTOR_BITS.
      rewrite Z.shiftr_div_pow2, Z.pow_add_r by lia. subst cb.
      change (2 ^ 9) with 512. f_equal. lia. }
    rewrite Hbound.
    assert (Hq : 1 <= size / cb) by (apply Z.div_le_lower_bound; lia).
    assert (Hqm : size / cb * cb <= size)
      by (rewrite Z.mul_comm; apply Z.mul_div_le; lia).
    pose proof (agglomerate_scan_bounds (Z.to_nat (size / cb)) 0
                  (grub_disk_cache_table st) (dev_id (dev disk)) (id disk)
                  sector) as Hsc.
    cbn zeta in Hsc.
    destruct (agglomerate_scan _ _ _ _ _ _) as [[data agg] tbl].
    cbn [fst snd] in Hsc. rewrite Z2Nat.id in Hsc by lia.
    assert (Hagg : 0 <= agg <= size / cb) by (destruct data; lia).
    assert (Haggm : agg * cb <= size) by nia.
    rewrite (Hcbits agg) by lia.
    rewrite (u64_small (agg * cb)) by lia.
    destruct (match data with
              | Some d => _
              | None => (buf, set_table st tbl)
              end) as [buf1 st1].
    destruct (Z.eqb_spec agg 0) as [Ha0|Ha0]; cbn [negb].
    + (* a hit on the first cluster *)
      destruct data as [d|]; [|lia].
      rewrite (usize_small' (size - cb)) by lia. apply IH; lia.
    + destruct (disk_dev_read _ _ _ _) as [[err bytes] st2].
      destruct (is_err err); [eauto|].
      rewrite (usize_small' (size - agg * cb)) by lia.
      destruct data as [d|].
      * rewrite (usize_small' (size - agg * cb - cb)) by nia. apply IH; nia.
      * apply IH; nia.
Qed.

(** The sectors a request touches are at most one more than its size
    in sectors, plus one. *)
Lemma sectors_touched_le o l :
  0 <= o < 512 -> 0 <= l -> sectors_touched o l <= l / 512 + 2.
Proof.
  intros Ho Hl. unfold sectors_touched, GRUB_DISK_SECTOR_SIZE.
  destruct (Z.eqb_spec l 0) as [->|Hne]; [rewrite Z.div_0_l by lia; lia|].
  assert ((o + l - 1) / 512 <= (l + 1 * 512) / 512)
    by (apply Z.div_le_mono; lia).
  rewrite Z.div_add in H by lia. lia.
Qed.

(** The loops of [grub_disk_read] end within [size / 512 + 2] iterations. *)
Lemma read_loops_end
    (fuel : nat) (st : state world) (disk : grub_disk world)
    (sector offset size : Z) (buf : list byte) :
  0 <= size < 2 ^ SIZE_BITS ->
  (Z.to_nat (size / 512) + 2 <= fuel)%nat ->
  exists err buf' st',
    grub_disk_read fuel st disk sector offset size buf = Some (err, buf', st').
Proof.
  intros Hs Hf. unfold grub_disk_read.
  destruct (platform_ok_inv P_ok) as (HCB & _).
  pose proof (cluster_bytes_bound P_ok) as HCb.
  destruct (adjust_range_result st disk sector offset size)
    as (Hoff & _ & _).
  destruct (grub_disk_adjust_range st disk sector offset size)
    as [[[e s1] o1] st1].
  cbn [fst snd] in Hoff.
  destruct (is_err e); [eauto|].
  assert (Ho : 0 <= o1 < 512)
    by (rewrite Hoff; apply Z.mod_pos_bound; lia).
  assert (Hhook : forall st2 (b2 : list byte),
            exists err buf' st',
              match (if read_hook disk
                     then read_hook_loop fuel s1 o1 size st2
                     else Some st2) with
              | Some st3 => Some (grub_errno st3, b2, st3)
              | None => None
              end = Some (err, buf', st')).
  { intros st2 b2. destruct (read_hook disk); [|eauto].
    destruct (read_hook_loop_total P_ok fuel s1 o1 size st2 Ho Hs) as [st3 E].
    - pose proof (sectors_touched_le o1 size Ho ltac:(lia)).
      pose proof (Z.div_pos size 512 ltac:(lia) ltac:(lia)). lia.
    - rewrite E. eauto. }
  assert (Hrest : forall st2 s2 z2 (b2 : list byte) p2, 0 <= z2 <= size ->
            exists err buf' st',
              match read_body fuel st2 disk s2 z2 b2 p2 with
              | Some (BodyReturn err0 buf0 st3) => Some (err0, buf0, st3)
              | Some (BodyDone s3 z3 buf0 p3 st3) =>
                  let '(err0, buf1, st4) :=
                    if negb (z3 =? 0)
                    then grub_disk_read_small st3 disk s3 0 z3 buf0 p3
                    else (GRUB_ERR_NONE, buf0, st3) in
                  if is_err err0 then Some (err0, buf1, st4)
                  else
                    match (if read_hook disk
                           then read_hook_loop fuel s1 o1 size st4
                           else Some st4) with
                    | Some st5 => Some (grub_errno st5, buf1, st5)
                    | None => None
                    end
              | None => None
              end = Some (err, buf', st')).
  { intros st2 s2 z2 b2 p2 Hz.
    destruct (read_body_total fuel st2 disk s2 z2 b2 p2) as [r E]; [lia| |].
    - assert (size / 512 * 512 <= size)
        by (rewrite Z.mul_comm; apply Z.mul_div_le; lia).
      pose proof (Z.div_pos size 512 ltac:(lia) ltac:(lia)).
      pose proof (Z.mod_pos_bound size 512 ltac:(lia)).
      pose proof (Z.div_mod size 512 ltac:(lia)).
      assert (1 <= 2 ^ GRUB_DISK_CACHE_BITS) by lia. nia.
    - rewrite E. destruct r as [e0 b0 st3 | s3 z3 b0 p3 st3]; [eauto|].
      destruct (if negb (z3 =? 0) then _ else _) as [[e0 b1] st4].
      destruct (is_err e0); [eauto|]. apply Hhook. }
  unfold read_head.
  destruct (negb (o1 =? 0) || _).
  - destruct (grub_disk_read_small _ _ _ _ _ _ _) as [[e0 b0] st2].
    destruct (is_err e0); [eauto|].
    set (l0 := usize (u64 (cluster_bytes - _ - o1))).
    assert (0 <= l0) by (apply wrap_range; 
      destruct (platform_ok_inv P_ok) as (_ & _ & _ & [-> | ->]); lia).
    set (len := if size <? l0 then size else l0).
    assert (0 <= len <= size) by (subst len; destruct (Z.ltb_spec size l0); lia).
    rewrite (usize_small' (size - len)) by lia. apply Hrest. lia.
  - apply Hrest. lia.
Qed.

(** X11.  [grub_disk_read] returns: two units of fuel more than the request has
    sectors end both of its loops. *)
Theorem grub_disk_read_returns
    (fuel : nat) (st : state world) (disk : grub_disk world)
    (sector offset size : Z) (buf : list byte) :
  0 <= size < 2 ^ SIZE_BITS ->
  (Z.to_nat (size / 512) + 2 <= fuel)%nat ->
  exists err buf' st',
    grub_disk_read fuel st disk sector offset size buf = Some (err, buf', st').
Proof. apply read_loops_end. Qed.

(** The fuel that the read of one native sector needs. *)
Lemma rmw_read_returns fuel st disk sector buf :
  9 <= log_sector_size disk <= 9 + GRUB_DISK_CACHE_BITS ->
  (Z.to_nat (2 ^ (log_sector_size disk - 9)) + 2 <= fuel)%nat ->
  exists err buf' st',
    grub_disk_read fuel st (set_partition disk []) sector 0
      (Z.shiftl 1 (log_sector_size disk)) buf = Some (err, buf', st').
Proof.
  intros HL Hf.
  destruct (sector_bytes_eq _ HL) as (HLe & Hd & _).
  pose proof (cluster_bytes_bound P_ok) as HCb.
  assert (Hdiv : Z.shiftl 1 (log_sector_size disk) / 512
                 = 2 ^ (log_sector_size disk - 9)).
  { rewrite HLe, Z.mul_comm. apply Z.div_mul. lia. }
  apply read_loops_end.
  - rewrite HLe.
    destruct (platform_ok_inv P_ok) as (_ & _ & _ & [-> | ->]);
      change (2 ^ 30) with 1073741824 in HCb; lia.
  - rewrite Hdiv. exact Hf.
Qed.

(** The last turn of the loop of [grub_disk_write]: less than a native
    sector is left. *)
Lemma write_loop_tail fuel st disk sector size buf bpos :
  9 <= log_sector_size disk <= 9 + GRUB_DISK_CACHE_BITS ->
  0 <= size < Z.shiftl 1 (log_sector_size disk) ->
  (Z.to_nat (2 ^ (log_sector_size disk - 9)) + 2 <= fuel)%nat ->
  exists st', write_loop fuel st disk sector 0 size buf bpos = Some st'.
Proof.
  intros HL Hs Hf.
  destruct (sector_bytes_eq _ HL) as (HLe & Hd & _).
  pose proof (cluster_bytes_bound P_ok) as HCb.
  change (2 ^ 30) with 1073741824 in HCb.
  destruct fuel as [|fuel]; [lia|]. cbn [write_loop].
  destruct (Z.eqb_spec size 0) as [Hz|Hz]; [eauto|].
  rewrite (u32_small (Z.shiftl 1 (log_sector_size disk))) by lia.
  replace (size <? Z.shiftl 1 (log_sector_size disk)) with true by lia.
  cbn [Z.eqb negb orb andb].
  destruct (rmw_read_returns (S fuel) st disk sector
              (fresh_buf (Z.shiftl 1 (log_sector_size disk))) HL Hf)
    as (err & tmp & st1 & Er).
  rewrite Er. destruct (is_err err); [eauto|].
  destruct (disk_dev_write _ _ _ _ _) as [e st2].
  destruct (is_err e); [eauto|].
  rewrite Z.sub_0_r.
  rewrite (u32_small (Z.shiftl 1 (log_sector_size disk))) by lia.
  rewrite (usize_small P_ok (Z.shiftl 1 (log_sector_size disk))) by lia.
  replace (size <? Z.shiftl 1 (log_sector_size disk)) with true by lia.
  rewrite Z.sub_diag. change (usize 0) with 0.
  destruct fuel; cbn; eauto.
Qed.

(** The loop of [grub_disk_write] from a sector boundary: an aligned
    turn, then the last one. *)
Lemma write_loop_aligned fuel st disk sector size buf bpos :
  9 <= log_sector_size disk <= 9 + GRUB_DISK_CACHE_BITS ->
  0 <= size < 2 ^ SIZE_BITS ->
  (Z.to_nat (2 ^ (log_sector_size disk - 9)) + 3 <= fuel)%nat ->
  exists st', write_loop fuel st disk sector 0 size buf bpos = Some st'.
Proof.
  intros HL Hs Hf.
  destruct (sector_bytes_eq _ HL) as (HLe & Hd & _).
  pose proof (cluster_bytes_bound P_ok) as HCb.
  change (2 ^ 30) with 1073741824 in HCb.
  destruct (Z.lt_ge_cases size (Z.shiftl 1 (log_sector_size disk)))
    as [Hlt|Hge].
  { apply write_loop_tail; [exact HL|lia|lia]. }
  destruct fuel as [|fuel]; [lia|]. cbn [write_loop].
  destruct (Z.eqb_spec size 0) as [Hz|Hz]; [eauto|].
  rewrite (u32_small (Z.shiftl 1 (log_sector_size disk))) by lia.
  replace (size <? Z.shiftl 1 (log_sector_size disk)) with false by lia.
  cbn [Z.eqb negb orb andb].
  destruct (disk_dev_write _ _ _ _ _) as [e st1].
  destruct (is_err e); [eauto|].
  destruct (invalidate_sectors _ _ _ _) as [sector2 st2].
  rewrite align_down_mod by lia.
  assert (Hm : 0 <= size mod 2 ^ log_sector_size disk
               < Z.shiftl 1 (log_sector_size disk)).
  { rewrite Z.shiftl_1_l. apply Z.mod_pos_bound. apply pow2_pos. lia. }
  replace (size - (size - size mod 2 ^ log_sector_size disk))
    with (size mod 2 ^ log_sector_size disk) by lia.
  rewrite (usize_small P_ok) by lia.
  apply write_loop_tail; [exact HL|exact Hm|lia].
Qed.

(** X12.  [grub_disk_write] returns: at most three turns of its loop (a
    read-modify-write head, an aligned body, a read-modify-write tail),
    each read of a native sector within its fuel. *)
Theorem grub_disk_write_returns
    (fuel : nat) (st : state world) (disk : grub_disk world)
    (sector offset size : Z) (buf : list byte) :
  9 <= log_sector_size disk <= 9 + GRUB_DISK_CACHE_BITS ->
  0 <= size < 2 ^ SIZE_BITS ->
  (Z.to_nat (2 ^ (log_sector_size disk - 9)) + 4 <= fuel)%nat ->
  exists err st',
    grub_disk_write fuel st disk sector offset size buf = Some (err, st').
Proof.
  intros HL Hs Hf. unfold grub_disk_write.
  destruct (grub_disk_adjust_range st disk sector offset size)
    as [[[e s1] o1] st1].
  destruct (is_err e); [eauto|].
  set (aligned := Z.land s1 _). set (ro := u32 _).
  assert (Hloop : exists st', write_loop fuel st1 disk aligned ro size buf 0
                              = Some st');
    [|destruct Hloop as [st' ->]; eauto].
  destruct (Z.eq_dec ro 0) as [->|Hro].
  { apply write_loop_aligned; [exact HL|exact Hs|lia]. }
  destruct fuel as [|fuel]; [lia|]. cbn [write_loop].
  destruct (Z.eqb_spec size 0) as [Hz|Hz]; [eauto|].
  replace (ro =? 0) with false by lia. cbn [negb orb].
  destruct (rmw_read_returns (S fuel) st1 disk aligned
              (fresh_buf (Z.shiftl 1 (log_sector_size disk))) HL
              ltac:(lia))
    as (err & tmp & st2 & Er).
  rewrite Er. destruct (is_err err); [eauto|].
  destruct (disk_dev_write _ _ _ _ _) as [e' st3].
  destruct (is_err e'); [eauto|].
  set (l0 := usize (u32 _)).
  assert (0 <= l0) by (apply wrap_range;
    destruct (platform_ok_inv P_ok) as (_ & _ & _ & [-> | ->]); lia).
  set (len := if size <? l0 then size else l0).
  assert (0 <= len <= size) by (subst len; destruct (Z.ltb_spec size l0); lia).
  rewrite (usize_small' (size - len)) by lia.
  apply write_loop_aligned; [exact HL|lia|lia].
Qed.

End Termination.

(** ** Concrete runs *)

(** C8: on the 64-bit platform, for class 0, disk 0 and sector [2 ^ 38]
    the cluster number is [2 ^ 32]; the cast to [unsigned] makes it 0, so
    the slot is 0, where the exact formula gives [2 ^ 32 mod 1021 = 108]. *)
Lemma cache_index_drops_high_cluster_bits :
  @grub_disk_cache_get_index grub_x86_64 0 0 (2 ^ 38) = 0
  /\ (0 * 524287 + 0 * 2606459 + Z.shiftr (2 ^ 38) 6) mod 1021 = 108.
Proof. split; reflexivity. Qed.

(** C8: the index of class 1, disk 2, sector 4096 is the exact value. *)
Lemma cache_index_truncated_formula_witness :
  @grub_disk_cache_get_index grub_x86_64 1 2 4096
  = (1 * 524287 + 2 * 2606459 + Z.shiftr 4096 6) mod 1021.
Proof.
  apply (@cache_index_truncated_formula grub_x86_64 eq_refl 1 2 4096);
    vm_compute; congruence.
Defined.

(** C6: a matching, occupied slot whose lock bit is set is not left
    untouched by [grub_disk_cache_invalidate]: its buffer is freed and its
    lock bit cleared. *)
Lemma invalidate_frees_locked_slot :
  c_lock (slot locked_table 0) = true
  /\ key_match (slot locked_table 0) 0 0 0 = true
  /\ has_data (slot locked_table 0) = true
  /\ slot (@grub_disk_cache_invalidate grub_x86_64 locked_table 0 0 0) 0
     = {| c_dev_id := 0; c_disk_id := 0; c_sector := 0;
          c_data := None; c_lock := false |}.
Proof. repeat split. Qed.

(** C6: invalidating sector 37 of disk (0, 0) frees slot 0 of
    [locked_table]. *)
Lemma invalidate_frees_iff_match_and_occupied_witness :
  (has_data (slot locked_table 0) = true
   /\ has_data (slot (@grub_disk_cache_invalidate grub_x86_64
                        locked_table 0 0 37) 0) = false)
  <-> (key_match (slot locked_table 0) 0 0 0 = true
       /\ has_data (slot locked_table 0) = true).
Proof.
  exact (proj1 (proj2 (@invalidate_frees_iff_match_and_occupied grub_x86_64
                         eq_refl locked_table 0 0 37 eq_refl))).
Defined.

(** C10: at program start slot 0 matches the key (0, 0, 0) and is empty; a
    fetch of that key misses and locks the slot. *)
Lemma fetch_miss_on_emptied_slot_keeps_it_locked_witness :
  fst (@grub_disk_cache_fetch grub_small (@empty_table grub_small) 0 0 0) = None
  /\ c_lock (slot (snd (@grub_disk_cache_fetch grub_small
                          (@empty_table grub_small) 0 0 0)) 0) = true.
Proof.
  pose proof (@fetch_miss_on_emptied_slot_keeps_it_locked grub_small testdev
                eq_refl (@test_state grub_small 64 9 []) (test_disk 64 9)
                0 0 512 (fresh_buf 512) 0 eq_refl eq_refl eq_refl) as H.
  exact (conj (proj1 H) (proj1 (proj2 H))).
Defined.

(** C2, a defect of the code: with [grub_size_t] 64 bits wide, a request
    of [2 ^ 64 - 1] bytes at sector 0 of a partition of 50 sectors passes
    the range check and [grub_disk_adjust_range] returns
    [GRUB_ERR_NONE], with the sector moved to the start of the partition
    and the state untouched, although the request needs [2 ^ 55]
    sectors and the check of the claim, with the count
    [(offset + size + 511) / 512], rejects it: the sum
    [offset + size + 511] wraps at [2 ^ 64] and the code counts 0
    sectors.  The same request shortened to 50 sectors and one byte is
    rejected. *)
Lemma adjust_range_accepts_wrapped_size :
  fst (fst (fst (grub_disk_adjust_range (@test_state grub_x86_64 1000 9 [])
                   part_disk 0 0 (2 ^ 64 - 1)))) = GRUB_ERR_NONE
  /\ 2 ^ 64 - 1 < 2 ^ (@SIZE_BITS grub_x86_64)
  /\ sectors_needed 0 (2 ^ 64 - 1) = 0
  /\ 50 - 0 < (0 + (2 ^ 64 - 1) + 511) / 512
  /\ (0 + (2 ^ 64 - 1) + 511) / 512 = 2 ^ 55
  /\ partition_check_fails (partition part_disk) 0
       ((0 + (2 ^ 64 - 1) + 511) / 512)
  /\ snd (fst (fst (grub_disk_adjust_range
                      (@test_state grub_x86_64 1000 9 [])
                      part_disk 0 0 (2 ^ 64 - 1)))) = 100
  /\ snd (grub_disk_adjust_range (@test_state grub_x86_64 1000 9 [])
            part_disk 0 0 (2 ^ 64 - 1))
     = @test_state grub_x86_64 1000 9 []
  /\ fst (fst (fst (grub_disk_adjust_range
                      (@test_state grub_x86_64 1000 9 [])
                      part_disk 0 0 (50 * 512 + 1))))
     = GRUB_ERR_OUT_OF_RANGE.
Proof.
  split; [reflexivity|]. split; [reflexivity|]. split; [reflexivity|].
  split; [reflexivity|]. split; [reflexivity|].
  split; [right; left; vm_compute; reflexivity|].
  split; [reflexivity|]. split; reflexivity.
Qed.

(** Two sectors from sector 49 of the partition of 50 sectors are out of
    range. *)
Lemma adjust_range_checks_with_wrapped_need_witness :
  fst (fst (fst (grub_disk_adjust_range (@test_state grub_x86_64 1000 9 [])
                   part_disk 49 0 1024))) = GRUB_ERR_OUT_OF_RANGE
  <-> partition_check_fails (partition part_disk) (u64 (49 + Z.shiftr 0 9))
        (sectors_needed (Z.land 0 511) 1024)
      \/ disk_check_fails part_disk
           (absolute_sector (partition part_disk) (u64 (49 + Z.shiftr 0 9)))
           (sectors_needed (Z.land 0 511) 1024).
Proof.
  assert (Hok : partitions_ok (partition part_disk)).
  { repeat constructor; cbn; lia. }
  pose proof (@adjust_range_checks_with_wrapped_need testdev
                (@test_state grub_x86_64 1000 9 []) part_disk 49 0 1024 Hok)
    as H.
  cbv zeta in H.
  exact (proj1 (proj2 (proj2 (proj2 (proj2 (proj2 (proj2 H))))))).
Defined.

(** C4: opening [my\,disk,1] hands the drivers the name with its
    backslash, eight characters, not the unescaped [my,disk]; the prober
    gets [1]. *)
Lemma open_passes_backslash_to_driver :
  trace (snd (@grub_disk_open grub_x86_64 testdev test_probe
                (@open_state grub_x86_64) "my\,disk,1"))
  = [EvOpen 3 "my\,disk" GRUB_ERR_UNKNOWN_DEVICE;
     EvOpen 0 "my\,disk" GRUB_ERR_NONE; EvProbe "1"]
  /\ "my\,disk"%string <> "my,disk"%string
  /\ String.length "my\,disk" = 8%nat.
Proof. split; [reflexivity|]. split; [discriminate|reflexivity]. Qed.

(** C9: opening [my\,disk,1] at program start with two drivers
    registered, the first of which declines. *)
Lemma open_driver_walk_errors_witness :
  let st := @open_state grub_x86_64 in
  let nm := "my\,disk,1"%string in
  let raw :=
    match find_part_sep nm with Some len => prefix len nm | None => nm end in
  let r := @grub_disk_open grub_x86_64 testdev test_probe st nm in
  exists tried rest new,
    grub_disk_dev_list st = tried ++ rest
    /\ trace (snd r) = trace st ++ declined raw tried ++ new
    /\ match rest with
       | [] =>
           new = [] /\ fst r = None
           /\ grub_errno (snd r) = GRUB_ERR_UNKNOWN_DEVICE
           /\ grub_errmsg (snd r) = ("disk `" ++ nm ++ "' not found")%string
       | d :: _ =>
           exists e more,
             e <> GRUB_ERR_UNKNOWN_DEVICE
             /\ new = EvOpen (dev_id d) raw e :: more
             /\ (e <> GRUB_ERR_NONE ->
                 more = [] /\ fst r = None /\ grub_errno (snd r) = e)
             /\ (e = GRUB_ERR_NONE ->
                 tried <> [] \/ grub_errno st = GRUB_ERR_NONE ->
                 (exists disk, fst r = Some disk /\ dev disk = d
                               /\ grub_errno (snd r) = GRUB_ERR_NONE)
                 \/ (fst r = None
                     /\ grub_errno (snd r) = GRUB_ERR_NOT_IMPLEMENTED_YET)
                 \/ (fst r = None
                     /\ find_part_sep nm <> None
                     /\ grub_errno (snd r) = GRUB_ERR_UNKNOWN_DEVICE
                     /\ grub_errmsg (snd r) = "no such partition"%string))
       end.
Proof.
  exact (proj1 (@open_driver_walk_errors grub_x86_64 testdev test_probe
                  (@open_state grub_x86_64) "my\,disk,1"
                  ltac:(constructor))).
Defined.

(** C9, refuted as stated: when both drivers decline the name [hd9], open
    returns NULL with [GRUB_ERR_UNKNOWN_DEVICE] after asking both, and
    the message is [disk `hd9' not found], the quote before the name a
    backquote, not the apostrophe of the claim. *)
Lemma open_not_found_message_has_backquote :
  let r := @grub_disk_open grub_x86_64 testdev test_probe
             (@open_state grub_x86_64) "hd9" in
  fst r = None
  /\ grub_errno (snd r) = GRUB_ERR_UNKNOWN_DEVICE
  /\ trace (snd r)
     = [EvOpen 3 "hd9" GRUB_ERR_UNKNOWN_DEVICE;
        EvOpen 0 "hd9" GRUB_ERR_UNKNOWN_DEVICE]
  /\ grub_errmsg (snd r) = "disk `hd9' not found"%string
  /\ grub_errmsg (snd r) <> "disk 'hd9' not found"%string.
Proof.
  cbv zeta. split; [reflexivity|]. split; [reflexivity|].
  split; [reflexivity|]. split; [reflexivity|].
  vm_compute. discriminate.
Qed.

(** C5: the read of [hook_run] calls the hook for the sectors 148 and 149
    with 512 bytes each. *)
Lemma read_hook_once_per_sector_witness :
  hook_calls (Z.to_nat (sectors_touched 0 1024)) 148 0 1024
  = [EvHook 148 0 512; EvHook 149 0 512]
  /\ exists reads,
       trace hook_run_state
       = trace (@test_state grub_small 1000 9 []) ++ reads
         ++ [EvHook 148 0 512; EvHook 149 0 512].
Proof.
  assert (Hrun : hook_run = Some (GRUB_ERR_NONE, hook_run_buf, hook_run_state))
    by (vm_compute; reflexivity).
  assert (Hsize : 0 <= 1024 < 2 ^ (@SIZE_BITS grub_small)) by (cbn; lia).
  pose proof (@read_hook_once_per_sector grub_small testdev eq_refl 10
                (@test_state grub_small 1000 9 []) part_disk 48 0 1024
                (fresh_buf 1024) hook_run_buf hook_run_state
                Hsize eq_refl Hrun) as H.
  cbv zeta in H. destruct H as (_ & (reads & Ht & _) & _).
  split; [reflexivity|]. exists reads. exact Ht.
Defined.

(** C5, refuted as stated: on a disk of unknown size, a read of two
    sectors from sector [2 ^ 64 - 1] on returns without error, and the
    hook is called for sector [2 ^ 64 - 1] and then for sector 0, which
    is not the next higher sector but the successor modulo [2 ^ 64]. *)
Lemma read_hook_sector_wraps :
  read_hook wrap_disk = true
  /\ match wrap_run with
     | Some (err, _, st') =>
         err = GRUB_ERR_NONE
         /\ trace st'
            = [EvRead (2 ^ 64 - 8) 8 GRUB_ERR_NONE; EvRead 0 8 GRUB_ERR_NONE;
               EvHook (2 ^ 64 - 1) 0 512; EvHook 0 0 512]
     | None => False
     end
  /\ 0 < 2 ^ 64 - 1.
Proof.
  split; [reflexivity|]. split; [vm_compute; split; reflexivity|reflexivity].
Qed.

(** ** Writing with a warm cache *)



(** ** A cache store that runs out of memory *)

(** C3: a read of sector 0 whose cluster read succeeds and whose cache
    store cannot allocate (the second allocation fails) delivers the 512
    bytes and returns [GRUB_ERR_OUT_OF_MEMORY]; so does a read of a whole
    cluster through the body loop whose store cannot allocate.  The
    cluster is not cached. *)
Theorem read_reports_store_failure :
  match @grub_disk_read grub_small testdev 10
          (@test_state grub_small 1000 9 [false; true]) (test_disk 1000 9)
          0 0 512 (fresh_buf 512) with
  | Some (err, buf, st') =>
      err = GRUB_ERR_OUT_OF_MEMORY
      /\ buf = pattern 0 512
      /\ trace st' = [EvRead 0 8 GRUB_ERR_NONE]
      /\ @cached grub_small (grub_disk_cache_table st') 0 0 0 = false
  | None => False
  end
  /\ match @grub_disk_read grub_small testdev 10
          (@test_state grub_small 1000 9 [true]) (test_disk 1000 9)
          0 0 4096 (fresh_buf 4096) with
  | Some (err, buf, st') =>
      err = GRUB_ERR_OUT_OF_MEMORY
      /\ buf = pattern 0 4096
      /\ trace st' = [EvRead 0 8 GRUB_ERR_NONE]
      /\ @cached grub_small (grub_disk_cache_table st') 0 0 0 = false
  | None => False
  end.
Proof. vm_compute. repeat split. Qed.

(** ** The last cluster of a disk *)

(** C7: on a disk of 8 sectors, exactly one cluster, a miss on sector 0
    skips the full-cluster read, reads one native sector and caches
    nothing; on a disk of 9 sectors the same request reads the cluster
    and caches it. *)
Theorem read_small_skips_last_cluster :
  match @grub_disk_read_small grub_small testdev
          (@test_state grub_small 8 9 []) (test_disk 8 9)
          0 0 512 (fresh_buf 512) 0 with
  | (err, buf, st') =>
      err = GRUB_ERR_NONE
      /\ buf = pattern 0 512
      /\ trace st' = [EvRead 0 1 GRUB_ERR_NONE]
      /\ @cached grub_small (grub_disk_cache_table st') 0 0 0 = false
  end
  /\ match @grub_disk_read_small grub_small testdev
          (@test_state grub_small 9 9 []) (test_disk 9 9)
          0 0 512 (fresh_buf 512) 0 with
  | (err, buf, st') =>
      err = GRUB_ERR_NONE
      /\ buf = pattern 0 512
      /\ trace st' = [EvRead 0 8 GRUB_ERR_NONE]
      /\ @cached grub_small (grub_disk_cache_table st') 0 0 0 = true
  end.
Proof. vm_compute. repeat split. Qed.

(** * Further properties of the code *)

(** ** The cache as a direct-mapped store *)

Lemma length_fresh_buf n : length (fresh_buf n) = Z.to_nat n.
Proof. unfold fresh_buf. apply length_replicate. Qed.

(** Copying [n] bytes over a fresh buffer of [n] bytes gives those
    bytes. *)
Lemma memcpy_fresh n (data : list byte) :
  0 <= n -> n <= Z.of_nat (length data) ->
  memcpy (fresh_buf n) 0 data n = take (Z.to_nat n) data.
Proof.
  intros Hn Hl. unfold memcpy.
  assert (Hlen : length (take (Z.to_nat n) data) = Z.to_nat n)
    by (rewrite length_take; lia).
  rewrite Hlen, length_fresh_buf.
  replace ((0 <=? 0) && (0 + Z.of_nat (Z.to_nat n) <=? Z.of_nat (Z.to_nat n)))
    with true by zbool.
  change (Z.to_nat 0) with 0%nat. cbn [take Nat.add app].
  rewrite drop_ge by (rewrite length_fresh_buf; lia).
  apply app_nil_r.
Qed.

Section CacheStore.
Context {P : Platform} {world : Type}.
Hypothesis P_ok : platform_ok P = true.
Implicit Types (st : state world).

Lemma cluster_bytes_nonneg : 0 <= cluster_bytes.
Proof.
  rewrite (cluster_bytes_eq P_ok). pose proof (cluster_bytes_bound P_ok). lia.
Qed.

(** What a fetch returns is the data of the slot when the key matches. *)
Lemma fetch_data tbl dv di s :
  fst (grub_disk_cache_fetch tbl dv di s)
  = if key_match (slot tbl (grub_disk_cache_get_index dv di s)) dv di s
    then c_data (slot tbl (grub_disk_cache_get_index dv di s))
    else None.
Proof. unfold grub_disk_cache_fetch. destruct (key_match _ _ _ _); reflexivity. Qed.

Lemma key_match_refl dv di s lk d :
  key_match {| c_dev_id := dv; c_disk_id := di; c_sector := s;
               c_data := d; c_lock := lk |} dv di s = true.
Proof. unfold key_match. cbn. rewrite !Z.eqb_refl. reflexivity. Qed.

(** What fetches return after a store that succeeded. *)
Lemma store_fetch_spec st dv di s (data : list byte) :
  table_ok (grub_disk_cache_table st) ->
  cluster_bytes <= Z.of_nat (length data) ->
  let r := grub_disk_cache_store st dv di s data in
  let tbl := grub_disk_cache_table st in
  let tbl' := grub_disk_cache_table (snd r) in
  fst r = GRUB_ERR_NONE ->
  fst (grub_disk_cache_fetch tbl' dv di s)
  = Some (take (Z.to_nat cluster_bytes) data)
  /\ forall dv' di' s',
       (dv', di', s') <> (dv, di, s) ->
       fst (grub_disk_cache_fetch tbl' dv' di' s')
       = if grub_disk_cache_get_index dv' di' s'
            =? grub_disk_cache_get_index dv di s
         then None
         else fst (grub_disk_cache_fetch tbl dv' di' s').
Proof.
  intros Hok Hlen r tbl tbl'. subst r tbl'. unfold grub_disk_cache_store.
  fold tbl.
  pose proof (index_in_table P_ok tbl dv di s Hok) as Hi.
  pose proof (malloc_table st) as Hmt.
  destruct (grub_malloc st) as [[] st1] eqn:Em; cbn [negb fst snd].
  - intros _. cbn [grub_disk_cache_table set_table].
    rewrite memcpy_fresh by (try apply cluster_bytes_nonneg; exact Hlen).
    split.
    + rewrite fetch_data, slot_set_slot_eq by lia.
      rewrite key_match_refl. reflexivity.
    + intros dv' di' s' Hne. rewrite !fetch_data.
      pose proof (get_index_range P_ok dv' di' s') as Hr.
      destruct (Z.eqb_spec (grub_disk_cache_get_index dv' di' s')
                  (grub_disk_cache_get_index dv di s)) as [E|E].
      * rewrite E, slot_set_slot_eq by lia.
        destruct (key_match _ dv' di' s') eqn:Ek; [|reflexivity].
        apply key_match_true in Ek. cbn in Ek. destruct Ek as (-> & -> & ->).
        contradiction.
      * rewrite slot_set_slot_ne by lia. reflexivity.
  - intros He. exfalso. unfold grub_malloc in Em.
    destruct (mm_fail st) as [|[] rest]; inversion Em; subst.
    cbn in He. discriminate.
Qed.

(** X1.  A store that succeeds, for a driver class in the range of
    [enum grub_disk_dev_id] (the type of the slot's [dev_id] field, 32
    bits wide: every class from 0 below [2 ^ 31] is kept as it is),
    makes a fetch of its key hit with the first cluster of the bytes
    stored; the key that occupied the slot before is evicted (a fetch of
    any other key that hashes to the slot misses); fetches of keys that
    hash to other slots return what they returned before. *)
Theorem store_then_fetch_hits st dv di s (data : list byte) :
  0 <= dv < 2 ^ 31 ->
  table_ok (grub_disk_cache_table st) ->
  cluster_bytes <= Z.of_nat (length data) ->
  let r := grub_disk_cache_store st dv di s data in
  let tbl := grub_disk_cache_table st in
  let tbl' := grub_disk_cache_table (snd r) in
  fst r = GRUB_ERR_NONE ->
  fst (grub_disk_cache_fetch tbl' dv di s)
  = Some (take (Z.to_nat cluster_bytes) data)
  /\ forall dv' di' s',
       (dv', di', s') <> (dv, di, s) ->
       fst (grub_disk_cache_fetch tbl' dv' di' s')
       = if grub_disk_cache_get_index dv' di' s'
            =? grub_disk_cache_get_index dv di s
         then None
         else fst (grub_disk_cache_fetch tbl dv' di' s').
Proof. intros _. apply store_fetch_spec. Qed.

(** What fetches return after a store that failed. *)
Lemma store_failure_spec st dv di s (data : list byte) :
  table_ok (grub_disk_cache_table st) ->
  let r := grub_disk_cache_store st dv di s data in
  let tbl := grub_disk_cache_table st in
  let tbl' := grub_disk_cache_table (snd r) in
  fst r <> GRUB_ERR_NONE ->
  fst r = GRUB_ERR_OUT_OF_MEMORY
  /\ grub_errno (snd r) = GRUB_ERR_OUT_OF_MEMORY
  /\ c_lock (slot tbl' (grub_disk_cache_get_index dv di s)) = false
  /\ forall dv' di' s',
       fst (grub_disk_cache_fetch tbl' dv' di' s')
       = if grub_disk_cache_get_index dv' di' s'
            =? grub_disk_cache_get_index dv di s
         then None
         else fst (grub_disk_cache_fetch tbl dv' di' s').
Proof.
  intros Hok r tbl tbl'. subst r tbl'. unfold grub_disk_cache_store.
  fold tbl.
  pose proof (index_in_table P_ok tbl dv di s Hok) as Hi.
  destruct (grub_malloc st) as [[] st1] eqn:Em; cbn [negb fst snd].
  - intros H. contradiction.
  - intros _. unfold grub_malloc in Em.
    destruct (mm_fail st) as [|[] rest]; inversion Em; subst. clear Em.
    cbn [grub_errno set_table set_errmsg set_errno grub_error snd
         grub_disk_cache_table].
    split; [reflexivity|]. split; [reflexivity|].
    split; [rewrite slot_set_slot_eq by lia; reflexivity|].
    intros dv' di' s'. rewrite !fetch_data.
    pose proof (get_index_range P_ok dv' di' s') as Hr.
    destruct (Z.eqb_spec (grub_disk_cache_get_index dv' di' s')
                (grub_disk_cache_get_index dv di s)) as [E|E].
    + rewrite E, slot_set_slot_eq by lia. cbn.
      destruct (key_match _ _ _ _); reflexivity.
    + rewrite slot_set_slot_ne by lia. reflexivity.
Qed.

(** X2.  A store whose allocation fails returns [GRUB_ERR_OUT_OF_MEMORY]
    and has already emptied the slot: the cluster that was there is lost
    (every key that hashes to the slot misses, the key of the store
    too), the slot is unlocked, and the other slots are as before. *)
Theorem store_out_of_memory_evicts st dv di s (data : list byte) :
  table_ok (grub_disk_cache_table st) ->
  let r := grub_disk_cache_store st dv di s data in
  let tbl := grub_disk_cache_table st in
  let tbl' := grub_disk_cache_table (snd r) in
  fst r <> GRUB_ERR_NONE ->
  fst r = GRUB_ERR_OUT_OF_MEMORY
  /\ grub_errno (snd r) = GRUB_ERR_OUT_OF_MEMORY
  /\ c_lock (slot tbl' (grub_disk_cache_get_index dv di s)) = false
  /\ forall dv' di' s',
       fst (grub_disk_cache_fetch tbl' dv' di' s')
       = if grub_disk_cache_get_index dv' di' s'
            =? grub_disk_cache_get_index dv di s
         then None
         else fst (grub_disk_cache_fetch tbl dv' di' s').
Proof. apply store_failure_spec. Qed.

End CacheStore.

Section CacheFlush.
Context {P : Platform}.
Hypothesis P_ok : platform_ok P = true.

(** X3.  [grub_disk_cache_invalidate_all] keeps the clusters whose slot is
    locked and drops every other: afterwards a fetch hits exactly when it
    hit before on a locked slot.  No lock bit changes, and a second call
    changes nothing. *)
Theorem invalidate_all_keeps_locked_only (tbl : list grub_disk_cache) :
  table_ok tbl ->
  let tbl' := grub_disk_cache_invalidate_all tbl in
  (forall dv di s,
     fst (grub_disk_cache_fetch tbl' dv di s)
     = if c_lock (slot tbl (grub_disk_cache_get_index dv di s))
       then fst (grub_disk_cache_fetch tbl dv di s)
       else None)
  /\ (forall j, 0 <= j -> c_lock (slot tbl' j) = c_lock (slot tbl j))
  /\ forall j, 0 <= j ->
       slot (grub_disk_cache_invalidate_all tbl') j = slot tbl' j.
Proof.
  intros Hok tbl'. subst tbl'.
  pose proof (invalidate_all_table_ok tbl Hok) as Hok'.
  split; [|split].
  - intros dv di s. rewrite !fetch_data.
    pose proof (get_index_range P_ok dv di s) as Hr.
    rewrite invalidate_all_slot by (try assumption; lia).
    set (c := slot tbl _).
    unfold has_data. destruct (c_data c) as [d|] eqn:Ed;
      destruct (c_lock c) eqn:El; cbn [andb negb];
      try rewrite Ed; try reflexivity.
    + change (key_match (set_data c None)) with (key_match c).
      cbn [set_data c_data]. destruct (key_match c dv di s); reflexivity.
    + destruct (key_match c dv di s); reflexivity.
  - intros j Hj. rewrite invalidate_all_slot by assumption.
    destruct (_ && _); reflexivity.
  - intros j Hj. rewrite (invalidate_all_slot _ j Hok' Hj).
    rewrite (invalidate_all_slot tbl j Hok Hj).
    destruct (has_data (slot tbl j) && negb (c_lock (slot tbl j))) eqn:E.
    + cbn. reflexivity.
    + rewrite E. reflexivity.
Qed.

End CacheFlush.

(** ** Reading a cluster twice *)

Lemma length_memcpy (dst : list byte) pos (src : list byte) n :
  length (memcpy dst pos src n) = length dst.
Proof.
  unfold memcpy.
  destruct (Z.leb_spec 0 pos); [|reflexivity].
  destruct (Z.leb_spec (pos + Z.of_nat (length (take (Z.to_nat n) src)))
              (Z.of_nat (length dst))); [|reflexivity].
  cbn [andb]. rewrite !length_app, length_take, length_drop. lia.
Qed.

Section ReadTwice.
Context {P : Platform} {world : Type}.
Hypothesis P_ok : platform_ok P = true.
Implicit Types (st : state world) (disk : grub_disk world).

Lemma cached_fetch_data tbl dv di s :
  cached tbl dv di s = true <->
  exists data, fst (grub_disk_cache_fetch tbl dv di s) = Some data.
Proof.
  rewrite fetch_data. unfold cached, has_data.
  destruct (key_match _ _ _ _); destruct (c_data _); cbn; split;
    try discriminate; eauto; intros [d H]; discriminate.
Qed.

(** A small read that finds its cluster in the cache: it copies from the
    cluster, calls no driver, allocates nothing and leaves [grub_errno]
    and what is cached alone. *)
Lemma read_small_hit st disk sector offset size buf bpos cluster :
  table_ok (grub_disk_cache_table st) ->
  fst (grub_disk_cache_fetch (grub_disk_cache_table st)
         (dev_id (dev disk)) (id disk) sector) = Some cluster ->
  let r := grub_disk_read_small st disk sector offset size buf bpos in
  fst (fst r) = GRUB_ERR_NONE
  /\ snd (fst r) = memcpy buf bpos (from offset cluster) size
  /\ trace (snd r) = trace st /\ devices (snd r) = devices st
  /\ mm_fail (snd r) = mm_fail st /\ grub_errno (snd r) = grub_errno st
  /\ forall dv di s,
       fst (grub_disk_cache_fetch (grub_disk_cache_table (snd r)) dv di s)
       = fst (grub_disk_cache_fetch (grub_disk_cache_table st) dv di s).
Proof.
  intros Hok Hf r. subst r.
  pose proof (index_in_table P_ok _ (dev_id (dev disk)) (id disk) sector Hok)
    as Hi.
  rewrite fetch_data in Hf.
  destruct (key_match _ _ _ _) eqn:Ek in Hf; [|discriminate].
  assert (Ef : grub_disk_cache_fetch (grub_disk_cache_table st)
                 (dev_id (dev disk)) (id disk) sector
               = (Some cluster,
                  set_slot (grub_disk_cache_table st)
                    (grub_disk_cache_get_index (dev_id (dev disk)) (id disk)
                       sector)
                    (set_lock
                       (slot (grub_disk_cache_table st)
                          (grub_disk_cache_get_index (dev_id (dev disk))
                             (id disk) sector)) true)))
    by (unfold grub_disk_cache_fetch; rewrite Ek, Hf; reflexivity).
  unfold grub_disk_read_small. rewrite Ef.
  cbn [fst snd grub_disk_cache_table set_table].
  repeat split.
  intros dv di s. rewrite !fetch_data.
  unfold grub_disk_cache_unlock.
  rewrite slot_set_slot_eq by lia.
  change (key_match (set_lock ?c ?b)) with (key_match c).
  rewrite Ek.
  pose proof (get_index_range P_ok dv di s) as Hr.
  destruct (Z.eq_dec (grub_disk_cache_get_index dv di s)
              (grub_disk_cache_get_index (dev_id (dev disk)) (id disk) sector))
    as [E|E].
  - rewrite E. rewrite slot_set_slot_eq
      by (rewrite length_set_slot; lia).
    reflexivity.
  - rewrite !slot_set_slot_ne by lia. reflexivity.
Qed.

(** X4.  Repeatable read.  If a small read leaves its cluster in the cache (it
    found it there, or read it from the device and stored it), then it
    and any later small read of that cluster deliver slices of one and
    the same cluster image; the later read calls no driver, allocates
    nothing and leaves [grub_errno] as it is. *)
Theorem read_small_again_hits st disk sector
    o1 n1 (buf1 : list byte) p1 o2 n2 (buf2 : list byte) p2 :
  table_ok (grub_disk_cache_table st) ->
  let dv := dev_id (dev disk) in
  let r1 := grub_disk_read_small st disk sector o1 n1 buf1 p1 in
  let st1 := snd r1 in
  cached (grub_disk_cache_table st1) dv (id disk) sector = true ->
  let r2 := grub_disk_read_small st1 disk sector o2 n2 buf2 p2 in
  exists cluster : list byte,
    fst (fst r1) = GRUB_ERR_NONE
    /\ snd (fst r1) = memcpy buf1 p1 (from o1 cluster) n1
    /\ fst (fst r2) = GRUB_ERR_NONE
    /\ snd (fst r2) = memcpy buf2 p2 (from o2 cluster) n2
    /\ trace (snd r2) = trace st1 /\ devices (snd r2) = devices st1
    /\ mm_fail (snd r2) = mm_fail st1
    /\ grub_errno (snd r2) = grub_errno st1
    /\ cached (grub_disk_cache_table (snd r2)) dv (id disk) sector = true.
Proof.
  intros Hok dv r1 st1 Hc r2.
  assert (Hok1 : table_ok (grub_disk_cache_table st1))
    by (apply (read_small_frame P_ok); exact Hok).
  pose proof Hc as Hc'. apply cached_fetch_data in Hc'.
  destruct Hc' as [cluster Hcl].
  destruct (read_small_hit st1 disk sector o2 n2 buf2 p2 cluster Hok1 Hcl)
    as (E2 & B2 & T2 & D2 & M2 & N2 & F2).
  fold r2 in E2, B2, T2, D2, M2, N2, F2.
  exists cluster.
  assert (H1 : fst (fst r1) = GRUB_ERR_NONE
               /\ snd (fst r1) = memcpy buf1 p1 (from o1 cluster) n1).
  { clear r2 E2 B2 T2 D2 M2 N2 F2.
    destruct (cached (grub_disk_cache_table st) dv (id disk) sector) eqn:Ec0.
    - (* the first read hit *)
      apply cached_fetch_data in Ec0. destruct Ec0 as [c0 Hc0].
      destruct (read_small_hit st disk sector o1 n1 buf1 p1 c0 Hok Hc0)
        as (E1 & B1 & _ & _ & _ & _ & F1).
      fold r1 in E1, B1, F1. fold st1 in F1.
      rewrite F1 in Hcl. change (dev_id (dev disk)) with dv in Hc0.
      rewrite Hc0 in Hcl. injection Hcl as <-.
      split; assumption.
    - (* the first read missed *)
      subst st1 r1. revert Hc Hcl. unfold grub_disk_read_small.
      pose proof (cached_fetch P_ok (grub_disk_cache_table st) dv (id disk)
                    sector dv (id disk) sector Hok) as Hcf.
      pose proof (fetch_table_ok _ dv (id disk) sector Hok) as Hokf.
      assert (Hnone : fst (grub_disk_cache_fetch (grub_disk_cache_table st)
                             dv (id disk) sector) = None).
      { destruct (fst _) as [d|] eqn:E; [|reflexivity].
        assert (cached (grub_disk_cache_table st) dv (id disk) sector = true)
          by (apply cached_fetch_data; eauto).
        congruence. }
      fold dv.
      destruct (grub_disk_cache_fetch (grub_disk_cache_table st) dv (id disk)
                  sector) as [data tbl].
      cbn [fst snd] in Hcf, Hokf, Hnone. subst data.
      rewrite Ec0 in Hcf.
      pose proof (malloc_table (set_table st tbl)) as Hmt.
      destruct (grub_malloc (set_table st tbl)) as [ok st2].
      cbn [snd grub_disk_cache_table set_table] in Hmt.
      destruct ok; cbn [negb].
      2:{ cbn [snd]. rewrite Hmt, Hcf. discriminate. }
      assert (Hfb : forall stx o n (b : list byte) p,
                grub_disk_cache_table stx = tbl ->
                cached (grub_disk_cache_table
                          (snd (read_small_fallback stx disk sector o n b p)))
                  dv (id disk) sector = true -> False).
      { intros stx o n b p Hx. rewrite fallback_table, Hx, Hcf. discriminate. }
      destruct (_ || _).
      2:{ intros Hc _. exfalso. eapply Hfb; [|exact Hc].
          cbn. exact Hmt. }
      match goal with |- context [disk_dev_read ?a1 ?a2 ?a3 ?a4] =>
        pose proof (dev_read_table a1 a2 a3 a4) as Hrt;
        destruct (disk_dev_read a1 a2 a3 a4) as [[err bytes] st3] end.
      cbn [snd] in Hrt.
      destruct (is_err err); cbn [negb].
      { intros Hc _. exfalso. eapply Hfb; [|exact Hc].
        cbn. rewrite Hrt. exact Hmt. }
      set (tmp := memcpy (fresh_buf cluster_bytes) 0 bytes cluster_bytes).
      assert (Hokt : table_ok (grub_disk_cache_table st3))
        by (rewrite Hrt, Hmt; exact Hokf).
      assert (Hlt : Z.of_nat (length tmp) = cluster_bytes).
      { subst tmp. rewrite length_memcpy, length_fresh_buf.
        pose proof (cluster_bytes_nonneg P_ok). lia. }
      pose proof (store_fetch_spec P_ok st3 dv (id disk) sector tmp Hokt
                    ltac:(lia)) as Hst.
      pose proof (store_failure_spec P_ok st3 dv (id disk) sector tmp
                    Hokt) as Hso.
      cbn zeta in Hst, Hso.
      destruct (grub_disk_cache_store st3 dv (id disk) sector tmp)
        as [e st4].
      cbn [fst snd] in *.
      intros Hc Hcl.
      destruct (is_err e) eqn:Ee.
      + exfalso. destruct Hso as (_ & _ & _ & Hso).
        { intros ->. discriminate. }
        rewrite Hso, Z.eqb_refl in Hcl. discriminate.
      + apply is_err_false in Ee. destruct (Hst Ee) as [Hst1 _].
        rewrite Hst1 in Hcl. injection Hcl as <-.
        rewrite take_ge by lia. split; reflexivity. }
  destruct H1 as [E1 B1].
  repeat split; try assumption.
  apply cached_fetch_data. rewrite F2. eauto.
Qed.

End ReadTwice.

(** ** What [grub_disk_open] returns *)

Section OpenResult.
Context {P : Platform} {world : Type}.
Variable grub_partition_probe :
  disk_geom -> string -> world -> list grub_partition.
Implicit Types (st : state world) (disk : grub_disk world).

(** What an allocation leaves alone. *)
Lemma malloc_frame st :
  let st' := snd (grub_malloc st) in
  grub_disk_cache_table st' = grub_disk_cache_table st
  /\ grub_last_time st' = grub_last_time st
  /\ time_ms st' = time_ms st
  /\ grub_disk_dev_list st' = grub_disk_dev_list st
  /\ devices st' = devices st
  /\ trace st' = trace st
  /\ (fst (grub_malloc st) = true -> grub_errno st' = grub_errno st)
  /\ (fst (grub_malloc st) = false -> grub_errno st' = GRUB_ERR_OUT_OF_MEMORY).
Proof.
  unfold grub_malloc. destruct (mm_fail st) as [|[] ?]; cbn;
    repeat split; congruence.
Qed.

(** The walk over the drivers leaves the cache, the timer and the driver
    list alone; the driver it finds is one of the list; when it fails, an
    error is pending, and when it finds a driver or runs out of drivers,
    [grub_errno] is as before or was cleared. *)
Lemma open_walk_frame (devs : list (grub_disk_dev world)) raw :
  forall g st r g' st',
    open_walk devs raw g st = (r, g', st') ->
    grub_disk_cache_table st' = grub_disk_cache_table st
    /\ grub_last_time st' = grub_last_time st
    /\ time_ms st' = time_ms st
    /\ grub_disk_dev_list st' = grub_disk_dev_list st
    /\ mm_fail st' = mm_fail st
    /\ match r with
       | WalkFound d =>
           In d devs
           /\ (grub_errno st' = grub_errno st
               \/ grub_errno st' = GRUB_ERR_NONE)
       | WalkNone => True
       | WalkFail => is_err (grub_errno st') = true
       end.
Proof.
  induction devs as [|d devs' IH]; intros g st r g' st' H; cbn in H.
  - inversion H; subst. repeat split.
  - destruct (dev_open d raw g (devices st)) as [[err g1] w].
    unfold driver_result in H.
    destruct (is_err err) eqn:Ee; cbn [negb] in H.
    + cbn [grub_errno set_errno] in H.
      destruct (is_unknown_device err) eqn:Eu.
      * apply IH in H. cbn in H.
        destruct H as (Ht & Hl & Hm & Hd & Hmm & Hr).
        repeat split; try assumption.
        destruct r; try exact Hr.
        destruct Hr as [Hin He]. split; [right; exact Hin|].
        right. destruct He as [He|He]; exact He.
      * inversion H; subst. cbn. repeat split. exact Ee.
    + inversion H; subst. cbn. repeat split; auto.
Qed.

(** The table and the timer as the last block of a successful
    [grub_disk_open] leaves them. *)
Lemma open_timeout_frame st :
  let st1 :=
    if u64 (grub_last_time st + GRUB_CACHE_TIMEOUT * 1000) <? time_ms st
    then set_table st (grub_disk_cache_invalidate_all (grub_disk_cache_table st))
    else st in
  let st2 := set_last_time st1 (time_ms st) in
  grub_errno st2 = grub_errno st /\ trace st2 = trace st
  /\ grub_last_time st2 = time_ms st
  /\ grub_disk_cache_table st2
     = if u64 (grub_last_time st + GRUB_CACHE_TIMEOUT * 1000) <? time_ms st
       then grub_disk_cache_invalidate_all (grub_disk_cache_table st)
       else grub_disk_cache_table st.
Proof. cbn zeta. destruct (_ <? _); cbn; repeat split. Qed.

(** X5.  A handle that [grub_disk_open] returns: no error is pending; its
    sector size is one the cache supports, between 512 bytes and one
    cluster; its driver is a registered one; no hook is set; it has a
    partition chain exactly when the name has a separator.  The timer is
    set to the current time, and the unlocked clusters were dropped from
    the cache if, and only if, more than [GRUB_CACHE_TIMEOUT] seconds
    (a 64-bit sum of milliseconds) had passed since the timer was set. *)
Theorem open_returns_supported_handle st nm disk st' :
  grub_disk_open grub_partition_probe st nm = (Some disk, st') ->
  grub_errno st' = GRUB_ERR_NONE
  /\ GRUB_DISK_SECTOR_BITS <= log_sector_size disk
     <= GRUB_DISK_CACHE_BITS + GRUB_DISK_SECTOR_BITS
  /\ In (dev disk) (grub_disk_dev_list st)
  /\ read_hook disk = false
  /\ (partition disk = [] <-> find_part_sep nm = None)
  /\ grub_last_time st' = time_ms st
  /\ grub_disk_cache_table st'
     = if u64 (grub_last_time st + GRUB_CACHE_TIMEOUT * 1000) <? time_ms st
       then grub_disk_cache_invalidate_all (grub_disk_cache_table st)
       else grub_disk_cache_table st.
Proof.
  unfold grub_disk_open.
  pose proof (malloc_frame st) as Hm1.
  destruct (grub_malloc st) as [[] st1]; cbn [negb]; [|discriminate].
  cbn zeta in Hm1. cbn [fst snd] in Hm1.
  destruct Hm1 as (Ht1 & Hl1 & Hc1 & Hd1 & _).
  set (raw := match find_part_sep nm with
              | Some len => prefix len nm | None => nm end).
  assert (Hex : forall stx g, open_exit stx raw None g [] = (Some disk, st')
                              -> False).
  { intros stx g. unfold open_exit. destruct (is_err _); discriminate. }
  assert (H2 : exists ok st2,
            (match find_part_sep nm with
             | Some _ => grub_malloc st1 | None => (true, st1) end)
            = (ok, st2)
            /\ grub_disk_cache_table st2 = grub_disk_cache_table st
            /\ grub_last_time st2 = grub_last_time st
            /\ time_ms st2 = time_ms st
            /\ grub_disk_dev_list st2 = grub_disk_dev_list st).
  { destruct (find_part_sep nm).
    - pose proof (malloc_frame st1) as Hm. cbn zeta in Hm.
      destruct (grub_malloc st1) as [ok st2]. exists ok, st2.
      cbn [snd] in Hm. destruct Hm as (? & ? & ? & ? & _).
      repeat split; congruence.
    - exists true, st1. repeat split; assumption. }
  destruct H2 as (ok & st2 & -> & Ht2 & Hl2 & Hc2 & Hd2).
  destruct ok; cbn [negb]; [|intros H; exfalso; eapply Hex; exact H].
  pose proof (malloc_frame st2) as Hm3. cbn zeta in Hm3.
  destruct (grub_malloc st2) as [[] st3]; cbn [negb];
    [|intros H; exfalso; eapply Hex; exact H].
  cbn [fst snd] in Hm3. destruct Hm3 as (Ht3 & Hl3 & Hc3 & Hd3 & _).
  destruct (open_walk (grub_disk_dev_list st3) raw _ st3) as [[r g] st4] eqn:Ew.
  apply open_walk_frame in Ew.
  destruct Ew as (Ht4 & Hl4 & Hc4 & Hd4 & _ & Hr).
  destruct r as [d| |];
    [|destruct (grub_error _ _ _) as [? ?]; intros H; exfalso; eapply Hex; exact H
     |intros H; exfalso; eapply Hex; exact H].
  destruct Hr as [Hin _].
  destruct (Z.ltb_spec (GRUB_DISK_CACHE_BITS + GRUB_DISK_SECTOR_BITS)
              (g_log_sector_size g)) as [Hhi|Hhi]; cbn [orb].
  { destruct (grub_error _ _ _) as [? ?]. intros H; exfalso; eapply Hex; exact H. }
  destruct (Z.ltb_spec (g_log_sector_size g) GRUB_DISK_SECTOR_BITS) as [Hlo|Hlo].
  { destruct (grub_error _ _ _) as [? ?]. intros H; exfalso; eapply Hex; exact H. }
  assert (Hfin : forall stx part,
            grub_disk_cache_table stx = grub_disk_cache_table st ->
            grub_last_time stx = grub_last_time st ->
            time_ms stx = time_ms st ->
            (part = [] <-> find_part_sep nm = None) ->
            open_exit
              (set_last_time
                 (if u64 (grub_last_time stx + GRUB_CACHE_TIMEOUT * 1000)
                     <? time_ms stx
                  then set_table stx (grub_disk_cache_invalidate_all
                                        (grub_disk_cache_table stx))
                  else stx) (time_ms stx)) raw (Some d) g part
            = (Some disk, st') ->
            grub_errno st' = GRUB_ERR_NONE
            /\ GRUB_DISK_SECTOR_BITS <= log_sector_size disk
               <= GRUB_DISK_CACHE_BITS + GRUB_DISK_SECTOR_BITS
            /\ In (dev disk) (grub_disk_dev_list st)
            /\ read_hook disk = false
            /\ (partition disk = [] <-> find_part_sep nm = None)
            /\ grub_last_time st' = time_ms st
            /\ grub_disk_cache_table st'
               = if u64 (grub_last_time st + GRUB_CACHE_TIMEOUT * 1000)
                    <? time_ms st
                 then grub_disk_cache_invalidate_all (grub_disk_cache_table st)
                 else grub_disk_cache_table st).
  { intros stx part Hxt Hxl Hxc Hpart.
    destruct (open_timeout_frame stx) as (He & _ & Hlt & Htb).
    cbn zeta in He, Hlt, Htb. unfold open_exit.
    destruct (is_err (grub_errno _)) eqn:Ee; [discriminate|].
    intros H. injection H as <- <-. cbn [log_sector_size dev read_hook partition].
    apply is_err_false in Ee.
    split; [exact Ee|]. split; [lia|].
    split; [rewrite Hd3, Hd2 in Hin; exact Hin|].
    split; [reflexivity|]. split; [exact Hpart|].
    split; [rewrite Hlt; exact Hxc|].
    rewrite Htb, Hxt, Hxl, Hxc. reflexivity. }
  destruct (find_part_sep nm) as [len|] eqn:Ep.
  - destruct (grub_partition_probe g _ _) as [|p0 ps].
    + destruct (grub_error _ _ _) as [? stx] eqn:Eg. unfold open_exit.
      unfold grub_error in Eg. injection Eg as <- <-. cbn. discriminate.
    + apply Hfin; cbn; try congruence.
      split; intros; discriminate.
  - apply Hfin; try congruence. tauto.
Qed.

(** The exit of [grub_disk_open]: NULL exactly when an error is pending,
    and the timer at the current time either way. *)
Lemma open_exit_result st nm (d : option (grub_disk_dev world)) g part :
  (d = None -> is_err (grub_errno st) = true) ->
  (is_err (grub_errno st) = false -> grub_last_time st = time_ms st) ->
  let r := open_exit st nm d g part in
  (fst r = None <-> is_err (grub_errno (snd r)) = true)
  /\ grub_last_time (snd r) = time_ms st
  /\ time_ms (snd r) = time_ms st.
Proof.
  intros Hd Hl r. subst r. unfold open_exit.
  destruct (is_err (grub_errno st)) eqn:Ee.
  - cbn [fst snd]. unfold disk_close.
    destruct d; cbn; rewrite Ee; repeat split.
  - destruct d as [d|]; [|specialize (Hd eq_refl); discriminate].
    cbn [fst snd]. rewrite Ee. split; [split; discriminate|].
    split; [apply Hl; reflexivity|reflexivity].
Qed.

(** X6.  [grub_disk_open] returns NULL exactly when it leaves an error in
    [grub_errno].  When the handle could not be allocated, nothing else
    happens.  Otherwise the timer is at the current time when it returns,
    whether it succeeded or not: every failure goes through
    [grub_disk_close]. *)
Theorem open_null_iff_error st nm :
  let r := grub_disk_open grub_partition_probe st nm in
  (fst r = None <-> is_err (grub_errno (snd r)) = true)
  /\ (fst (grub_malloc st) = false -> r = (None, snd (grub_malloc st)))
  /\ (fst (grub_malloc st) = true -> grub_last_time (snd r) = time_ms st).
Proof.
  intros r. subst r. unfold grub_disk_open.
  pose proof (malloc_frame st) as Hm1. cbn zeta in Hm1.
  destruct (grub_malloc st) as [[] st1]; cbn [negb fst snd] in *.
  2:{ destruct Hm1 as (_ & _ & _ & _ & _ & _ & _ & He).
      rewrite (He eq_refl). cbn. repeat split; discriminate. }
  destruct Hm1 as (_ & _ & Hc1 & _).
  set (raw := match find_part_sep nm with
              | Some len => prefix len nm | None => nm end).
  assert (Hfin : forall stx d g part,
            time_ms stx = time_ms st ->
            (d = None -> is_err (grub_errno stx) = true) ->
            (is_err (grub_errno stx) = false ->
             grub_last_time stx = time_ms stx) ->
            (fst (open_exit stx raw d g part) = None
             <-> is_err (grub_errno (snd (open_exit stx raw d g part))) = true)
            /\ (true = false -> open_exit stx raw d g part = (None, st1))
            /\ (true = true ->
                grub_last_time (snd (open_exit stx raw d g part))
                = time_ms st)).
  { intros stx d g part Hx Hd Hl.
    destruct (open_exit_result stx raw d g part Hd Hl) as (Hiff & Hlt & _).
    split; [exact Hiff|]. split; [discriminate|]. intros _. congruence. }
  assert (Herr : forall stx : state world,
            is_err (grub_errno stx) = true ->
            is_err (grub_errno stx) = false ->
            grub_last_time stx = time_ms stx) by (intros; congruence).
  assert (H2 : exists ok st2,
            (match find_part_sep nm with
             | Some _ => grub_malloc st1 | None => (true, st1) end)
            = (ok, st2)
            /\ time_ms st2 = time_ms st
            /\ (ok = false -> is_err (grub_errno st2) = true)).
  { destruct (find_part_sep nm).
    - pose proof (malloc_frame st1) as Hm. cbn zeta in Hm.
      destruct (grub_malloc st1) as [ok st2]. exists ok, st2.
      cbn [fst snd] in Hm. destruct Hm as (_ & _ & ? & _ & _ & _ & _ & He).
      repeat split; [congruence|]. intros ->. rewrite He; reflexivity.
    - exists true, st1. repeat split; [assumption|discriminate]. }
  destruct H2 as (ok & st2 & -> & Hc2 & He2).
  destruct ok; cbn [negb];
    [|apply Hfin; [exact Hc2|intros _; auto|apply Herr; auto]].
  pose proof (malloc_frame st2) as Hm3. cbn zeta in Hm3.
  destruct (grub_malloc st2) as [[] st3]; cbn [negb fst snd] in *.
  2:{ destruct Hm3 as (_ & _ & Hc3 & _ & _ & _ & _ & He).
      assert (is_err (grub_errno st3) = true) by (rewrite He; reflexivity).
      apply Hfin; [congruence|auto|apply Herr; assumption]. }
  destruct Hm3 as (_ & _ & Hc3 & _).
  destruct (open_walk (grub_disk_dev_list st3) raw _ st3) as [[r g] st4] eqn:Ew.
  apply open_walk_frame in Ew.
  destruct Ew as (_ & _ & Hc4 & _ & _ & Hr).
  assert (Hge : forall stx e msg,
            is_err e = true -> time_ms stx = time_ms st ->
            forall d g' part,
            (fst (open_exit (snd (grub_error stx e msg)) raw d g' part) = None
             <-> is_err (grub_errno
                           (snd (open_exit (snd (grub_error stx e msg)) raw d
                                   g' part))) = true)
            /\ (true = false ->
                open_exit (snd (grub_error stx e msg)) raw d g' part
                = (None, st1))
            /\ (true = true ->
                grub_last_time
                  (snd (open_exit (snd (grub_error stx e msg)) raw d g' part))
                = time_ms st)).
  { intros stx e msg Hee Hx d g' part.
    assert (is_err (grub_errno (snd (grub_error stx e msg))) = true)
      by (cbn; exact Hee).
    apply Hfin; [cbn; exact Hx|auto|apply Herr; assumption]. }
  assert (Hlast : forall stx d part,
            time_ms stx = time_ms st ->
            (fst (open_exit
                    (set_last_time
                       (if u64 (grub_last_time stx + GRUB_CACHE_TIMEOUT * 1000)
                           <? time_ms stx
                        then set_table stx (grub_disk_cache_invalidate_all
                                              (grub_disk_cache_table stx))
                        else stx) (time_ms stx)) raw (Some d) g part) = None
             <-> is_err (grub_errno (snd (open_exit
                    (set_last_time
                       (if u64 (grub_last_time stx + GRUB_CACHE_TIMEOUT * 1000)
                           <? time_ms stx
                        then set_table stx (grub_disk_cache_invalidate_all
                                              (grub_disk_cache_table stx))
                        else stx) (time_ms stx)) raw (Some d) g part))) = true)
            /\ (true = false ->
                open_exit
                    (set_last_time
                       (if u64 (grub_last_time stx + GRUB_CACHE_TIMEOUT * 1000)
                           <? time_ms stx
                        then set_table stx (grub_disk_cache_invalidate_all
                                              (grub_disk_cache_table stx))
                        else stx) (time_ms stx)) raw (Some d) g part
                = (None, st1))
            /\ (true = true ->
                grub_last_time (snd (open_exit
                    (set_last_time
                       (if u64 (grub_last_time stx + GRUB_CACHE_TIMEOUT * 1000)
                           <? time_ms stx
                        then set_table stx (grub_disk_cache_invalidate_all
                                              (grub_disk_cache_table stx))
                        else stx) (time_ms stx)) raw (Some d) g part))
                = time_ms st)).
  { intros stx d part Hx. apply Hfin.
    - destruct (_ <? _); cbn; exact Hx.
    - discriminate.
    - intros _. destruct (_ <? _); reflexivity. }
  assert (Hc43 : time_ms st4 = time_ms st) by congruence.
  destruct r as [d| |].
  - destruct (_ || _).
    + pose proof (Hge st4 GRUB_ERR_NOT_IMPLEMENTED_YET
                    "sector sizes of %d bytes aren't supported yet"%string
                    eq_refl Hc43 None g []) as Hx.
      destruct (grub_error st4 _ _) as [? stx]. exact Hx.
    + destruct (find_part_sep nm) as [len|].
      * destruct (grub_partition_probe g _ _) as [|p0 ps].
        -- pose proof (Hge (log st4 (EvProbe (suffix (S len) nm)))
                         GRUB_ERR_UNKNOWN_DEVICE "no such partition"%string
                         eq_refl Hc43 (Some d) g []) as Hx.
           destruct (grub_error _ _ _) as [? stx]. exact Hx.
        -- apply (Hlast (log st4 (EvProbe (suffix (S len) nm)))). exact Hc43.
      * apply Hlast. exact Hc43.
  - pose proof (Hge st4 GRUB_ERR_UNKNOWN_DEVICE
                  ("disk `" ++ nm ++ "' not found")%string
                  eq_refl Hc43 None g []) as Hx.
    destruct (grub_error st4 _ _) as [? stx]. exact Hx.
  - apply Hfin; [exact Hc43|auto|apply Herr; exact Hr].
Qed.

Lemma declined_no_accept raw (tried : list (grub_disk_dev world)) dv :
  ~ In (EvOpen dv raw GRUB_ERR_NONE) (declined raw tried).
Proof.
  unfold declined. rewrite in_map_iff. intros (d & H & _). discriminate.
Qed.

Lemma declined_no_close raw (tried : list (grub_disk_dev world)) dv :
  ~ In (EvClose dv) (declined raw tried).
Proof.
  unfold declined. rewrite in_map_iff. intros (d & H & _). discriminate.
Qed.

(** X7.  A failure of [grub_disk_open] after a driver has accepted the disk
    (entered with no error pending).  Either the driver reported a
    sector size that is not supported: the error is
    [GRUB_ERR_NOT_IMPLEMENTED_YET] and the driver's [close] is not called,
    [disk->dev] being set only after that check.  Or the name has a
    partition part and the prober found no partition: the error is
    [GRUB_ERR_UNKNOWN_DEVICE] with the message [no such partition], and
    the driver's [close] is the last call made. *)
Theorem open_failure_after_accept st nm :
  grub_errno st = GRUB_ERR_NONE ->
  let raw :=
    match find_part_sep nm with Some len => prefix len nm | None => nm end in
  let r := grub_disk_open grub_partition_probe st nm in
  exists new,
    trace (snd r) = trace st ++ new
    /\ (fst r = None ->
        forall dv, In (EvOpen dv raw GRUB_ERR_NONE) new ->
          (grub_errno (snd r) = GRUB_ERR_NOT_IMPLEMENTED_YET
           /\ forall dv', ~ In (EvClose dv') new)
          \/ (grub_errno (snd r) = GRUB_ERR_UNKNOWN_DEVICE
              /\ grub_errmsg (snd r) = "no such partition"%string
              /\ exists len before,
                   find_part_sep nm = Some len
                   /\ new = before
                            ++ [EvOpen dv raw GRUB_ERR_NONE;
                                EvProbe (suffix (S len) nm);
                                EvClose dv]
                   /\ ~ In (EvOpen dv raw GRUB_ERR_NONE) before)).
Proof.
  intros He0 raw r. subst r.
  set (Q := fun r : option (grub_disk world) * state world =>
    exists new,
      trace (snd r) = trace st ++ new
      /\ (fst r = None ->
          forall dv, In (EvOpen dv raw GRUB_ERR_NONE) new ->
            (grub_errno (snd r) = GRUB_ERR_NOT_IMPLEMENTED_YET
             /\ forall dv', ~ In (EvClose dv') new)
            \/ (grub_errno (snd r) = GRUB_ERR_UNKNOWN_DEVICE
                /\ grub_errmsg (snd r) = "no such partition"%string
                /\ exists len before,
                     find_part_sep nm = Some len
                     /\ new = before
                              ++ [EvOpen dv raw GRUB_ERR_NONE;
                                  EvProbe (suffix (S len) nm);
                                  EvClose dv]
                     /\ ~ In (EvOpen dv raw GRUB_ERR_NONE) before))).
  change (Q (grub_disk_open grub_partition_probe st nm)).
  unfold grub_disk_open. fold raw.
  (* leaving before any driver accepted *)
  assert (Hnone : forall (stx : state world) g new,
            trace stx = trace st ++ new ->
            (forall dv, ~ In (EvOpen dv raw GRUB_ERR_NONE) new) ->
            is_err (grub_errno stx) = true ->
            Q (open_exit stx raw None g [])).
  { intros stx g new Ht Hno Hee. exists new.
    rewrite open_exit_fail by exact Hee. cbn.
    split; [exact Ht|]. intros _ dv Hin. exfalso. exact (Hno dv Hin). }
  pose proof (malloc_frame st) as Hm1. cbn zeta in Hm1.
  destruct (grub_malloc st) as [[] st1]; cbn [negb fst snd] in *.
  2:{ exists []. cbn. rewrite app_nil_r.
      split; [apply Hm1|]. intros _ dv []. }
  destruct Hm1 as (_ & _ & _ & _ & _ & Htr1 & He1 & _).
  specialize (He1 eq_refl).
  assert (H2 : exists ok st2,
            (match find_part_sep nm with
             | Some _ => grub_malloc st1 | None => (true, st1) end)
            = (ok, st2)
            /\ trace st2 = trace st
            /\ (ok = true -> grub_errno st2 = GRUB_ERR_NONE)
            /\ (ok = false -> is_err (grub_errno st2) = true)).
  { destruct (find_part_sep nm).
    - pose proof (malloc_frame st1) as Hm. cbn zeta in Hm.
      destruct (grub_malloc st1) as [ok st2]. exists ok, st2.
      cbn [fst snd] in Hm.
      destruct Hm as (_ & _ & _ & _ & _ & Ht & Hs & Hf).
      split; [reflexivity|]. split; [congruence|].
      split; intros ->; [rewrite Hs by reflexivity; congruence
                        |rewrite Hf; reflexivity].
    - exists true, st1. split; [reflexivity|]. split; [exact Htr1|].
      split; [intros _; congruence|discriminate]. }
  destruct H2 as (ok & st2 & -> & Htr2 & Hs2 & Hf2).
  destruct ok; cbn [negb].
  2:{ apply (Hnone st2 _ []); [rewrite app_nil_r; exact Htr2
                              |intros dv []|auto]. }
  specialize (Hs2 eq_refl).
  pose proof (malloc_frame st2) as Hm3. cbn zeta in Hm3.
  destruct (grub_malloc st2) as [[] st3]; cbn [negb fst snd] in *.
  2:{ destruct Hm3 as (_ & _ & _ & _ & _ & Ht & _ & Hf).
      apply (Hnone st3 _ []); [rewrite app_nil_r; congruence
                              |intros dv []|rewrite Hf; reflexivity]. }
  destruct Hm3 as (_ & _ & _ & _ & _ & Htr3 & He3 & _).
  specialize (He3 eq_refl).
  destruct (open_walk (grub_disk_dev_list st3) raw _ st3) as [[r g] st4] eqn:Ew.
  pose proof (open_walk_frame _ _ _ _ _ _ _ Ew) as Hfr.
  apply open_walk_spec in Ew.
  destruct Ew as (tried & rest & _ & Hw).
  destruct Hfr as (_ & _ & _ & _ & _ & Hr).
  destruct r as [d| |].
  - (* a driver accepted *)
    destruct Hw as (rest' & _ & Htr4 & _). destruct Hr as [_ He4].
    assert (He4' : grub_errno st4 = GRUB_ERR_NONE)
      by (destruct He4; congruence).
    rewrite Htr3, Htr2 in Htr4.
    destruct (_ || _).
    + (* unsupported sector size *)
      cbn [grub_error]. rewrite open_exit_fail by reflexivity.
      exists (declined raw tried ++ [EvOpen (dev_id d) raw GRUB_ERR_NONE]).
      cbn. split; [exact Htr4|]. intros _ dv _. left.
      split; [reflexivity|]. intros dv' Hin. apply in_app_or in Hin.
      destruct Hin as [Hin|[Hin|[]]]; [|discriminate].
      exact (declined_no_close _ _ _ Hin).
    + assert (Hok : forall stx part new,
                trace stx = trace st ++ new ->
                grub_errno stx = GRUB_ERR_NONE ->
                Q (open_exit
                     (set_last_time
                        (if u64 (grub_last_time stx + GRUB_CACHE_TIMEOUT * 1000)
                            <? time_ms stx
                         then set_table stx (grub_disk_cache_invalidate_all
                                               (grub_disk_cache_table stx))
                         else stx) (time_ms stx)) raw (Some d) g part)).
      { intros stx part new Ht Hee. exists new. unfold open_exit.
        destruct (_ <? _); cbn; rewrite Hee; cbn;
          (split; [exact Ht|discriminate]). }
      destruct (find_part_sep nm) as [len|] eqn:Ep.
      * destruct (grub_partition_probe g _ _) as [|p0 ps].
        -- cbn [grub_error]. rewrite open_exit_fail by reflexivity.
           exists (declined raw tried
                   ++ [EvOpen (dev_id d) raw GRUB_ERR_NONE;
                       EvProbe (suffix (S len) nm); EvClose (dev_id d)]).
           cbn. split.
           { rewrite Htr4, <- !app_assoc. reflexivity. }
           intros _ dv Hin. right. split; [reflexivity|].
           split; [reflexivity|].
           apply in_app_or in Hin.
           destruct Hin as [Hin|[Hin|[Hin|[Hin|[]]]]]; try discriminate.
           { exfalso. exact (declined_no_accept _ _ _ Hin). }
           injection Hin as <-.
           exists len, (declined raw tried). split; [reflexivity|].
           split; [reflexivity|apply declined_no_accept].
        -- apply (Hok _ _ (declined raw tried
                           ++ [EvOpen (dev_id d) raw GRUB_ERR_NONE;
                               EvProbe (suffix (S len) nm)])).
           ++ cbn. rewrite Htr4, <- !app_assoc. reflexivity.
           ++ exact He4'.
      * apply (Hok _ _ _ Htr4 He4').
  - (* every driver declined *)
    destruct Hw as (_ & Htr4). rewrite Htr3, Htr2 in Htr4.
    cbn [grub_error]. apply (Hnone _ _ (declined raw tried)).
    + exact Htr4.
    + intros dv. apply declined_no_accept.
    + reflexivity.
  - (* a driver failed *)
    destruct Hw as (d & rest' & e & _ & Hee & _ & Htr4 & He4).
    rewrite Htr3, Htr2 in Htr4.
    apply (Hnone _ _ _ Htr4); [|exact Hr].
    intros dv Hin. apply in_app_or in Hin. destruct Hin as [Hin|[Hin|[]]].
    + exact (declined_no_accept _ _ _ Hin).
    + injection Hin as _ Hx. rewrite Hx in Hee. discriminate Hee.
Qed.

End OpenResult.

(** ** The driver list *)

Section RegistryFacts.
Context {P : Platform} {world : Type}.
Variable addr_of : grub_disk_dev world -> Z.
Implicit Types (st : state world) (d q : grub_disk_dev world).

Lemma unregister_from_filter (devs : list (grub_disk_dev world)) d :
  List.NoDup (map addr_of devs) ->
  unregister_from addr_of devs d
  = List.filter (fun q => negb (addr_of q =? addr_of d)) devs.
Proof.
  induction devs as [|q devs IH]; intros Hnd; [reflexivity|].
  cbn [unregister_from List.filter]. cbn [map] in Hnd.
  apply List.NoDup_cons_iff in Hnd. destruct Hnd as [Hq Hnd].
  destruct (Z.eqb_spec (addr_of q) (addr_of d)) as [E|E]; cbn [negb].
  - (* the rest holds no node at that address *)
    symmetry. apply forallb_filter_id. apply forallb_forall.
    intros q' Hin. apply negb_true_iff, Z.eqb_neq. intros E'.
    apply Hq. rewrite E, <- E'. apply in_map, Hin.
  - rewrite IH by exact Hnd. reflexivity.
Qed.

(** X8.  [grub_disk_dev_unregister] on a list of distinct driver objects:
    the driver is no longer in the list, every other driver still is, in
    the same order, and nothing but the list changes.  Unregistering a
    driver that was just registered, and was not in the list before,
    gives the state back. *)
Theorem unregister_unlinks_driver st d :
  List.NoDup (map addr_of (grub_disk_dev_list st)) ->
  let st' := grub_disk_dev_unregister addr_of st d in
  grub_disk_dev_list st'
  = List.filter (fun q => negb (addr_of q =? addr_of d)) (grub_disk_dev_list st)
  /\ (forall q, In q (grub_disk_dev_list st')
                <-> In q (grub_disk_dev_list st) /\ addr_of q <> addr_of d)
  /\ st' = set_dev_list st (grub_disk_dev_list st')
  /\ (~ In (addr_of d) (map addr_of (grub_disk_dev_list st)) ->
      List.NoDup (map addr_of
                    (grub_disk_dev_list (grub_disk_dev_register st d)))
      /\ grub_disk_dev_unregister addr_of (grub_disk_dev_register st d) d
         = st).
Proof.
  intros Hnd st'. subst st'. unfold grub_disk_dev_unregister.
  cbn [grub_disk_dev_list set_dev_list].
  rewrite unregister_from_filter by exact Hnd.
  split; [reflexivity|]. split; [|split].
  - intros q. rewrite filter_In, negb_true_iff, Z.eqb_neq. tauto.
  - reflexivity.
  - intros Hnew. split.
    + unfold grub_disk_dev_register. cbn. constructor; assumption.
    + unfold grub_disk_dev_register. cbn. rewrite Z.eqb_refl.
      destruct st; reflexivity.
Qed.

End RegistryFacts.

Section RegisterOpen.
Context {P : Platform} {world : Type}.
Variable grub_partition_probe :
  disk_geom -> string -> world -> list grub_partition.
Implicit Types (st : state world) (d : grub_disk_dev world).

(** X9.  The driver registered last is asked first: when it accepts a name
    without a partition part and reports a supported sector size,
    [grub_disk_open] returns a handle on it with the geometry it
    reported, and no driver registered earlier is called. *)
Theorem registered_last_is_asked_first st d nm g w :
  allocs_succeed st ->
  grub_errno st = GRUB_ERR_NONE ->
  find_part_sep nm = None ->
  dev_open d nm
    {| g_id := 0; g_total_sectors := 0;
       g_log_sector_size := GRUB_DISK_SECTOR_BITS |} (devices st)
  = (GRUB_ERR_NONE, g, w) ->
  GRUB_DISK_SECTOR_BITS <= g_log_sector_size g
  <= GRUB_DISK_CACHE_BITS + GRUB_DISK_SECTOR_BITS ->
  let r := grub_disk_open grub_partition_probe
             (grub_disk_dev_register st d) nm in
  fst r = Some {| name := nm; dev := d;
                  total_sectors := g_total_sectors g;
                  log_sector_size := g_log_sector_size g;
                  id := g_id g; partition := []; read_hook := false |}
  /\ trace (snd r) = trace st ++ [EvOpen (dev_id d) nm GRUB_ERR_NONE]
  /\ devices (snd r) = w
  /\ grub_errno (snd r) = GRUB_ERR_NONE.
Proof.
  intros Hal He0 Hp Hop HL r. subst r. unfold grub_disk_open.
  assert (Hal0 : allocs_succeed (grub_disk_dev_register st d)) by exact Hal.
  destruct (malloc_succeeds _ Hal0) as (m1 & -> & Hal1). cbn [negb].
  rewrite Hp.
  destruct (malloc_succeeds _ Hal1) as (m3 & -> & Hal3). cbn [negb].
  cbn [grub_disk_dev_list set_mm_fail grub_disk_dev_register set_dev_list
       open_walk devices].
  rewrite Hop. cbn [is_err negb driver_result].
  replace (GRUB_DISK_CACHE_BITS + GRUB_DISK_SECTOR_BITS <? g_log_sector_size g)
    with false by zbool.
  replace (g_log_sector_size g <? GRUB_DISK_SECTOR_BITS) with false by zbool.
  cbn [orb]. unfold open_exit.
  destruct (_ <? _); cbn; rewrite He0; cbn; repeat split; exact He0.
Qed.

End RegisterOpen.

(** ** The size of a disk and the range check *)

Section SizeFacts.
Context {P : Platform} {world : Type}.
Implicit Types (st : state world) (disk : grub_disk world).

(** The range check of [grub_disk_adjust_range] against
    [grub_disk_get_size], with the first sector and the count of sectors
    as the code computes them (both 64-bit). *)
Lemma adjust_range_against_size st disk sector offset size :
  partitions_ok (partition disk) ->
  partition disk <> [] \/ total_sectors disk <> GRUB_DISK_SIZE_UNKNOWN ->
  let first := u64 (sector + Z.shiftr offset GRUB_DISK_SECTOR_BITS) in
  let need :=
    sectors_needed (Z.land offset (GRUB_DISK_SECTOR_SIZE - 1)) size in
  let err := fst (fst (fst (grub_disk_adjust_range st disk sector offset size))) in
  (err = GRUB_ERR_NONE ->
   first < grub_disk_get_size disk
   /\ need <= grub_disk_get_size disk - first)
  /\ (partition disk = [] ->
      first < grub_disk_get_size disk
      /\ need <= grub_disk_get_size disk - first ->
      err = GRUB_ERR_NONE).
Proof.
  intros Hok Hknown first need err. subst err.
  unfold grub_disk_adjust_range, grub_disk_get_size. fold first. fold need.
  pose proof (u64_range (sector + Z.shiftr offset GRUB_DISK_SECTOR_BITS)) as Hf.
  fold first in Hf.
  destruct (partition disk) as [|part parent] eqn:Ep.
  - destruct Hknown as [Hk|Hk]; [contradiction|].
    cbn [adjust_partitions negb].
    replace (total_sectors disk =? GRUB_DISK_SIZE_UNKNOWN) with false by zbool.
    cbn [negb andb]. unfold total_logical_sectors.
    set (TL := u64 _). pose proof (u64_range
      (Z.shiftl (total_sectors disk) (log_sector_size disk - GRUB_DISK_SECTOR_BITS)))
      as HTL. fold TL in HTL.
    destruct (Z.leb_spec TL first) as [H1|H1]; cbn [orb].
    + cbn. split; [discriminate|]. intros _ [H _]. lia.
    + rewrite (u64_small (TL - first)) by lia.
      destruct (Z.ltb_spec (TL - first) need) as [H2|H2]; cbn.
      * split; [discriminate|]. intros _ [_ H]. lia.
      * split; [intros _; lia|reflexivity].
  - split; [|discriminate]. cbn [adjust_partitions]. fold need.
    unfold grub_partition_get_len.
    inversion Hok as [|? ? Hlen _]; subst.
    destruct (Z.leb_spec (p_len part) first) as [H1|H1]; cbn [orb].
    + cbn. discriminate.
    + rewrite (u64_small (p_len part - first)) by lia.
      destruct (Z.ltb_spec (p_len part - first) need) as [H2|H2].
      * cbn. discriminate.
      * intros _. lia.
Qed.

(** X10.  [grub_disk_get_size] bounds what [grub_disk_adjust_range] accepts.
    Take a request whose first sector [sector + offset / 512] and whose
    byte count rounded up to sectors do not overflow 64 bits.  On a
    disk whose size is known (it has a partition, or its driver
    reported a size), if the request passes the range check then it
    starts below the size and ends within it:
    [512 * sector + offset + size <= 512 * grub_disk_get_size disk],
    sector and size being those of the innermost partition when there is
    one.  On a disk without partition the converse holds: the range
    check passes exactly when the request starts below the size and
    ends within it. *)
Theorem get_size_bounds_accepted_requests st disk sector offset size :
  partitions_ok (partition disk) ->
  partition disk <> [] \/ total_sectors disk <> GRUB_DISK_SIZE_UNKNOWN ->
  0 <= sector -> 0 <= offset -> 0 <= size ->
  sector + offset / 512 < 2 ^ 64 ->
  offset mod 512 + size + 511 < 2 ^ 64 ->
  let err := fst (fst (fst (grub_disk_adjust_range st disk sector offset size))) in
  (err = GRUB_ERR_NONE ->
   sector + offset / 512 < grub_disk_get_size disk
   /\ 512 * sector + offset + size <= 512 * grub_disk_get_size disk)
  /\ (partition disk = [] ->
      sector + offset / 512 < grub_disk_get_size disk ->
      512 * sector + offset + size <= 512 * grub_disk_get_size disk ->
      err = GRUB_ERR_NONE).
Proof.
  intros Hok Hknown Hs Ho Hz Hnw1 Hnw2 err.
  pose proof (adjust_range_against_size st disk sector offset size Hok Hknown)
    as H. cbv zeta in H. fold err in H.
  rewrite offset_mask in H.
  rewrite Z.shiftr_div_pow2 in H by (unfold GRUB_DISK_SECTOR_BITS; lia).
  change (2 ^ GRUB_DISK_SECTOR_BITS) with 512 in H.
  pose proof (Z.div_pos offset 512 Ho ltac:(lia)) as Hq.
  pose proof (Z.mod_pos_bound offset 512 ltac:(lia)) as Hm.
  pose proof (Z.div_mod offset 512 ltac:(lia)) as Hdm.
  rewrite u64_small in H by lia.
  destruct (sectors_needed_exact (offset mod 512) size ltac:(lia) Hnw2)
    as [_ Hn].
  set (need := sectors_needed (offset mod 512) size) in *.
  set (G := grub_disk_get_size disk) in *.
  destruct H as [H1 H2]. split.
  - intros He. destruct (H1 He) as [Ha Hb]. split; [exact Ha|]. lia.
  - intros Hp Ha Hb. apply (H2 Hp). split; [exact Ha|]. lia.
Qed.

End SizeFacts.

(** ** Reading delivers what the device holds *)

(** *** Slices of a device *)

Lemma length_bytes_at c p n : length (bytes_at c p n) = Z.to_nat n.
Proof. unfold bytes_at. rewrite length_map, length_seq. reflexivity. Qed.

Lemma map_seq_shift {A} (f : nat -> A) (a n : nat) :
  map f (seq a n) = map (fun i => f (a + i)%nat) (seq 0 n).
Proof.
  revert a f. induction n as [|n IH]; intros a f; [reflexivity|].
  cbn [seq map]. rewrite Nat.add_0_r. f_equal.
  rewrite (IH (S a)), (IH 1%nat). apply map_ext. intros i.
  f_equal. lia.
Qed.

Lemma bytes_at_app c p a b :
  0 <= a -> 0 <= b ->
  bytes_at c p (a + b) = bytes_at c p a ++ bytes_at c (p + a) b.
Proof.
  intros Ha Hb. unfold bytes_at.
  rewrite Z2Nat.inj_add, seq_app, map_app by lia. f_equal.
  cbn [Nat.add]. rewrite map_seq_shift. apply map_ext. intros i.
  f_equal. lia.
Qed.

Lemma bytes_at_nil c p : bytes_at c p 0 = [].
Proof. reflexivity. Qed.

Lemma take_bytes_at c p n k :
  0 <= k <= n -> take (Z.to_nat k) (bytes_at c p n) = bytes_at c p k.
Proof.
  intros H. replace n with (k + (n - k)) by lia.
  rewrite bytes_at_app by lia.
  rewrite take_app_length' by (rewrite length_bytes_at; reflexivity).
  reflexivity.
Qed.

Lemma drop_bytes_at c p n k :
  0 <= k <= n ->
  drop (Z.to_nat k) (bytes_at c p n) = bytes_at c (p + k) (n - k).
Proof.
  intros H. replace n with (k + (n - k)) at 1 by lia.
  rewrite bytes_at_app by lia.
  rewrite drop_app_length' by (rewrite length_bytes_at; reflexivity).
  reflexivity.
Qed.

(** The slice that [grub_memcpy (dst, src + o, n)] takes out of an image
    of the device. *)
Lemma slice_bytes_at c p len o n :
  0 <= o -> 0 <= n -> o + n <= len ->
  take (Z.to_nat n) (from o (bytes_at c p len)) = bytes_at c (p + o) n.
Proof.
  intros Ho Hn H. unfold from. rewrite drop_bytes_at by lia.
  apply take_bytes_at. lia.
Qed.

(** *** Copying into the middle of a buffer *)

Lemma memcpy_at (pre mid post src : list byte) pos n :
  0 <= pos -> 0 <= n ->
  length pre = Z.to_nat pos -> length mid = Z.to_nat n ->
  n <= Z.of_nat (length src) ->
  memcpy (pre ++ mid ++ post) pos src n = pre ++ take (Z.to_nat n) src ++ post.
Proof.
  intros Hp Hn Hpre Hmid Hsrc. unfold memcpy.
  assert (Hl : length (take (Z.to_nat n) src) = Z.to_nat n)
    by (rewrite length_take; lia).
  rewrite Hl, !length_app, Hpre, Hmid.
  replace ((0 <=? pos)
           && (pos + Z.of_nat (Z.to_nat n)
               <=? Z.of_nat (Z.to_nat pos + (Z.to_nat n + length post))))
    with true by zbool.
  rewrite take_app_length' by lia.
  rewrite (app_assoc pre mid post).
  rewrite drop_app_length' by (rewrite length_app; lia). reflexivity.
Qed.

(** A buffer whose first [bpos] bytes are the bytes of the device from
    [base] on gets [n] more of them. *)
Lemma memcpy_extends c base (buf0 src : list byte) bpos n :
  0 <= bpos -> 0 <= n -> bpos + n <= Z.of_nat (length buf0) ->
  n <= Z.of_nat (length src) ->
  take (Z.to_nat n) src = bytes_at c (base + bpos) n ->
  memcpy (bytes_at c base bpos ++ drop (Z.to_nat bpos) buf0) bpos src n
  = bytes_at c base (bpos + n) ++ drop (Z.to_nat (bpos + n)) buf0.
Proof.
  intros Hb Hn Hlen Hsrc Htake.
  set (R := drop (Z.to_nat bpos) buf0).
  assert (HR : R = take (Z.to_nat n) R ++ drop (Z.to_nat n) R)
    by (symmetry; apply take_drop).
  rewrite HR at 1.
  rewrite memcpy_at; try assumption.
  - rewrite Htake, app_assoc, <- bytes_at_app by lia. f_equal.
    subst R. rewrite drop_drop. f_equal. lia.
  - apply length_bytes_at.
  - rewrite length_take. subst R. rewrite length_drop. lia.
Qed.

(** *** The cache stays an image of the device *)

Section Coherent.
Context {P : Platform} {world : Type}.
Hypothesis P_ok : platform_ok P = true.
Variable content : world -> Z -> byte.
Implicit Types (st : state world) (disk : grub_disk world).

(** Coherence only depends on what fetches find and on what the device
    holds. *)
Lemma coherent_mono st st' disk :
  (forall s data,
     fst (grub_disk_cache_fetch (grub_disk_cache_table st')
            (dev_id (dev disk)) (id disk) s) = Some data ->
     fst (grub_disk_cache_fetch (grub_disk_cache_table st)
            (dev_id (dev disk)) (id disk) s) = Some data) ->
  content (devices st') = content (devices st) ->
  cache_coherent content st disk -> cache_coherent content st' disk.
Proof.
  intros Hf Hc Hco s data Hal H. rewrite Hc. apply Hco; [exact Hal|apply Hf, H].
Qed.

(** A fetch and an unlock change lock bits only. *)
Lemma fetch_after_fetch tbl dv di s dv' di' s' :
  table_ok tbl ->
  fst (grub_disk_cache_fetch (snd (grub_disk_cache_fetch tbl dv di s))
         dv' di' s')
  = fst (grub_disk_cache_fetch tbl dv' di' s').
Proof.
  intros Hok. rewrite !fetch_data. unfold grub_disk_cache_fetch.
  pose proof (index_in_table P_ok tbl dv di s Hok) as Hi.
  pose proof (get_index_range P_ok dv' di' s') as Hr.
  destruct (key_match _ dv di s); [|reflexivity]. cbn [snd].
  destruct (Z.eq_dec (grub_disk_cache_get_index dv' di' s')
              (grub_disk_cache_get_index dv di s)) as [E|E].
  - rewrite E, slot_set_slot_eq by lia. reflexivity.
  - rewrite slot_set_slot_ne by lia. reflexivity.
Qed.

Lemma fetch_after_unlock tbl dv di s dv' di' s' :
  table_ok tbl ->
  fst (grub_disk_cache_fetch (grub_disk_cache_unlock tbl dv di s) dv' di' s')
  = fst (grub_disk_cache_fetch tbl dv' di' s').
Proof.
  intros Hok. rewrite !fetch_data. unfold grub_disk_cache_unlock.
  pose proof (index_in_table P_ok tbl dv di s Hok) as Hi.
  pose proof (get_index_range P_ok dv' di' s') as Hr.
  destruct (key_match _ dv di s); [|reflexivity].
  destruct (Z.eq_dec (grub_disk_cache_get_index dv' di' s')
              (grub_disk_cache_get_index dv di s)) as [E|E].
  - rewrite E, slot_set_slot_eq by lia. reflexivity.
  - rewrite slot_set_slot_ne by lia. reflexivity.
Qed.

(** Storing an image of the device keeps the cache coherent, whether the
    store succeeds or not. *)
Lemma coherent_store st disk s (data : list byte) :
  table_ok (grub_disk_cache_table st) ->
  cluster_bytes <= Z.of_nat (length data) ->
  take (Z.to_nat cluster_bytes) data
  = bytes_at (content (devices st)) (Z.shiftl s GRUB_DISK_SECTOR_BITS)
      cluster_bytes ->
  cache_coherent content st disk ->
  let st' := snd (grub_disk_cache_store st (dev_id (dev disk)) (id disk) s data) in
  cache_coherent content st' disk /\ devices st' = devices st.
Proof.
  intros Hok Hlen Hd Hco st'.
  assert (Hdev : devices st' = devices st).
  { subst st'. unfold grub_disk_cache_store, grub_malloc.
    destruct (mm_fail st) as [|[] ?]; reflexivity. }
  split; [|exact Hdev].
  pose proof (store_fetch_spec P_ok st (dev_id (dev disk)) (id disk) s
                data Hok Hlen) as Hs.
  pose proof (store_failure_spec P_ok st (dev_id (dev disk)) (id disk)
                s data Hok) as Hf.
  cbn zeta in Hs, Hf. fold st' in Hs, Hf.
  intros s' d' Hal' H. rewrite Hdev.
  destruct (fst (grub_disk_cache_store st (dev_id (dev disk)) (id disk) s data))
    eqn:Ee.
  1:{ destruct (Hs eq_refl) as [Hhit Hoth].
      destruct (Z.eq_dec s' s) as [->|Hne].
      - rewrite Hhit in H. injection H as <-. exact Hd.
      - rewrite Hoth in H by congruence.
        destruct (_ =? _); [discriminate|]. apply Hco; assumption. }
  all: destruct Hf as (_ & _ & _ & Hf); [discriminate|];
    rewrite Hf in H; destruct (_ =? _); [discriminate|]; apply Hco; assumption.
Qed.

(** The driver read of the code, under [driver_reads_content]. *)
Lemma dev_read_content st disk s n :
  driver_reads_content content disk ->
  let r := disk_dev_read st disk s n in
  content (devices (snd r)) = content (devices st)
  /\ grub_disk_cache_table (snd r) = grub_disk_cache_table st
  /\ (is_err (fst (fst r)) = false ->
      snd (fst r)
      = bytes_at (content (devices st)) (Z.shiftl s (log_sector_size disk))
          (Z.shiftl n (log_sector_size disk))).
Proof.
  intros Hdrv r. subst r. unfold disk_dev_read.
  destruct (Hdrv s n (devices st)) as [Hc Hb].
  destruct (dev_read (dev disk) (geom_of disk) s n (devices st))
    as [[err bytes] w].
  cbn [fst snd] in *. unfold driver_result.
  destruct (is_err err) eqn:Ee; cbn; (split; [exact Hc|]);
    (split; [reflexivity|]); [discriminate|].
  intros _. apply Hb. apply is_err_false. exact Ee.
Qed.

Lemma malloc_devices st : devices (snd (grub_malloc st)) = devices st.
Proof. unfold grub_malloc. destruct (mm_fail st) as [|[] ?]; reflexivity. Qed.

(** A multiple of the cluster size is a multiple of the native sector
    size, and shifting it to native sectors and back to bytes gives its
    byte position. *)
Lemma native_position disk s :
  9 <= log_sector_size disk <= 9 + GRUB_DISK_CACHE_BITS ->
  (2 ^ (log_sector_size disk - 9) | s) ->
  Z.shiftl (transform_sector disk s) (log_sector_size disk) = 512 * s.
Proof.
  intros HL [a ->]. unfold transform_sector, GRUB_DISK_SECTOR_BITS.
  rewrite Z.shiftr_div_pow2, Z.shiftl_mul_pow2 by lia.
  assert (0 < 2 ^ (log_sector_size disk - 9)) by (apply pow2_pos; lia).
  rewrite Z.div_mul by lia.
  assert (E : 2 ^ log_sector_size disk
              = 512 * 2 ^ (log_sector_size disk - 9)).
  { replace (log_sector_size disk) with (9 + (log_sector_size disk - 9)) at 1
      by lia.
    rewrite Z.pow_add_r by lia. reflexivity. }
  rewrite E. lia.
Qed.

(** The fallback of [grub_disk_read_small] delivers the bytes asked for
    when it succeeds. *)
Lemma fallback_content st disk sector offset size (buf : list byte) bpos :
  driver_reads_content content disk ->
  9 <= log_sector_size disk <= 9 + GRUB_DISK_CACHE_BITS ->
  0 <= sector -> sector + GRUB_DISK_CACHE_SIZE <= 2 ^ 64 ->
  0 <= offset < cluster_bytes -> 0 <= size -> offset + size <= cluster_bytes ->
  let r := read_small_fallback st disk sector offset size buf bpos in
  content (devices (snd r)) = content (devices st)
  /\ (fst (fst r) = GRUB_ERR_NONE ->
      exists src : list byte,
        snd (fst r) = memcpy buf bpos src size
        /\ size <= Z.of_nat (length src)
        /\ take (Z.to_nat size) src
           = bytes_at (content (devices st)) (512 * sector + offset) size).
Proof.
  intros Hdrv HL Hs Hs64 Ho Hz Hoz r. subst r. unfold read_small_fallback.
  destruct (platform_ok_inv P_ok) as (HCB & _).
  destruct (sector_bytes_eq _ HL) as (HLe & Hd & _).
  pose proof (cluster_bytes_bound P_ok) as HCb.
  change (2 ^ 30) with 1073741824 in HCb.
  rewrite (cluster_bytes_eq P_ok) in Hoz, Ho.
  rewrite cache_size_pow in Hs64.
  set (d := 2 ^ (log_sector_size disk - 9)) in *.
  set (C := 2 ^ GRUB_DISK_CACHE_BITS) in *.
  (* the arithmetic of the block *)
  assert (Hq : 0 <= offset / 512 < C).
  { split; [apply Z.div_pos; lia|]. apply Z.div_lt_upper_bound; lia. }
  unfold GRUB_DISK_SECTOR_BITS.
  rewrite (Z.shiftr_div_pow2 offset 9) by lia. change (2 ^ 9) with 512.
  rewrite (u64_small (sector + offset / 512))
    by (change (2 ^ 64) with 18446744073709551616 in *; lia).
  set (s1 := sector + offset / 512).
  rewrite (land_low_mod offset 9) by lia. change (2 ^ 9) with 512.
  rewrite (align_down_mod s1 (log_sector_size disk - 9)) by lia. fold d.
  replace (s1 - (s1 - s1 mod d)) with (s1 mod d) by lia.
  pose proof (Z.mod_pos_bound s1 d ltac:(lia)) as Hm.
  pose proof (Z.mod_pos_bound offset 512 ltac:(lia)) as Hom.
  rewrite (Z.shiftl_mul_pow2 (s1 mod d) 9) by lia. change (2 ^ 9) with 512.
  rewrite (u64_small (s1 mod d * 512))
    by (change (2 ^ 64) with 18446744073709551616; nia).
  rewrite (u64_small (offset mod 512 + s1 mod d * 512))
    by (change (2 ^ 64) with 18446744073709551616; nia).
  set (o2 := offset mod 512 + s1 mod d * 512).
  assert (Ho2 : 0 <= o2 < Z.shiftl 1 (log_sector_size disk))
    by (rewrite HLe; subst o2; nia).
  set (B := Z.shiftl 1 (log_sector_size disk)) in *.
  assert (HB : 512 <= B <= 512 * C) by (subst B; nia).
  rewrite (u64_small (size + o2 + B - 1))
    by (change (2 ^ 64) with 18446744073709551616; lia).
  assert (HBp : B = 2 ^ log_sector_size disk)
    by (subst B; apply Z.shiftl_1_l).
  rewrite (Z.shiftr_div_pow2 _ (log_sector_size disk)) by lia.
  rewrite <- HBp.
  set (num := (size + o2 + B - 1) / B).
  assert (Hnum : o2 + size <= num * B < o2 + size + B).
  { subst num. pose proof (Z.div_mod (size + o2 + B - 1) B ltac:(lia)).
    pose proof (Z.mod_pos_bound (size + o2 + B - 1) B ltac:(lia)). nia. }
  assert (Hnum0 : 0 <= num) by (subst num; apply Z.div_pos; lia).
  rewrite (u32_small num)
    by (change (2 ^ 32) with 4294967296; nia).
  pose proof (malloc_frame st) as Hmf. cbn zeta in Hmf.
  destruct (grub_malloc st) as [[] st1]; cbn [negb fst snd] in *.
  2:{ destruct Hmf as (_ & _ & _ & _ & Hmd & _ & _ & He).
      split; [rewrite Hmd; reflexivity|].
      rewrite (He eq_refl). discriminate. }
  destruct Hmf as (_ & _ & _ & _ & Hmd & _).
  match goal with |- context [disk_dev_read ?a1 ?a2 ?a3 ?a4] =>
    pose proof (dev_read_content a1 a2 a3 a4 Hdrv) as Hr;
    pose proof (dev_read_errno a1 a2 a3 a4) as Hre;
    destruct (disk_dev_read a1 a2 a3 a4) as [[err bytes] st2] end.
  cbn zeta in Hr, Hre. cbn [fst snd] in Hr, Hre.
  destruct Hr as (Hc2 & _ & Hb). destruct Hre as [_ Hre].
  rewrite Hmd in Hc2, Hb.
  destruct (is_err err) eqn:Ee.
  { cbn [fst snd]. split; [exact Hc2|]. intros He.
    rewrite (Hre eq_refl) in He. subst err. discriminate Ee. }
  cbn [fst snd]. split; [exact Hc2|]. intros _.
  specialize (Hb eq_refl).
  assert (Hal : (d | s1 - s1 mod d)).
  { exists (s1 / d). pose proof (Z.div_mod s1 d ltac:(lia)). lia. }
  rewrite native_position in Hb by assumption.
  rewrite (Z.shiftl_mul_pow2 num) in Hb by lia. rewrite <- HBp in Hb.
  rewrite (Z.shiftl_mul_pow2 num), <- HBp by lia.
  rewrite (u32_small (num * B)) by (change (2 ^ 32) with 4294967296; nia).
  rewrite memcpy_fresh by (try lia; rewrite Hb, length_bytes_at; lia).
  rewrite Hb, take_bytes_at by lia.
  eexists. split; [reflexivity|]. split.
  - unfold from. rewrite length_drop, length_bytes_at. lia.
  - rewrite slice_bytes_at by lia. f_equal. subst o2 s1.
    pose proof (Z.div_mod offset 512 ltac:(lia)).
    pose proof (Z.div_mod (sector + offset / 512) d ltac:(lia)). lia.
Qed.


(** A small read keeps the cache an image of the device and, when it
    succeeds, copies the bytes asked for into the buffer. *)
Lemma read_small_content st disk sector offset size (buf : list byte) bpos :
  table_ok (grub_disk_cache_table st) ->
  driver_reads_content content disk ->
  cache_coherent content st disk ->
  9 <= log_sector_size disk <= 9 + GRUB_DISK_CACHE_BITS ->
  0 <= sector -> sector + GRUB_DISK_CACHE_SIZE <= 2 ^ 64 ->
  (GRUB_DISK_CACHE_SIZE | sector) ->
  0 <= offset < cluster_bytes -> 0 <= size -> offset + size <= cluster_bytes ->
  let r := grub_disk_read_small st disk sector offset size buf bpos in
  table_ok (grub_disk_cache_table (snd r))
  /\ content (devices (snd r)) = content (devices st)
  /\ cache_coherent content (snd r) disk
  /\ (fst (fst r) = GRUB_ERR_NONE ->
      exists src : list byte,
        snd (fst r) = memcpy buf bpos src size
        /\ size <= Z.of_nat (length src)
        /\ take (Z.to_nat size) src
           = bytes_at (content (devices st)) (512 * sector + offset) size).
Proof.
  intros Hok Hdrv Hco HL Hs Hs64 Hal Ho Hz Hoz r.
  split; [apply (read_small_frame P_ok); exact Hok|].
  subst r. unfold grub_disk_read_small.
  destruct (platform_ok_inv P_ok) as (HCB & _).
  pose proof (cluster_bytes_bound P_ok) as HCb.
  change (2 ^ 30) with 1073741824 in HCb.
  pose proof (cluster_bytes_eq P_ok) as Hcb.
  pose proof (fetch_table_ok _ (dev_id (dev disk)) (id disk) sector Hok) as Hokf.
  pose proof (fun dv di s =>
    fetch_after_fetch (grub_disk_cache_table st) (dev_id (dev disk))
      (id disk) sector dv di s Hok) as Hff.
  pose proof (fun d => Hco sector d Hal) as Hcs.
  destruct (grub_disk_cache_fetch (grub_disk_cache_table st)
              (dev_id (dev disk)) (id disk) sector) as [data tbl].
  cbn [fst snd] in Hokf, Hff, Hcs.
  assert (Hco1 : cache_coherent content (set_table st tbl) disk).
  { apply (coherent_mono st); [|reflexivity|exact Hco].
    intros s d. cbn. rewrite Hff. trivial. }
  assert (Hsh : Z.shiftl sector GRUB_DISK_SECTOR_BITS = 512 * sector).
  { unfold GRUB_DISK_SECTOR_BITS. rewrite Z.shiftl_mul_pow2 by lia.
    change (2 ^ 9) with 512. lia. }
  destruct data as [data|].
  - (* a hit *)
    cbn [fst snd grub_disk_cache_table set_table devices].
    split; [reflexivity|]. split.
    + apply (coherent_mono (set_table st tbl)); [|reflexivity|exact Hco1].
      intros s d. cbn. rewrite fetch_after_unlock by exact Hokf. trivial.
    + intros _. specialize (Hcs data eq_refl). rewrite Hsh in Hcs.
      exists (from offset data). split; [reflexivity|]. split.
      * unfold from. rewrite length_drop, Hcs, length_bytes_at. lia.
      * rewrite Hcs. apply slice_bytes_at; lia.
  - (* a miss *)
    pose proof (malloc_frame (set_table st tbl)) as Hmf. cbn zeta in Hmf.
    destruct (grub_malloc (set_table st tbl)) as [[] st1];
      cbn [negb fst snd] in *.
    2:{ destruct Hmf as (Hmt & _ & _ & _ & Hmd & _ & _ & He).
        split; [rewrite Hmd; reflexivity|]. split.
        - apply (coherent_mono (set_table st tbl)); [|rewrite Hmd; reflexivity|exact Hco1].
          intros s d. rewrite Hmt. trivial.
        - rewrite (He eq_refl). discriminate. }
    destruct Hmf as (Hmt & _ & _ & _ & Hmd & _).
    cbn [grub_disk_cache_table set_table devices] in Hmt, Hmd.
    assert (Hco2 : cache_coherent content st1 disk).
    { apply (coherent_mono (set_table st tbl)); [|rewrite Hmd; reflexivity|exact Hco1].
      intros s d. rewrite Hmt. trivial. }
    assert (Hfb : forall stx,
              grub_disk_cache_table stx = grub_disk_cache_table st1 ->
              content (devices stx) = content (devices st) ->
              let r := read_small_fallback stx disk sector offset size buf bpos in
              content (devices (snd r)) = content (devices st)
              /\ cache_coherent content (snd r) disk
              /\ (fst (fst r) = GRUB_ERR_NONE ->
                  exists src : list byte,
                    snd (fst r) = memcpy buf bpos src size
                    /\ size <= Z.of_nat (length src)
                    /\ take (Z.to_nat size) src
                       = bytes_at (content (devices st))
                           (512 * sector + offset) size)).
    { intros stx Hxt Hxc r.
      destruct (fallback_content stx disk sector offset size buf bpos
                  Hdrv HL Hs Hs64 Ho Hz Hoz) as [Hfc Hfd].
      fold r in Hfc, Hfd. rewrite Hxc in Hfc, Hfd.
      split; [exact Hfc|]. split; [|exact Hfd].
      intros s d Hals H. rewrite Hfc. subst r.
      rewrite fallback_table, Hxt in H.
      rewrite <- Hmd. apply Hco2; assumption. }
    destruct (_ || _).
    2:{ apply Hfb; [reflexivity|cbn; rewrite Hmd; reflexivity]. }
    match goal with |- context [disk_dev_read ?a1 ?a2 ?a3 ?a4] =>
      pose proof (dev_read_content a1 a2 a3 a4 Hdrv) as Hr;
      destruct (disk_dev_read a1 a2 a3 a4) as [[err bytes] st2] end.
    cbn zeta in Hr. cbn [fst snd] in Hr. destruct Hr as (Hc2 & Ht2 & Hb).
    rewrite Hmd in Hc2, Hb.
    destruct (is_err err) eqn:Ee; cbn [negb].
    { apply Hfb; [cbn; exact Ht2|cbn; exact Hc2]. }
    specialize (Hb eq_refl).
    assert (Hal' : (2 ^ (log_sector_size disk - 9) | sector)).
    { rewrite cache_size_pow in Hal.
      eapply Z.divide_trans; [|exact Hal]. apply pow2_divide. lia. }
    rewrite native_position in Hb by assumption.
    assert (Hlen : Z.shiftl
                     (Z.shiftl 1 (GRUB_DISK_CACHE_BITS + GRUB_DISK_SECTOR_BITS
                                  - log_sector_size disk))
                     (log_sector_size disk) = cluster_bytes).
    { rewrite Hcb. unfold GRUB_DISK_SECTOR_BITS.
      rewrite Z.shiftl_1_l, Z.shiftl_mul_pow2 by lia.
      rewrite <- Z.pow_add_r by lia.
      replace (GRUB_DISK_CACHE_BITS + 9 - log_sector_size disk
               + log_sector_size disk) with (9 + GRUB_DISK_CACHE_BITS) by lia.
      rewrite Z.pow_add_r by lia. reflexivity. }
    rewrite Hlen in Hb.
    set (tmp := memcpy (fresh_buf cluster_bytes) 0 bytes cluster_bytes).
    assert (Htmp : tmp = bytes_at (content (devices st)) (512 * sector)
                           cluster_bytes).
    { subst tmp. rewrite memcpy_fresh
        by (try lia; rewrite Hb, length_bytes_at; lia).
      rewrite Hb. apply take_bytes_at. lia. }
    assert (Hok2 : table_ok (grub_disk_cache_table st2))
      by (rewrite Ht2, Hmt; exact Hokf).
    assert (Hco3 : cache_coherent content st2 disk).
    { apply (coherent_mono st1); [|congruence|exact Hco2].
      intros s d. rewrite Ht2. trivial. }
    destruct (coherent_store st2 disk sector tmp Hok2) as [Hco4 Hd4].
    { rewrite Htmp, length_bytes_at. lia. }
    { rewrite Hc2, Hsh, Htmp. apply take_bytes_at. lia. }
    { exact Hco3. }
    destruct (grub_disk_cache_store st2 (dev_id (dev disk)) (id disk) sector tmp)
      as [e st3].
    cbn [fst snd] in *. rewrite Hd4.
    split; [exact Hc2|]. split; [exact Hco4|]. intros _.
    exists (from offset tmp). split; [reflexivity|]. split.
    + unfold from. rewrite length_drop, Htmp, length_bytes_at. lia.
    + rewrite Htmp. apply slice_bytes_at; lia.
Qed.

End Coherent.

(** *** The body loop *)

Section ReadBodyContent.
Context {P : Platform} {world : Type}.
Hypothesis P_ok : platform_ok P = true.
Variable content : world -> Z -> byte.
Implicit Types (st : state world) (disk : grub_disk world).

(** The scan changes lock bits only, and the cluster it stops at is the
    one a fetch finds there. *)
Lemma agglomerate_scan_fetch n : forall a tbl dv di sector,
  table_ok tbl ->
  let r := agglomerate_scan n a tbl dv di sector in
  table_ok (snd r)
  /\ (forall dv' di' s',
        fst (grub_disk_cache_fetch (snd r) dv' di' s')
        = fst (grub_disk_cache_fetch tbl dv' di' s'))
  /\ forall d, fst (fst r) = Some d ->
       fst (grub_disk_cache_fetch tbl dv di
              (u64 (sector + Z.shiftl (snd (fst r)) GRUB_DISK_CACHE_BITS)))
       = Some d.
Proof.
  induction n as [|n IH]; intros a tbl dv di sector Hok;
    cbn [agglomerate_scan].
  - cbn. repeat split; [exact Hok|discriminate].
  - pose proof (fetch_table_ok tbl dv di
                  (u64 (sector + Z.shiftl a GRUB_DISK_CACHE_BITS)) Hok) as Hok1.
    pose proof (fun dv' di' s' =>
      fetch_after_fetch P_ok tbl dv di
        (u64 (sector + Z.shiftl a GRUB_DISK_CACHE_BITS)) dv' di' s' Hok) as Hff.
    destruct (grub_disk_cache_fetch tbl dv di _) as [[d|] tbl'] eqn:Ef;
      cbn [fst snd] in *.
    + repeat split; [exact Hok1|exact Hff|].
      intros d' H. injection H as <-. rewrite Ef. reflexivity.
    + destruct (IH (a + 1) tbl' dv di sector Hok1) as (H1 & H2 & H3).
      split; [exact H1|]. split.
      * intros dv' di' s'. rewrite H2. apply Hff.
      * intros d H. rewrite <- Hff. apply H3, H.
Qed.

(** Storing slices of a buffer that hold what the device holds keeps the
    cache coherent. *)
Lemma store_clusters_content n : forall i st disk sector (buf : list byte) bpos,
  table_ok (grub_disk_cache_table st) ->
  cache_coherent content st disk ->
  (forall j, i <= j < i + Z.of_nat n ->
     cluster_bytes
       <= Z.of_nat (length (from (bpos + Z.shiftl j (GRUB_DISK_CACHE_BITS
                                                     + GRUB_DISK_SECTOR_BITS))
                                 buf))
     /\ take (Z.to_nat cluster_bytes)
          (from (bpos + Z.shiftl j (GRUB_DISK_CACHE_BITS + GRUB_DISK_SECTOR_BITS))
                buf)
        = bytes_at (content (devices st))
            (Z.shiftl (u64 (sector + Z.shiftl j GRUB_DISK_CACHE_BITS))
                      GRUB_DISK_SECTOR_BITS) cluster_bytes) ->
  let st' := store_clusters n i st (dev_id (dev disk)) (id disk) sector buf bpos in
  table_ok (grub_disk_cache_table st')
  /\ cache_coherent content st' disk
  /\ devices st' = devices st.
Proof.
  induction n as [|n IH]; intros i st disk sector buf bpos Hok Hco Hsl;
    cbn [store_clusters].
  - repeat split; assumption.
  - destruct (Hsl i ltac:(lia)) as [Hlen Htake].
    destruct (coherent_store P_ok content st disk _ _ Hok Hlen Htake Hco)
      as [Hco1 Hd1].
    pose proof (store_table_ok st (dev_id (dev disk)) (id disk)
                  (u64 (sector + Z.shiftl i GRUB_DISK_CACHE_BITS))
                  (from (bpos + Z.shiftl i (GRUB_DISK_CACHE_BITS
                                            + GRUB_DISK_SECTOR_BITS)) buf) Hok)
      as Hok1.
    destruct (grub_disk_cache_store st _ _ _ _) as [e st1].
    cbn [snd] in *.
    destruct (IH (i + 1) st1 disk sector buf bpos Hok1 Hco1) as (A & B & C).
    { intros j Hj. rewrite Hd1. apply Hsl. lia. }
    repeat split; [exact A|exact B|congruence].
Qed.

(** The body loop of [grub_disk_read] extends the part of the buffer
    that holds what the device holds, cluster by cluster, and keeps the
    cache coherent. *)
Lemma read_body_content (c : Z -> byte) disk base (buf0 : list byte) :
  driver_reads_content content disk ->
  9 <= log_sector_size disk <= 9 + GRUB_DISK_CACHE_BITS ->
  forall fuel st sector size (buf : list byte) bpos r,
  table_ok (grub_disk_cache_table st) ->
  content (devices st) = c ->
  cache_coherent content st disk ->
  0 <= sector -> (GRUB_DISK_CACHE_SIZE | sector) ->
  512 * sector = base + bpos ->
  512 * sector + size + cluster_bytes <= 512 * 2 ^ 64 ->
  0 <= bpos -> 0 <= size < 2 ^ SIZE_BITS ->
  bpos + size <= Z.of_nat (length buf0) ->
  buf = bytes_at c base bpos ++ drop (Z.to_nat bpos) buf0 ->
  read_body fuel st disk sector size buf bpos = Some r ->
  table_ok (grub_disk_cache_table (body_state r))
  /\ content (devices (body_state r)) = c
  /\ cache_coherent content (body_state r) disk
  /\ match r with
     | BodyReturn _ _ _ => True
     | BodyDone s' size' buf' bpos' _ =>
         0 <= s' /\ (GRUB_DISK_CACHE_SIZE | s')
         /\ 512 * s' = base + bpos'
         /\ bpos' + size' = bpos + size
         /\ 0 <= size' < cluster_bytes /\ 0 <= bpos'
         /\ buf' = bytes_at c base bpos' ++ drop (Z.to_nat bpos') buf0
     end.
Proof.
  intros Hdrv HL.
  destruct (platform_ok_inv P_ok) as (HCB & _).
  pose proof (cluster_bytes_bound P_ok) as HCb.
  change (2 ^ 30) with 1073741824 in HCb.
  pose proof (size_bits_le P_ok) as Hsb.
  change (2 ^ 64) with 18446744073709551616 in Hsb.
  pose proof (cluster_bytes_eq P_ok) as Hcb.
  pose proof cache_size_pow as Hcs.
  set (C := 2 ^ GRUB_DISK_CACHE_BITS) in *.
  set (cb := cluster_bytes) in *.
  assert (HC : 1 <= C) by lia.
  induction fuel as [|fuel IH];
    intros st sector size buf bpos r Hok Hc Hco Hs Hal Hbase Hnw Hb Hz Hlen
      Hbuf H;
    cbn [read_body] in H; rewrite (cache_bytes_eq P_ok) in H; fold C in H;
    rewrite <- Hcb in H.
  - destruct (Z.ltb_spec size cb) as [Hlt|Hge]; [|discriminate].
    injection H as <-. cbn [body_state].
    repeat split; try assumption; lia.
  - destruct (Z.ltb_spec size cb) as [Hlt|Hge].
    { injection H as <-. cbn [body_state].
      repeat split; try assumption; lia. }
    assert (Hcbits : forall a,
              Z.shiftl a (GRUB_DISK_CACHE_BITS + GRUB_DISK_SECTOR_BITS)
              = a * cb).
    { intros a. unfold GRUB_DISK_SECTOR_BITS.
      rewrite Z.shiftl_mul_pow2, Z.pow_add_r by lia. fold C.
      change (2 ^ 9) with 512. lia. }
    assert (Hcbit : forall a, Z.shiftl a GRUB_DISK_CACHE_BITS = a * C)
      by (intros a; apply Z.shiftl_mul_pow2; lia).
    assert (Hbound : Z.shiftr size (GRUB_DISK_CACHE_BITS + GRUB_DISK_SECTOR_BITS)
                     = size / cb).
    { unfold GRUB_DISK_SECTOR_BITS.
      rewrite Z.shiftr_div_pow2, Z.pow_add_r by lia. fold C.
      change (2 ^ 9) with 512. f_equal. lia. }
    rewrite Hbound in H.
    assert (Hq : 1 <= size / cb) by (apply Z.div_le_lower_bound; lia).
    assert (Hqm : size / cb * cb <= size)
      by (rewrite Z.mul_comm; apply Z.mul_div_le; lia).
    pose proof (agglomerate_scan_bounds (Z.to_nat (size / cb)) 0
                  (grub_disk_cache_table st) (dev_id (dev disk)) (id disk)
                  sector) as Hsc.
    pose proof (agglomerate_scan_fetch (Z.to_nat (size / cb)) 0
                  (grub_disk_cache_table st) (dev_id (dev disk)) (id disk)
                  sector Hok) as Hsf.
    cbn zeta in Hsc, Hsf.
    destruct (agglomerate_scan _ _ _ _ _ _) as [[data agg] tbl].
    cbn [fst snd] in Hsc, Hsf. rewrite Z2Nat.id in Hsc by lia.
    destruct Hsf as (Hokt & Hft & Hfd).
    assert (Hagg : 0 <= agg <= size / cb) by (destruct data; lia).
    assert (Haggm : agg * cb <= size) by nia.
    rewrite !Hcbits, !Hcbit in H.
    rewrite (u64_small (agg * cb)) in H by lia.
    rewrite !(u64_small (agg * C)) in H by nia.
    rewrite (u64_small (sector + agg * C)) in H by nia.
    rewrite Hcs in H.
    destruct (sector_bytes_eq _ HL) as (HLe & Hd & _).
    set (L := log_sector_size disk) in *.
    set (m := 2 ^ (GRUB_DISK_CACHE_BITS + 9 - L)).
    assert (Hm0 : 0 < m) by (apply pow2_pos; lia).
    assert (Hm : m * 2 ^ L = cb).
    { subst m. rewrite <- Z.pow_add_r by lia.
      replace (GRUB_DISK_CACHE_BITS + 9 - L + L)
        with (9 + GRUB_DISK_CACHE_BITS) by lia.
      rewrite Z.pow_add_r by lia. fold C. change (2 ^ 9) with 512. lia. }
    assert (H2L : 0 < 2 ^ L) by (apply pow2_pos; lia).
    assert (Hn : usize (u64 (Z.shiftl agg (GRUB_DISK_CACHE_BITS
                                           + GRUB_DISK_SECTOR_BITS - L)))
                 = agg * m).
    { unfold GRUB_DISK_SECTOR_BITS. rewrite Z.shiftl_mul_pow2 by lia. fold m.
      rewrite u64_small by nia. apply usize_small'. nia. }
    rewrite Hn in H.
    assert (HnL : Z.shiftl (agg * m) L = agg * cb)
      by (rewrite Z.shiftl_mul_pow2 by lia; nia).
    rewrite HnL in H.
    rewrite (usize_small' (size - agg * cb)) in H by lia.
    set (a := agg * cb) in *.
    set (B := bytes_at c base bpos) in *.
    set (R := drop (Z.to_nat bpos) buf0) in *.
    assert (HlB : length B = Z.to_nat bpos) by apply length_bytes_at.
    assert (HlR : Z.of_nat (length R) = Z.of_nat (length buf0) - bpos)
      by (subst R; rewrite length_drop; lia).
    set (M1 := take (Z.to_nat a) R).
    set (rest := drop (Z.to_nat a) R).
    assert (HR : R = M1 ++ rest) by (symmetry; apply take_drop).
    assert (HlM1 : length M1 = Z.to_nat a)
      by (subst M1; rewrite length_take; lia).
    assert (Hrest : rest = drop (Z.to_nat (bpos + a)) buf0).
    { subst rest R. rewrite drop_drop. f_equal. lia. }
    (* the driver read of the clusters before the hit, their stores and
       the next turn *)
    assert (Hdrive : forall (stA : state world) (X : list byte) s2 z2 p2,
      1 <= agg ->
      table_ok (grub_disk_cache_table stA) ->
      content (devices stA) = c ->
      cache_coherent content stA disk ->
      B ++ bytes_at c (base + bpos) a ++ X
      = bytes_at c base p2 ++ drop (Z.to_nat p2) buf0 ->
      0 <= s2 -> (GRUB_DISK_CACHE_SIZE | s2) -> 512 * s2 = base + p2 ->
      0 <= p2 -> 0 <= z2 -> p2 + z2 = bpos + size -> z2 <= size - cb ->
      (let '(err, bytes, st0) :=
         disk_dev_read stA disk (transform_sector disk sector) (agg * m) in
       if is_err err
       then Some (BodyReturn err (memcpy (B ++ M1 ++ X) bpos bytes a) st0)
       else
         read_body fuel
           (store_clusters (Z.to_nat agg) 0 st0 (dev_id (dev disk)) (id disk)
              sector (memcpy (B ++ M1 ++ X) bpos bytes a) bpos)
           disk s2 z2 (memcpy (B ++ M1 ++ X) bpos bytes a) p2) = Some r ->
      table_ok (grub_disk_cache_table (body_state r))
      /\ content (devices (body_state r)) = c
      /\ cache_coherent content (body_state r) disk
      /\ match r with
         | BodyReturn _ _ _ => True
         | BodyDone s' size' buf' bpos' _ =>
             0 <= s' /\ (GRUB_DISK_CACHE_SIZE | s')
             /\ 512 * s' = base + bpos'
             /\ bpos' + size' = bpos + size
             /\ 0 <= size' < cb /\ 0 <= bpos'
             /\ buf' = bytes_at c base bpos' ++ drop (Z.to_nat bpos') buf0
         end).
    { intros stA X s2 z2 p2 Hagg1 HokA HcA HcoA Hfin Hs2 Hal2 Hb2 Hp2 Hz2 Hpz
        Hzle Hrun.
      pose proof (dev_read_content content stA disk
                    (transform_sector disk sector) (agg * m) Hdrv) as Hr.
      pose proof (dev_read_table stA disk (transform_sector disk sector)
                    (agg * m)) as Hrt.
      destruct (disk_dev_read stA disk (transform_sector disk sector)
                  (agg * m)) as [[err bytes] st0].
      cbn zeta in Hr. cbn [fst snd] in Hr, Hrt.
      destruct Hr as (Hc0 & _ & Hbytes). rewrite HcA in Hc0, Hbytes.
      assert (Hok0 : table_ok (grub_disk_cache_table st0))
        by (rewrite Hrt; exact HokA).
      assert (Hco0 : cache_coherent content st0 disk).
      { apply (coherent_mono content stA); [|congruence|exact HcoA].
        intros s d. rewrite Hrt. trivial. }
      destruct (is_err err) eqn:Ee.
      { injection Hrun as <-. cbn [body_state]. repeat split; assumption. }
      specialize (Hbytes eq_refl).
      assert (Hal' : (2 ^ (L - 9) | sector)).
      { rewrite Hcs in Hal. eapply Z.divide_trans; [|exact Hal].
        apply pow2_divide. lia. }
      rewrite native_position in Hbytes by assumption.
      fold L in Hbytes. rewrite HnL in Hbytes.
      fold a in Hbytes. rewrite Hbase in Hbytes.
      assert (Hcopy : memcpy (B ++ M1 ++ X) bpos bytes a
                      = B ++ bytes_at c (base + bpos) a ++ X).
      { rewrite memcpy_at; try assumption; try lia.
        - rewrite Hbytes, take_bytes_at by lia. reflexivity.
        - rewrite Hbytes, length_bytes_at. lia. }
      rewrite Hcopy in Hrun.
      destruct (store_clusters_content (Z.to_nat agg) 0 st0 disk
                  sector (B ++ bytes_at c (base + bpos) a ++ X) bpos
                  Hok0 Hco0) as (Hok1 & Hco1 & Hd1).
      { intros j Hj. rewrite Z2Nat.id in Hj by lia.
        assert (Hjc : 0 <= j * cb /\ j * cb + cb <= a).
        { subst a. split; [apply Z.mul_nonneg_nonneg; lia|].
          replace (j * cb + cb) with ((j + 1) * cb) by lia.
          apply Z.mul_le_mono_nonneg_r; lia. }
        assert (HjC : 512 * (j * C) = j * cb) by (rewrite Hcb; ring).
        rewrite Hcbits, Hcbit.
        rewrite (u64_small (sector + j * C)) by lia.
        unfold GRUB_DISK_SECTOR_BITS. rewrite Z.shiftl_mul_pow2 by lia.
        change (2 ^ 9) with 512. rewrite Hc0.
        unfold from.
        replace (Z.to_nat (bpos + j * cb))
          with (length B + Z.to_nat (j * cb))%nat by lia.
        rewrite drop_app_add.
        split.
        - rewrite length_drop, !length_app, length_bytes_at. lia.
        - rewrite drop_app_le by (rewrite length_bytes_at; lia).
          rewrite take_app_le
            by (rewrite length_drop, length_bytes_at; lia).
          rewrite drop_bytes_at by lia. rewrite take_bytes_at by lia.
          f_equal. lia. }
      rewrite Hfin in Hrun, Hok1, Hco1, Hd1.
      apply IH in Hrun; try assumption; try lia; try reflexivity;
        try (rewrite Hd1; exact Hc0).
      destruct Hrun as (A1 & A2 & A3 & A4). repeat split; try assumption.
      destruct r as [|s' size' buf' bpos' st']; [exact I|].
      destruct A4 as (? & ? & ? & ? & ? & ? & ?).
      repeat split; try assumption; lia. }
    assert (HaC : 512 * (agg * C) = a) by (subst a; rewrite Hcb; ring).
    assert (Ha0 : 0 <= agg * C) by (apply Z.mul_nonneg_nonneg; lia).
    assert (Hframe : table_ok (grub_disk_cache_table (set_table st tbl))
                     /\ content (devices (set_table st tbl)) = c
                     /\ cache_coherent content (set_table st tbl) disk).
    { split; [exact Hokt|]. split; [exact Hc|].
      apply (coherent_mono content st); [|reflexivity|exact Hco].
      intros s d. cbn. rewrite Hft. trivial. }
    destruct Hframe as (HokA & HcA & HcoA).
    destruct data as [d|]; cbv beta iota zeta in H.
    + (* the scan stopped at a cached cluster *)
      assert (Hlt : agg < size / cb) by lia.
      assert (Hacb : a + cb <= size).
      { subst a. replace (agg * cb + cb) with ((agg + 1) * cb) by lia.
        etransitivity; [|exact Hqm].
        apply Z.mul_le_mono_nonneg_r; lia. }
      specialize (Hfd d eq_refl).
      rewrite Hcbit, (u64_small (sector + agg * C)) in Hfd by lia.
      apply Hco in Hfd;
        [|rewrite Hcs; apply Z.divide_add_r;
            [rewrite <- Hcs; exact Hal|apply Z.divide_factor_r]].
      rewrite Hc in Hfd.
      unfold GRUB_DISK_SECTOR_BITS in Hfd.
      rewrite Z.shiftl_mul_pow2 in Hfd by lia. change (2 ^ 9) with 512 in Hfd.
      fold cb in Hfd.
      replace ((sector + agg * C) * 512) with (base + bpos + a) in Hfd by lia.
      set (M2 := take (Z.to_nat cb) rest).
      set (post := drop (Z.to_nat cb) rest).
      assert (Hrest2 : rest = M2 ++ post) by (symmetry; apply take_drop).
      assert (HlM2 : length M2 = Z.to_nat cb).
      { subst M2. rewrite length_take, Hrest, length_drop. lia. }
      assert (Hpost : post = drop (Z.to_nat (bpos + a + cb)) buf0).
      { subst post. rewrite Hrest, drop_drop. f_equal. lia. }
      assert (Hcopy : memcpy buf (bpos + a) d cb = B ++ M1 ++ d ++ post).
      { rewrite Hbuf, HR, Hrest2, (app_assoc B M1).
        rewrite memcpy_at.
        - rewrite <- app_assoc. f_equal. f_equal. f_equal.
          rewrite Hfd. apply take_ge. rewrite length_bytes_at. lia.
        - lia.
        - lia.
        - rewrite length_app. lia.
        - exact HlM2.
        - rewrite Hfd, length_bytes_at. lia. }
      rewrite Hcopy in H.
      set (stA := set_table (set_table st tbl) _) in H.
      assert (HfA : table_ok (grub_disk_cache_table stA)
                    /\ content (devices stA) = c
                    /\ cache_coherent content stA disk).
      { split; [apply unlock_table_ok; exact Hokt|]. split; [exact Hc|].
        apply (coherent_mono content (set_table st tbl));
          [|reflexivity|exact HcoA].
        intros s d'. cbn. rewrite (fetch_after_unlock P_ok) by exact Hokt.
        trivial. }
      destruct HfA as (HokA' & HcA' & HcoA').
      clearbody stA.
      assert (Hfinal : B ++ bytes_at c (base + bpos) a ++ d ++ post
                       = bytes_at c base (bpos + a + cb)
                         ++ drop (Z.to_nat (bpos + a + cb)) buf0).
      { rewrite Hfd, <- Hpost, !app_assoc. f_equal.
        rewrite (bytes_at_app c base (bpos + a) cb) by lia.
        rewrite (bytes_at_app c base bpos a) by lia.
        replace (base + (bpos + a)) with (base + bpos + a) by lia.
        reflexivity. }
      destruct (Z.eqb_spec agg 0) as [Hz0|Hnz]; cbn [negb] in H.
      * (* no cluster before it *)
        assert (Ha : a = 0) by (subst a; lia).
        assert (HM1 : M1 = []) by (apply length_zero_iff_nil; lia).
        rewrite HM1 in H. cbn [app] in H.
        rewrite Ha, bytes_at_nil in Hfinal. cbn [app] in Hfinal.
        rewrite Hfinal in H.
        rewrite (u64_small (sector + C)) in H by lia.
        rewrite (usize_small' (size - cb)) in H by lia.
        replace (bpos + cb) with (bpos + a + cb) in H by lia.
        apply IH in H; try assumption; try lia; try reflexivity.
        -- destruct H as (A1 & A2 & A3 & A4). repeat split; try assumption.
          destruct r as [|s' size' buf' bpos' st']; [exact I|].
          destruct A4 as (? & ? & ? & ? & ? & ? & ?).
          repeat split; try assumption; lia.
        -- rewrite Hcs. apply Z.divide_add_r;
            [rewrite <- Hcs; exact Hal|apply Z.divide_refl].
        -- rewrite Ha. reflexivity.
      * (* clusters before it are read from the device *)
        rewrite (u64_small (sector + agg * C + C)) in H by lia.
        rewrite (usize_small' (size - a - cb)) in H by lia.
        eapply (Hdrive stA (d ++ post)); [..|exact H];
          try assumption; try lia.
        rewrite Hcs. apply Z.divide_add_r;
          [apply Z.divide_add_r;
             [rewrite <- Hcs; exact Hal|apply Z.divide_factor_r]
          |apply Z.divide_refl].
    + (* no cluster of the request is cached *)
      assert (Hagq : agg = size / cb) by lia.
      replace (negb (agg =? 0)) with true in H by zbool.
      assert (Hacb : cb <= a).
      { subst a. replace cb with (1 * cb) at 1 by lia.
        apply Z.mul_le_mono_nonneg_r; lia. }
      rewrite Hbuf, HR in H.
      eapply (Hdrive (set_table st tbl) rest); [..|exact H];
        try assumption; try lia.
      * rewrite Hrest, app_assoc. f_equal.
        rewrite (bytes_at_app c base bpos a) by lia. reflexivity.
      * rewrite Hcs. apply Z.divide_add_r;
          [rewrite <- Hcs; exact Hal|apply Z.divide_factor_r].
Qed.

End ReadBodyContent.

(** *** The whole read *)

Section ReadContent.
Context {P : Platform} {world : Type}.
Hypothesis P_ok : platform_ok P = true.
Variable content : world -> Z -> byte.
Implicit Types (st : state world) (disk : grub_disk world).

Lemma read_hook_loop_devices fuel : forall s o l st st',
  read_hook_loop fuel s o l st = Some st' -> devices st' = devices st.
Proof.
  induction fuel as [|fuel IH]; intros s o l st st' H.
  - cbn in H. destruct (l =? 0); [|discriminate]. injection H as <-.
    reflexivity.
  - cbn [read_hook_loop] in H. destruct (l =? 0).
    { injection H as <-. reflexivity. }
    apply IH in H. rewrite H. reflexivity.
Qed.

Lemma adjust_partitions_absolute parts : forall sector offset size,
  fst (adjust_partitions parts sector offset size) = true ->
  snd (adjust_partitions parts sector offset size)
  = absolute_sector parts sector.
Proof.
  induction parts as [|part parent IH]; intros sector offset size H;
    cbn [adjust_partitions absolute_sector] in *; [reflexivity|].
  destruct (_ || _); [discriminate|]. apply IH, H.
Qed.

(** The head of a read ("First read until first cache boundary") fills
    the buffer up to the end of the first cluster, and goes on at a
    cluster boundary if anything is left. *)
Lemma read_head_content st disk sector offset size (buf : list byte) :
  table_ok (grub_disk_cache_table st) ->
  driver_reads_content content disk ->
  cache_coherent content st disk ->
  9 <= log_sector_size disk <= 9 + GRUB_DISK_CACHE_BITS ->
  0 <= sector -> 0 <= offset < 512 ->
  512 * sector + offset + size + cluster_bytes <= 512 * 2 ^ 64 ->
  0 <= size < 2 ^ SIZE_BITS -> size <= Z.of_nat (length buf) ->
  match read_head st disk sector offset size buf with
  | inl (err, _, st') =>
      is_err err = true
      /\ table_ok (grub_disk_cache_table st')
      /\ content (devices st') = content (devices st)
      /\ cache_coherent content st' disk
  | inr (s', size', buf', bpos', st') =>
      table_ok (grub_disk_cache_table st')
      /\ content (devices st') = content (devices st)
      /\ cache_coherent content st' disk
      /\ 0 <= bpos' /\ 0 <= size' /\ bpos' + size' = size
      /\ buf' = bytes_at (content (devices st)) (512 * sector + offset) bpos'
                ++ drop (Z.to_nat bpos') buf
      /\ (size' = 0
          \/ (0 <= s' /\ (GRUB_DISK_CACHE_SIZE | s')
              /\ 512 * s' = 512 * sector + offset + bpos'))
  end.
Proof.
  intros Hok Hdrv Hco HL Hs Ho Hnw Hz Hlen.
  destruct (platform_ok_inv P_ok) as (HCB & _).
  pose proof (cluster_bytes_bound P_ok) as HCb.
  change (2 ^ 30) with 1073741824 in HCb.
  pose proof (size_bits_le P_ok) as Hsb.
  change (2 ^ 64) with 18446744073709551616 in *.
  pose proof (cluster_bytes_eq P_ok) as Hcb.
  pose proof cache_size_pow as Hcs.
  assert (Hsz : 2 ^ 32 <= 2 ^ SIZE_BITS).
  { destruct (platform_ok_inv P_ok) as (_ & _ & _ & [-> | ->]); lia. }
  change (2 ^ 32) with 4294967296 in Hsz.
  set (C := 2 ^ GRUB_DISK_CACHE_BITS) in *.
  set (cb := cluster_bytes) in *.
  assert (HC : 1 <= C) by lia.
  pose proof (Z.mod_pos_bound sector C ltac:(lia)) as Hm.
  pose proof (Z.div_mod sector C ltac:(lia)) as Hdm.
  pose proof (Z.mod_le sector C ltac:(lia) ltac:(lia)) as Hmle.
  assert (Hland : Z.land sector (GRUB_DISK_CACHE_SIZE - 1) = sector mod C).
  { rewrite Hcs. fold C. subst C.
    replace (2 ^ GRUB_DISK_CACHE_BITS - 1)
      with (Z.ones GRUB_DISK_CACHE_BITS) by (rewrite Z.ones_equiv; lia).
    apply Z.land_ones. lia. }
  unfold read_head. rewrite Hland.
  set (m := sector mod C) in *.
  destruct (negb (offset =? 0) || negb (m =? 0)) eqn:Hcond.
  - rewrite (cluster_start_eq P_ok), Hcs. fold C. fold m.
    replace (sector - (sector - m)) with m by lia.
    assert (Hsh : Z.shiftl m GRUB_DISK_SECTOR_BITS = m * 512).
    { unfold GRUB_DISK_SECTOR_BITS. rewrite Z.shiftl_mul_pow2 by lia.
      reflexivity. }
    rewrite Hsh.
    rewrite (usize_small' (m * 512)) by lia.
    fold cb.
        rewrite (u64_small (cb - m * 512 - offset)) by lia.
    rewrite (usize_small' (cb - m * 512 - offset)) by lia.
    rewrite (u64_small (offset + m * 512)) by lia.
    set (len0 := cb - m * 512 - offset).
    set (len := if size <? len0 then size else len0).
    assert (Hlen0 : 0 < len0 <= cb) by (subst len0; lia).
    assert (Hl : 0 <= len <= len0 /\ len <= size
                 /\ (len = size \/ (len = len0 /\ len0 <= size)))
      by (subst len; destruct (Z.ltb_spec size len0); lia).
    pose proof (read_small_content P_ok content st disk (sector - m)
                  (offset + m * 512) len buf 0 Hok Hdrv Hco HL) as Hrs.
    cbv zeta in Hrs.
    destruct Hrs as (Hok1 & Hc1 & Hco1 & Hdata);
      [lia|rewrite Hcs; fold C; lia
      |rewrite Hcs; fold C; exists (sector / C); lia
      |fold cb; lia|lia|fold cb; lia|].
    + destruct (grub_disk_read_small st disk (sector - m) (offset + m * 512)
                  len buf 0) as [[err b1] st1].
      cbn [fst snd] in *.
      destruct (is_err err) eqn:Ee.
      { repeat split; assumption. }
      assert (He : err = GRUB_ERR_NONE) by (destruct err; try discriminate; reflexivity).
      destruct (Hdata He) as (src & Hb1 & Hsrc & Htake).
      rewrite (usize_small' (size - len)) by lia.
      repeat split; try assumption; try lia.
      * rewrite Hb1.
        pose proof (memcpy_extends (content (devices st))
                      (512 * sector + offset) buf src 0 len) as Hme.
        rewrite bytes_at_nil in Hme. cbn [app drop Z.to_nat] in Hme.
        rewrite drop_0 in Hme.
        rewrite Hme; try lia; [reflexivity|].
        rewrite Htake. f_equal. lia.
      * destruct Hl as (_ & _ & [Hl | [Hl Hl']]); [left; lia|].
        destruct (Z.eq_dec size len) as [Heq|Hne]; [left; lia|]. right.
        assert (Hol : offset + len = 512 * (C - m)) by lia.
        rewrite (u64_small (offset + len)) by lia.
        rewrite Hol. unfold GRUB_DISK_SECTOR_BITS.
        rewrite Z.shiftr_div_pow2 by lia. change (2 ^ 9) with 512.
        replace (512 * (C - m)) with ((C - m) * 512) by lia.
        rewrite Z.div_mul by lia.
        rewrite (u64_small (sector + (C - m))) by lia.
        split; [lia|]. split; [|lia].
        exists (sector / C + 1). lia.
  - apply orb_false_iff in Hcond. destruct Hcond as [Ho0 Hm0].
    apply negb_false_iff, Z.eqb_eq in Ho0, Hm0.
    rewrite bytes_at_nil. cbn [app Z.to_nat]. rewrite drop_0.
    repeat split; try assumption; try lia.
    right. split; [lia|]. split; [|lia].
    rewrite Hcs. fold C. exists (sector / C). lia.
Qed.

(** How [grub_disk_adjust_range] ends: with the device-absolute sector
    and the offset below 512 and the state as it was, or with an error
    that touched neither the cache nor the devices. *)
Lemma adjust_range_outcome st disk sector offset size :
  let r := grub_disk_adjust_range st disk sector offset size in
  (fst (fst (fst r)) = GRUB_ERR_NONE /\ snd r = st
   /\ snd (fst (fst r))
      = absolute_sector (partition disk)
          (u64 (sector + Z.shiftr offset GRUB_DISK_SECTOR_BITS))
   /\ snd (fst r) = offset mod 512)
  \/ (is_err (fst (fst (fst r))) = true
      /\ is_err (grub_errno (snd r)) = true
      /\ grub_disk_cache_table (snd r) = grub_disk_cache_table st
      /\ devices (snd r) = devices st).
Proof.
  intros r. subst r. unfold grub_disk_adjust_range.
  pose proof (adjust_partitions_absolute (partition disk)
                (u64 (sector + Z.shiftr offset GRUB_DISK_SECTOR_BITS))
                (Z.land offset (GRUB_DISK_SECTOR_SIZE - 1)) size) as Habs.
  destruct (adjust_partitions _ _ _ _) as [inside s']. cbn [fst snd] in Habs.
  destruct inside; cbn [negb].
  - destruct (_ && _); cbn; [right; repeat split|left].
    repeat split; [apply Habs; reflexivity|apply offset_mask].
  - cbn. right. repeat split.
Qed.

(** The buffer, the device and the cache after [grub_disk_read]. *)
Lemma grub_disk_read_content fuel st disk sector offset size
    (buf : list byte) err buf' st' :
  table_ok (grub_disk_cache_table st) ->
  driver_reads_content content disk ->
  cache_coherent content st disk ->
  9 <= log_sector_size disk <= 9 + GRUB_DISK_CACHE_BITS ->
  0 <= size < 2 ^ SIZE_BITS -> size <= Z.of_nat (length buf) ->
  let first :=
    absolute_sector (partition disk) (u64 (sector + Z.shiftr offset 9)) in
  let position := 512 * first + offset mod 512 in
  position + size + cluster_bytes <= 512 * 2 ^ 64 ->
  grub_disk_read fuel st disk sector offset size buf = Some (err, buf', st') ->
  table_ok (grub_disk_cache_table st')
  /\ content (devices st') = content (devices st)
  /\ cache_coherent content st' disk
  /\ (err = GRUB_ERR_NONE ->
      buf' = bytes_at (content (devices st)) position size
             ++ drop (Z.to_nat size) buf).
Proof.
  intros Hok Hdrv Hco HL Hz Hlen first position Hnw Hrun.
  pose proof (cluster_bytes_bound P_ok) as HCb.
  change (2 ^ 30) with 1073741824 in HCb.
  pose proof (cluster_bytes_eq P_ok) as Hcb.
  pose proof cache_size_pow as Hcs.
  assert (Hfirst : 0 <= first < 2 ^ 64)
    by (apply absolute_sector_range, u64_range).
  pose proof (Z.mod_pos_bound offset 512 ltac:(lia)) as Hoff.
  unfold grub_disk_read in Hrun.
  destruct (adjust_range_outcome st disk sector offset size) as [Hgo|Hstop].
  2: { destruct (grub_disk_adjust_range st disk sector offset size)
         as [[[e s0] o0] st0].
       cbn [fst snd] in Hstop. destruct Hstop as (He & He' & Ht & Hd).
       rewrite He in Hrun. injection Hrun as <- <- <-.
       rewrite Ht, Hd. repeat split; try assumption.
       - apply (coherent_mono content st); [|rewrite Hd; reflexivity|exact Hco].
         intros s d. rewrite Ht. trivial.
       - intros E. rewrite E in He'. discriminate. }
  destruct (grub_disk_adjust_range st disk sector offset size)
    as [[[e s0] o0] st0].
  cbn [fst snd] in Hgo. destruct Hgo as (-> & -> & -> & ->).
  cbn [is_err] in Hrun.
  change (absolute_sector (partition disk)
            (u64 (sector + Z.shiftr offset GRUB_DISK_SECTOR_BITS)))
    with first in Hrun.
  set (c := content (devices st)) in *.
  (* the tail and the hook *)
  assert (Htail : forall s2 size2 (buf2 : list byte) bpos2 st2,
    table_ok (grub_disk_cache_table st2) ->
    content (devices st2) = c ->
    cache_coherent content st2 disk ->
    size2 = 0 \/ (0 <= s2 /\ (GRUB_DISK_CACHE_SIZE | s2)
                  /\ 512 * s2 = position + bpos2 /\ size2 < cluster_bytes) ->
    0 <= size2 -> 0 <= bpos2 -> bpos2 + size2 = size ->
    buf2 = bytes_at c position bpos2 ++ drop (Z.to_nat bpos2) buf ->
    (let '(err, buf, st) :=
       if negb (size2 =? 0)
       then grub_disk_read_small st2 disk s2 0 size2 buf2 bpos2
       else (GRUB_ERR_NONE, buf2, st2) in
     if is_err err then Some (err, buf, st)
     else
       match (if read_hook disk
              then read_hook_loop fuel first (offset mod 512) size st
              else Some st) with
       | None => None
       | Some st => Some (grub_errno st, buf, st)
       end) = Some (err, buf', st') ->
    table_ok (grub_disk_cache_table st')
    /\ content (devices st') = c
    /\ cache_coherent content st' disk
    /\ (err = GRUB_ERR_NONE ->
        buf' = bytes_at c position size ++ drop (Z.to_nat size) buf)).
  { intros s2 size2 buf2 bpos2 st2 Hok2 Hc2 Hco2 Hcase Hz2 Hb2 Hsum Hbuf2 H.
    assert (Hhook : forall stx (b : list byte),
      table_ok (grub_disk_cache_table stx) ->
      content (devices stx) = c ->
      cache_coherent content stx disk ->
      b = bytes_at c position size ++ drop (Z.to_nat size) buf ->
      match (if read_hook disk
             then read_hook_loop fuel first (offset mod 512) size stx
             else Some stx) with
      | None => None
      | Some st => Some (grub_errno st, b, st)
      end = Some (err, buf', st') ->
      table_ok (grub_disk_cache_table st')
      /\ content (devices st') = c
      /\ cache_coherent content st' disk
      /\ (err = GRUB_ERR_NONE ->
          buf' = bytes_at c position size ++ drop (Z.to_nat size) buf)).
    { intros stx b Hokx Hcx Hcox Hb Hh.
      destruct (read_hook disk).
      - destruct (read_hook_loop fuel first (offset mod 512) size stx)
          as [sty|] eqn:Eh; [|discriminate].
        injection Hh as <- <- <-.
        pose proof (read_hook_loop_frame _ _ _ _ _ _ Eh) as (Ht & _).
        pose proof (read_hook_loop_devices _ _ _ _ _ _ Eh) as Hd.
        rewrite Ht, Hd. repeat split; try assumption.
        + apply (coherent_mono content stx);
            [|rewrite Hd; reflexivity|exact Hcox].
          intros s d. rewrite Ht. trivial.
        + intros _. exact Hb.
      - injection Hh as <- <- <-. repeat split; try assumption.
        intros _. exact Hb. }
    destruct (Z.eqb_spec size2 0) as [E0|Hne]; cbn [negb] in H.
    - cbn [is_err] in H. apply (Hhook st2 buf2); try assumption.
      rewrite Hbuf2. replace bpos2 with size by lia. reflexivity.
    - destruct Hcase as [?|(Hs2 & Hal2 & Hp2 & Hlt2)]; [contradiction|].
      pose proof (read_small_content P_ok content st2 disk s2 0 size2 buf2
                    bpos2 Hok2 Hdrv Hco2 HL) as Hrs.
      cbv zeta in Hrs.
      destruct Hrs as (Hok3 & Hc3 & Hco3 & Hdata);
        [lia|rewrite Hcs; lia|exact Hal2|lia|lia|lia|].
      destruct (grub_disk_read_small st2 disk s2 0 size2 buf2 bpos2)
        as [[e3 b3] st3].
      cbn [fst snd] in *.
      destruct (is_err e3) eqn:Ee.
      + injection H as <- <- <-. repeat split; try assumption.
        * rewrite Hc3. exact Hc2.
        * intros E. rewrite E in Ee. discriminate.
      + assert (He : e3 = GRUB_ERR_NONE)
          by (destruct e3; try discriminate; reflexivity).
        destruct (Hdata He) as (src & Hb3 & Hsrc & Htake).
        apply (Hhook st3 b3); try assumption.
        * rewrite Hc3. exact Hc2.
        * rewrite Hb3, Hbuf2.
          rewrite (memcpy_extends c position buf src bpos2 size2);
            try lia.
          -- rewrite Hsum. reflexivity.
          -- rewrite Htake, Hc2. f_equal. lia. }
  assert (Hnw' : 512 * first + offset mod 512 + size + cluster_bytes
                 <= 512 * 2 ^ 64) by exact Hnw.
  pose proof (read_head_content st disk first (offset mod 512) size buf
                Hok Hdrv Hco HL (proj1 Hfirst) Hoff Hnw' Hz Hlen) as Hhead.
  destruct (read_head st disk first (offset mod 512) size buf)
    as [[[e1 b1] st1]|[[[[s1 size1] b1] bpos1] st1]].
  - destruct Hhead as (He1 & Hok1 & Hc1 & Hco1).
    injection Hrun as <- <- <-. repeat split; try assumption.
    intros E. rewrite E in He1. discriminate.
  - destruct Hhead as (Hok1 & Hc1 & Hco1 & Hb1 & Hz1 & Hsum1 & Hbuf1 & Hcase1).
    fold c in Hc1, Hbuf1. fold position in Hbuf1, Hcase1.
    destruct (Z.eq_dec size1 0) as [E0|Hne].
    + rewrite (read_body_small P_ok) in Hrun by lia.
      apply (Htail s1 size1 b1 bpos1 st1); try assumption.
      left. exact E0.
    + destruct Hcase1 as [?|(Hs1 & Hal1 & Hp1)]; [contradiction|].
      destruct (read_body fuel st1 disk s1 size1 b1 bpos1) as [r|] eqn:Eb;
        [|discriminate].
      pose proof (read_body_content P_ok content c disk position buf Hdrv HL
                    fuel st1 s1 size1 b1 bpos1 r Hok1 Hc1 Hco1 Hs1 Hal1)
        as Hbody.
      destruct Hbody as (Hok2 & Hc2 & Hco2 & Hr); try assumption; try lia.
      destruct r as [e2 b2 st2|s2 size2 b2 bpos2 st2]; cbn [body_state] in *.
      * injection Hrun as <- <- <-. repeat split; try assumption.
        intros E. apply read_body_return_is_err in Eb.
        rewrite E in Eb. discriminate.
      * destruct Hr as (Hs2 & Hal2 & Hp2 & Hsum2 & Hz2 & Hb2 & Hbuf2).
        apply (Htail s2 size2 b2 bpos2 st2); try assumption; try lia.
        right. repeat split; try assumption; lia.
Qed.

(** X13.  A read that returns without error has filled the caller's buffer with
    the [size] bytes the device holds from the byte position of the
    request on: byte [offset mod 512] of the device-absolute sector, the
    partition starts added to [sector + offset / 512].  This holds whether
    the bytes came from the cache, from the driver, or from both, as long
    as the driver returns what the device holds, every cluster in the
    cache is a copy of the device, and the request ends more than one
    cluster before the end of the 64-bit sector range.  The read leaves
    the cache a copy of the device again, and the rest of the buffer as
    it was. *)
Theorem read_delivers_device_content fuel st disk sector offset size
    (buf : list byte) err buf' st' :
  table_ok (grub_disk_cache_table st) ->
  driver_reads_content content disk ->
  cache_coherent content st disk ->
  9 <= log_sector_size disk <= 9 + GRUB_DISK_CACHE_BITS ->
  0 <= size < 2 ^ SIZE_BITS -> size <= Z.of_nat (length buf) ->
  let first :=
    absolute_sector (partition disk) (u64 (sector + Z.shiftr offset 9)) in
  let position := 512 * first + offset mod 512 in
  position + size + cluster_bytes <= 512 * 2 ^ 64 ->
  grub_disk_read fuel st disk sector offset size buf = Some (err, buf', st') ->
  table_ok (grub_disk_cache_table st')
  /\ content (devices st') = content (devices st)
  /\ cache_coherent content st' disk
  /\ (err = GRUB_ERR_NONE ->
      buf' = bytes_at (content (devices st)) position size
             ++ drop (Z.to_nat size) buf).
Proof. apply grub_disk_read_content. Qed.

End ReadContent.

(** ** What a write leaves on the device and in the cache *)

Lemma nth_bytes_at c pos len i :
  0 <= i < len ->
  nth (Z.to_nat i) (bytes_at c pos len) x00 = c (pos + i).
Proof.
  intros Hi. unfold bytes_at.
  rewrite (nth_indep _ x00 (c (pos + Z.of_nat 0))) by (rewrite length_map, length_seq; lia).
  rewrite (map_nth (fun i => c (pos + Z.of_nat i)) (seq 0 (Z.to_nat len)) 0%nat).
  rewrite seq_nth by lia. f_equal. lia.
Qed.

Lemma bytes_at_ext c1 c2 pos len :
  (forall p, pos <= p < pos + len -> c1 p = c2 p) ->
  bytes_at c1 pos len = bytes_at c2 pos len.
Proof.
  intros H. unfold bytes_at. apply map_ext_in. intros i Hi.
  apply in_seq in Hi. apply H. lia.
Qed.

Lemma overlay_nil c pos p : overlay c pos [] p = c p.
Proof.
  unfold overlay. cbn [length]. destruct (Z.leb_spec pos p); cbn [andb];
    [|reflexivity].
  destruct (Z.ltb_spec p (pos + Z.of_nat 0)); [lia|reflexivity].
Qed.

Lemma overlay_outside c pos (data : list byte) p :
  p < pos \/ pos + Z.of_nat (length data) <= p -> overlay c pos data p = c p.
Proof.
  intros H. unfold overlay.
  destruct (Z.leb_spec pos p); cbn [andb]; [|reflexivity].
  destruct (Z.ltb_spec p (pos + Z.of_nat (length data))); [lia|reflexivity].
Qed.

Lemma overlay_inside c pos (data : list byte) p :
  pos <= p < pos + Z.of_nat (length data) ->
  overlay c pos data p = nth (Z.to_nat (p - pos)) data x00.
Proof.
  intros H. unfold overlay.
  destruct (Z.leb_spec pos p); cbn [andb]; [|lia].
  destruct (Z.ltb_spec p (pos + Z.of_nat (length data))); [reflexivity|lia].
Qed.

Lemma overlay_ext c1 c2 pos (data : list byte) p :
  (forall q, c1 q = c2 q) -> overlay c1 pos data p = overlay c2 pos data p.
Proof. intros H. unfold overlay. rewrite H. reflexivity. Qed.

(** Two writes one after the other are one write of both buffers. *)
Lemma overlay_app c pos (d1 d2 : list byte) p :
  overlay (overlay c pos d1) (pos + Z.of_nat (length d1)) d2 p
  = overlay c pos (d1 ++ d2) p.
Proof.
  destruct (Z.lt_ge_cases p pos) as [H|H].
  { rewrite !overlay_outside by lia. reflexivity. }
  destruct (Z.lt_ge_cases p (pos + Z.of_nat (length d1))) as [H1|H1].
  { rewrite (overlay_outside _ (pos + _)) by lia.
    rewrite !overlay_inside by (rewrite ?length_app; lia).
    rewrite app_nth1 by lia. reflexivity. }
  destruct (Z.lt_ge_cases p (pos + Z.of_nat (length d1) + Z.of_nat (length d2)))
    as [H2|H2].
  - rewrite !overlay_inside by (rewrite ?length_app; lia).
    rewrite app_nth2 by lia. f_equal. lia.
  - rewrite !overlay_outside by (rewrite ?length_app; lia). reflexivity.
Qed.

(** Writing back what the device holds around [mid] is writing [mid]. *)
Lemma overlay_frame c pos a (mid : list byte) b p :
  0 <= a -> 0 <= b ->
  overlay c pos
    (bytes_at c pos a ++ mid
     ++ bytes_at c (pos + a + Z.of_nat (length mid)) b) p
  = overlay c (pos + a) mid p.
Proof.
  intros Ha Hb.
  set (m := Z.of_nat (length mid)).
  assert (Hlen : Z.of_nat (length (bytes_at c pos a ++ mid
                   ++ bytes_at c (pos + a + m) b)) = a + m + b).
  { rewrite !length_app, !length_bytes_at. lia. }
  destruct (Z.lt_ge_cases p pos) as [H|H].
  { rewrite !overlay_outside by lia. reflexivity. }
  destruct (Z.lt_ge_cases p (pos + a)) as [H1|H1].
  { rewrite (overlay_outside _ (pos + a)) by lia.
    rewrite overlay_inside by lia.
    rewrite app_nth1 by (rewrite length_bytes_at; lia).
    rewrite nth_bytes_at by lia. f_equal. lia. }
  destruct (Z.lt_ge_cases p (pos + a + m)) as [H2|H2].
  { rewrite !overlay_inside by (fold m; lia).
    rewrite app_nth2 by (rewrite length_bytes_at; lia).
    rewrite length_bytes_at.
    rewrite app_nth1 by lia. f_equal. lia. }
  rewrite (overlay_outside _ (pos + a)) by (fold m; lia).
  destruct (Z.lt_ge_cases p (pos + a + m + b)) as [H3|H3].
  - rewrite overlay_inside by lia.
    rewrite app_nth2 by (rewrite length_bytes_at; lia).
    rewrite length_bytes_at.
    rewrite app_nth2 by lia.
    replace (Z.to_nat (p - pos) - Z.to_nat a - length mid)%nat
      with (Z.to_nat (p - (pos + a + m))) by lia.
    rewrite nth_bytes_at by lia. f_equal. lia.
  - rewrite overlay_outside by lia. reflexivity.
Qed.

(** What was written is what the device holds there. *)
Lemma bytes_at_overlay c pos (data : list byte) :
  bytes_at (overlay c pos data) pos (Z.of_nat (length data)) = data.
Proof.
  apply nth_ext with (d := x00) (d' := x00).
  { rewrite length_bytes_at. lia. }
  intros i Hi. rewrite length_bytes_at in Hi.
  replace i with (Z.to_nat (Z.of_nat i)) at 1 by lia.
  rewrite nth_bytes_at by lia.
  rewrite overlay_inside by lia. f_equal. lia.
Qed.

Lemma take_add_app {A} (a b : nat) (l : list A) :
  take (a + b) l = take a l ++ take b (drop a l).
Proof.
  revert l. induction a as [|a IH]; intros l; [reflexivity|].
  destruct l as [|x l]; cbn; [rewrite take_nil; reflexivity|].
  rewrite IH. reflexivity.
Qed.

(** Two different cluster boundaries are a cluster apart. *)
Lemma aligned_apart C a b :
  0 < C -> (C | a) -> (C | b) -> a <> b -> a + C <= b \/ b + C <= a.
Proof.
  intros HC [k ->] [k' ->] Hne.
  destruct (Z.lt_trichotomy k k') as [H|[H|H]].
  - left. replace (k * C + C) with ((k + 1) * C) by lia.
    apply Z.mul_le_mono_nonneg_r; lia.
  - subst. contradiction.
  - right. replace (k' * C + C) with ((k' + 1) * C) by lia.
    apply Z.mul_le_mono_nonneg_r; lia.
Qed.

Section WriteFacts.
Context {P : Platform} {world : Type}.
Hypothesis P_ok : platform_ok P = true.
Variable content : world -> Z -> byte.
Implicit Types (st : state world) (disk : grub_disk world).

Lemma fetch_none_of_not_cached tbl dv di s :
  cached tbl dv di s = false -> fst (grub_disk_cache_fetch tbl dv di s) = None.
Proof.
  intros H. destruct (fst (grub_disk_cache_fetch tbl dv di s)) as [d|] eqn:E;
    [|reflexivity].
  assert (Hc : cached tbl dv di s = true)
    by (apply cached_fetch_data; eauto).
  rewrite Hc in H. discriminate.
Qed.

(** An invalidation only takes clusters away. *)
Lemma fetch_after_invalidate tbl dv di s dv' di' s' d :
  table_ok tbl ->
  fst (grub_disk_cache_fetch (grub_disk_cache_invalidate tbl dv di s)
         dv' di' s') = Some d ->
  fst (grub_disk_cache_fetch tbl dv' di' s') = Some d.
Proof.
  intros Hok. rewrite !fetch_data. unfold grub_disk_cache_invalidate.
  pose proof (index_in_table P_ok tbl dv di (cluster_start s) Hok) as Hi.
  pose proof (get_index_range P_ok dv' di' s') as Hr.
  destruct (_ && _); [|trivial].
  destruct (Z.eq_dec (grub_disk_cache_get_index dv' di' s')
              (grub_disk_cache_get_index dv di (cluster_start s))) as [E|E].
  - rewrite E, slot_set_slot_eq by lia. cbn.
    destruct (key_match _ _ _ _); discriminate.
  - rewrite slot_set_slot_ne by lia. trivial.
Qed.

Lemma invalidate_sectors_fetch n : forall st disk sector dv di s d,
  table_ok (grub_disk_cache_table st) ->
  let r := invalidate_sectors n st disk sector in
  devices (snd r) = devices st
  /\ (fst (grub_disk_cache_fetch (grub_disk_cache_table (snd r)) dv di s)
      = Some d ->
      fst (grub_disk_cache_fetch (grub_disk_cache_table st) dv di s) = Some d).
Proof.
  induction n as [|n IH]; intros st disk sector dv di s d Hok;
    cbn [invalidate_sectors]; [split; trivial|].
  cbv zeta.
  match goal with |- context [invalidate_sectors n ?a ?b ?c] =>
    destruct (IH a b c dv di s d) as [Hd Hf] end.
  { cbn. apply invalidate_table_ok. exact Hok. }
  split; [rewrite Hd; reflexivity|].
  intros H. apply Hf in H. cbn in H.
  apply fetch_after_invalidate in H; assumption.
Qed.

(** A driver write of the code, under [driver_writes_content]. *)
Lemma dev_write_content st disk s n (data : list byte) :
  driver_writes_content content disk ->
  let r := disk_dev_write st disk s n data in
  is_err (fst r) = false ->
  Z.of_nat (length data) = Z.shiftl n (log_sector_size disk) ->
  forall p,
    content (devices (snd r)) p
    = overlay (content (devices st)) (Z.shiftl s (log_sector_size disk))
        data p.
Proof.
  intros Hdrv r. subst r. unfold disk_dev_write.
  pose proof (Hdrv s n data (devices st)) as Hw.
  destruct (dev_write (dev disk) (geom_of disk) s n data (devices st))
    as [err w].
  cbn [fst snd] in *. intros Ee Hlen p.
  apply is_err_false in Ee. subst err.
  cbn. apply Hw; [reflexivity|exact Hlen].
Qed.

(** The cache stays coherent over a write to the bytes from [lo] up to
    [hi] when no cluster that is still cached reaches into them. *)
Lemma coherent_after_write st st' disk lo hi :
  cache_coherent content st disk ->
  (forall p, p < lo \/ hi <= p ->
     content (devices st') p = content (devices st) p) ->
  (forall s d, (GRUB_DISK_CACHE_SIZE | s) ->
     fst (grub_disk_cache_fetch (grub_disk_cache_table st')
            (dev_id (dev disk)) (id disk) s) = Some d ->
     fst (grub_disk_cache_fetch (grub_disk_cache_table st)
            (dev_id (dev disk)) (id disk) s) = Some d
     /\ (512 * s + cluster_bytes <= lo \/ hi <= 512 * s)) ->
  cache_coherent content st' disk.
Proof.
  intros Hco Hout Hf s d Hal H.
  destruct (Hf s d Hal H) as [H0 Hfar].
  rewrite (Hco s d Hal H0).
  assert (Hsh : Z.shiftl s GRUB_DISK_SECTOR_BITS = 512 * s).
  { unfold GRUB_DISK_SECTOR_BITS. rewrite Z.shiftl_mul_pow2 by lia.
    change (2 ^ 9) with 512. lia. }
  rewrite Hsh. apply bytes_at_ext. intros p Hp. symmetry. apply Hout. lia.
Qed.

End WriteFacts.

(** ** What [grub_disk_write] leaves on the device *)

(** Copying into the image of a part of the device. *)
Lemma memcpy_into_image c X SS ro len (src : list byte) :
  0 <= ro -> 0 <= len -> ro + len <= SS -> len <= Z.of_nat (length src) ->
  memcpy (bytes_at c X SS) ro src len
  = bytes_at c X ro ++ take (Z.to_nat len) src
    ++ bytes_at c (X + ro + len) (SS - ro - len).
Proof.
  intros Hro Hlen Hss Hsrc.
  assert (E : bytes_at c X SS
              = bytes_at c X ro ++ bytes_at c (X + ro) len
                ++ bytes_at c (X + ro + len) (SS - ro - len)).
  { rewrite <- (bytes_at_app c (X + ro)) by lia.
    rewrite <- (bytes_at_app c X) by lia. f_equal. lia. }
  rewrite E. apply memcpy_at; try lia; apply length_bytes_at.
Qed.

Section WriteContent.
Context {P : Platform} {world : Type}.
Hypothesis P_ok : platform_ok P = true.
Variable content : world -> Z -> byte.
Implicit Types (st : state world) (disk : grub_disk world).

(** The sector the invalidation loop ends on. *)
Lemma invalidate_sectors_end n : forall st disk sector,
  0 <= sector < 2 ^ 64 ->
  fst (invalidate_sectors n st disk sector)
  = u64 (sector + Z.of_nat n * 2 ^ (log_sector_size disk - 9)).
Proof.
  induction n as [|n IH]; intros st disk sector Hs; cbn [invalidate_sectors].
  - cbn [fst]. rewrite Z.mul_0_l, Z.add_0_r, u64_small by exact Hs.
    reflexivity.
  - rewrite IH by apply u64_range.
    unfold GRUB_DISK_SECTOR_BITS. rewrite Z.shiftl_1_l.
    rewrite u64_add_step. f_equal. lia.
Qed.

Lemma write_loop_zero fuel st disk sector real_offset (buf : list byte) bpos :
  write_loop fuel st disk sector real_offset 0 buf bpos = Some st.
Proof. destruct fuel; reflexivity. Qed.

(** No cluster that is still cached after the invalidation loop reaches
    into the sectors the loop went over. *)
Lemma written_clusters_gone (tbl : list grub_disk_cache) dv di sector n d s
    (data : list byte) :
  0 <= sector -> 0 < d -> (d | GRUB_DISK_CACHE_SIZE) -> (d | sector) ->
  (0 < n)%nat -> sector + Z.of_nat n * d < 2 ^ 64 ->
  (forall j, (j < n)%nat ->
     cached tbl dv di (cluster_start (u64 (sector + Z.of_nat j * d)))
     = false) ->
  (GRUB_DISK_CACHE_SIZE | s) ->
  fst (grub_disk_cache_fetch tbl dv di s) = Some data ->
  s + GRUB_DISK_CACHE_SIZE <= sector \/ sector + Z.of_nat n * d <= s.
Proof.
  intros Hs Hd HdC Hds Hn Hnw Hgone Hal Hf.
  pose proof (cache_size_pos P_ok) as HC.
  assert (Hnd : d <= Z.of_nat n * d).
  { replace d with (1 * d) at 1 by lia. apply Z.mul_le_mono_nonneg_r; lia. }
  destruct (Z.le_gt_cases (s + GRUB_DISK_CACHE_SIZE) sector) as [?|H1];
    [left; assumption|].
  destruct (Z.le_gt_cases (sector + Z.of_nat n * d) s) as [?|H2];
    [right; assumption|].
  exfalso.
  set (q := Z.max sector s).
  assert (Hq : sector <= q < sector + Z.of_nat n * d
               /\ s <= q < s + GRUB_DISK_CACHE_SIZE) by (subst q; lia).
  clearbody q.
  set (j := (q - sector) / d).
  pose proof (Z.div_mod (q - sector) d ltac:(lia)) as Hdm.
  pose proof (Z.mod_pos_bound (q - sector) d Hd) as Hmb.
  fold j in Hdm.
  assert (Hj0 : 0 <= j) by (apply Z.div_pos; lia).
  assert (Hjn : j < Z.of_nat n).
  { apply Z.div_lt_upper_bound; [exact Hd|]. lia. }
  assert (Hjd : j * d <= Z.of_nat n * d - d).
  { replace (Z.of_nat n * d - d) with ((Z.of_nat n - 1) * d) by lia.
    apply Z.mul_le_mono_nonneg_r; lia. }
  specialize (Hgone (Z.to_nat j) ltac:(lia)).
  rewrite Z2Nat.id in Hgone by exact Hj0.
  rewrite u64_small in Hgone by lia.
  set (sj := sector + j * d) in *.
  assert (Hsj : sj <= q < sj + d) by (subst sj; lia).
  assert (Hdsj : (d | sj)).
  { subst sj. apply Z.divide_add_r; [exact Hds|apply Z.divide_factor_r]. }
  destruct (aligned_room sj d GRUB_DISK_CACHE_SIZE Hd HC HdC Hdsj) as [Hroom _].
  pose proof (Z.mod_pos_bound sj GRUB_DISK_CACHE_SIZE HC) as Hmj.
  rewrite (cluster_start_eq P_ok) in Hgone.
  set (cs := sj - sj mod GRUB_DISK_CACHE_SIZE) in *.
  assert (Hcs : (GRUB_DISK_CACHE_SIZE | cs)).
  { subst cs. exists (sj / GRUB_DISK_CACHE_SIZE).
    assert (HC0 : GRUB_DISK_CACHE_SIZE <> 0) by lia.
    pose proof (Z.div_mod sj GRUB_DISK_CACHE_SIZE HC0). lia. }
  destruct (Z.eq_dec s cs) as [E|E].
  - subst s. apply fetch_none_of_not_cached in Hgone.
    rewrite Hgone in Hf. discriminate.
  - destruct (aligned_apart GRUB_DISK_CACHE_SIZE s cs HC Hal Hcs E);
      subst cs; lia.
Qed.

(** The loop of [grub_disk_write], when it ends with no error pending:
    the device holds the bytes of the buffer where the loop was asked to
    put them, every other byte is as before, and the cache is a copy of
    the device again. *)
Lemma write_loop_content fuel :
  forall st disk sector real_offset size (buf : list byte) bpos st',
  table_ok (grub_disk_cache_table st) ->
  driver_reads_content content disk ->
  driver_writes_content content disk ->
  cache_coherent content st disk ->
  9 <= log_sector_size disk <= 9 + GRUB_DISK_CACHE_BITS ->
  0 <= sector -> (2 ^ (log_sector_size disk - 9) | sector) ->
  0 <= real_offset < 2 ^ log_sector_size disk ->
  0 <= size < 2 ^ SIZE_BITS ->
  0 <= bpos -> bpos + size <= Z.of_nat (length buf) ->
  512 * sector + real_offset + size + 2 * cluster_bytes <= 512 * 2 ^ 64 ->
  write_loop fuel st disk sector real_offset size buf bpos = Some st' ->
  grub_errno st' = GRUB_ERR_NONE ->
  table_ok (grub_disk_cache_table st')
  /\ cache_coherent content st' disk
  /\ forall p,
       content (devices st') p
       = overlay (content (devices st)) (512 * sector + real_offset)
           (take (Z.to_nat size) (drop (Z.to_nat bpos) buf)) p.
Proof.
  induction fuel as [|fuel IH];
    intros st disk sector real_offset size buf bpos st' Hok Hdrv Hdw Hco HL
      Hs Hal Hro Hz Hb Hlen Hnw H Hfin.
  - cbn in H. destruct (Z.eqb_spec size 0) as [->|]; [|discriminate].
    injection H as <-. split; [exact Hok|]. split; [exact Hco|].
    intros p. cbn [Z.to_nat take]. rewrite overlay_nil. reflexivity.
  - cbn [write_loop] in H. destruct (Z.eqb_spec size 0) as [Hz0|Hz0].
    { subst size. injection H as <-. split; [exact Hok|]. split; [exact Hco|].
      intros p. cbn [Z.to_nat take]. rewrite overlay_nil. reflexivity. }
    destruct (platform_ok_inv P_ok) as (HCB & _).
    pose proof (cluster_bytes_bound P_ok) as HCb.
    change (2 ^ 30) with 1073741824 in HCb.
    pose proof (size_bits_le P_ok) as Hsb.
    assert (Hsz : 2 ^ 32 <= 2 ^ SIZE_BITS).
    { destruct (platform_ok_inv P_ok) as (_ & _ & _ & [-> | ->]); lia. }
    change (2 ^ 32) with 4294967296 in Hsz.
    change (2 ^ 64) with 18446744073709551616 in *.
    pose proof (cluster_bytes_eq P_ok) as Hcb.
    pose proof cache_size_pow as Hcs.
    destruct (sector_bytes_eq _ HL) as (HLe & Hd & HdC).
    assert (Hd' : Z.shiftl 1 (log_sector_size disk - GRUB_DISK_SECTOR_BITS)
                  = 2 ^ (log_sector_size disk - 9))
      by (unfold GRUB_DISK_SECTOR_BITS; apply Z.shiftl_1_l).
    assert (HSS : 2 ^ log_sector_size disk
                  = 512 * 2 ^ (log_sector_size disk - 9)).
    { rewrite <- HLe. symmetry. apply Z.shiftl_1_l. }
    rewrite Hd' in H.
    set (d := 2 ^ (log_sector_size disk - 9)) in *.
    set (C := 2 ^ GRUB_DISK_CACHE_BITS) in *.
    set (cb := cluster_bytes) in *.
    set (SS := Z.shiftl 1 (log_sector_size disk)) in *.
    set (c := content (devices st)).
    set (X := 512 * sector) in *.
    assert (HdSS : SS <= cb) by lia.
    assert (Hs64 : sector + d < 18446744073709551616) by lia.
    rewrite (u32_small SS) in H by lia.
    assert (Htake : forall a b, 0 <= a -> 0 <= b ->
              bpos + a + b <= Z.of_nat (length buf) ->
              take (Z.to_nat (a + b)) (drop (Z.to_nat bpos) buf)
              = take (Z.to_nat a) (drop (Z.to_nat bpos) buf)
                ++ take (Z.to_nat b) (drop (Z.to_nat (bpos + a)) buf)).
    { intros a b Ha Hb' _. rewrite Z2Nat.inj_add, take_add_app by lia.
      rewrite drop_drop. do 3 f_equal. lia. }
    destruct (negb (real_offset =? 0) || (size <? SS) && negb false) eqn:Hcond.
    + (* read, modify, write *)
      destruct (grub_disk_read (S fuel) st (set_partition disk []) sector 0
                  SS (fresh_buf SS)) as [[[err tmp] st1]|] eqn:Er;
        [|discriminate].
      pose proof (rmw_read_frame P_ok (S fuel) st disk sector (fresh_buf SS)
                    err tmp st1 Hok HL ltac:(lia) Hal Er) as (Herr & _).
      destruct (is_err err) eqn:Ee.
      { injection H as <-. rewrite <- Herr in Hfin. rewrite Hfin in Ee.
        discriminate. }
      apply is_err_false in Ee. subst err.
      assert (Hdrv' : driver_reads_content content (set_partition disk []))
        by exact Hdrv.
      assert (Hco' : cache_coherent content st (set_partition disk []))
        by exact Hco.
      assert (HnwS : 512 * absolute_sector (partition (set_partition disk []))
                             (u64 (sector + Z.shiftr 0 9)) + 0 mod 512
                     + SS + cluster_bytes <= 512 * 2 ^ 64).
      { cbn [set_partition partition absolute_sector].
        change (Z.shiftr 0 9) with 0. change (0 mod 512) with 0.
        rewrite Z.add_0_r, u64_small by lia. fold cb. fold X. lia. }
      assert (HlenS : SS <= Z.of_nat (length (fresh_buf SS)))
        by (rewrite length_fresh_buf; lia).
      pose proof (grub_disk_read_content P_ok content (S fuel) st
                    (set_partition disk []) sector 0 SS (fresh_buf SS)
                    GRUB_ERR_NONE tmp st1 Hok Hdrv' Hco' HL ltac:(lia) HlenS
                    HnwS Er) as (Hok1 & Hc1 & Hco1 & Htmp).
      specialize (Htmp eq_refl).
      cbn [set_partition partition absolute_sector] in Htmp.
      change (Z.shiftr 0 9) with 0 in Htmp. change (0 mod 512) with 0 in Htmp.
      rewrite !Z.add_0_r, u64_small in Htmp by lia.
      rewrite drop_ge, app_nil_r in Htmp by (rewrite length_fresh_buf; lia).
      fold X in Htmp. fold c in Htmp.
      rewrite (u32_small (SS - real_offset)) in H by lia.
      rewrite (usize_small' (SS - real_offset)) in H by lia.
      set (len := if size <? SS - real_offset then size
                  else SS - real_offset) in *.
      assert (Hl : 0 < len <= SS - real_offset /\ len <= size
                   /\ (len = size \/ (len = SS - real_offset /\ len < size)))
        by (subst len; destruct (Z.ltb_spec size (SS - real_offset)); lia).
      clearbody len.
      set (mid := take (Z.to_nat len) (drop (Z.to_nat bpos) buf)).
      assert (Hmid : Z.of_nat (length mid) = len)
        by (subst mid; rewrite length_take, length_drop; lia).
      rewrite Htmp in H. unfold from in H.
      rewrite (memcpy_into_image c X SS real_offset len) in H
        by (rewrite ?length_drop; lia).
      fold mid in H.
      set (tmp' := bytes_at c X real_offset ++ mid
                   ++ bytes_at c (X + real_offset + len)
                        (SS - real_offset - len)) in *.
      assert (Hlen' : Z.of_nat (length tmp') = SS).
      { subst tmp'. rewrite !length_app, !length_bytes_at. lia. }
      set (st2 := log _ _) in H.
      assert (Hok2 : table_ok (grub_disk_cache_table st2))
        by (apply invalidate_table_ok; exact Hok1).
      pose proof (dev_write_frame st2 disk (transform_sector disk sector) 1
                    tmp') as Hwf.
      pose proof (dev_write_content content st2 disk
                    (transform_sector disk sector) 1 tmp' Hdw) as Hwc.
      destruct (disk_dev_write st2 disk (transform_sector disk sector) 1 tmp')
        as [e st3].
      cbn [fst snd] in Hwf, Hwc. cbv zeta in Hwc.
      destruct Hwf as (Ht3 & _ & He3t & He3f).
      destruct (is_err e) eqn:Ee.
      { injection H as <-. rewrite (He3t eq_refl) in Hfin.
        rewrite Hfin in Ee. discriminate. }
      specialize (Hwc eq_refl Hlen').
      assert (Hc3 : forall p,
                content (devices st3) p = overlay c (X + real_offset) mid p).
      { intros p. rewrite Hwc. subst st2.
        cbn [devices log set_table]. rewrite Hc1. fold c.
        rewrite native_position by assumption. fold X.
        subst tmp'. rewrite <- Hmid. apply overlay_frame; lia. }
      assert (Hco3 : cache_coherent content st3 disk).
      { apply (coherent_after_write content st1 st3 disk X (X + SS)).
        - exact Hco1.
        - intros p Hp. rewrite Hc3, Hc1. apply overlay_outside. lia.
        - intros s d0 Hals Hf. rewrite Ht3 in Hf. subst st2.
          cbn [grub_disk_cache_table log set_table] in Hf.
          split; [eapply (fetch_after_invalidate P_ok); eassumption|].
          pose proof (cached_invalidate_self P_ok (grub_disk_cache_table st1)
                        (dev_id (dev disk)) (id disk) sector Hok1) as Hself.
          apply fetch_none_of_not_cached in Hself.
          destruct (Z.eq_dec s (cluster_start sector)) as [E|E];
            [subst s; rewrite Hself in Hf; discriminate|].
          rewrite (cluster_start_eq P_ok), Hcs in E.
          rewrite Hcs in Hals.
          destruct (aligned_room sector d C ltac:(lia) ltac:(lia) HdC Hal)
            as [Hroom _].
          pose proof (Z.mod_pos_bound sector C ltac:(lia)) as Hm.
          assert (Hcsal : (C | sector - sector mod C)).
          { exists (sector / C).
            pose proof (Z.div_mod sector C ltac:(lia)). lia. }
          destruct (aligned_apart C s (sector - sector mod C) ltac:(lia)
                      Hals Hcsal E); fold cb; subst X; lia. }
      rewrite (u64_small (sector + d)) in H by lia.
      destruct Hl as (Hl1 & Hl2 & [Hl3 | [Hl3 Hl4]]).
      * (* the request ends in this sector *)
        rewrite Hl3, Z.sub_diag in H. change (usize 0) with 0 in H.
        rewrite write_loop_zero in H. injection H as <-.
        split; [rewrite Ht3; exact Hok2|]. split; [exact Hco3|].
        intros p. rewrite Hc3. subst mid. rewrite Hl3. reflexivity.
      * rewrite (usize_small' (size - len)) in H by lia.
        apply IH in H; try assumption; try lia;
          [|rewrite Ht3; exact Hok2
           |apply Z.divide_add_r; [exact Hal|apply Z.divide_refl]].
        destruct H as (Hok' & Hco'' & Hc').
        split; [exact Hok'|]. split; [exact Hco''|].
        intros p. rewrite Hc'.
        rewrite (overlay_ext _ (overlay c (X + real_offset) mid)) by exact Hc3.
        replace (512 * (sector + d) + 0)
          with (X + real_offset + Z.of_nat (length mid)) by (subst X; lia).
        rewrite overlay_app. f_equal. subst mid.
        replace (Z.to_nat size) with (Z.to_nat (len + (size - len)))
          by (f_equal; lia).
        rewrite Htake by lia. reflexivity.
    + (* whole native sectors *)
      apply orb_false_iff in Hcond. destruct Hcond as [Hro0 Hsz0].
      apply negb_false_iff, Z.eqb_eq in Hro0. subst real_offset.
      cbn [negb] in Hsz0. rewrite andb_true_r in Hsz0.
      apply Z.ltb_ge in Hsz0.
      assert (HSS2 : SS = 2 ^ log_sector_size disk) by lia.
      assert (HSS0 : 0 < SS) by lia.
      set (n := Z.shiftr size (log_sector_size disk)) in *.
      pose proof (Z.div_mod size SS ltac:(lia)) as Hdm.
      pose proof (Z.mod_pos_bound size SS HSS0) as Hmb.
      assert (Hn1 : n = size / SS).
      { subst n. rewrite Z.shiftr_div_pow2 by lia. rewrite HSS2. reflexivity. }
      assert (Hn2 : Z.shiftl n (log_sector_size disk) = n * SS).
      { rewrite Z.shiftl_mul_pow2 by lia. rewrite HSS2. reflexivity. }
      assert (Hn3 : Z.land size (Z.lnot (SS - 1)) = n * SS).
      { subst SS. rewrite align_down_mod by lia.
        rewrite Hn1. rewrite Z.shiftl_1_l in *. lia. }
      assert (Hn4 : 1 <= n).
      { rewrite Hn1. apply Z.div_le_lower_bound; lia. }
      assert (Hn5 : n * SS <= size /\ size - n * SS < SS)
        by (rewrite Hn1; lia).
      assert (Hnd : n * SS = 512 * (n * d)) by (rewrite HLe; ring).
      rewrite Hn2, Hn3 in H. clearbody n.
      unfold from in H.
      set (data := take (Z.to_nat (n * SS)) (drop (Z.to_nat bpos) buf)) in *.
      assert (Hdata : Z.of_nat (length data) = n * SS)
        by (subst data; rewrite length_take, length_drop; lia).
      pose proof (dev_write_frame st disk (transform_sector disk sector) n
                    data) as Hwf.
      pose proof (dev_write_content content st disk
                    (transform_sector disk sector) n data Hdw) as Hwc.
      destruct (disk_dev_write st disk (transform_sector disk sector) n data)
        as [e st1].
      cbn [fst snd] in Hwf, Hwc. cbv zeta in Hwc.
      destruct Hwf as (Ht1 & _ & He1t & He1f).
      destruct (is_err e) eqn:Ee.
      { injection H as <-. rewrite (He1t eq_refl) in Hfin.
        rewrite Hfin in Ee. discriminate. }
      specialize (Hwc eq_refl ltac:(rewrite Hn2; exact Hdata)).
      rewrite native_position in Hwc by assumption.
      fold X in Hwc. fold c in Hwc.
      assert (Hok1 : table_ok (grub_disk_cache_table st1))
        by (rewrite Ht1; exact Hok).
      assert (Hs' : 0 <= sector < 2 ^ 64) by lia.
      pose proof (invalidate_sectors_spec P_ok (Z.to_nat n) st1 disk sector
                    Hok1 HL Hs' Hal) as Hi.
      pose proof (invalidate_sectors_end (Z.to_nat n) st1 disk sector Hs')
        as Hend.
      pose proof (fun s d0 =>
                    invalidate_sectors_fetch P_ok (Z.to_nat n) st1 disk sector
                      (dev_id (dev disk)) (id disk) s d0 Hok1) as Hif.
      destruct (invalidate_sectors (Z.to_nat n) st1 disk sector)
        as [sector2 st2].
      cbn [fst snd] in Hi, Hend, Hif. cbv zeta in Hi, Hif.
      destruct Hi as (_ & Hok2 & _ & _ & _ & _ & Hgone).
      fold d in Hend, Hgone.
      rewrite Z2Nat.id in Hend by lia.
      rewrite u64_small in Hend by lia. subst sector2.
      assert (Hd2 : devices st2 = devices st1) by (apply (Hif 0 [])).
      assert (Hc2 : forall p, content (devices st2) p = overlay c X data p)
        by (intros p; rewrite Hd2; apply Hwc).
      assert (Hco2 : cache_coherent content st2 disk).
      { apply (coherent_after_write content st st2 disk X (X + n * SS)).
        - exact Hco.
        - intros p Hp. rewrite Hc2. apply overlay_outside. lia.
        - intros s d0 Hals Hf.
          pose proof (proj2 (Hif s d0) Hf) as Hf1. rewrite Ht1 in Hf1.
          split; [exact Hf1|].
          destruct (written_clusters_gone (grub_disk_cache_table st2)
                      (dev_id (dev disk)) (id disk) sector (Z.to_nat n) d s d0
                      Hs ltac:(lia) ltac:(rewrite Hcs; exact HdC) Hal
                      ltac:(lia) ltac:(rewrite Z2Nat.id by lia; lia)
                      Hgone Hals Hf) as [A|A].
          + left. rewrite Hcs in A. fold cb. subst X. lia.
          + right. rewrite Z2Nat.id in A by lia. subst X. lia. }
      rewrite (usize_small' (size - n * SS)) in H by lia.
      apply IH in H; try assumption; try lia;
        [|apply Z.divide_add_r; [exact Hal|apply Z.divide_factor_r]].
      destruct H as (Hok' & Hco' & Hc').
      split; [exact Hok'|]. split; [exact Hco'|].
      intros p. rewrite Hc'.
      rewrite (overlay_ext _ (overlay c X data)) by exact Hc2.
      replace (512 * (sector + n * d) + 0)
        with (X + Z.of_nat (length data)) by (subst X; lia).
      rewrite overlay_app. rewrite Z.add_0_r. fold X. f_equal. subst data.
      replace (Z.to_nat size) with (Z.to_nat (n * SS + (size - n * SS)))
        by (f_equal; lia).
      rewrite Htake by lia. reflexivity.
Qed.

(** The device and the cache after [grub_disk_write]. *)
Lemma grub_disk_write_content fuel st disk sector offset size
    (buf : list byte) st' :
  table_ok (grub_disk_cache_table st) ->
  driver_reads_content content disk ->
  driver_writes_content content disk ->
  cache_coherent content st disk ->
  9 <= log_sector_size disk <= 9 + GRUB_DISK_CACHE_BITS ->
  0 <= size < 2 ^ SIZE_BITS -> size <= Z.of_nat (length buf) ->
  let first :=
    absolute_sector (partition disk) (u64 (sector + Z.shiftr offset 9)) in
  let position := 512 * first + offset mod 512 in
  position + size + 2 * cluster_bytes <= 512 * 2 ^ 64 ->
  grub_disk_write fuel st disk sector offset size buf
  = Some (GRUB_ERR_NONE, st') ->
  table_ok (grub_disk_cache_table st')
  /\ cache_coherent content st' disk
  /\ forall p,
       content (devices st') p
       = overlay (content (devices st)) position
           (take (Z.to_nat size) buf) p.
Proof.
  intros Hok Hdrv Hdw Hco HL Hz Hlen first position Hnw Hrun.
  pose proof (cluster_bytes_bound P_ok) as HCb.
  change (2 ^ 30) with 1073741824 in HCb.
  pose proof (cluster_bytes_eq P_ok) as Hcb.
  destruct (sector_bytes_eq _ HL) as (HLe & Hd & HdC).
  assert (Hfirst : 0 <= first < 2 ^ 64)
    by (apply absolute_sector_range, u64_range).
  pose proof (Z.mod_pos_bound offset 512 ltac:(lia)) as Hoff.
  unfold grub_disk_write in Hrun.
  destruct (adjust_range_outcome st disk sector offset size) as [Hgo|Hstop].
  2: { destruct (grub_disk_adjust_range st disk sector offset size)
         as [[[e s0] o0] st0].
       cbn [fst snd] in Hstop. destruct Hstop as (He & _).
       rewrite He in Hrun. discriminate. }
  destruct (grub_disk_adjust_range st disk sector offset size)
    as [[[e s0] o0] st0].
  cbn [fst snd] in Hgo. destruct Hgo as (-> & -> & -> & ->).
  cbn [is_err] in Hrun.
  change (absolute_sector (partition disk)
            (u64 (sector + Z.shiftr offset GRUB_DISK_SECTOR_BITS)))
    with first in Hrun.
  set (d := 2 ^ (log_sector_size disk - 9)) in *.
  pose proof (Z.mod_pos_bound first d ltac:(lia)) as Hm.
  pose proof (Z.mod_le first d ltac:(lia) ltac:(lia)) as Hmle.
  pose proof (Z.div_mod first d ltac:(lia)) as Hdm.
  assert (Hal : Z.land first
                  (Z.lnot (Z.shiftl 1 (log_sector_size disk
                                       - GRUB_DISK_SECTOR_BITS) - 1))
                = first - first mod d).
  { unfold GRUB_DISK_SECTOR_BITS. apply align_down_mod. lia. }
  rewrite Hal in Hrun.
  replace (first - (first - first mod d)) with (first mod d) in Hrun by lia.
  assert (Hsh : Z.shiftl (first mod d) GRUB_DISK_SECTOR_BITS
                = 512 * (first mod d)).
  { unfold GRUB_DISK_SECTOR_BITS. rewrite Z.shiftl_mul_pow2 by lia.
    change (2 ^ 9) with 512. lia. }
  rewrite Hsh in Hrun.
  assert (HSS : 2 ^ log_sector_size disk = 512 * d).
  { rewrite <- HLe. symmetry. apply Z.shiftl_1_l. }
  change (2 ^ 64) with 18446744073709551616 in *.
  rewrite (u64_small (512 * (first mod d))) in Hrun by lia.
  rewrite (u32_small (offset mod 512 + 512 * (first mod d))) in Hrun by lia.
  destruct (write_loop fuel st disk (first - first mod d)
              (offset mod 512 + 512 * (first mod d)) size buf 0)
    as [st1|] eqn:Ew; [|discriminate].
  injection Hrun as Hfin <-.
  apply write_loop_content in Ew; try assumption; try lia.
  - destruct Ew as (Hok' & Hco' & Hc').
    split; [exact Hok'|]. split; [exact Hco'|].
    intros p. rewrite Hc'. change (Z.to_nat 0) with 0%nat. rewrite drop_0.
    f_equal. subst position. lia.
  - exists (first / d). fold d. lia.
Qed.

(** X14.  A write that returns [GRUB_ERR_NONE] has put the first [size] bytes
    of the buffer on the device, from the byte position of the request
    on (byte [offset mod 512] of the device-absolute sector), and has
    changed no other byte, whether the request is aligned to native
    sectors or goes through the read-modify-write of a partial sector.
    The cache is a copy of the device afterwards: every cluster the
    write reached into was invalidated.  This holds as long as the
    driver reads and writes what the device holds, the cache was a copy
    of the device before, the sector size is supported, the buffer holds
    [size] bytes, and the request ends at least two clusters before the
    end of the 64-bit sector range. *)
Theorem write_reaches_device fuel st disk sector offset size
    (buf : list byte) st' :
  table_ok (grub_disk_cache_table st) ->
  driver_reads_content content disk ->
  driver_writes_content content disk ->
  cache_coherent content st disk ->
  9 <= log_sector_size disk <= 9 + GRUB_DISK_CACHE_BITS ->
  0 <= size < 2 ^ SIZE_BITS -> size <= Z.of_nat (length buf) ->
  let first :=
    absolute_sector (partition disk) (u64 (sector + Z.shiftr offset 9)) in
  let position := 512 * first + offset mod 512 in
  position + size + 2 * cluster_bytes <= 512 * 2 ^ 64 ->
  grub_disk_write fuel st disk sector offset size buf
  = Some (GRUB_ERR_NONE, st') ->
  table_ok (grub_disk_cache_table st')
  /\ cache_coherent content st' disk
  /\ forall p,
       content (devices st') p
       = overlay (content (devices st)) position
           (take (Z.to_nat size) buf) p.
Proof. apply grub_disk_write_content. Qed.

(** X15.  Reading back what was written: after a write that returned
    [GRUB_ERR_NONE], a read of the same sector, offset and size that
    returns [GRUB_ERR_NONE] fills its buffer with the bytes that were
    written, under the same conditions on the driver, the cache, the
    sector size and the range. *)
Theorem read_after_write_returns_written fuel fuel' st disk sector offset
    size (buf rbuf : list byte) st1 rbuf' st2 :
  table_ok (grub_disk_cache_table st) ->
  driver_reads_content content disk ->
  driver_writes_content content disk ->
  cache_coherent content st disk ->
  9 <= log_sector_size disk <= 9 + GRUB_DISK_CACHE_BITS ->
  0 <= size < 2 ^ SIZE_BITS ->
  size <= Z.of_nat (length buf) -> size <= Z.of_nat (length rbuf) ->
  512 * absolute_sector (partition disk) (u64 (sector + Z.shiftr offset 9))
  + offset mod 512 + size + 2 * cluster_bytes <= 512 * 2 ^ 64 ->
  grub_disk_write fuel st disk sector offset size buf
  = Some (GRUB_ERR_NONE, st1) ->
  grub_disk_read fuel' st1 disk sector offset size rbuf
  = Some (GRUB_ERR_NONE, rbuf', st2) ->
  rbuf' = take (Z.to_nat size) buf ++ drop (Z.to_nat size) rbuf.
Proof.
  intros Hok Hdrv Hdw Hco HL Hz Hlen Hrlen Hnw Hw Hr.
  pose proof (cluster_bytes_bound P_ok) as HCb.
  pose proof (cluster_bytes_eq P_ok) as Hcb.
  destruct (grub_disk_write_content fuel st disk sector offset size buf st1
              Hok Hdrv Hdw Hco HL Hz Hlen Hnw Hw) as (Hok1 & Hco1 & Hc1).
  destruct (grub_disk_read_content P_ok content fuel' st1 disk sector
              offset size rbuf GRUB_ERR_NONE rbuf' st2 Hok1 Hdrv Hco1 HL Hz
              Hrlen ltac:(lia) Hr) as (_ & _ & _ & Hbuf).
  rewrite (Hbuf eq_refl). f_equal.
  set (position := 512 * absolute_sector (partition disk)
                           (u64 (sector + Z.shiftr offset 9))
                   + offset mod 512) in *.
  rewrite (bytes_at_ext _ (overlay (content (devices st)) position
                             (take (Z.to_nat size) buf)) position size)
    by (intros p _; apply Hc1).
  set (data := take (Z.to_nat size) buf).
  assert (E : size = Z.of_nat (length data))
    by (subst data; rewrite length_take; lia).
  rewrite E. apply bytes_at_overlay.
Qed.

End WriteContent.

(** ** What every read does *)

Section ReadAlways.
Context {P : Platform} {world : Type}.
Implicit Types (st : state world) (disk : grub_disk world).

Lemma read_small_err_errno st disk sector offset size buf bpos :
  let r := grub_disk_read_small st disk sector offset size buf bpos in
  is_err (fst (fst r)) = true -> grub_errno (snd r) = fst (fst r).
Proof.
  unfold grub_disk_read_small.
  destruct (grub_disk_cache_fetch _ _ _ _) as [[data|] tbl];
    [cbn; discriminate|].
  destruct (grub_malloc _) as [[] st1]; cbn [negb]; [|reflexivity].
  destruct (_ || _); [|apply fallback_err_errno].
  destruct (disk_dev_read _ _ _ _) as [[err bytes] st2].
  destruct (is_err err); cbn [negb]; [apply fallback_err_errno|].
  destruct (grub_disk_cache_store _ _ _ _ _) as [e st3]. cbn. discriminate.
Qed.

Lemma read_body_return_errno fuel :
  forall st disk sector size buf bpos err buf' st',
  read_body fuel st disk sector size buf bpos = Some (BodyReturn err buf' st') ->
  grub_errno st' = err.
Proof.
  induction fuel as [|fuel IH]; intros st disk sector size buf bpos err buf' st' H.
  - cbn in H. destruct (_ <? _); discriminate.
  - cbn [read_body] in H. destruct (_ <? _); [discriminate|].
    destruct (agglomerate_scan _ _ _ _ _ _) as [[data agg] tbl].
    set (st1 := set_table st tbl) in *.
    set (bs := match data with
               | Some d => _
               | None => (buf, st1)
               end) in *.
    destruct bs as [buf1 st2].
    destruct (agg =? 0); cbn [negb] in H.
    + destruct data; eapply IH; exact H.
    + pose proof (dev_read_errno st2 disk (transform_sector disk sector)
                    (usize (u64 (Z.shiftl agg
                       (GRUB_DISK_CACHE_BITS + GRUB_DISK_SECTOR_BITS
                        - log_sector_size disk))))) as He.
      destruct (disk_dev_read _ _ _ _) as [[e bytes] st3].
      cbn [fst snd] in He.
      destruct (is_err e) eqn:Ee.
      * inversion H; subst. apply He. reflexivity.
      * destruct data; eapply IH; exact H.
Qed.

(** X16.  The value [grub_disk_read] returns is the value it leaves in
    [grub_errno], on every path: the range check, the reads up to the
    first cluster boundary, the cluster loop, the last part and the
    normal return.  So a read that did all its work still returns an
    error when [grub_errno] holds one at the end, and a read that
    returns an error has left that error in [grub_errno]. *)
Theorem read_returns_errno fuel st disk sector offset size (buf : list byte)
    err buf' st' :
  grub_disk_read fuel st disk sector offset size buf = Some (err, buf', st') ->
  err = grub_errno st'.
Proof.
  intros H. unfold grub_disk_read in H.
  destruct (grub_disk_adjust_range st disk sector offset size)
    as [[[e s1] o1] st1].
  destruct (is_err e); [injection H as <- _ <-; reflexivity|].
  assert (Hhook : forall st2 (b2 : list byte),
            match (if read_hook disk
                   then read_hook_loop fuel s1 o1 size st2
                   else Some st2) with
            | Some st3 => Some (grub_errno st3, b2, st3)
            | None => None
            end = Some (err, buf', st') ->
            err = grub_errno st').
  { intros st2 b2 Hh.
    destruct (if read_hook disk then _ else _) as [st3|]; [|discriminate].
    injection Hh as <- _ <-. reflexivity. }
  unfold read_head in H.
  set (hd := if negb (o1 =? 0) || _ then _ else _) in H.
  assert (Hhd : match hd with
                | inl (e0, _, st2) => grub_errno st2 = e0
                | inr _ => True
                end).
  { subst hd. destruct (negb (o1 =? 0) || _); [|exact I].
    match goal with |- context [grub_disk_read_small ?a ?b ?c ?d ?e ?f ?g] =>
      pose proof (read_small_err_errno a b c d e f g) as Hs;
      destruct (grub_disk_read_small a b c d e f g) as [[e0 b0] st2] end.
    cbn [fst snd] in Hs. destruct (is_err e0); [apply Hs; reflexivity|exact I]. }
  destruct hd as [[[e0 b0] st2]|[[[[s2 z2] b2] p2] st2]].
  { injection H as <- _ <-. symmetry. exact Hhd. }
  destruct (read_body fuel st2 disk s2 z2 b2 p2) as [r|] eqn:Eb;
    [|discriminate].
  destruct r as [e3 b3 st3|s3 z3 b3 p3 st3].
  { injection H as <- _ <-. symmetry.
    eapply read_body_return_errno. exact Eb. }
  destruct (negb (z3 =? 0)).
  - pose proof (read_small_err_errno st3 disk s3 0 z3 b3 p3) as Hs.
    destruct (grub_disk_read_small st3 disk s3 0 z3 b3 p3) as [[e4 b4] st4].
    cbn [fst snd] in Hs.
    destruct (is_err e4).
    + injection H as <- _ <-. symmetry. apply Hs. reflexivity.
    + eapply Hhook. exact H.
  - cbn [is_err] in H. eapply Hhook. exact H.
Qed.

(** X17.  A read only reads: whatever it returns, the calls it makes are
    driver reads and calls of the read hook, never a driver write, open
    or close and never an invalidation; without a read hook they are
    driver reads only. *)
Theorem read_calls_reads_and_hooks_only fuel st disk sector offset size
    (buf : list byte) err buf' st' :
  grub_disk_read fuel st disk sector offset size buf = Some (err, buf', st') ->
  exists evs,
    trace st' = trace st ++ evs
    /\ Forall is_read_or_hook evs
    /\ (read_hook disk = false -> Forall is_read_event evs).
Proof.
  intros H. unfold grub_disk_read in H.
  assert (Hweak : forall sta stb : state world,
            reads_only sta stb ->
            exists evs, trace stb = trace sta ++ evs
              /\ Forall is_read_or_hook evs
              /\ (read_hook disk = false -> Forall is_read_event evs)).
  { intros sta stb (evs & Ht & Hf). exists evs. split; [exact Ht|].
    split; [|intros _; exact Hf].
    eapply Forall_impl; [exact Hf|]. intros [] Hx; cbn in *; tauto. }
  destruct (adjust_range_result st disk sector offset size)
    as (_ & _ & Hres).
  destruct (grub_disk_adjust_range st disk sector offset size)
    as [[[e s1] o1] st1].
  cbn [fst snd] in Hres.
  destruct (is_err e) eqn:Ee.
  { injection H as _ _ <-. apply Hweak, reads_only_same.
    destruct Hres as [[-> _]|(_ & _ & Ht & _)]; [discriminate|exact Ht]. }
  destruct Hres as [[_ ->]|[-> _]]; [|discriminate].
  assert (Hhook : forall (st2 : state world) (b2 : list byte),
            reads_only st st2 ->
            match (if read_hook disk
                   then read_hook_loop fuel s1 o1 size st2
                   else Some st2) with
            | Some st3 => Some (grub_errno st3, b2, st3)
            | None => None
            end = Some (err, buf', st') ->
            exists evs, trace st' = trace st ++ evs
              /\ Forall is_read_or_hook evs
              /\ (read_hook disk = false -> Forall is_read_event evs)).
  { intros st2 b2 Hr Hh. destruct (read_hook disk) eqn:Eh.
    - destruct (read_hook_loop fuel s1 o1 size st2) as [st3|] eqn:El;
        [|discriminate].
      injection Hh as _ _ <-.
      apply read_hook_loop_frame in El. destruct El as (_ & _ & Hrh).
      destruct (reads_and_hooks_trans st st2 st3
                  (reads_only_and_hooks _ _ Hr) Hrh) as (evs & Ht & Hf).
      exists evs. split; [exact Ht|]. split; [exact Hf|discriminate].
    - injection Hh as _ _ <-. apply Hweak in Hr.
      destruct Hr as (evs & Ht & Hf & Hn). exists evs. auto. }
  unfold read_head in H.
  set (hd := if negb (o1 =? 0) || _ then _ else _) in H.
  assert (Hhd : match hd with
                | inl (_, _, st2) => reads_only st st2
                | inr (_, _, _, _, st2) => reads_only st st2
                end).
  { subst hd. destruct (negb (o1 =? 0) || _); [|apply reads_only_refl].
    match goal with |- context [grub_disk_read_small ?a ?b ?c ?d ?e ?f ?g] =>
      pose proof (reads_only_read_small a b c d e f g) as Hs;
      destruct (grub_disk_read_small a b c d e f g) as [[e0 b0] st2] end.
    cbn [snd] in Hs. destruct (is_err e0); exact Hs. }
  destruct hd as [[[e0 b0] st2]|[[[[s2 z2] b2] p2] st2]].
  { injection H as _ _ <-. apply Hweak, Hhd. }
  destruct (read_body fuel st2 disk s2 z2 b2 p2) as [r|] eqn:Eb;
    [|discriminate].
  apply reads_only_read_body in Eb.
  pose proof (reads_only_trans _ _ _ Hhd Eb) as Hr3.
  destruct r as [e3 b3 st3|s3 z3 b3 p3 st3]; cbn [body_state] in Hr3.
  { injection H as _ _ <-. apply Hweak, Hr3. }
  destruct (negb (z3 =? 0)).
  - pose proof (reads_only_read_small st3 disk s3 0 z3 b3 p3) as Hs.
    destruct (grub_disk_read_small st3 disk s3 0 z3 b3 p3) as [[e4 b4] st4].
    cbn [snd] in Hs.
    pose proof (reads_only_trans _ _ _ Hr3 Hs) as Hr4.
    destruct (is_err e4).
    + injection H as _ _ <-. apply Hweak, Hr4.
    + eapply Hhook; [exact Hr4|exact H].
  - cbn [is_err] in H. eapply Hhook; [exact Hr3|exact H].
Qed.

(** X18.  A request that fails the range check is rejected before anything is
    done: the read returns [GRUB_ERR_OUT_OF_RANGE] with the buffer as
    it was, the write returns -1 (not the error code), and in both cases
    [grub_errno] is [GRUB_ERR_OUT_OF_RANGE] and no driver was called, the
    cache and the devices are as before. *)
Theorem out_of_range_rejected_early fuel st disk sector offset size
    (buf wbuf : list byte) :
  let r := grub_disk_adjust_range st disk sector offset size in
  fst (fst (fst r)) <> GRUB_ERR_NONE ->
  grub_disk_read fuel st disk sector offset size buf
  = Some (GRUB_ERR_OUT_OF_RANGE, buf, snd r)
  /\ grub_disk_write fuel st disk sector offset size wbuf
     = Some (GRUB_ERR_CODE (-1), snd r)
  /\ grub_errno (snd r) = GRUB_ERR_OUT_OF_RANGE
  /\ trace (snd r) = trace st
  /\ grub_disk_cache_table (snd r) = grub_disk_cache_table st
  /\ devices (snd r) = devices st.
Proof.
  intros r Hne. subst r.
  destruct (adjust_range_result st disk sector offset size)
    as (_ & _ & Hres).
  destruct (adjust_range_outcome st disk sector offset size) as [Hgo|Hstop].
  { destruct Hgo as (E & _). contradiction. }
  unfold grub_disk_read, grub_disk_write.
  destruct (grub_disk_adjust_range st disk sector offset size)
    as [[[e s1] o1] st1].
  cbn [fst snd] in *.
  destruct Hres as [[E _]|(E & He & Ht & Htb)]; [contradiction|].
  destruct Hstop as (Hie & _ & _ & Hd).
  rewrite Hie, He. repeat split; assumption.
Qed.

End ReadAlways.

(** ** Edge cases *)

Lemma memcpy_zero (dst : list byte) pos (src : list byte) :
  memcpy dst pos src 0 = dst.
Proof.
  unfold memcpy. change (Z.to_nat 0) with 0%nat. rewrite take_0.
  destruct (_ && _); [|reflexivity].
  cbn [app length]. rewrite Nat.add_0_r. apply take_drop.
Qed.

Section EdgeCases.
Context {P : Platform} {world : Type}.
Hypothesis P_ok : platform_ok P = true.
Implicit Types (st : state world) (disk : grub_disk world).

(** A small read of no bytes leaves the buffer alone. *)
Lemma read_small_zero_buf st disk sector offset (buf : list byte) bpos :
  snd (fst (grub_disk_read_small st disk sector offset 0 buf bpos)) = buf.
Proof.
  assert (Hfb : forall stx,
            snd (fst (read_small_fallback stx disk sector offset 0 buf bpos))
            = buf).
  { intros stx. unfold read_small_fallback.
    destruct (grub_malloc stx) as [[] st1]; cbn [negb]; [|reflexivity].
    destruct (disk_dev_read _ _ _ _) as [[err bytes] st2].
    destruct (is_err err); [reflexivity|]. cbn [fst snd].
    apply memcpy_zero. }
  unfold grub_disk_read_small.
  destruct (grub_disk_cache_fetch _ _ _ _) as [[data|] tbl].
  { cbn [fst snd]. apply memcpy_zero. }
  destruct (grub_malloc _) as [[] st1]; cbn [negb]; [|reflexivity].
  destruct (_ || _); [|apply Hfb].
  destruct (disk_dev_read _ _ _ _) as [[err bytes] st2].
  destruct (is_err err); cbn [negb]; [apply Hfb|].
  destruct (grub_disk_cache_store _ _ _ _ _) as [e st3]. cbn [fst snd].
  apply memcpy_zero.
Qed.

(** X19.  A read of no bytes.  When the request starts at a cluster boundary
    ([offset mod 512 = 0] and the sector a multiple of the cluster size)
    it does nothing: it returns [grub_errno] and leaves the state and the
    buffer as they were.  Anywhere else it still goes through
    [grub_disk_read_small] for the cluster it starts in, with a length of
    0: the fetch, and on a miss the allocation, the driver read of the
    cluster and the store, with their errors; the buffer is unchanged and
    the read hook is not called. *)
Theorem zero_size_read fuel st disk sector offset (buf : list byte) :
  let r := grub_disk_adjust_range st disk sector offset 0 in
  let s := snd (fst (fst r)) in
  let o := snd (fst r) in
  fst (fst (fst r)) = GRUB_ERR_NONE ->
  if (o =? 0) && (Z.land s (GRUB_DISK_CACHE_SIZE - 1) =? 0)
  then grub_disk_read fuel st disk sector offset 0 buf
       = Some (grub_errno st, buf, st)
  else
    let rs :=
      grub_disk_read_small st disk (cluster_start s)
        (u64 (o + usize (Z.shiftl (s - cluster_start s) GRUB_DISK_SECTOR_BITS)))
        0 buf 0 in
    grub_disk_read fuel st disk sector offset 0 buf
    = Some (if is_err (fst (fst rs)) then fst (fst rs)
            else grub_errno (snd rs), buf, snd rs).
Proof.
  intros r s o He. subst r s o.
  pose proof (cluster_bytes_bound P_ok) as HCb.
  destruct (adjust_range_outcome st disk sector offset 0) as [Hgo|Hstop].
  2: { destruct Hstop as (Hie & _). rewrite He in Hie. discriminate. }
  unfold grub_disk_read.
  destruct (grub_disk_adjust_range st disk sector offset 0)
    as [[[e s] o] st0].
  cbn [fst snd] in *. destruct Hgo as (_ & -> & _ & _). subst e.
  cbn [is_err].
  assert (Hhook : forall st2,
            (if read_hook disk then read_hook_loop fuel s o 0 st2
             else Some st2) = Some st2).
  { intros st2. destruct (read_hook disk); [|reflexivity].
    destruct fuel; reflexivity. }
  unfold read_head.
  destruct ((o =? 0) && (Z.land s (GRUB_DISK_CACHE_SIZE - 1) =? 0)) eqn:Ec.
  - apply andb_true_iff in Ec. destruct Ec as [-> ->]. cbn [negb orb].
    rewrite (read_body_small P_ok) by lia.
    cbn [Z.eqb negb is_err]. rewrite Hhook. reflexivity.
  - replace (negb (o =? 0) || negb (Z.land s (GRUB_DISK_CACHE_SIZE - 1) =? 0))
      with true
      by (destruct (o =? 0), (Z.land s (GRUB_DISK_CACHE_SIZE - 1) =? 0);
          cbn in *; congruence).
    set (pos := usize (Z.shiftl (s - cluster_start s) GRUB_DISK_SECTOR_BITS)).
    set (l0 := usize (u64 (cluster_bytes - pos - o))).
    assert (Hl0 : 0 <= l0).
    { apply wrap_range.
      destruct (platform_ok_inv P_ok) as (_ & _ & _ & [-> | ->]); lia. }
    assert (Hlen : (if 0 <? l0 then 0 else l0) = 0)
      by (destruct (Z.ltb_spec 0 l0); lia).
    rewrite Hlen.
    pose proof (read_small_zero_buf st disk (cluster_start s) (u64 (o + pos))
                  buf 0) as Hb.
    destruct (grub_disk_read_small st disk (cluster_start s) (u64 (o + pos))
                0 buf 0) as [[e1 b1] st1].
    cbn [fst snd] in *. subst b1.
    destruct (is_err e1); [reflexivity|].
    change (usize (0 - 0)) with 0.
    rewrite (read_body_small P_ok) by lia.
    cbn [Z.eqb negb is_err]. rewrite Hhook. reflexivity.
Qed.

(** X20.  A fetch followed by the unlock of the same key leaves the table as
    the unlock alone does: the lock the fetch took is given back.  When
    the slot was not locked before, the table is as it was before the
    fetch, whether the fetch hit or missed. *)
Theorem fetch_then_unlock_restores (tbl : list grub_disk_cache) dv di s :
  table_ok tbl ->
  grub_disk_cache_unlock (snd (grub_disk_cache_fetch tbl dv di s)) dv di s
  = grub_disk_cache_unlock tbl dv di s
  /\ (c_lock (slot tbl (grub_disk_cache_get_index dv di s)) = false ->
      grub_disk_cache_unlock (snd (grub_disk_cache_fetch tbl dv di s)) dv di s
      = tbl).
Proof.
  intros Hok.
  pose proof (index_in_table P_ok tbl dv di s Hok) as Hi.
  unfold grub_disk_cache_unlock, grub_disk_cache_fetch.
  set (i := grub_disk_cache_get_index dv di s) in *.
  destruct (key_match (slot tbl i) dv di s) eqn:Ek; cbn [snd].
  - rewrite slot_set_slot_eq by lia.
    change (key_match (set_lock (slot tbl i) true) dv di s)
      with (key_match (slot tbl i) dv di s).
    rewrite Ek. unfold set_slot. rewrite list_insert_insert_eq.
    split; [reflexivity|].
    intros Hl. change (<[Z.to_nat i:=set_lock (set_lock (slot tbl i) true) false]> tbl)
      with (set_slot tbl i (set_lock (set_lock (slot tbl i) true) false)).
    replace (set_lock (set_lock (slot tbl i) true) false) with (slot tbl i).
    + apply set_slot_same. lia.
    + destruct (slot tbl i) as [a b c d l]. cbn in *. subst l. reflexivity.
  - rewrite Ek. split; reflexivity.
Qed.

End EdgeCases.

(** ** Opening and closing *)

Section OpenClose.
Context {P : Platform} {world : Type}.
Variable grub_partition_probe :
  disk_geom -> string -> world -> list grub_partition.
Implicit Types (st : state world) (disk : grub_disk world).

(** The calls of an open that returns a handle: the drivers before the
    one of the handle declined, the driver of the handle accepted, and
    the prober was asked if the name has a partition part. *)
Lemma open_success_trace st nm disk st' :
  grub_disk_open grub_partition_probe st nm = (Some disk, st') ->
  let raw :=
    match find_part_sep nm with Some len => prefix len nm | None => nm end in
  let probe :=
    match find_part_sep nm with
    | Some len => [EvProbe (suffix (S len) nm)]
    | None => []
    end in
  exists tried rest,
    grub_disk_dev_list st = tried ++ dev disk :: rest
    /\ trace st'
       = trace st ++ declined raw tried
         ++ [EvOpen (dev_id (dev disk)) raw GRUB_ERR_NONE] ++ probe
    /\ grub_errno st' = GRUB_ERR_NONE.
Proof.
  unfold grub_disk_open.
  pose proof (malloc_frame st) as Hm1.
  destruct (grub_malloc st) as [[] st1]; cbn [negb]; [|discriminate].
  cbn zeta in Hm1. cbn [fst snd] in Hm1.
  destruct Hm1 as (_ & _ & _ & Hd1 & _ & Hr1 & _).
  set (raw := match find_part_sep nm with
              | Some len => prefix len nm | None => nm end).
  assert (Hex : forall stx g, open_exit stx raw None g [] = (Some disk, st')
                              -> False).
  { intros stx g. unfold open_exit. destruct (is_err _); discriminate. }
  assert (H2 : exists ok st2,
            (match find_part_sep nm with
             | Some _ => grub_malloc st1 | None => (true, st1) end)
            = (ok, st2)
            /\ grub_disk_dev_list st2 = grub_disk_dev_list st
            /\ trace st2 = trace st).
  { destruct (find_part_sep nm).
    - pose proof (malloc_frame st1) as Hm. cbn zeta in Hm.
      destruct (grub_malloc st1) as [ok st2]. exists ok, st2.
      cbn [snd] in Hm. destruct Hm as (_ & _ & _ & ? & _ & ? & _).
      repeat split; congruence.
    - exists true, st1. repeat split; assumption. }
  destruct H2 as (ok & st2 & -> & Hd2 & Hr2).
  destruct ok; cbn [negb]; [|intros H; exfalso; eapply Hex; exact H].
  pose proof (malloc_frame st2) as Hm3. cbn zeta in Hm3.
  destruct (grub_malloc st2) as [[] st3]; cbn [negb];
    [|intros H; exfalso; eapply Hex; exact H].
  cbn [fst snd] in Hm3. destruct Hm3 as (_ & _ & _ & Hd3 & _ & Hr3 & _).
  destruct (open_walk (grub_disk_dev_list st3) raw _ st3) as [[r g] st4] eqn:Ew.
  apply open_walk_spec in Ew. destruct Ew as (tried & rest & Hsplit & Hr).
  destruct r as [d| |];
    [|destruct (grub_error _ _ _) as [? ?]; intros H; exfalso; eapply Hex; exact H
     |intros H; exfalso; eapply Hex; exact H].
  destruct Hr as (rest' & -> & Hr4 & _).
  destruct (_ || _).
  { destruct (grub_error _ _ _) as [? ?]. intros H; exfalso; eapply Hex; exact H. }
  assert (Hfin : forall stx part evs,
            trace stx = trace st ++ declined raw tried
                        ++ [EvOpen (dev_id d) raw GRUB_ERR_NONE] ++ evs ->
            open_exit
              (set_last_time
                 (if u64 (grub_last_time stx + GRUB_CACHE_TIMEOUT * 1000)
                     <? time_ms stx
                  then set_table stx (grub_disk_cache_invalidate_all
                                        (grub_disk_cache_table stx))
                  else stx) (time_ms stx)) raw (Some d) g part
            = (Some disk, st') ->
            exists tried0 rest0,
              grub_disk_dev_list st = tried0 ++ dev disk :: rest0
              /\ trace st'
                 = trace st ++ declined raw tried0
                   ++ [EvOpen (dev_id (dev disk)) raw GRUB_ERR_NONE] ++ evs
              /\ grub_errno st' = GRUB_ERR_NONE).
  { intros stx part evs Hx.
    destruct (open_timeout_frame stx) as (_ & Htr & _).
    cbn zeta in Htr. unfold open_exit.
    destruct (is_err (grub_errno _)) eqn:Ee; [discriminate|].
    intros H. injection H as <- <-. cbn [dev].
    exists tried, rest'. split; [congruence|].
    split; [rewrite Htr; exact Hx|]. apply is_err_false. exact Ee. }
  destruct (find_part_sep nm) as [len|] eqn:Ep.
  - destruct (grub_partition_probe g _ _) as [|p0 ps].
    + destruct (grub_error _ _ _) as [? stx] eqn:Eg. unfold open_exit.
      unfold grub_error in Eg. injection Eg as <- <-. cbn. discriminate.
    + apply Hfin. cbn [trace log]. rewrite Hr4, Hr3, Hr2.
      rewrite <- !app_assoc. reflexivity.
  - apply Hfin. rewrite Hr4, Hr3, Hr2. rewrite app_nil_r. reflexivity.
Qed.

(** X21.  Open and close pair up at the driver.  An open that returns a handle
    has asked the drivers in list order, everyone before the driver of
    the handle declining, and that driver has accepted once; closing the
    handle calls the close of that same driver once, with the geometry
    the handle carries, sets the timer to the current time and leaves the
    cache and [grub_errno] as the open left them (no error pending). *)
Theorem open_then_close_pairs_driver_calls st nm disk st' :
  grub_disk_open grub_partition_probe st nm = (Some disk, st') ->
  let raw :=
    match find_part_sep nm with Some len => prefix len nm | None => nm end in
  let probe :=
    match find_part_sep nm with
    | Some len => [EvProbe (suffix (S len) nm)]
    | None => []
    end in
  let st'' := grub_disk_close st' disk in
  exists tried rest,
    grub_disk_dev_list st = tried ++ dev disk :: rest
    /\ trace st''
       = trace st ++ declined raw tried
         ++ [EvOpen (dev_id (dev disk)) raw GRUB_ERR_NONE] ++ probe
         ++ [EvClose (dev_id (dev disk))]
    /\ devices st'' = dev_close (dev disk) (geom_of disk) (devices st')
    /\ grub_last_time st'' = time_ms st'
    /\ grub_disk_cache_table st'' = grub_disk_cache_table st'
    /\ grub_errno st'' = GRUB_ERR_NONE.
Proof.
  intros H raw probe st''.
  destruct (open_success_trace st nm disk st' H)
    as (tried & rest & Hl & Ht & He).
  exists tried, rest. split; [exact Hl|].
  subst st''. unfold grub_disk_close, disk_close.
  cbn [trace log set_devices set_last_time devices grub_last_time
       grub_disk_cache_table grub_errno time_ms].
  split; [rewrite Ht; fold raw; fold probe; rewrite <- !app_assoc; reflexivity|].
  repeat split. exact He.
Qed.

End OpenClose.

(** ** Concrete runs of the further properties *)

(** A cluster stored at sector 8 of disk (0, 0) is what a fetch of that
    key returns. *)
Lemma store_then_fetch_hits_witness :
  fst (@grub_disk_cache_fetch grub_small
         (grub_disk_cache_table
            (snd (@grub_disk_cache_store grub_small testdev
                    (@test_state grub_small 64 9 []) 0 0 8
                    (pattern 4096 4096))))
         0 0 8)
  = Some (take (Z.to_nat (@cluster_bytes grub_small)) (pattern 4096 4096)).
Proof.
  refine (proj1 (@store_then_fetch_hits grub_small testdev eq_refl
                   (@test_state grub_small 64 9 []) 0 0 8 (pattern 4096 4096)
                   _ eq_refl _ eq_refl)).
  - lia.
  - vm_compute. congruence.
Defined.

(** With the allocator out of memory the store fails. *)
Lemma store_out_of_memory_evicts_witness :
  fst (@grub_disk_cache_store grub_small testdev
         (@test_state grub_small 64 9 [true]) 0 0 8 (pattern 4096 4096))
  = GRUB_ERR_OUT_OF_MEMORY.
Proof.
  refine (proj1 (@store_out_of_memory_evicts grub_small testdev eq_refl
                   (@test_state grub_small 64 9 [true]) 0 0 8
                   (pattern 4096 4096) eq_refl _)).
  vm_compute. discriminate.
Defined.

(** The locked cluster of [locked_table] survives the flush. *)
Lemma invalidate_all_keeps_locked_only_witness :
  fst (@grub_disk_cache_fetch grub_x86_64
         (@grub_disk_cache_invalidate_all grub_x86_64 locked_table) 0 0 0)
  = if c_lock (slot locked_table
                 (@grub_disk_cache_get_index grub_x86_64 0 0 0))
    then fst (@grub_disk_cache_fetch grub_x86_64 locked_table 0 0 0)
    else None.
Proof.
  exact (proj1 (@invalidate_all_keeps_locked_only grub_x86_64 eq_refl
                  locked_table eq_refl) 0 0 0).
Defined.

(** Sector 0 read twice at program start: the second read is served by
    the cache and leaves the trace alone. *)
Lemma read_small_again_hits_witness :
  let st := @test_state grub_small 1000 9 [] in
  let r1 := @grub_disk_read_small grub_small testdev st (test_disk 1000 9)
              0 0 512 (fresh_buf 512) 0 in
  let r2 := @grub_disk_read_small grub_small testdev (snd r1)
              (test_disk 1000 9) 0 100 50 (fresh_buf 50) 0 in
  fst (fst r2) = GRUB_ERR_NONE /\ trace (snd r2) = trace (snd r1).
Proof.
  intros st r1 r2.
  destruct (@read_small_again_hits grub_small testdev eq_refl st
              (test_disk 1000 9) 0 0 512 (fresh_buf 512) 0 100 50
              (fresh_buf 50) 0 eq_refl ltac:(vm_compute; reflexivity))
    as (cluster & _ & _ & H1 & _ & H2 & _).
  exact (conj H1 H2).
Defined.

(** Opening [my\,disk] at program start gives a handle on the second
    driver. *)
Lemma open_returns_supported_handle_witness :
  In (test_dev 0 "my\,disk") (grub_disk_dev_list (@open_state grub_small))
  /\ grub_errno (snd (@grub_disk_open grub_small testdev test_probe
                        (@open_state grub_small) "my\,disk")) = GRUB_ERR_NONE.
Proof.
  assert (Hrun : @grub_disk_open grub_small testdev test_probe
                   (@open_state grub_small) "my\,disk"
                 = (Some {| name := "my\,disk"; dev := test_dev 0 "my\,disk";
                            total_sectors := 64; log_sector_size := 9;
                            id := 0; partition := []; read_hook := false |},
                    snd (@grub_disk_open grub_small testdev test_probe
                           (@open_state grub_small) "my\,disk")))
    by (vm_compute; reflexivity).
  destruct (open_returns_supported_handle test_probe _ _ _ _ Hrun)
    as (H1 & _ & H2 & _).
  exact (conj H2 H1).
Defined.

(** Opening [my\,disk,1] with a prober that finds nothing extends the
    trace. *)
Lemma open_failure_after_accept_witness :
  exists new,
    trace (snd (@grub_disk_open grub_small testdev no_probe
                  (@open_state grub_small) "my\,disk,1"))
    = trace (@open_state grub_small) ++ new.
Proof.
  destruct (@open_failure_after_accept grub_small testdev no_probe
              (@open_state grub_small) "my\,disk,1" eq_refl)
    as (new & H & _).
  exists new. exact H.
Defined.

(** Unregistering the driver of class 3 at program start leaves the
    drivers of the other classes. *)
Lemma unregister_unlinks_driver_witness :
  grub_disk_dev_list
    (grub_disk_dev_unregister dev_id (@open_state grub_small)
       (test_dev 3 "zz"))
  = List.filter (fun q => negb (dev_id q =? 3))
      (grub_disk_dev_list (@open_state grub_small)).
Proof.
  refine (proj1 (unregister_unlinks_driver dev_id (@open_state grub_small)
                   (test_dev 3 "zz") _)).
  cbn. constructor.
  - intros [H|[]]. discriminate H.
  - constructor; [intros []|constructor].
Defined.

(** A driver registered at program start opens [hd0]. *)
Lemma registered_last_is_asked_first_witness :
  trace (snd (@grub_disk_open grub_small testdev test_probe
                (grub_disk_dev_register (@test_state grub_small 64 9 [])
                   (test_dev 0 "hd0")) "hd0"))
  = trace (@test_state grub_small 64 9 [])
    ++ [EvOpen 0 "hd0" GRUB_ERR_NONE].
Proof.
  refine (proj1 (proj2 (@registered_last_is_asked_first grub_small testdev
                          test_probe (@test_state grub_small 64 9 [])
                          (test_dev 0 "hd0") "hd0"
                          {| g_id := 0; g_total_sectors := 64;
                             g_log_sector_size := 9 |}
                          (test_world 64 9 [] [])
                          _ eq_refl eq_refl eq_refl _))).
  - constructor.
  - vm_compute. split; discriminate.
Defined.

(** Two sectors from sector 10 of the partition of 50 sectors pass the
    range check, so they start below and end within the size
    [grub_disk_get_size] reports. *)
Lemma get_size_bounds_accepted_requests_witness :
  10 + 0 / 512 < grub_disk_get_size part_disk
  /\ 512 * 10 + 0 + 1024 <= 512 * grub_disk_get_size part_disk.
Proof.
  assert (Hok : partitions_ok (partition part_disk)).
  { repeat constructor; cbn; lia. }
  refine (proj1 (get_size_bounds_accepted_requests
                   (@test_state grub_small 1000 9 []) part_disk
                   10 0 1024 Hok _ _ _ _ _ _) eq_refl).
  - left. discriminate.
  - lia.
  - lia.
  - lia.
  - reflexivity.
  - reflexivity.
Defined.

(** Ten iterations are enough for a read of 1024 bytes. *)
Lemma grub_disk_read_returns_witness :
  exists err buf' st',
    @grub_disk_read grub_small testdev 10 (@test_state grub_small 1000 9 [])
      (test_disk 1000 9) 0 0 1024 (fresh_buf 1024) = Some (err, buf', st').
Proof.
  assert (Hsize : 0 <= 1024 < 2 ^ (@SIZE_BITS grub_small)) by (cbn; lia).
  assert (Hfuel : (Z.to_nat (1024 / 512) + 2 <= 10)%nat)
    by (vm_compute; lia).
  exact (@grub_disk_read_returns grub_small testdev eq_refl 10
           (@test_state grub_small 1000 9 []) (test_disk 1000 9) 0 0 1024
           (fresh_buf 1024) Hsize Hfuel).
Defined.

(** Ten iterations are enough for a write of 1024 bytes to a disk of
    512-byte sectors. *)
Lemma grub_disk_write_returns_witness :
  exists err st',
    @grub_disk_write grub_small testdev 10 (@test_state grub_small 1000 9 [])
      (test_disk 1000 9) 0 100 1024 (pattern 7 1024) = Some (err, st').
Proof.
  assert (HL : 9 <= log_sector_size (test_disk 1000 9)
               <= 9 + @GRUB_DISK_CACHE_BITS grub_small) by (cbn; lia).
  assert (Hsize : 0 <= 1024 < 2 ^ (@SIZE_BITS grub_small)) by (cbn; lia).
  assert (Hfuel : (Z.to_nat (2 ^ (log_sector_size (test_disk 1000 9) - 9)) + 4
                   <= 10)%nat)
    by (vm_compute; lia).
  exact (@grub_disk_write_returns grub_small testdev eq_refl 10
           (@test_state grub_small 1000 9 []) (test_disk 1000 9) 0 100 1024
           (pattern 7 1024) HL Hsize Hfuel).
Defined.

(** The driver of the pattern disk reads what the disk holds. *)
Lemma test_dev_reads_pattern sectors L :
  driver_reads_content pattern_content (test_disk sectors L).
Proof.
  intros s n w. cbn [test_disk dev test_dev dev_read]. unfold test_read.
  destruct (td_read_fail w) as [|[] ?]; cbn [fst snd];
    (split; [reflexivity|]); try discriminate; intros _; reflexivity.
Qed.

(** At program start the cache holds nothing, so it is coherent. *)
Lemma empty_table_coherent {P : Platform} {world : Type}
    (content : world -> Z -> byte) (st : state world) disk :
  platform_ok P = true ->
  grub_disk_cache_table st = empty_table ->
  cache_coherent content st disk.
Proof.
  intros P_ok Ht s data _ H. rewrite Ht, fetch_data in H.
  pose proof (get_index_range P_ok (dev_id (dev disk)) (id disk) s) as Hr.
  assert (Hz : c_data (slot empty_table
                         (grub_disk_cache_get_index (dev_id (dev disk))
                            (id disk) s)) = None).
  { unfold slot, empty_table.
    destruct (replicate _ _ !! _) as [c|] eqn:E; [|reflexivity].
    apply lookup_replicate in E. destruct E as [-> _]. reflexivity. }
  rewrite Hz in H. destruct (key_match _ _ _ _); discriminate.
Qed.

(** The read of [content_run] delivers the bytes 1636 to 10635 of the
    pattern disk. *)
Lemma read_delivers_device_content_witness :
  content_run_buf
  = bytes_at byte_of_Z (512 * 3 + 100) 9000
    ++ drop (Z.to_nat 9000) (fresh_buf 9000).
Proof.
  assert (Hrun : @grub_disk_read grub_small testdev 10
                   (@test_state grub_small 1000 9 []) (test_disk 1000 9)
                   3 100 9000 (fresh_buf 9000)
                 = Some (GRUB_ERR_NONE, content_run_buf, content_run_state))
    by (vm_compute; reflexivity).
  assert (HL : 9 <= log_sector_size (test_disk 1000 9)
               <= 9 + @GRUB_DISK_CACHE_BITS grub_small) by (cbn; lia).
  assert (Hsize : 0 <= 9000 < 2 ^ (@SIZE_BITS grub_small)) by (cbn; lia).
  assert (Hlen : 9000 <= Z.of_nat (length (fresh_buf 9000)))
    by (rewrite length_fresh_buf; lia).
  assert (Hnw : 512 * absolute_sector (partition (test_disk 1000 9))
                        (u64 (3 + Z.shiftr 100 9)) + 100 mod 512
                + 9000 + @cluster_bytes grub_small <= 512 * 2 ^ 64)
    by (vm_compute; congruence).
  pose proof (@read_delivers_device_content grub_small testdev eq_refl
                pattern_content 10 (@test_state grub_small 1000 9 [])
                (test_disk 1000 9) 3 100 9000 (fresh_buf 9000)
                GRUB_ERR_NONE content_run_buf content_run_state
                eq_refl (test_dev_reads_pattern 1000 9)
                (@empty_table_coherent grub_small testdev pattern_content
                   (@test_state grub_small 1000 9 []) (test_disk 1000 9)
                   eq_refl eq_refl)
                HL Hsize Hlen Hnw Hrun) as H.
  exact (proj2 (proj2 (proj2 H)) eq_refl).
Defined.
(** The driver of the disk in memory reads and writes what the disk
    holds. *)
Lemma ram_dev_reads sectors L :
  driver_reads_content ram_content (ram_disk sectors L).
Proof. intros s n w. split; reflexivity. Qed.

Lemma ram_dev_writes sectors L :
  driver_writes_content ram_content (ram_disk sectors L).
Proof.
  intros s n data w _ Hlen p. cbn. unfold ram_content.
  rewrite take_ge by (cbn in Hlen; lia). reflexivity.
Qed.

(** The write of [ram_write_run] puts the first byte of its buffer at
    byte 1124 of the disk in memory. *)
Lemma write_reaches_device_witness :
  devices ram_write_state 1124
  = overlay byte_of_Z (512 * 2 + 100)
      (take (Z.to_nat 1024) (pattern 7 1024)) 1124.
Proof.
  assert (He : match @grub_disk_write grub_small (Z -> byte) 10
                       (@ram_state grub_small) (ram_disk 1000 9) 2 100 1024
                       (pattern 7 1024) with
               | Some (e, _) => e
               | None => GRUB_ERR_READ_ERROR
               end = GRUB_ERR_NONE) by (vm_compute; reflexivity).
  assert (Hrun : @grub_disk_write grub_small (Z -> byte) 10
                   (@ram_state grub_small) (ram_disk 1000 9) 2 100 1024
                   (pattern 7 1024)
                 = Some (GRUB_ERR_NONE, ram_write_state)).
  { unfold ram_write_state, ram_write_run.
    destruct (@grub_disk_write grub_small (Z -> byte) 10
                (@ram_state grub_small) (ram_disk 1000 9) 2 100 1024
                (pattern 7 1024)) as [[e s]|]; [|discriminate He].
    rewrite He. reflexivity. }
  assert (HL : 9 <= log_sector_size (ram_disk 1000 9)
               <= 9 + @GRUB_DISK_CACHE_BITS grub_small) by (cbn; lia).
  assert (Hsize : 0 <= 1024 < 2 ^ (@SIZE_BITS grub_small)) by (cbn; lia).
  assert (Hlen : 1024 <= Z.of_nat (length (pattern 7 1024)))
    by (vm_compute; congruence).
  assert (Hnw : 512 * absolute_sector (partition (ram_disk 1000 9))
                        (u64 (2 + Z.shiftr 100 9)) + 100 mod 512
                + 1024 + 2 * @cluster_bytes grub_small <= 512 * 2 ^ 64)
    by (vm_compute; congruence).
  pose proof (@write_reaches_device grub_small (Z -> byte) eq_refl
                ram_content 10 (@ram_state grub_small) (ram_disk 1000 9)
                2 100 1024 (pattern 7 1024) ram_write_state
                eq_refl (ram_dev_reads 1000 9) (ram_dev_writes 1000 9)
                (@empty_table_coherent grub_small (Z -> byte) ram_content
                   (@ram_state grub_small) (ram_disk 1000 9)
                   eq_refl eq_refl)
                HL Hsize Hlen Hnw Hrun) as H.
  exact (proj2 (proj2 H) 1124).
Defined.

(** The read of [ram_read_back] returns the bytes [ram_write_run]
    wrote. *)
Lemma read_after_write_returns_written_witness :
  ram_read_back_buf
  = take (Z.to_nat 1024) (pattern 7 1024)
    ++ drop (Z.to_nat 1024) (fresh_buf 1024).
Proof.
  assert (He : match @grub_disk_write grub_small (Z -> byte) 10
                       (@ram_state grub_small) (ram_disk 1000 9) 2 100 1024
                       (pattern 7 1024) with
               | Some (e, _) => e
               | None => GRUB_ERR_READ_ERROR
               end = GRUB_ERR_NONE) by (vm_compute; reflexivity).
  assert (Hw : @grub_disk_write grub_small (Z -> byte) 10
                 (@ram_state grub_small) (ram_disk 1000 9) 2 100 1024
                 (pattern 7 1024)
               = Some (GRUB_ERR_NONE, ram_write_state)).
  { unfold ram_write_state, ram_write_run.
    destruct (@grub_disk_write grub_small (Z -> byte) 10
                (@ram_state grub_small) (ram_disk 1000 9) 2 100 1024
                (pattern 7 1024)) as [[e s]|]; [|discriminate He].
    rewrite He. reflexivity. }
  assert (He' : match @grub_disk_read grub_small (Z -> byte) 10
                        ram_write_state (ram_disk 1000 9) 2 100 1024
                        (fresh_buf 1024) with
                | Some (e, _, _) => e
                | None => GRUB_ERR_READ_ERROR
                end = GRUB_ERR_NONE) by (vm_compute; reflexivity).
  assert (Hr : @grub_disk_read grub_small (Z -> byte) 10 ram_write_state
                 (ram_disk 1000 9) 2 100 1024 (fresh_buf 1024)
               = Some (GRUB_ERR_NONE, ram_read_back_buf,
                       ram_read_back_state)).
  { unfold ram_read_back_buf, ram_read_back_state, ram_read_back.
    destruct (@grub_disk_read grub_small (Z -> byte) 10 ram_write_state
                (ram_disk 1000 9) 2 100 1024 (fresh_buf 1024))
      as [[[e b] s]|]; [|discriminate He'].
    rewrite He'. reflexivity. }
  assert (HL : 9 <= log_sector_size (ram_disk 1000 9)
               <= 9 + @GRUB_DISK_CACHE_BITS grub_small) by (cbn; lia).
  assert (Hsize : 0 <= 1024 < 2 ^ (@SIZE_BITS grub_small)) by (cbn; lia).
  assert (Hlen : 1024 <= Z.of_nat (length (pattern 7 1024)))
    by (vm_compute; congruence).
  assert (Hrlen : 1024 <= Z.of_nat (length (fresh_buf 1024)))
    by (rewrite length_fresh_buf; lia).
  assert (Hnw : 512 * absolute_sector (partition (ram_disk 1000 9))
                        (u64 (2 + Z.shiftr 100 9)) + 100 mod 512
                + 1024 + 2 * @cluster_bytes grub_small <= 512 * 2 ^ 64)
    by (vm_compute; congruence).
  exact (@read_after_write_returns_written grub_small (Z -> byte) eq_refl
           ram_content 10 10 (@ram_state grub_small) (ram_disk 1000 9)
           2 100 1024 (pattern 7 1024) (fresh_buf 1024) ram_write_state
           ram_read_back_buf ram_read_back_state
           eq_refl (ram_dev_reads 1000 9) (ram_dev_writes 1000 9)
           (@empty_table_coherent grub_small (Z -> byte) ram_content
              (@ram_state grub_small) (ram_disk 1000 9) eq_refl eq_refl)
           HL Hsize Hlen Hrlen Hnw Hw Hr).
Defined.
(** The read of [content_run] returns what it leaves in [grub_errno]. *)
Lemma read_returns_errno_witness :
  GRUB_ERR_NONE = grub_errno content_run_state.
Proof.
  assert (Hrun : @grub_disk_read grub_small testdev 10
                   (@test_state grub_small 1000 9 []) (test_disk 1000 9)
                   3 100 9000 (fresh_buf 9000)
                 = Some (GRUB_ERR_NONE, content_run_buf, content_run_state))
    by (vm_compute; reflexivity).
  exact (@read_returns_errno grub_small testdev 10
           (@test_state grub_small 1000 9 []) (test_disk 1000 9)
           3 100 9000 (fresh_buf 9000) GRUB_ERR_NONE content_run_buf
           content_run_state Hrun).
Defined.

(** The read of [hook_run] logs driver reads and hook calls only. *)
Lemma read_calls_reads_and_hooks_only_witness :
  exists evs,
    trace hook_run_state = trace (@test_state grub_small 1000 9 []) ++ evs
    /\ Forall is_read_or_hook evs
    /\ (read_hook part_disk = false -> Forall is_read_event evs).
Proof.
  assert (Hrun : @grub_disk_read grub_small testdev 10
                   (@test_state grub_small 1000 9 []) part_disk 48 0 1024
                   (fresh_buf 1024)
                 = Some (GRUB_ERR_NONE, hook_run_buf, hook_run_state))
    by (vm_compute; reflexivity).
  exact (@read_calls_reads_and_hooks_only grub_small testdev 10
           (@test_state grub_small 1000 9 []) part_disk 48 0 1024
           (fresh_buf 1024) GRUB_ERR_NONE hook_run_buf hook_run_state Hrun).
Defined.

(** Two sectors from sector 49 of the partition of 50 sectors: the write
    returns -1. *)
Lemma out_of_range_rejected_early_witness :
  @grub_disk_write grub_small testdev 10 (@test_state grub_small 1000 9 [])
    part_disk 49 0 1024 (pattern 7 1024)
  = Some (GRUB_ERR_CODE (-1),
          snd (grub_disk_adjust_range (@test_state grub_small 1000 9 [])
                 part_disk 49 0 1024)).
Proof.
  refine (proj1 (proj2 (@out_of_range_rejected_early grub_small testdev 10
                          (@test_state grub_small 1000 9 []) part_disk
                          49 0 1024 (fresh_buf 1024) (pattern 7 1024) _))).
  vm_compute. discriminate.
Defined.
(** A read of no bytes at sector 3 of the pattern disk, at program
    start: the cluster of sector 0 is read from the device. *)
Lemma zero_size_read_witness :
  @grub_disk_read grub_small testdev 10 (@test_state grub_small 1000 9 [])
    (test_disk 1000 9) 3 0 0 []
  = Some (GRUB_ERR_NONE, [],
          snd (@grub_disk_read_small grub_small testdev
                 (@test_state grub_small 1000 9 []) (test_disk 1000 9)
                 0 1536 0 [] 0))
  /\ trace (snd (@grub_disk_read_small grub_small testdev
                   (@test_state grub_small 1000 9 []) (test_disk 1000 9)
                   0 1536 0 [] 0))
     = [EvRead 0 8 GRUB_ERR_NONE].
Proof.
  pose proof (@zero_size_read grub_small testdev eq_refl 10
                (@test_state grub_small 1000 9 []) (test_disk 1000 9)
                3 0 [] eq_refl) as H.
  split; [|vm_compute; reflexivity].
  vm_compute in H. vm_compute. exact H.
Defined.

(** At program start a fetch of the key (0, 0, 0) and its unlock leave
    the table as it was. *)
Lemma fetch_then_unlock_restores_witness :
  @grub_disk_cache_unlock grub_small
    (snd (@grub_disk_cache_fetch grub_small (@empty_table grub_small) 0 0 0))
    0 0 0
  = @empty_table grub_small.
Proof.
  exact (proj2 (@fetch_then_unlock_restores grub_small eq_refl
                  (@empty_table grub_small) 0 0 0 eq_refl) eq_refl).
Defined.
(** Opening [my\,disk] at program start and closing the handle: the
    driver of class 0 accepts and is closed. *)
Lemma open_then_close_pairs_driver_calls_witness :
  exists tried rest,
    grub_disk_dev_list (@open_state grub_small)
    = tried ++ test_dev 0 "my\,disk" :: rest
    /\ trace (grub_disk_close
                (snd (@grub_disk_open grub_small testdev test_probe
                        (@open_state grub_small) "my\,disk"))
                {| name := "my\,disk"; dev := test_dev 0 "my\,disk";
                   total_sectors := 64; log_sector_size := 9;
                   id := 0; partition := []; read_hook := false |})
       = trace (@open_state grub_small) ++ declined "my\,disk" tried
         ++ [EvOpen 0 "my\,disk" GRUB_ERR_NONE] ++ []
         ++ [EvClose 0].
Proof.
  assert (Hrun : @grub_disk_open grub_small testdev test_probe
                   (@open_state grub_small) "my\,disk"
                 = (Some {| name := "my\,disk"; dev := test_dev 0 "my\,disk";
                            total_sectors := 64; log_sector_size := 9;
                            id := 0; partition := []; read_hook := false |},
                    snd (@grub_disk_open grub_small testdev test_probe
                           (@open_state grub_small) "my\,disk")))
    by (vm_compute; reflexivity).
  destruct (open_then_close_pairs_driver_calls test_probe _ _ _ _ Hrun)
    as (tried & rest & H1 & H2 & _).
  exists tried, rest. exact (conj H1 H2).
Defined.
